(* ===== verification/_CoqProject ===== *)
-Q . S2P
Prelude.v
GoString.v
GoFlag.v
GoProc.v
GoSlice.v
Wild.v
Config.v
Proto.v
Store.v
Stats.v
Redis.v
Discovery.v
Subs.v
Broker.v
Session.v
SessionFacts.v
Delivery.v
Lifecycle.v
Loops.v
Presence.v
Peers.v
Client.v
Fchat.v
ChatStart.v
EndToEnd.v
Replication.v
Invariant.v
Sched.v
Frame.v
Executions.v
Ordering.v
Protocol.v
Isolation.v
Warrant.v
History.v
Races.v
Progress.v
Causes.v
Deadlock.v
Daemon.v
Recycler.v
Loadtest.v
Feeder.v
