(* ===== verification/Prelude.v ===== *)
(** * mhub: an MQTT broker

    A model of the broker of src/ and theorems about it.

    ** The program

    A broker accepts client connections ([Server], server.go).  Each connection
    has an inbound goroutine, which decodes messages and runs the protocol
    handlers (session.go, proto.go), an outbound goroutine, which encodes the jobs
    queued for the client, and a heartbeat.  Publications are posted to the
    subscription table (subs.go, wild.go), whose workers hand them to the
    subscribers, and replicated to the other brokers (peers.go, endpoint.go).
    QoS 1 messages are kept in a store per client id (store.go, memstore.go).
    Counters (stats.go), presence in redis (presence.go, redistore.go) and the
    configuration (src/config) surround this; api.go is the client side of the
    protocol, and the chat of src/cmd/fchat a program on it.  Brokers are to find each
    other through etcd (src/cluster).  The daemon (src/daemon/mhub) reads its flags and
    file and starts the broker; src/cmd/test has load tests, and src/_bench three
    programs that try out buffer pools.

    ** The files

    - [Prelude]: notations, machine integers, tactics, hints and shared lemmas.
    - [GoString]: the functions of strings, strconv and fmt that the sources call.
    - [GoFlag]: the package flag.
    - [GoProc]: goroutine bodies as trees of atomic actions, their run alone
      ([exec]), a rely-guarantee judgement ([ok]), and buffered channels.
    - [GoSlice]: slices over shared arrays with Go's [append].
    - [Wild]: wild.go.  [valid], [matches], and the meaning [filter_denotes].
    - [Config]: src/config.  [LoadConfig] and the [loadConfig] methods.
    - [Proto]: the messages of the mqttmsg package, and [Extern], the external code.
    - [Store]: store.go and memstore.go.  The class [Store] with its laws is the
      interface; [Memory] is the instance; keys and persistence rules are proved
      against the interface.
    - [Stats]: stats.go.  Counters, the reporting tick, the REST answers.
    - [Redis]: redistore.go.  The pool and msgpack are the class [RedisLib], what they
      promise is [RedisLaws].
    - [Discovery]: src/cluster/discovery.go.  The etcd client is the class [EtcdLib],
      what it promises is [EtcdLaws]; [cluster_step] interleaves the machines.
    - [Subs]: subs.go.  One definition per critical section, and the abstract
      [table] that they refine.
    - [Broker]: the shared state [Server] of all goroutines, its memory included,
      and the atomic actions on it.
    - [Session]: the methods of [incomingConn] (session.go, proto.go), the workers
      of subs.go, [NewServer] and the body of the accept loop (server.go).
    - [SessionFacts], [Delivery], [Lifecycle]: what the handlers do when they run
      alone, on each branch.
    - [Loops]: [inboundLoop] and [outboundLoop] as a whole.
    - [Presence]: the presence commands of the broker carried out on the store of
      [Redis].
    - [Peers]: endpoint.go and peers.go.
    - [Client]: api.go.
    - [Fchat], [ChatStart]: src/cmd/fchat, over [Client]: its loops; its start and its
      translations.
    - [EndToEnd]: the client library against the broker, message by message.
    - [Replication]: the endpoint of one broker against the replay of another.
    - [Invariant]: the invariant [srv_wf] of the shared state, kept by each action
      of each body whatever the other goroutines do.
    - [Sched]: the transition system of all the goroutines, with [reachable_ok],
      and a scheduler that computes executions.
    - [Frame]: a light judgement [keeping] and the record [framed]: a condition on the
      state that the atomic actions keep holds in every execution, and goroutines that
      are blocked as long as it holds stay where they are.
    - [Executions]: theorems about every execution, and executions of polite clients.
    - [Ordering]: the order in which one worker delivers.
    - [Protocol], [Deadlock]: two conditions of [Frame] for every execution, and one
      that a deadlock keeps for ever.
    - [Isolation]: whom the arrays of the table serve, also while workers read them.
    - [Warrant]: what may be queued, stored and written, given what came in, kept by
      every body; the judgement [ok] with a rely of its own.
    - [History]: executions with the log of the messages received in them.
    - [Races]: three executions, with their log, in which the interleaving shows.
    - [Progress]: the judgement [disciplined] on who holds the mutex of the table.
    - [Causes]: the judgement [tame], what actions leave as it was and where they panic.
    - [Daemon]: src/daemon/mhub, [Server.Start], [peers.start] and the statistics, as
      bodies on the state of the process; [life_step] interleaves [main] with the
      goroutine of the statistics.
    - [Recycler]: src/_bench/gc, each program with the moves of its goroutines.
    - [Loadtest]: src/cmd/test/loadtest.go and many.go.
    - [Feeder]: src/cmd/feeder, the client library of which is the class [Paho].

    ** State and operations

    A struct is a [Record] with the fields the code uses; a pointer is an index
    in a list of the state ([srv_conns] for connections, [srv_heap] for
    publications, [store_heap] for stores), so aliasing is kept: a worker that
    clears the retain flag of a publication changes what every holder of the
    pointer sees.  A slice is an array number and a length, and shares its array.
    An integer is a [Z] with its wrap-around where the code can reach it.  A
    method is a [proc Server A]: one atomic action per channel operation, atomic
    counter update, critical section, or access to a shared field, in the order of
    the source.  A loop is given by the body of its turn and by its deferred
    function; the transition system composes them.  An error is a value, a panic
    is [Panicked].

    ** External code

    [GoRuntime] is the growth of [append] and the order of a [range] over a map,
    with what the language promises of them.  [Mqttmsg] is the payload type and
    its size; [Extern] has the byte count of a message and the rate limiter; both
    are unconstrained.  The clients, the network and the scheduler are a [policy]
    and the choices of [step].  Witnesses use [doubling_runtime], [bytes_mqttmsg]
    and [plain_extern].

    ** What the theorems show

    - Every execution ([Executions]): the shared state stays consistent, and clients that
      CONNECT first exclude the nil dereference.  [Causes]: clients that are accepted
      under ids of their own, without keep-alive, and stay keep the broker up; only a
      session that exceeds its limits a second time can take it down.
    - Executions that go wrong, computed with polite clients: a disconnection that takes
      the broker down and a take-over that loses a registration ([Races]), deletions of
      retained messages that end all workers ([Executions]), and a state from which,
      whatever happens, the table stays locked and nothing is delivered ([Deadlock]).
    - Every execution ([Protocol]): only messages of a server are queued and written.
    - History ([History]): in every execution, each message on the wire of a client
      answers a request that it sent before, or is a publication that somebody sent and
      that it asked for or resumed, or a DISCONNECT that its keep-alive or a second
      CONNECT with its client id explains; without resumed sessions a client is sent only
      publications of topics that its own SUBSCRIBE messages ask for.  A computed
      execution shows what a resumed session adds: a client is sent its own publication.
    - Progress ([Progress]): under the discard strategy the mutex of the table is always
      released, within six actions of its holder.
    - Order ([Ordering]): one worker keeps the order of the posts up to the room in each
      queue; a computed execution shows two workers that do not ([Races]).
    - Whole loops and both ends ([Loops], [EndToEnd]): the outbound loop ends once its
      queue is closed, a short session leaves exactly the counters, the dead connection
      and its empty store behind, [Connect] and a QoS 1 [Publish]
      of the client library do what they promise against the broker.
    - One handler at a time: CONNECT (fresh, resumed), PUBLISH, SUBSCRIBE,
      UNSUBSCRIBE, a turn of the outbound loop, the end of a session, the
      heartbeat, which kicks an idle client in time, a worker's fan-out, and the inputs on
      which they panic; a refused CONNECT that takes effect all the same, down to redis
      ([Presence]).  PUBLISH, SUBSCRIBE and the outbound turn are given with the whole
      state they end in.
    - Components: the matching loop decides the meaning of filters, the table
      refines its specification under every history, stores keep their laws and
      their keys round-trip, configurations are validated.
    - Peers: a publication handed to an endpoint reaches the subscribers of the other
      broker and goes no further, and its retain flag depends on a race; an endpoint
      cannot restart; a joined endpoint blocks publishers.
    - Client: publication by QoS, the timing of keep-alive pings, calls on a closed
      client; chat lines are read as they were typed, a chat starts by CONNECT and
      SUBSCRIBE, and the translation service is asked for exactly the text.
    - Programs: what every start of the daemon ends in, however the statistics interleave
      with it, and that the goroutines it starts are those from which the executions begin; flags are read as they are written; the
      feeder publishes in order, each message after the receipt of the one before; the
      load test never reports a failure; the recycler keeps every buffer in one place
      and never stops.
    - Cluster: in every interleaving, with failures of etcd, one leader at most, and the
      others find a machine; heartbeats keep a machine registered.  Redis: values are
      read back, and every call keeps a connection.

    ** Bounds and fuel

    Bodies are finite trees, so [exec] needs no fuel.  [ep_loop] takes fuel, one
    unit per job; it returns whenever the fuel is above the length of the closed
    queue it drains ([exec_ep_loop_closed]); so does [outbound_turns], one unit per
    turn, and [outbound_loop_terminates] shows that one more than the length of the
    closed queue is enough.  [run] of [Ordering] takes one unit per post, and as many
    units as posts are shown to serve them all.  [inbound_turns], [replay], [heartbeat],
    [startHeartbeat], [ep_start] and [cliLoop] recur on what the environment gives them:
    the messages decoded, the ticks, the turns, the sessions, the lines; [do_moves] of
    [Recycler] and [Loadtest] on the moves.  The executions of [Run] give each
    goroutine up to 60 actions in a row; moves that cannot be made change nothing,
    and the states they end in are computed and compared in the theorems.

    ** Modelling decisions

    Queues have a positive capacity: a queue of length zero never has room here,
    where Go would pass a value from sender to receiver directly (the unbuffered
    channels of [Client] are modelled as offers).  Reads and writes of shared
    fields are sequentially consistent.  Log lines and what only they print are
    left out.  The deadline of the heartbeat is computed exactly, where the source
    multiplies by a floating-point 1.5.  The two additions of [clientConnect] are
    one action.  The transition system [step] does not include the reporting goroutine
    that [NewServer] starts, the sessions of endpoints or the client library: the first
    reads counters, and its panics, which end the process, are in [Daemon]; each of the
    others has theorems of its own.  The chat prints without colours and time stamps.

    ** Not modelled, and what is next

    The sockets, TLS, the HTTP servers, etcd, redis, golib's reading of the
    configuration file, the client library of the feeder and the translation service are
    external; pub.go, sub.go, subs.go and pingtest.go of src/cmd/test
    send, print or time messages by hand; what the connections of loadtest.go do is left
    open.  The methods of flight.go are empty and never called, doc.go, mlookupd and
    plugins have no code.  What is left of the modelled files are imports, log lines,
    the settings of external libraries, and methods without a body ([leave],
    [discover]).  Left for later: endpoint sessions and the client library
    inside the transition system, and with them the order and the delivery of
    publications over any number of clients. *)

From Stdlib Require Import ZArith Lia.
From stdpp Require Import base gmap list strings numbers sets.

(** ** Notations *)

Declare Scope mhub_scope.
Delimit Scope mhub_scope with mhub.
Open Scope mhub_scope.

(** Go string equality, [s == t] in the sources. *)
Notation "s =s t" := (String.eqb s%string t%string)
  (at level 70, no associativity) : mhub_scope.

(** ** Machine integers *)

(** Two's complement reduction to 64 bits: the [int64] counters of the broker
    and the [int] of the 64-bit platforms it runs on. *)
Definition wrap64 (z : Z) : Z := ((z + 2 ^ 63) mod 2 ^ 64 - 2 ^ 63)%Z.

(** Conversion [uint16(n)]. *)
Definition to_uint16 (z : Z) : Z := (z mod 2 ^ 16)%Z.

Definition in_int64 (z : Z) : Prop := (- 2 ^ 63 <= z < 2 ^ 63)%Z.

Lemma wrap64_range z : in_int64 (wrap64 z).
Proof.
  unfold in_int64, wrap64.
  pose proof (Z.mod_pos_bound (z + 2 ^ 63) (2 ^ 64) ltac:(lia)). lia.
Qed.

Lemma wrap64_id z : in_int64 z -> wrap64 z = z.
Proof.
  unfold in_int64, wrap64. intros H.
  rewrite Z.mod_small by lia. lia.
Qed.

(** Reducing an operand first does not change a reduced sum: a counter that is
    updated by atomic additions holds the reduction of the exact sum. *)
Lemma wrap64_add_l a b : wrap64 (wrap64 a + b) = wrap64 (a + b).
Proof.
  unfold wrap64. f_equal.
  replace ((a + 2 ^ 63) mod 2 ^ 64 - 2 ^ 63 + b + 2 ^ 63)%Z
    with ((a + 2 ^ 63) mod 2 ^ 64 + b)%Z by lia.
  rewrite Z.add_mod_idemp_l by lia. f_equal. lia.
Qed.

Lemma wrap64_idemp a : wrap64 (wrap64 a) = wrap64 a.
Proof. apply wrap64_id, wrap64_range. Qed.

Lemma wrap64_add_r a b : wrap64 (a + wrap64 b) = wrap64 (a + b).
Proof. by rewrite Z.add_comm, wrap64_add_l, Z.add_comm. Qed.

Lemma to_uint16_range z : (0 <= to_uint16 z < 65536)%Z.
Proof. unfold to_uint16. apply Z.mod_pos_bound. lia. Qed.

Lemma to_uint16_id z : (0 <= z < 65536)%Z -> to_uint16 z = z.
Proof. intros. unfold to_uint16. by apply Z.mod_small. Qed.

(** ** Tactics *)

(** Case analysis on the innermost scrutinee of the goal or of a hypothesis. *)
Ltac case_goal :=
  match goal with
  | |- context [match ?x with _ => _ end] =>
      lazymatch x with context [match _ with _ => _ end] => fail | _ => idtac end;
      let E := fresh "E" in destruct x eqn:E
  end.

Ltac case_hyp H :=
  match type of H with
  | context [match ?x with _ => _ end] =>
      lazymatch x with context [match _ with _ => _ end] => fail | _ => idtac end;
      let E := fresh "E" in destruct x eqn:E
  end.

(** Turns the boolean tests of the model into propositions. *)
Ltac breflect :=
  repeat match goal with
  | H : (_ && _)%bool = true |- _ => apply andb_true_iff in H; destruct H
  | H : (_ || _)%bool = false |- _ => apply orb_false_iff in H; destruct H
  | H : negb _ = true |- _ => apply negb_true_iff in H
  | H : negb _ = false |- _ => apply negb_false_iff in H
  | H : String.eqb _ _ = true |- _ => apply String.eqb_eq in H
  | H : String.eqb _ _ = false |- _ => apply String.eqb_neq in H
  | H : Nat.eqb _ _ = true |- _ => apply Nat.eqb_eq in H
  | H : Nat.eqb _ _ = false |- _ => apply Nat.eqb_neq in H
  | H : Nat.ltb _ _ = true |- _ => apply Nat.ltb_lt in H
  | H : Nat.ltb _ _ = false |- _ => apply Nat.ltb_ge in H
  | H : Nat.leb _ _ = true |- _ => apply Nat.leb_le in H
  | H : Nat.leb _ _ = false |- _ => apply Nat.leb_gt in H
  | H : Z.ltb _ _ = true |- _ => apply Z.ltb_lt in H
  | H : Z.ltb _ _ = false |- _ => apply Z.ltb_ge in H
  | H : Z.eqb _ _ = true |- _ => apply Z.eqb_eq in H
  | H : Z.eqb _ _ = false |- _ => apply Z.eqb_neq in H
  end.

(** ** Hints *)

Create HintDb mhub.
Create Rewrite HintDb mhub.
#[export] Hint Resolve wrap64_range to_uint16_range : mhub.
#[export] Hint Rewrite wrap64_add_l wrap64_add_r wrap64_idemp : mhub.

(** ** Lists *)

Section Lists.
Context {A : Type}.
Implicit Types l : list A.

Lemma last_snoc_lookup l (x : A) : (l ++ [x]) !! length l = Some x.
Proof. by apply list_lookup_middle. Qed.

Lemma lookup_snoc_lt l (x : A) i :
  (i < length l)%nat -> (l ++ [x]) !! i = l !! i.
Proof. apply lookup_app_l. Qed.

(** A list lookup at the last index, the way an index loop sees it. *)
Lemma skipn_cons_lookup l i (x : A) rest :
  drop i l = x :: rest -> l !! i = Some x /\ drop (S i) l = rest.
Proof.
  intros H. split.
  - rewrite <- (Nat.add_0_r i). rewrite <- lookup_drop, H. done.
  - replace (S i) with (i + 1)%nat by lia. rewrite <- drop_drop, H. done.
Qed.

Lemma Forall_filter_sub (P Q : A -> Prop) `{!forall x, Decision (Q x)} l :
  Forall P l -> Forall P (filter Q l).
Proof.
  rewrite !Forall_forall. intros Hl x Hx. apply Hl. by apply list_elem_of_filter in Hx as [_ ?].
Qed.

Lemma list_alter_insert (f : A -> A) (l : list A) i x :
  l !! i = Some x -> alter f i l = <[i := f x]> l.
Proof.
  intros Hx. apply list_eq. intros j. destruct (decide (i = j)) as [<-|Hne].
  - rewrite list_lookup_alter_eq, list_lookup_insert_eq, Hx by (by eapply lookup_lt_Some). done.
  - by rewrite list_lookup_alter_ne, list_lookup_insert_ne.
Qed.

Lemma length_omap_le {B} (f : A -> option B) (l : list A) : (length (omap f l) <= length l)%nat.
Proof. induction l as [|x l IH]; csimpl; [done|]. destruct (f x); simpl; lia. Qed.
End Lists.
