(* ===== verification/GoString.v ===== *)
(** * Go strings

    The functions of the Go packages [strings], [strconv] and [fmt] that the
    broker calls, on byte strings: [strings.Split] with a one-byte separator,
    [strings.Contains], [strings.HasPrefix], [strings.HasSuffix],
    [strings.TrimPrefix], [fmt.Sprintf("%d", n)] on non-negative integers and
    [strconv.Atoi].  Each has the lemmas that the components use. *)

From Stdlib Require Import ZArith Lia Ascii.
From Stdlib Require Import Numbers.DecimalString Numbers.DecimalFacts Numbers.DecimalPos Numbers.DecimalN.
From stdpp Require Import base list strings numbers sets.
From S2P Require Import Prelude.

Local Open Scope string_scope.
Local Open Scope list_scope.

(** ** Characters of a string *)

Fixpoint chars (s : string) : list ascii :=
  match s with
  | EmptyString => []
  | String c s' => c :: chars s'
  end.

Lemma chars_app s t : chars (s +:+ t) = chars s ++ chars t.
Proof. induction s as [|c s IH]; simpl; [done|]. by rewrite IH. Qed.

Lemma chars_inj s t : chars s = chars t -> s = t.
Proof.
  revert t. induction s as [|c s IH]; intros [|d t] H; try discriminate; [done|].
  injection H as -> H. f_equal. by apply IH.
Qed.

Lemma length_chars s : length (chars s) = String.length s.
Proof. induction s; simpl; congruence. Qed.

Lemma string_length_app s t :
  String.length (s +:+ t) = (String.length s + String.length t)%nat.
Proof. by rewrite <- !length_chars, chars_app, length_app. Qed.

Lemma string_app_assoc (s t u : string) : (s +:+ t) +:+ u = s +:+ (t +:+ u).
Proof. apply chars_inj. rewrite !chars_app. by rewrite <- (assoc_L app). Qed.

Lemma string_app_inj_l (p s t : string) : p +:+ s = p +:+ t -> s = t.
Proof. induction p as [|c p IH]; simpl; intros H; [done|]. injection H. auto. Qed.

(** ** strings.Split, strings.Join *)

(** [strings.Split(s, sep)] for a one-byte separator: never the empty list. *)
Fixpoint Split (s : string) (sep : ascii) : list string :=
  match s with
  | EmptyString => [""]
  | String c s' =>
      if Ascii.eqb c sep then "" :: Split s' sep
      else match Split s' sep with
           | p :: ps => String c p :: ps
           | [] => [String c ""]
           end
  end.

(** [strings.Join(parts, sep)], the inverse used to reason about [Split]. *)
Fixpoint Join (parts : list string) (sep : ascii) : string :=
  match parts with
  | [] => ""
  | [p] => p
  | p :: ps => p +:+ String sep (Join ps sep)
  end.

Lemma Split_nonempty s sep : Split s sep <> [].
Proof.
  destruct s as [|c s]; simpl; [done|].
  destruct (Ascii.eqb c sep); [done|]. by destruct (Split s sep).
Qed.

Lemma Join_cons p ps sep :
  ps <> [] -> Join (p :: ps) sep = p +:+ String sep (Join ps sep).
Proof. by destruct ps. Qed.

Lemma Join_Split s sep : Join (Split s sep) sep = s.
Proof.
  induction s as [|c s IH]; [done|]. simpl.
  destruct (Ascii.eqb c sep) eqn:E.
  - apply Ascii.eqb_eq in E as ->.
    rewrite Join_cons by apply Split_nonempty. by rewrite IH.
  - pose proof (Split_nonempty s sep).
    destruct (Split s sep) as [|p ps]; [done|].
    rewrite <- IH. by destruct ps.
Qed.

(** Splitting loses nothing: two strings with the same parts are equal. *)
Lemma Split_inj s t sep : Split s sep = Split t sep -> s = t.
Proof. intros H. by rewrite <- (Join_Split s sep), H, Join_Split. Qed.

Lemma Split_no_sep s sep p : p ∈ Split s sep -> sep ∉ chars p.
Proof.
  revert p. induction s as [|c s IH]; simpl; intros p Hp.
  - apply list_elem_of_singleton in Hp as ->. set_solver.
  - destruct (Ascii.eqb c sep) eqn:E.
    + apply elem_of_cons in Hp as [->|Hp]; [set_solver|auto].
    + apply Ascii.eqb_neq in E.
      pose proof (Split_nonempty s sep).
      destruct (Split s sep) as [|q qs]; [done|].
      apply elem_of_cons in Hp as [->|Hp].
      * simpl. specialize (IH q). set_solver.
      * apply IH. set_solver.
Qed.

Lemma Split_app_sep p s sep :
  sep ∉ chars p -> Split (p +:+ String sep s) sep = p :: Split s sep.
Proof.
  induction p as [|c p IH]; simpl; intros Hp.
  - by rewrite Ascii.eqb_refl.
  - destruct (Ascii.eqb c sep) eqn:E.
    + apply Ascii.eqb_eq in E as ->. set_solver.
    + by rewrite IH by set_solver.
Qed.

Lemma Split_single p sep : sep ∉ chars p -> Split p sep = [p].
Proof.
  induction p as [|c p IH]; simpl; intros Hp; [done|].
  destruct (Ascii.eqb c sep) eqn:E.
  - apply Ascii.eqb_eq in E as ->. set_solver.
  - by rewrite IH by set_solver.
Qed.

Lemma Split_Join parts sep :
  parts <> [] -> (forall p, p ∈ parts -> sep ∉ chars p) ->
  Split (Join parts sep) sep = parts.
Proof.
  induction parts as [|p ps IH]; intros Hne Hsep; [done|].
  destruct ps as [|q qs].
  - simpl. apply Split_single. set_solver.
  - rewrite Join_cons by done. rewrite Split_app_sep by set_solver.
    f_equal. apply IH; [done|set_solver].
Qed.

(** The characters of a string other than the separator are those of its parts. *)
Lemma elem_of_chars_Split c s sep :
  c <> sep -> c ∈ chars s <-> exists p, p ∈ Split s sep /\ c ∈ chars p.
Proof.
  intros Hc. induction s as [|d s IH]; simpl.
  - setoid_rewrite list_elem_of_singleton. naive_solver set_solver.
  - rewrite elem_of_cons, IH. destruct (Ascii.eqb d sep) eqn:E.
    + apply Ascii.eqb_eq in E as ->. setoid_rewrite elem_of_cons.
      split; [naive_solver|]. intros (p & [->|Hp] & Hin); [set_solver|eauto].
    + pose proof (Split_nonempty s sep).
      destruct (Split s sep) as [|q qs]; [done|].
      setoid_rewrite elem_of_cons. clear IH. split.
      * intros [->|(p & [->|Hp] & Hin)]; [exists (String d q)|exists (String d q)|exists p];
          simpl; set_solver.
      * intros (p & [->|Hp] & Hin); simpl in *; [|by eauto].
        apply elem_of_cons in Hin as [->|Hin]; eauto.
Qed.

(** ** strings.HasPrefix, TrimPrefix, HasSuffix, Contains *)

Definition HasPrefix (s pre : string) : bool := String.prefix pre s.

(** [s[len(prefix):]] when the prefix is there, [s] otherwise. *)
Definition TrimPrefix (s pre : string) : string :=
  if HasPrefix s pre
  then String.substring (String.length pre) (String.length s - String.length pre) s
  else s.

Definition HasSuffix (s suf : string) : bool :=
  (String.length suf <=? String.length s)%nat &&
  (String.substring (String.length s - String.length suf) (String.length suf) s =s suf).

Fixpoint Contains (s sub : string) : bool :=
  String.prefix sub s ||
  match s with
  | EmptyString => false
  | String _ s' => Contains s' sub
  end.

Lemma prefix_app p s : String.prefix p (p +:+ s) = true.
Proof.
  induction p as [|c p IH]; simpl; [by destruct s|].
  destruct (ascii_dec c c); [done|congruence].
Qed.

Lemma HasPrefix_spec s p : HasPrefix s p = true <-> exists t, s = p +:+ t.
Proof.
  unfold HasPrefix. split; [|intros [t ->]; apply prefix_app].
  revert s. induction p as [|c p IH]; intros s H; [by exists s|].
  destruct s as [|d s]; simpl in H; [done|].
  destruct (ascii_dec c d) as [->|]; [|done].
  destruct (IH _ H) as [t ->]. by exists t.
Qed.

Lemma substring_0_all s : String.substring 0 (String.length s) s = s.
Proof. induction s; simpl; congruence. Qed.

Lemma substring_app_r p s :
  String.substring (String.length p) (String.length s) (p +:+ s) = s.
Proof. induction p; simpl; [apply substring_0_all|done]. Qed.

Lemma TrimPrefix_app p s : TrimPrefix (p +:+ s) p = s.
Proof.
  unfold TrimPrefix, HasPrefix. rewrite prefix_app, string_length_app.
  replace (String.length p + String.length s - String.length p)%nat
    with (String.length s) by lia.
  apply substring_app_r.
Qed.

Lemma TrimPrefix_id s p : HasPrefix s p = false -> TrimPrefix s p = s.
Proof. unfold TrimPrefix. by intros ->. Qed.

Lemma substring_split n s :
  (n <= String.length s)%nat ->
  s = String.substring 0 n s +:+ String.substring n (String.length s - n) s.
Proof.
  revert n. induction s as [|c s IH]; intros [|n] H; simpl in *; try lia; try done.
  - by rewrite substring_0_all.
  - rewrite (IH n) at 1 by lia. done.
Qed.

Lemma HasSuffix_spec s suf : HasSuffix s suf = true <-> exists t, s = t +:+ suf.
Proof.
  unfold HasSuffix. split.
  - intros H. breflect.
    pose proof (substring_split (String.length s - String.length suf) s ltac:(lia)) as Hs.
    replace (String.length s - (String.length s - String.length suf))%nat
      with (String.length suf) in Hs by lia.
    rewrite H0 in Hs. eauto.
  - intros [t ->]. rewrite string_length_app.
    replace (String.length t + String.length suf - String.length suf)%nat
      with (String.length t) by lia.
    rewrite substring_app_r, String.eqb_refl, andb_true_r. apply Nat.leb_le. lia.
Qed.

Lemma Contains_char s c : Contains s (String c "") = true <-> c ∈ chars s.
Proof.
  induction s as [|d s IH].
  - simpl. split; [done|set_solver].
  - change (Contains (String d s) (String c ""))
      with (String.prefix (String c "") (String d s) || Contains s (String c "")).
    rewrite orb_true_iff, IH. simpl.
    rewrite elem_of_cons. destruct (ascii_dec c d) as [->|]; [|naive_solver].
    destruct s; naive_solver.
Qed.

(** ** Decimal numbers *)

(** [fmt.Sprintf("%d", n)], [fmt.Sprint(n)] and [strconv.Itoa(n)] on a
    non-negative integer. *)
Definition Itoa (n : N) : string := NilZero.string_of_uint (N.to_uint n).

(** [strconv.Atoi]: an optional sign, then decimal digits only; the first
    component is the value Go returns (0 on a syntax error, the nearest int64
    on a range error), the second says whether the error is nil. *)
Definition Atoi_clamp (z : Z) : Z * bool :=
  if (z <? - 2 ^ 63)%Z then ((- 2 ^ 63)%Z, false)
  else if (2 ^ 63 - 1 <? z)%Z then ((2 ^ 63 - 1)%Z, false)
  else (z, true).

Definition Atoi_digits (s : string) : option Z :=
  match NilZero.uint_of_string s with
  | Some u => Some (Z.of_N (N.of_uint u))
  | None => None
  end.

Definition Atoi (s : string) : Z * bool :=
  let parsed :=
    match s with
    | String c s' =>
        if Ascii.eqb c "-"%char then Z.opp <$> Atoi_digits s'
        else if Ascii.eqb c "+"%char then Atoi_digits s'
        else Atoi_digits s
    | EmptyString => None
    end in
  match parsed with
  | Some z => Atoi_clamp z
  | None => (0%Z, false)
  end.

Definition is_digit (c : ascii) : bool :=
  (48 <=? N_of_ascii c)%N && (N_of_ascii c <=? 57)%N.

Lemma string_of_uint_digits d : Forall (fun c => is_digit c = true) (chars (NilEmpty.string_of_uint d)).
Proof. induction d; simpl; repeat constructor; auto. Qed.

Lemma Itoa_digits n : Forall (fun c => is_digit c = true) (chars (Itoa n)).
Proof.
  unfold Itoa, NilZero.string_of_uint.
  destruct (N.to_uint n) eqn:E; rewrite <- ?E; simpl;
    repeat constructor; auto using string_of_uint_digits.
Qed.

Lemma to_uint_not_nil n : N.to_uint n <> Decimal.Nil.
Proof. destruct n; [done|]. apply DecimalPos.Unsigned.to_uint_nonnil. Qed.

Lemma Itoa_nonempty n : Itoa n <> "".
Proof.
  unfold Itoa, NilZero.string_of_uint.
  pose proof (to_uint_not_nil n). by destruct (N.to_uint n).
Qed.

Lemma Atoi_digits_Itoa n : Atoi_digits (Itoa n) = Some (Z.of_N n).
Proof.
  unfold Atoi_digits, Itoa. rewrite NilZero.usu by apply to_uint_not_nil.
  by rewrite DecimalN.Unsigned.of_to.
Qed.

(** A number printed with [l] digits after its first one is at least [10 ^ l]. *)
Lemma of_uint_acc_lower l acc :
  (N.pos acc * 10 ^ N.of_nat (Decimal.nb_digits l) <= N.pos (Pos.of_uint_acc l acc))%N.
Proof.
  revert acc. induction l; intros acc; cbn [Decimal.nb_digits Pos.of_uint_acc];
    [simpl; lia|..]; rewrite Nat2N.inj_succ, N.pow_succ_r';
    (etrans; [|apply IHl]); rewrite N.mul_assoc; apply N.mul_le_mono_r; lia.
Qed.

Lemma length_string_of_uint d : String.length (NilEmpty.string_of_uint d) = Decimal.nb_digits d.
Proof. induction d; simpl; congruence. Qed.

Lemma nzhead_not_zero d l : Decimal.nzhead d <> Decimal.D0 l.
Proof. induction d; simpl; congruence. Qed.

Lemma Itoa_length n k : (0 < k)%nat -> (n < 10 ^ N.of_nat k)%N -> (String.length (Itoa n) <= k)%nat.
Proof.
  intros Hk Hn. unfold Itoa.
  pose proof (DecimalN.Unsigned.of_to n) as Hof. pose proof (DecimalN.Unsigned.to_of (N.to_uint n)) as Hto.
  rewrite Hof in Hto. pose proof (to_uint_not_nil n) as Hnil.
  assert (forall l acc, n = N.pos (Pos.of_uint_acc l acc) -> (Decimal.nb_digits l < k)%nat) as Hlow.
  { intros l acc Hl. pose proof (of_uint_acc_lower l acc) as Hlo. rewrite <- Hl in Hlo.
    destruct (Nat.lt_ge_cases (Decimal.nb_digits l) k) as [|Hge]; [done|exfalso].
    assert (10 ^ N.of_nat k <= 10 ^ N.of_nat (Decimal.nb_digits l))%N by (apply N.pow_le_mono_r; lia).
    nia. }
  unfold NilZero.string_of_uint. destruct (N.to_uint n) as [|l|l|l|l|l|l|l|l|l|l] eqn:E; [done|..];
    cbn [N.of_uint Pos.of_uint] in Hof; symmetry in Hof;
    try (apply Hlow in Hof; cbn [NilEmpty.string_of_uint String.length];
         rewrite length_string_of_uint; lia).
  assert (l = Decimal.Nil) as ->; [|simpl; lia].
  unfold Decimal.unorm in Hto. cbn [Decimal.nzhead] in Hto.
  destruct (Decimal.nzhead l) as [|l'|l'|l'|l'|l'|l'|l'|l'|l'|l'] eqn:El; simplify_eq; [done|].
  by apply nzhead_not_zero in El.
Qed.

(** Printing then parsing a number in the [int64] range gives it back. *)
Lemma Atoi_Itoa n : (Z.of_N n < 2 ^ 63)%Z -> Atoi (Itoa n) = (Z.of_N n, true).
Proof.
  intros Hn. pose proof (Itoa_digits n) as Hd. pose proof (Itoa_nonempty n) as Hne.
  pose proof (Atoi_digits_Itoa n) as Ha. unfold Atoi.
  destruct (Itoa n) as [|c s]; [done|].
  simpl in Hd. apply Forall_cons in Hd as [Hc _].
  destruct (Ascii.eqb c "-"%char) eqn:E1; [apply Ascii.eqb_eq in E1; subst; done|].
  destruct (Ascii.eqb c "+"%char) eqn:E2; [apply Ascii.eqb_eq in E2; subst; done|].
  rewrite Ha. unfold Atoi_clamp.
  destruct (_ <? _)%Z eqn:E3; breflect; [lia|].
  destruct (_ <? _)%Z eqn:E4 in |- *; breflect; [lia|done].
Qed.

Lemma Itoa_inj n m : Itoa n = Itoa m -> n = m.
Proof.
  intros H. pose proof (Atoi_digits_Itoa n) as Hn. rewrite H, Atoi_digits_Itoa in Hn.
  injection Hn. lia.
Qed.

#[export] Hint Resolve Split_nonempty Itoa_nonempty : mhub.

(** [fmt.Sprintf("%d", z)] on a signed integer. *)
Definition Itoa_Z (z : Z) : string :=
  if (z <? 0)%Z then "-" +:+ Itoa (Z.to_N (- z)) else Itoa (Z.to_N z).

Lemma Itoa_Z_nonneg z : (0 <= z)%Z -> Itoa_Z z = Itoa (Z.to_N z).
Proof. unfold Itoa_Z. destruct (z <? 0)%Z eqn:E; breflect; [lia|done]. Qed.
