(* ===== verification/GoFlag.v ===== *)
(** * Command line flags

    The part of Go's package flag that the programs use: string and boolean flags
    ([StringVar], [BoolVar]) and [Parse], which stops at the first error.  The lemma
    that the programs need: a flag that is written [-name=value] is set to [value]. *)

From Stdlib Require Import Lia Ascii.
From stdpp Require Import base gmap list strings numbers.
From S2P Require Import Prelude GoString.

Local Open Scope string_scope.
Local Open Scope list_scope.

Inductive flag_type := StringVar | BoolVar.

Record flag_decl := FlagDecl { fl_name : string; fl_type : flag_type; fl_default : string }.

(** Why [Parse] prints the usage and exits. *)
Inductive flag_error :=
| BadSyntax (arg : string)
| NotDefined (name : string)
| NeedsArgument (name : string)
| InvalidValue (value name : string).

Notation flag_values := (gmap string string).

(** [strconv.ParseBool] *)
Definition ParseBool (s : string) : option bool :=
  if existsb (String.eqb s) ["1"; "t"; "T"; "true"; "TRUE"; "True"] then Some true
  else if existsb (String.eqb s) ["0"; "f"; "F"; "false"; "FALSE"; "False"] then Some false
  else None.

Definition FormatBool (b : bool) : string := if b then "true" else "false".

(** [name=value], cut at the first equals sign. *)
Fixpoint cut_value (s : string) : string * option string :=
  match s with
  | "" => ("", None)
  | String c s' =>
      if Ascii.eqb c "=" then ("", Some s')
      else let '(n, v) := cut_value s' in (String c n, v)
  end.

(** The [Set] method of a flag. *)
Definition set_value (d : flag_decl) (v : string) (vals : flag_values) : flag_values + flag_error :=
  match fl_type d with
  | StringVar => inl (<[fl_name d := v]> vals)
  | BoolVar => match ParseBool v with
               | Some b => inl (<[fl_name d := FormatBool b]> vals)
               | None => inr (InvalidValue v (fl_name d))
               end
  end.

(** What the first argument is: not a flag, the end of the flags, or the name with one
    or two dashes stripped. *)
Inductive arg_class := NotFlag | Terminator | BadFlag | FlagArg (name : string) (value : option string).

Definition classify (s : string) : arg_class :=
  match s with
  | String "-" (String "-" "") => Terminator
  | String "-" (String "-" name) | String "-" name =>
      match name with
      | "" => NotFlag
      | String c _ =>
          if Ascii.eqb c "-" || Ascii.eqb c "=" then BadFlag
          else let '(n, v) := cut_value name in FlagArg n v
      end
  | _ => NotFlag
  end.

Section Parse.
Context (decls : list flag_decl).

Definition formal (name : string) : option flag_decl :=
  List.find (fun d => fl_name d =s name) decls.

(** [Parse]: the values of the flags and the arguments that are left. *)
Fixpoint parse_args (args : list string) (vals : flag_values) : flag_values * list string + flag_error :=
  match args with
  | [] => inl (vals, [])
  | s :: rest =>
      match classify s with
      | NotFlag => inl (vals, args)
      | Terminator => inl (vals, rest)
      | BadFlag => inr (BadSyntax s)
      | FlagArg name value =>
          match formal name with
          | None => inr (NotDefined name)
          | Some d =>
              match fl_type d, value, rest with
              | BoolVar, None, _ => parse_args rest (<[name := "true"]> vals)
              | _, Some v, _ =>
                  match set_value d v vals with
                  | inl vals' => parse_args rest vals'
                  | inr err => inr err
                  end
              | StringVar, None, v :: rest' => parse_args rest' (<[name := v]> vals)
              | StringVar, None, [] => inr (NeedsArgument name)
              end
          end
      end
  end.

Definition defaults : flag_values :=
  foldr (fun d vals => <[fl_name d := fl_default d]> vals) ∅ decls.

Definition Parse (args : list string) : flag_values * list string + flag_error := parse_args args defaults.

(** ** Lemmas *)

(** A name that [-name=value] can set. *)
Definition plain_name (n : string) : bool :=
  match n with
  | "" => false
  | String c _ => negb (Ascii.eqb c "-")
  end && negb (existsb (Ascii.eqb "=") (chars n)).

Lemma cut_value_app n v : "="%char ∉ chars n -> cut_value (n +:+ "=" +:+ v) = (n, Some v).
Proof.
  induction n as [|c n IH]; intros Hn; [done|]. cbn [chars] in Hn. apply not_elem_of_cons in Hn as [Hc Hn].
  change (String c n +:+ "=" +:+ v) with (String c (n +:+ "=" +:+ v)). cbn [cut_value].
  rewrite (IH Hn). destruct (Ascii.eqb_spec c "="); [by subst|done].
Qed.

Lemma plain_name_no_eq n : plain_name n = true -> "="%char ∉ chars n.
Proof.
  intros Hp Hin. apply andb_prop in Hp as [_ Hp]. apply negb_true_iff in Hp.
  apply list_elem_of_lookup in Hin as [i Hi]. apply not_true_iff_false in Hp. apply Hp, existsb_exists.
  exists "="%char. split; [by eapply list_elem_of_In, list_elem_of_lookup_2|apply Ascii.eqb_refl].
Qed.

Lemma classify_flag n v : plain_name n = true ->
  classify ("-" +:+ n +:+ "=" +:+ v) = FlagArg n (Some v).
Proof.
  intros Hp. pose proof (cut_value_app n v (plain_name_no_eq n Hp)) as Hcut.
  destruct n as [|c n]; [done|]. apply andb_prop in Hp as [Hc He]. apply negb_true_iff in Hc, He.
  change ("-" +:+ String c n +:+ "=" +:+ v) with (String "-" (String c (n +:+ "=" +:+ v))).
  change (String c n +:+ "=" +:+ v) with (String c (n +:+ "=" +:+ v)) in Hcut.
  apply orb_false_elim in He as [He _]. rewrite Ascii.eqb_sym in He.
  assert (forall t, classify (String "-" (String c t)) =
            if Ascii.eqb c "-" || Ascii.eqb c "=" then BadFlag
            else let '(m, w) := cut_value (String c t) in FlagArg m w) as ->.
  { intros t. apply Ascii.eqb_neq in Hc. destruct c as [[] [] [] [] [] [] [] []]; done. }
  by rewrite Hc, He, Hcut.
Qed.

Lemma parse_args_set n d v vals vals' rest : plain_name n = true -> formal n = Some d ->
  set_value d v vals = inl vals' ->
  parse_args (("-" +:+ n +:+ "=" +:+ v) :: rest) vals = parse_args rest vals'.
Proof.
  intros Hp Hf Hs. cbn [parse_args]. rewrite (classify_flag n v Hp), Hf, Hs. by destruct (fl_type d).
Qed.

Lemma ParseBool_FormatBool b : ParseBool (FormatBool b) = Some b.
Proof. by destruct b. Qed.
End Parse.
