(* ===== verification/GoProc.v ===== *)
(** * Goroutine code and channels

    A goroutine body is a value of [proc S A]: a finite tree of atomic actions
    on the shared state [S].  An action is done, blocks (a full or empty
    channel, a locked mutex) or panics, as in Go.  [exec] runs a body with no
    interference; [ok] states what every atomic action of a body guarantees,
    whatever other goroutines do between two of them.  The file also has
    buffered channels with Go's rules for [close]. *)

From Stdlib Require Import Lia.
From stdpp Require Import base list strings numbers.
From S2P Require Import Prelude.

(** ** Actions *)

(** The run-time panics that the sources can raise. *)
Inductive panic :=
| NilDeref
| SendOnClosed
| CloseOfClosed
| IndexOutOfRange
| DivideByZero
| UserPanic (msg : string).

#[export] Instance panic_eq_dec : EqDecision panic.
Proof. solve_decision. Defined.

Inductive astep (S X : Type) :=
| Done (s : S) (x : X)
| Blocked
| Panicked (why : panic).
Arguments Done {S X} s x.
Arguments Blocked {S X}.
Arguments Panicked {S X} why.

Inductive proc (S A : Type) :=
| Ret (a : A)
| Step (f : S -> astep S (proc S A)).
Arguments Ret {S A} a.
Arguments Step {S A} f.

(** What running a body alone leads to: it returns, it is stuck in front of an
    action that blocks (with the state its earlier actions left), or it panics. *)
Inductive outcome (S A : Type) :=
| Returned (s : S) (a : A)
| Stuck (s : S) (p : proc S A)
| Crashed (s : S) (why : panic).
Arguments Returned {S A} s a.
Arguments Stuck {S A} s p.
Arguments Crashed {S A} s why.

Section Proc.
Context {S : Type}.

(** Induction on a body: the hypothesis is for every continuation that an
    action can reach. *)
Lemma proc_induction {A} (P : proc S A -> Prop) :
  (forall a, P (Ret a)) ->
  (forall f, (forall s s' p, f s = Done s' p -> P p) -> P (Step f)) ->
  forall p, P p.
Proof.
  intros HR HS. fix go 1. intros [a|f]; [apply HR|].
  apply HS. intros s s' p. destruct (f s) as [s1 p1| |w] eqn:E; intros H.
  - injection H as _ <-. specialize (go p1). exact go.
  - discriminate.
  - discriminate.
Qed.

Fixpoint bind {A B} (p : proc S A) (k : A -> proc S B) : proc S B :=
  match p with
  | Ret a => k a
  | Step f =>
      Step (fun s => match f s with
                     | Done s' p' => Done s' (bind p' k)
                     | Blocked => Blocked
                     | Panicked w => Panicked w
                     end)
  end.

Fixpoint exec {A} (p : proc S A) (s : S) : outcome S A :=
  match p with
  | Ret a => Returned s a
  | Step f =>
      match f s with
      | Done s' p' => exec p' s'
      | Blocked => Stuck s p
      | Panicked w => Crashed s w
      end
  end.

(** One atomic action with a result. *)
Definition atomic {A} (f : S -> astep S A) : proc S A :=
  Step (fun s => match f s with
                 | Done s' a => Done s' (Ret a)
                 | Blocked => Blocked
                 | Panicked w => Panicked w
                 end).

Definition reads {A} (f : S -> A) : proc S A := atomic (fun s => Done s (f s)).
Definition modify (f : S -> S) : proc S unit := atomic (fun s => Done (f s) tt).
Definition panics {A} (w : panic) : proc S A := atomic (fun _ => Panicked w).

(** [for _, x := range l { body x }] *)
Fixpoint for_each {B} (l : list B) (body : B -> proc S unit) : proc S unit :=
  match l with
  | [] => Ret tt
  | x :: l' => bind (body x) (fun _ => for_each l' body)
  end.

(** [for i := start; n more times; i++ { body i }] *)
Fixpoint for_range (n start : nat) (body : nat -> proc S unit) : proc S unit :=
  match n with
  | 0 => Ret tt
  | Datatypes.S n' => bind (body start) (fun _ => for_range n' (Datatypes.S start) body)
  end.
End Proc.

Notation "x <- p ;; q" := (bind p (fun x => q))
  (at level 100, p at next level, right associativity) : mhub_scope.
Notation "p ;;; q" := (bind p (fun _ => q))
  (at level 100, right associativity) : mhub_scope.

(** ** Running a body alone *)

Section Exec.
Context {S : Type}.
Implicit Types s : S.

Lemma exec_bind {A B} (p : proc S A) (k : A -> proc S B) s :
  exec (bind p k) s =
  match exec p s with
  | Returned s' a => exec (k a) s'
  | Stuck s' p' => Stuck s' (bind p' k)
  | Crashed s' w => Crashed s' w
  end.
Proof.
  revert s. induction p as [a|f IH] using proc_induction; intros s; simpl; [done|].
  destruct (f s) as [s' p'| |w] eqn:E; [|done|done]. by apply (IH s s').
Qed.

Lemma exec_atomic {A} (f : S -> astep S A) s :
  exec (atomic f) s =
  match f s with
  | Done s' a => Returned s' a
  | Blocked => Stuck s (atomic f)
  | Panicked w => Crashed s w
  end.
Proof. simpl. by destruct (f s). Qed.

Lemma exec_reads {A} (f : S -> A) s : exec (reads f) s = Returned s (f s).
Proof. done. Qed.

Lemma exec_modify (f : S -> S) s : exec (modify f) s = Returned (f s) tt.
Proof. done. Qed.

(** A loop whose bodies all return, by an invariant on the traversed prefix. *)
Lemma exec_for_each {B} (I : list B -> S -> Prop) l body s :
  I [] s ->
  (forall pre x post s', l = pre ++ x :: post -> I pre s' ->
     exists s'', exec (body x) s' = Returned s'' tt /\ I (pre ++ [x]) s'') ->
  exists s', exec (for_each l body) s = Returned s' tt /\ I l s'.
Proof.
  intros H0 Hstep.
  enough (forall post pre s0, l = pre ++ post -> I pre s0 ->
            exists s', exec (for_each post body) s0 = Returned s' tt /\ I l s')
    by (apply (H l []); done).
  induction post as [|x post IH]; intros pre s0 Hl HI.
  - rewrite app_nil_r in Hl. subst. eauto.
  - destruct (Hstep pre x post s0 Hl HI) as (s1 & E & HI1).
    simpl. rewrite exec_bind, E.
    apply (IH (pre ++ [x])); [by rewrite <- (assoc_L app)|done].
Qed.
End Exec.

(** ** Guarantees of a body under interference *)

Section Ok.
Context {S : Type}.

(** [ok I R G W Q p s]: the body [p], whose goroutine last saw the state [s].
    Other goroutines may move the state along the rely [R] within [I] before each
    action; every action of [p] that is done then stays in [I] and moves along the
    guarantee [G], only panics of [W] are raised, and the result satisfies [Q]. *)
Fixpoint ok {A} (I : S -> Prop) (R G : S -> S -> Prop) (W : panic -> Prop)
    (Q : A -> S -> Prop) (p : proc S A) (s : S) : Prop :=
  match p with
  | Ret a => Q a s
  | Step f =>
      forall s', R s s' -> I s' ->
        match f s' with
        | Done s'' p' => I s'' /\ G s' s'' /\ ok I R G W Q p' s''
        | Blocked => True
        | Panicked w => W w
        end
  end.

Context (I : S -> Prop) (W : panic -> Prop).
Implicit Types R G T : S -> S -> Prop.

(** Interference does not invalidate [ok], if it does not invalidate the result. *)
Lemma ok_rely {A} R G (Q : A -> S -> Prop) p s s' :
  Transitive R -> (forall a s s', R s s' -> Q a s -> Q a s') ->
  R s s' -> ok I R G W Q p s -> ok I R G W Q p s'.
Proof.
  intros HR HQ Hs. destruct p as [a|f]; simpl; [by apply HQ|].
  intros Hp s1 Hs1. apply Hp. by etrans.
Qed.

(** A body proved against more interference and with a stronger guarantee; the
    assertion [F] is kept by the interference and by the actions. *)
Lemma ok_frame {A} R G R' G' (Q Q' : A -> S -> Prop) (F : S -> Prop) p s :
  (forall s s', R' s s' -> R s s') -> (forall s s', G s s' -> G' s s') ->
  (forall s s', R' s s' -> F s -> F s') -> (forall s s', G s s' -> F s -> F s') ->
  (forall a s, Q a s -> F s -> Q' a s) ->
  F s -> ok I R G W Q p s -> ok I R' G' W Q' p s.
Proof.
  intros HR HG HFR HFG HQ. revert s.
  induction p as [a|f IH] using proc_induction; intros s HF Hp; simpl in *; [by apply HQ|].
  intros s' Hs HI. specialize (Hp s' (HR _ _ Hs) HI).
  destruct (f s') as [s'' p'| |w] eqn:E; [|done|done].
  destruct Hp as (HI' & HG' & Hp). split; [done|]. split; [by apply HG|].
  eapply IH; [done| |done]. eapply HFG; [done|]. by eapply HFR.
Qed.

Lemma ok_weaken {A} R G (Q Q' : A -> S -> Prop) p s :
  ok I R G W Q p s -> (forall a s', Q a s' -> Q' a s') -> ok I R G W Q' p s.
Proof.
  intros Hp HQ. apply (ok_frame R G R G Q Q' (fun _ => True)); [done..| |done|done].
  intros a s' Ha _. by apply HQ.
Qed.

Context (R G T : S -> S -> Prop) `{!PreOrder T}.
Context (RT : forall s s', R s s' -> T s s') (GT : forall s s', G s s' -> T s s').

(** Sequencing: the continuation starts from a state later than [s]. *)
Lemma ok_bind {A B} (Q : A -> S -> Prop) (Q' : B -> S -> Prop) p k s :
  ok I R G W Q p s ->
  (forall a s', T s s' -> Q a s' -> ok I R G W Q' (k a) s') -> ok I R G W Q' (bind p k) s.
Proof.
  revert s. induction p as [a|f IH] using proc_induction; intros s Hp Hk; simpl in *.
  - by apply Hk.
  - intros s' Hs HI. specialize (Hp s' Hs HI).
    destruct (f s') as [s'' p'| |w] eqn:E; [|done|done].
    destruct Hp as (HI' & HG & Hp). split; [done|]. split; [done|].
    eapply IH; [done|done|]. intros a s3 H3. apply Hk.
    etrans; [by apply RT|]. etrans; [by apply GT|done].
Qed.

Lemma ok_atomic {A} (Q : A -> S -> Prop) (f : S -> astep S A) s :
  (forall s', R s s' -> I s' ->
     match f s' with
     | Done s'' a => I s'' /\ G s' s'' /\ Q a s''
     | Blocked => True
     | Panicked w => W w
     end) ->
  ok I R G W Q (atomic f) s.
Proof. intros H s' Hs HI. specialize (H s' Hs HI). by destruct (f s'). Qed.

Lemma ok_reads {A} (Q : A -> S -> Prop) (f : S -> A) s :
  Reflexive G -> (forall s', R s s' -> I s' -> Q (f s') s') -> ok I R G W Q (reads f) s.
Proof.
  intros HG H. apply ok_atomic. intros s' Hs HI. split; [done|]. split; [by apply HG|auto].
Qed.

Lemma ok_for_each {B} (l : list B) (body : B -> proc S unit) s :
  (forall x s', x ∈ l -> T s s' -> ok I R G W (fun _ _ => True) (body x) s') ->
  ok I R G W (fun _ _ => True) (for_each l body) s.
Proof.
  revert s. induction l as [|x l IH]; intros s H; simpl; [done|].
  eapply ok_bind; [apply H; [by left|done]|]. intros [] s' Hs _. apply IH.
  intros y s3 Hy Hs3. apply H; [by right|]. by etrans.
Qed.

Lemma ok_for_range n start (body : nat -> proc S unit) s :
  (forall i s', T s s' -> ok I R G W (fun _ _ => True) (body i) s') ->
  ok I R G W (fun _ _ => True) (for_range n start body) s.
Proof.
  revert s start. induction n as [|n IH]; intros s start H; simpl; [done|].
  eapply ok_bind; [by apply H|]. intros [] s' Hs _. apply IH.
  intros i s3 Hs3. apply H. by etrans.
Qed.
End Ok.

(** ** Buffered channels *)

Record chan (A : Type) := Chan {
  ch_buf : list A;      (* oldest element first *)
  ch_cap : nat;
  ch_closed : bool
}.
Arguments Chan {A}.
Arguments ch_buf {A}.
Arguments ch_cap {A}.
Arguments ch_closed {A}.

Section Chan.
Context {A : Type}.
Implicit Types c : chan A.

Definition make_chan (n : nat) : chan A := Chan [] n false.

(** [c <- x] *)
Definition ch_send (x : A) c : astep (chan A) unit :=
  if ch_closed c then Panicked SendOnClosed
  else if (length (ch_buf c) <? ch_cap c)%nat
  then Done (Chan (ch_buf c ++ [x]) (ch_cap c) false) tt
  else Blocked.

(** [select { case c <- x: default: }]; the result says whether [x] was sent. *)
Definition ch_try_send (x : A) c : astep (chan A) bool :=
  if ch_closed c then Panicked SendOnClosed
  else if (length (ch_buf c) <? ch_cap c)%nat
  then Done (Chan (ch_buf c ++ [x]) (ch_cap c) false) true
  else Done c false.

(** [x, on := <-c]; [None] on a closed and drained channel. *)
Definition ch_recv c : astep (chan A) (option A) :=
  match ch_buf c with
  | x :: rest => Done (Chan rest (ch_cap c) (ch_closed c)) (Some x)
  | [] => if ch_closed c then Done c None else Blocked
  end.

Definition ch_close c : astep (chan A) unit :=
  if ch_closed c then Panicked CloseOfClosed
  else Done (Chan (ch_buf c) (ch_cap c) true) tt.

(** A channel never holds more than its capacity. *)
Definition chan_wf c : Prop := length (ch_buf c) <= ch_cap c.

Lemma make_chan_wf n : chan_wf (make_chan n).
Proof. unfold chan_wf. simpl. lia. Qed.

Lemma ch_send_wf x c c' r : chan_wf c -> ch_send x c = Done c' r -> chan_wf c'.
Proof.
  unfold chan_wf, ch_send. intros Hc. destruct (ch_closed c); [done|].
  destruct (_ <? _)%nat eqn:E; [|done]. intros [= <-]. breflect. simpl.
  rewrite length_app. simpl. lia.
Qed.

Lemma ch_try_send_wf x c c' r : chan_wf c -> ch_try_send x c = Done c' r -> chan_wf c'.
Proof.
  unfold chan_wf, ch_try_send. intros Hc. destruct (ch_closed c); [done|].
  destruct (_ <? _)%nat eqn:E; intros [= <- <-]; [|done]. breflect. simpl.
  rewrite length_app. simpl. lia.
Qed.

Lemma ch_recv_wf c c' r : chan_wf c -> ch_recv c = Done c' r -> chan_wf c'.
Proof.
  unfold chan_wf, ch_recv. destruct (ch_buf c) as [|x b] eqn:E; simpl.
  - destruct (ch_closed c); [|done]. intros _ [= <- _]. rewrite E. simpl. lia.
  - intros H [= <- _]. simpl. lia.
Qed.

Lemma ch_close_wf c c' r : chan_wf c -> ch_close c = Done c' r -> chan_wf c'.
Proof. unfold chan_wf, ch_close. destruct (ch_closed c); [done|]. by intros H [= <-]. Qed.
End Chan.

#[export] Hint Resolve make_chan_wf ch_send_wf ch_try_send_wf ch_recv_wf ch_close_wf : mhub.
