(* ===== verification/GoSlice.v ===== *)
(** * Go slices

    Slices over shared backing arrays.  Two slice values can share an array:
    [append] writes into the array when the capacity allows it and moves to a
    fresh array when not, so a writer through one slice is seen through another.
    All slices of the modelled code start at index 0 of their array. *)

From Stdlib Require Import Lia.
From stdpp Require Import base list numbers.
From S2P Require Import Prelude.

(** What the Go run time chooses freely: the capacity of the array that
    [append] allocates, and the order in which [range] visits the keys of a map.
    The language specification promises the two laws. *)
Class GoRuntime := {
  grow_cap : nat -> nat -> nat;   (* old capacity, needed length *)
  grow_cap_enough : forall old need, need <= grow_cap old need;
  range_order : forall {A : Type}, list A -> list A;
  range_order_perm : forall (A : Type) (l : list A), range_order l ≡ₚ l
}.

(** Doubling, and the order the map lists its keys in. *)
Definition doubling_runtime : GoRuntime.
Proof.
  refine {| grow_cap := fun old need => Nat.max need (2 * old);
            range_order := fun _ l => l |}.
  - intros. lia.
  - done.
Defined.

(** A slice header; the capacity is the length of the array. *)
Record slice := Slice { sl_arr : nat; sl_len : nat; sl_cap : nat }.

Definition nil_slice : slice := Slice 0 0 0.

Section Slices.
Context `{GoRuntime} {A : Type}.
(** Arrays of pointers: [None] is the nil pointer, the zero value. *)
Implicit Types h : list (list (option A)).

Definition array_at h (a : nat) : list (option A) := default [] (h !! a).

(** The elements [s[0]], ..., [s[len(s)-1]]. *)
Definition elems h (s : slice) : list (option A) := take (sl_len s) (array_at h (sl_arr s)).

(** [s[i]] for [i < len(s)]. *)
Definition index h (s : slice) (i : nat) : option A :=
  if (i <? sl_len s)%nat then default None (array_at h (sl_arr s) !! i) else None.

Definition set_array h (a : nat) (arr : list (option A)) : list (list (option A)) :=
  <[a := arr]> h.

(** [append(s, x)] *)
Definition append h (s : slice) (x : option A) : list (list (option A)) * slice :=
  if (sl_len s <? sl_cap s)%nat then
    (set_array h (sl_arr s) (<[sl_len s := x]> (array_at h (sl_arr s))),
     Slice (sl_arr s) (S (sl_len s)) (sl_cap s))
  else
    let cap' := grow_cap (sl_cap s) (S (sl_len s)) in
    (h ++ [elems h s ++ x :: replicate (cap' - S (sl_len s)) None],
     Slice (length h) (S (sl_len s)) cap').

(** Well-formed header: nil, or within an allocated array of its capacity. *)
Definition slice_wf h (s : slice) : Prop :=
  sl_len s <= sl_cap s /\
  (sl_cap s = 0 \/ exists arr, h !! sl_arr s = Some arr /\ length arr = sl_cap s).

Lemma nil_slice_wf h : slice_wf h nil_slice.
Proof. split; [done|by left]. Qed.

Lemma elems_nil h : elems h nil_slice = [].
Proof. done. Qed.

Lemma length_elems h s : slice_wf h s -> length (elems h s) = sl_len s.
Proof.
  intros [Hle [H0|(arr & Ha & Hl)]]; unfold elems, array_at.
  - assert (sl_len s = 0) as -> by lia. done.
  - rewrite Ha. simpl. rewrite length_take. lia.
Qed.

Lemma index_elems h s i : index h s i = default None (elems h s !! i).
Proof.
  unfold index, elems. destruct (i <? sl_len s)%nat eqn:E; breflect.
  - by rewrite lookup_take_lt.
  - by rewrite lookup_take_ge.
Qed.

Lemma append_elems h s x h' s' :
  slice_wf h s -> append h s x = (h', s') -> elems h' s' = elems h s ++ [x].
Proof.
  intros Hwf. pose proof (length_elems h s Hwf) as Hlen. destruct Hwf as [Hle Hc].
  unfold append. destruct (sl_len s <? sl_cap s)%nat eqn:E; breflect; intros [= <- <-].
  - destruct Hc as [|(arr & Ha & Hl)]; [lia|].
    assert (sl_arr s < length h) by (by eapply lookup_lt_Some).
    unfold elems, array_at, set_array; simpl.
    rewrite list_lookup_insert_eq by done. rewrite Ha. simpl.
    rewrite (take_S_r _ _ x) by (apply list_lookup_insert_eq; lia).
    by rewrite take_insert_ge by lia.
  - set (e := elems h s) in *. unfold elems at 1, array_at; simpl.
    rewrite last_snoc_lookup. simpl.
    rewrite (take_S_r _ _ x).
    + rewrite take_app_length' by done. done.
    + rewrite <- Hlen. by apply list_lookup_middle.
Qed.

Lemma append_wf h s x h' s' :
  slice_wf h s -> append h s x = (h', s') -> slice_wf h' s'.
Proof.
  intros Hwf. pose proof (length_elems h s Hwf) as Hlen. destruct Hwf as [Hle Hc].
  unfold append. destruct (sl_len s <? sl_cap s)%nat eqn:E; breflect; intros [= <- <-].
  - destruct Hc as [|(arr & Ha & Hl)]; [lia|].
    assert (sl_arr s < length h) by (by eapply lookup_lt_Some).
    split; [simpl; lia|]. right. unfold array_at, set_array. simpl. rewrite Ha. simpl.
    eexists. rewrite list_lookup_insert_eq by done. split; [done|]. by rewrite length_insert.
  - pose proof (grow_cap_enough (sl_cap s) (S (sl_len s))).
    split; [simpl; lia|]. right. simpl. rewrite last_snoc_lookup. eexists; split; [done|].
    rewrite length_app, length_cons, length_replicate, Hlen. lia.
Qed.

(** Where [append] writes: its own array past the end of the slice, or a new one. *)
Lemma append_arr h s x h' s' :
  append h s x = (h', s') -> sl_arr s' = sl_arr s \/ sl_arr s' = length h.
Proof. unfold append. case_goal; intros [= <- <-]; auto. Qed.

Lemma append_len h s x h' s' : append h s x = (h', s') -> sl_len s' = S (sl_len s).
Proof. unfold append. case_goal; by intros [= <- <-]. Qed.

Lemma append_heap h s x h' s' : append h s x = (h', s') -> length h <= length h'.
Proof.
  unfold append. case_goal; intros [= <- <-].
  - unfold set_array. by rewrite length_insert.
  - rewrite length_app. simpl. lia.
Qed.

(** [apart t s]: an [append] to [s] does not write below the end of [t], because
    the arrays differ, [t] ends no later than [s], or [s] has no room left. *)
Definition apart (t s : slice) : Prop :=
  sl_arr t <> sl_arr s \/ sl_len t <= sl_len s \/ sl_cap s <= sl_len s.

Lemma append_frame h s x h' s' t :
  slice_wf h s -> slice_wf h t -> append h s x = (h', s') ->
  apart t s -> elems h' t = elems h t /\ slice_wf h' t.
Proof.
  intros [Hle Hc] [Htle Htc] Ha Hsep. unfold append in Ha.
  destruct (sl_len s <? sl_cap s)%nat eqn:E; breflect; injection Ha as <- <-.
  - destruct Hc as [|(arr & Ha & Hl)]; [lia|].
    assert (sl_arr s < length h) by (by eapply lookup_lt_Some).
    unfold set_array, elems, slice_wf, array_at. rewrite Ha. simpl.
    destruct (decide (sl_arr t = sl_arr s)) as [Heq|Hne].
    + rewrite Heq, list_lookup_insert_eq by done. simpl.
      assert (sl_len t <= sl_len s) by (destruct Hsep as [?|[?|?]]; [done|lia|lia]).
      rewrite Ha. simpl. rewrite take_insert_ge by lia.
      split; [done|]. split; [done|]. destruct Htc as [|(arr' & Ha' & Hl')]; [by left|].
      right. eexists; split; [done|]. rewrite length_insert.
      rewrite Heq, Ha in Ha'. by injection Ha' as <-.
    + rewrite list_lookup_insert_ne by done. done.
  - destruct Htc as [H0|(arr & Ha & Hl)].
    + assert (sl_len t = 0) as Ht by lia. unfold elems, slice_wf. rewrite Ht. simpl.
      split; [done|]. split; [lia|]. by left.
    + assert (sl_arr t < length h) by (by eapply lookup_lt_Some).
      unfold elems, slice_wf, array_at. rewrite lookup_snoc_lt by done.
      split; [done|]. split; [done|]. right; eauto.
Qed.

Lemma append_apart h s x h' s' t :
  sl_arr t < length h -> append h s x = (h', s') -> apart t s -> apart t s'.
Proof.
  unfold append, apart. intros Ht. case_goal; breflect; intros [= <- <-]; simpl.
  - intros [?|[?|?]]; [by left|right; left; lia|lia].
  - intros _. left. lia.
Qed.

(** [for i := range s { if s[i] satisfies test { s[i] = nil } }]: a sweep that
    writes the array in place. *)
Definition sweep (test : option A -> bool) h (s : slice) : list (list (option A)) :=
  let arr := array_at h (sl_arr s) in
  set_array h (sl_arr s)
    (((fun x => if test x then None else x) <$> take (sl_len s) arr)
       ++ drop (sl_len s) arr).

Lemma sweep_heap test h s : length (sweep test h s) = length h.
Proof. unfold sweep, set_array. apply length_insert. Qed.

Lemma sweep_elems test h s :
  slice_wf h s ->
  elems (sweep test h s) s = (fun x => if test x then None else x) <$> elems h s.
Proof.
  intros Hwf. pose proof (length_elems h s Hwf) as Hlen.
  destruct Hwf as [Hle [H0|(arr & Ha & Hl)]].
  - unfold elems. assert (sl_len s = 0) as -> by lia. done.
  - assert (sl_arr s < length h) by (by eapply lookup_lt_Some).
    unfold elems, sweep, array_at, set_array in *. rewrite Ha in *. simpl in *.
    rewrite list_lookup_insert_eq by done. simpl.
    apply take_app_length'. by rewrite length_fmap.
Qed.

Lemma sweep_frame test h s t :
  slice_wf h s -> slice_wf h t -> sl_arr t <> sl_arr s -> elems (sweep test h s) t = elems h t.
Proof.
  intros _ _ Hne. unfold elems, sweep, array_at, set_array.
  by rewrite list_lookup_insert_ne by done.
Qed.

Lemma sweep_wf test h s t :
  slice_wf h t -> slice_wf (sweep test h s) t.
Proof.
  intros [Hle [H0|(arr & Ha & Hl)]]; (split; [done|]); [by left|right].
  assert (sl_arr t < length h) by (by eapply lookup_lt_Some).
  unfold sweep, set_array, array_at. destruct (decide (sl_arr t = sl_arr s)) as [Heq|Hne].
  - rewrite Heq in *. rewrite list_lookup_insert_eq by done. eexists; split; [done|].
    rewrite Ha. simpl. rewrite length_app, length_fmap, <- length_app, take_drop. done.
  - rewrite list_lookup_insert_ne by done. eauto.
Qed.
End Slices.

#[export] Hint Resolve nil_slice_wf append_wf sweep_wf : mhub.
