(* ===== verification/Wild.v ===== *)
(** * Topic filters (src/broker/wild.go)

    The parsed wildcard filter [wild], its validity test and the matching loop,
    with the declarative meaning of a filter ([filter_denotes]) and the proof that
    the loop decides it.  Connections are pointers, here of an arbitrary type. *)

From Stdlib Require Import Lia Ascii.
From stdpp Require Import base list strings numbers sets.
From S2P Require Import Prelude GoString.

Local Open Scope string_scope.
Local Open Scope list_scope.

(** [SLASH] of const.go. *)
Definition SLASH : ascii := "/"%char.

Record wild (conn : Type) := Wild {
  wild_wild : list string;
  wild_c : conn
}.
Arguments Wild {conn}.
Arguments wild_wild {conn}.
Arguments wild_c {conn}.

Definition newWild {conn} (topic : string) (c : conn) : wild conn :=
  Wild (Split topic SLASH) c.

Definition isWildcard (topic : string) : bool :=
  if Contains topic "#" || Contains topic "+" then true else false.

(** The loop of [valid] from index [i] on; [rest] is [w.wild[i:]] and [n] is
    [len(w.wild)]. *)
Fixpoint valid_from (n i : nat) (rest : list string) : bool :=
  match rest with
  | [] => true
  | part :: rest' =>
      if isWildcard part && negb (String.length part =? 1)%nat then false
      else if (part =s "#") && negb (i =? n - 1)%nat then false
      else valid_from n (S i) rest'
  end.

Definition valid {conn} (w : wild conn) : bool :=
  valid_from (length (wild_wild w)) 0 (wild_wild w).

(** The loop of [matches] at index [i]; [rest] is [parts[i:]].  The loop is left
    with a verdict, or at the end of [parts] with the final value of [i]. *)
Fixpoint matches_from (ws : list string) (i : nat) (rest : list string) : bool :=
  match rest with
  | part :: rest' =>
      match ws !! i with
      | None => false
      | Some w =>
          if w =s "#" then true
          else if negb (part =s w) && negb (w =s "+") then false
          else matches_from ws (S i) rest'
      end
  | [] =>
      if (i =? length ws - 1)%nat && (default "" (last ws) =s "#") then true
      else (i =? length ws)%nat
  end.

Definition matches {conn} (w : wild conn) (parts : list string) : bool :=
  matches_from (wild_wild w) 0 parts.

(** ** What a filter means *)

(** A level of a filter covers a level of a topic: [+] covers any, another level
    only itself. *)
Definition level_covers (w part : string) : Prop := w = "+" \/ w = part.

(** [filter_denotes ws parts]: the topic levels [parts] belong to the filter
    [ws]; a final [#] stands for any number of further levels, none included. *)
Inductive filter_denotes : list string -> list string -> Prop :=
| fd_end : filter_denotes [] []
| fd_rest parts : filter_denotes ["#"] parts
| fd_level w ws part parts :
    w <> "#" -> level_covers w part ->
    filter_denotes ws parts -> filter_denotes (w :: ws) (part :: parts).

(** A well-formed filter: a level with a wildcard character is that character
    alone, and [#] is only the last level. *)
Definition level_ok (w : string) : Prop :=
  ("#"%char ∈ chars w \/ "+"%char ∈ chars w) -> w = "#" \/ w = "+".

Definition filter_ok (ws : list string) : Prop :=
  Forall level_ok ws /\ (forall i, ws !! i = Some "#" -> S i = length ws).

(** ** Lemmas *)

Lemma isWildcard_spec s :
  isWildcard s = true <-> "#"%char ∈ chars s \/ "+"%char ∈ chars s.
Proof.
  unfold isWildcard. rewrite <- !Contains_char.
  destruct (Contains s "#"), (Contains s "+"); naive_solver.
Qed.

Lemma isWildcard_false s :
  isWildcard s = false <-> ("#"%char ∉ chars s) /\ ("+"%char ∉ chars s).
Proof. rewrite <- not_true_iff_false, isWildcard_spec. tauto. Qed.

Lemma length_one_char s : String.length s = 1 -> exists c, s = String c "".
Proof. destruct s as [|c [|d s]]; simpl; try discriminate. by exists c. Qed.

Lemma level_ok_test w :
  isWildcard w && negb (String.length w =? 1)%nat = false <-> level_ok w.
Proof.
  unfold level_ok. rewrite <- isWildcard_spec, andb_false_iff, negb_false_iff, Nat.eqb_eq. split.
  - intros [H|H] Hw; [congruence|].
    destruct (length_one_char _ H) as [c ->]. apply isWildcard_spec in Hw. simpl in Hw.
    rewrite !list_elem_of_singleton in Hw. destruct Hw as [<-|<-]; auto.
  - intros H. destruct (isWildcard w) eqn:E; [right|by left].
    by destruct (H eq_refl) as [->| ->].
Qed.

Lemma valid_from_spec n i rest :
  n = i + length rest ->
  valid_from n i rest = true <->
  Forall level_ok rest /\ (forall j, rest !! j = Some "#" -> S j = length rest).
Proof.
  revert i. induction rest as [|w rest IH]; intros i Hn; simpl in *.
  - split; [|done]. intros _. split; [constructor|]. intros j H. by rewrite lookup_nil in H.
  - destruct (isWildcard w && negb (String.length w =? 1)%nat) eqn:E1.
    { split; [done|]. intros [H _]. apply Forall_cons in H as [H _].
      apply level_ok_test in H. congruence. }
    apply level_ok_test in E1.
    destruct ((w =s "#") && negb (i =? n - 1)%nat) eqn:E2.
    { split; [done|]. intros [_ H]. breflect. subst w. specialize (H 0 eq_refl). lia. }
    rewrite (IH (S i)) by lia. rewrite Forall_cons. split.
    + intros [Hl Hh]. split; [done|]. intros [|j] Hj; simpl in *.
      * injection Hj as ->. apply andb_false_iff in E2 as [E2|E2]; breflect; [done|lia].
      * by rewrite (Hh j Hj).
    + intros [[_ Hl] Hh]. split; [done|]. intros j Hj. specialize (Hh (S j) Hj). lia.
Qed.

Lemma valid_spec {conn} (w : wild conn) : valid w = true <-> filter_ok (wild_wild w).
Proof. unfold valid. rewrite valid_from_spec by done. done. Qed.

(** The matching loop looks at the filter from index [i] on only. *)
Lemma matches_from_spec ws i rest :
  filter_ok ws -> i <= length ws ->
  matches_from ws i rest = true <-> filter_denotes (drop i ws) rest.
Proof.
  intros [Hlev Hhash] Hi. revert i Hi. induction rest as [|part rest IH]; intros i Hi; simpl.
  - destruct (drop i ws) as [|w tl] eqn:Ed.
    + assert (i = length ws) as -> by (apply (f_equal length) in Ed; rewrite length_drop in Ed;
                                       simpl in Ed; lia).
      split; [intros _; constructor|]. intros _. rewrite Nat.eqb_refl. by case_goal.
    + destruct (skipn_cons_lookup _ _ _ _ Ed) as [Hw Htl].
      assert (i < length ws) as Hlt by (by eapply lookup_lt_Some).
      destruct (i =? length ws)%nat eqn:E1; breflect; [lia|]. split.
      * destruct (_ && _) eqn:E2; [|done]. intros _. breflect.
        assert (tl = []) as ->.
        { apply nil_length_inv. rewrite <- Htl, length_drop. lia. }
        rewrite last_lookup in H0. replace (pred (length ws)) with i in H0 by lia.
        rewrite Hw in H0. simpl in H0. subst w. constructor.
      * intros Hd. inversion Hd; subst. apply Hhash in Hw.
        rewrite last_lookup. replace (pred (length ws)) with i by lia.
        replace (length ws - 1)%nat with i by lia. rewrite Nat.eqb_refl.
        rewrite <- (Nat.add_0_r i), <- lookup_drop, Ed. done.
  - destruct (ws !! i) as [w|] eqn:Ew.
    + assert (i < length ws) as Hlt by (by eapply lookup_lt_Some).
      rewrite (drop_S _ _ _ Ew). destruct (w =s "#") eqn:E1; breflect.
      * subst w. split; [|done]. intros _. pose proof (Hhash _ Ew).
        rewrite drop_ge by lia. constructor.
      * destruct (negb (part =s w) && negb (w =s "+")) eqn:E2.
        -- split; [done|]. intros Hd. breflect. inversion Hd as [| |? ? ? ? ? Hc]; subst; [done|].
           destruct Hc; congruence.
        -- rewrite IH by lia. apply andb_false_iff in E2. split.
           ++ intros Hd. constructor; [done| |done].
              unfold level_covers. destruct E2; breflect; auto.
           ++ intros Hd. by inversion Hd.
    + apply lookup_ge_None in Ew. rewrite drop_ge by lia.
      split; [done|]. intros Hd. inversion Hd.
Qed.

(** The levels of a topic without wildcard characters are literal. *)
Lemma not_wildcard_levels topic w :
  isWildcard topic = false -> w ∈ Split topic SLASH ->
  isWildcard w = false /\ w <> "#" /\ w <> "+".
Proof.
  intros Ht Hw. assert (isWildcard w = false) as Hf.
  { apply isWildcard_false in Ht as [H1 H2]. apply isWildcard_false.
    split; intros Hin; [apply H1|apply H2];
      apply (elem_of_chars_Split _ _ SLASH); (done || eauto). }
  split; [done|]. split; intros ->; discriminate.
Qed.

Lemma literal_filter_ok topic :
  isWildcard topic = false -> filter_ok (Split topic SLASH).
Proof.
  intros Ht. split.
  - apply Forall_forall. intros w Hw.
    destruct (not_wildcard_levels _ _ Ht Hw) as [Hf _].
    apply level_ok_test. by rewrite Hf.
  - intros i Hi. apply list_elem_of_lookup_2 in Hi.
    by destruct (not_wildcard_levels _ _ Ht Hi) as (_ & ? & _).
Qed.

Lemma literal_denotes ws parts :
  Forall (fun w => w <> "#" /\ w <> "+") ws -> filter_denotes ws parts <-> ws = parts.
Proof.
  intros Hl. split.
  - intros Hd. induction Hd as [|parts|w ws part parts Hw Hc Hd IH]; [done| |].
    + by apply Forall_cons in Hl as [[? _] _].
    + apply Forall_cons in Hl as [[_ Hp] Hl]. destruct Hc as [|<-]; [done|].
      f_equal. by apply IH.
  - intros <-. induction Hl as [|w ws [? ?] _ IH]; constructor; [done|by right|done].
Qed.

(** The meaning of a filter is decidable, by recursion on the filter. *)
Fixpoint denotes_test (ws parts : list string) : bool :=
  match ws with
  | [] => match parts with [] => true | _ => false end
  | w :: ws' =>
      if w =s "#" then match ws' with [] => true | _ => false end
      else match parts with
           | [] => false
           | part :: parts' => ((w =s "+") || (w =s part)) && denotes_test ws' parts'
           end
  end.

Lemma denotes_test_spec ws parts : denotes_test ws parts = true <-> filter_denotes ws parts.
Proof.
  revert parts. induction ws as [|w ws IH]; intros parts; simpl.
  - destruct parts; split; try done; [constructor|]. by inversion 1.
  - destruct (w =s "#") eqn:E; breflect.
    + subst. destruct ws; split; try done; [constructor|]. by inversion 1.
    + destruct parts as [|part parts].
      * split; [done|]. inversion 1; done.
      * rewrite andb_true_iff, orb_true_iff, !String.eqb_eq, IH. split.
        -- intros [Hc Hd]. by constructor.
        -- inversion 1; subst; done.
Qed.

#[export] Instance filter_denotes_dec ws parts : Decision (filter_denotes ws parts).
Proof.
  destruct (denotes_test ws parts) eqn:E; [left|right; rewrite <- denotes_test_spec];
    [by apply denotes_test_spec|congruence].
Defined.

(** ** Properties *)

(** C11: the matching loop [matches] decides the meaning of a filter.  For every
    filter that [valid] accepts and every list of topic levels, the loop answers
    true exactly when the levels belong to the filter, where [+] covers one level
    and a final [#] covers all the remaining ones, none included. *)
Theorem matches_decides_filter {conn} (w : wild conn) (parts : list string)
    (Hvalid : valid w = true) :
  matches w parts = true <-> filter_denotes (wild_wild w) parts.
Proof.
  unfold matches. rewrite matches_from_spec; [by rewrite drop_0| |lia].
  by apply valid_spec.
Qed.

Lemma matches_decides_filter_witness :
  valid (newWild "abc/+/#" tt) = true /\
  (matches (newWild "abc/+/#" tt) ["abc"; "x"; "y"] = true <->
   filter_denotes ["abc"; "+"; "#"] ["abc"; "x"; "y"]).
Proof.
  split; [reflexivity|]. exact (matches_decides_filter (newWild "abc/+/#" tt) _ eq_refl).
Defined.

(** For a topic without wildcard characters the two lookups of
    [subscriptions] agree: read as a filter it is valid and matches exactly the
    topic of the same name. *)
Theorem literal_filter_matches_itself {conn} (topic other : string) (c : conn)
    (Hlit : isWildcard topic = false) :
  valid (newWild topic c) = true /\
  (matches (newWild topic c) (Split other SLASH) = true <-> other = topic).
Proof.
  pose proof (literal_filter_ok _ Hlit) as Hok.
  split; [by apply valid_spec|].
  unfold matches. rewrite matches_from_spec by (done || lia). rewrite drop_0.
  rewrite literal_denotes.
  - split; [|by intros ->]. intros H. symmetry. by apply (Split_inj _ _ SLASH).
  - apply Forall_forall. intros w Hw. by destruct (not_wildcard_levels _ _ Hlit Hw).
Qed.

Lemma literal_filter_matches_itself_witness :
  isWildcard "a/b" = false /\
  valid (newWild "a/b" tt) = true /\
  (matches (newWild "a/b" tt) (Split "a/c" SLASH) = true <-> "a/c" = "a/b").
Proof.
  split; [reflexivity|]. exact (literal_filter_matches_itself "a/b" "a/c" tt eq_refl).
Defined.

(** The cases of wild_test.go. *)
Example wild_test :
  valid (newWild "ab/c/x" tt) = true /\
  valid (newWild "abc/finance+" tt) = false /\
  matches (newWild "abc/#" tt) (Split "abc/d/e/f/g" SLASH) = true /\
  matches (newWild "abc/#" tt) (Split "m/q/w/e" SLASH) = false /\
  matches (newWild "abc/+/c" tt) (Split "abc/d/c" SLASH) = true /\
  matches (newWild "abc/+/c" tt) (Split "abc/xxxx/c" SLASH) = true /\
  matches (newWild "abc/+/c" tt) (Split "abc/d/e/c" SLASH) = false /\
  isWildcard "a/b/+/c" = true /\ isWildcard "SYS/broker/conns/#" = true.
Proof. repeat split. Qed.
