(* ===== verification/Config.v ===== *)
(** * Configuration (src/config)

    The configuration records and how they are read.  The parsed file is a value
    of the jsconf package, which is not part of the repository: here a record of
    its four typed accessors, each with the default the caller gives. *)

From Stdlib Require Import ZArith Lia.
From stdpp Require Import base list strings numbers.
From S2P Require Import Prelude GoProc.

Local Open Scope string_scope.
Local Open Scope Z_scope.

(** Durations are in nanoseconds, as [time.Duration]. *)
Definition Millisecond : Z := 1000000.
Definition Second : Z := 1000 * Millisecond.
Definition Minute : Z := 60 * Second.

Definition BufferOverflowBlock : string := "block".
Definition BufferOverflowDiscard : string := "discard".

Record BrokerConfig := {
  ListenAddr : string;
  TlsListenAddr : string;
  TlsServerCert : string;
  TlsServerKey : string;
  EnablePresence : bool;
  StatsInterval : Z;
  MaxConnections : Z;
  IOTimeout : Z;
  Echo : bool;
  BuffOverflowStrategy : string;
  StatsHttpListenAddr : string;
  ProfHttpListenAddr : string;
  AllowAnonymousConnect : bool;
  ClientOutboundQueueLen : Z;
  ClientSlowThreshold : Z;
  SubscriptionsWorkers : Z;
  SubscriptionsQueueLen : Z;
  ClientMaxSubscriptions : Z;
  ClientMaxPublishPerMinute : Z
}.

Record PeersConfig := {
  SelfId : Z;                     (* uint16 *)
  PeersListenAddr : string;
  TcpNoDelay : bool;
  Keepalive : bool;
  PeersIoTimeout : Z;
  PeersEcho : bool;
  QueueLen : Z;
  PeersBuffOverflowStrategy : string
}.

Record RedisConfig := {
  RedisServer : string;
  MaxIdle : Z;
  IdleTimeout : Z
}.

Record Config := {
  Broker : BrokerConfig;
  Peers : PeersConfig;
  Redis : RedisConfig
}.

(** The zero values of Go. *)
Definition zero_BrokerConfig : BrokerConfig :=
  Build_BrokerConfig "" "" "" "" false 0 0 0 false "" "" "" false 0 0 0 0 0 0.
Definition zero_PeersConfig : PeersConfig :=
  Build_PeersConfig 0 "" false false 0 false 0 "".
Definition zero_RedisConfig : RedisConfig := Build_RedisConfig "" 0 0.

(** A section of a jsconf file. *)
Record Conf := {
  conf_String : string -> string -> string;
  conf_Bool : string -> bool -> bool;
  conf_Int : string -> Z -> Z;
  conf_Duration : string -> Z -> Z
}.

Definition BrokerConfig_loadConfig (cf : Conf) : BrokerConfig + panic :=
  let listen := conf_String cf "listen_addr" "" in
  let tls := conf_String cf "tls_listen_addr" "" in
  let with_tls := negb (tls =s "") in
  let this := {|
    ListenAddr := listen;
    TlsListenAddr := tls;
    TlsServerCert := if with_tls then conf_String cf "tls_server_cert" "server.crt" else "";
    TlsServerKey := if with_tls then conf_String cf "tls_server_key" "server.key" else "";
    EnablePresence := conf_Bool cf "enable_presence" false;
    StatsHttpListenAddr := conf_String cf "stats_http_listen_addr" "";
    StatsInterval := conf_Duration cf "stats_interval" (10 * Minute);
    ProfHttpListenAddr := conf_String cf "prof_http_listen_addr" "";
    Echo := conf_Bool cf "echo" false;
    SubscriptionsWorkers := conf_Int cf "subscriptions_workers" 10;
    SubscriptionsQueueLen := conf_Int cf "subscriptions_queue_len" 500;
    AllowAnonymousConnect := conf_Bool cf "allow_anonymous" false;
    MaxConnections := conf_Int cf "max_connections" 50000;
    IOTimeout := conf_Duration cf "io_timeout" (Second * 5);
    ClientOutboundQueueLen := conf_Int cf "client_outbound_queue_len" 100;
    ClientSlowThreshold := conf_Duration cf "client_slow_threshold" (Millisecond * 100);
    BuffOverflowStrategy := conf_String cf "buffer_overflow_strategy" BufferOverflowBlock;
    ClientMaxSubscriptions := conf_Int cf "client_max_subscriptions" 20;
    ClientMaxPublishPerMinute := conf_Int cf "client_max_publish_per_minute" 60
  |} in
  if (ListenAddr this =s "") && (TlsListenAddr this =s "")
  then inr (UserPanic "Empty listen address and tls listen address")
  else inl this.

Definition PeersConfig_loadConfig (cf : Conf) : PeersConfig := {|
  SelfId := to_uint16 (conf_Int cf "self_id" 1);
  PeersListenAddr := conf_String cf "listen_addr" ":9090";
  Keepalive := conf_Bool cf "keepalive" true;
  TcpNoDelay := conf_Bool cf "tcp_nodelay" true;
  PeersIoTimeout := conf_Duration cf "io_timeout" (Second * 10);
  PeersEcho := conf_Bool cf "echo" false;
  QueueLen := conf_Int cf "queue_len" 1000;
  PeersBuffOverflowStrategy := conf_String cf "buffer_overflow_strategy" BufferOverflowBlock
|}.

Definition RedisConfig_loadConfig (cf : Conf) : RedisConfig := {|
  RedisServer := conf_String cf "server" "";
  MaxIdle := conf_Int cf "max_idle" 5;
  IdleTimeout := conf_Duration cf "idle_timeout" (Second * 360)
|}.

(** [LoadConfig(cf)]; [section] is [cf.Section], [None] when it returns an error:
    the part of a missing section keeps its zero value. *)
Definition LoadConfig (section : string -> option Conf) : Config + panic :=
  let broker :=
    match section "broker" with
    | Some cf => BrokerConfig_loadConfig cf
    | None => inl zero_BrokerConfig
    end in
  match broker with
  | inr w => inr w
  | inl b =>
      inl {| Broker := b;
             Peers := match section "peers" with
                      | Some cf => PeersConfig_loadConfig cf
                      | None => zero_PeersConfig
                      end;
             Redis := match section "redis" with
                      | Some cf => RedisConfig_loadConfig cf
                      | None => zero_RedisConfig
                      end |}
  end.

(** Where [Server.startListener] listens. *)
Inductive listen_on :=
| PlainTcp (addr : string)
| TlsTcp (addr cert key : string).

(** [Server.startListener] up to the listen call: the plain address wins. *)
Definition startListener (b : BrokerConfig) : listen_on :=
  if negb (ListenAddr b =s "") then PlainTcp (ListenAddr b)
  else TlsTcp (TlsListenAddr b) (TlsServerCert b) (TlsServerKey b).

(** ** Properties *)

(** Loading the broker section raises the panic of the source exactly when
    both listen addresses are empty; otherwise it returns a record with at least
    one address, a listener on a non-empty address, and TLS files named exactly
    when the TLS address is. *)
Theorem broker_config_validated (cf : Conf) :
  match BrokerConfig_loadConfig cf with
  | inr w =>
      w = UserPanic "Empty listen address and tls listen address" /\
      conf_String cf "listen_addr" "" = "" /\ conf_String cf "tls_listen_addr" "" = ""
  | inl b =>
      match startListener b with
      | PlainTcp a => a = conf_String cf "listen_addr" "" /\ a <> ""
      | TlsTcp a c k =>
          conf_String cf "listen_addr" "" = "" /\ a <> "" /\
          c = conf_String cf "tls_server_cert" "server.crt" /\
          k = conf_String cf "tls_server_key" "server.key"
      end
  end.
Proof.
  unfold BrokerConfig_loadConfig, startListener. simpl.
  destruct (conf_String cf "listen_addr" "" =s "") eqn:E1; simpl; breflect.
  - destruct (conf_String cf "tls_listen_addr" "" =s "") eqn:E2; simpl; breflect; [done|].
    rewrite E1. done.
  - destruct (conf_String cf "listen_addr" "" =s "") eqn:E2; breflect; done.
Qed.
