(* ===== verification/Proto.v ===== *)
(** * MQTT messages

    The message types of the mqttmsg package, which is not part of the
    repository: for each type the fields that the broker reads or writes.  What
    the package computes is a parameter: the payload type with its [Size], and
    the [Bytes] of a message. *)

From Stdlib Require Import ZArith.
From stdpp Require Import base list strings numbers.
From S2P Require Import Prelude.

Local Open Scope string_scope.

(** [proto.Payload] with its [Size] method. *)
Class Mqttmsg := {
  Payload : Type;
  Payload_Size : Payload -> Z
}.

Inductive QosLevel :=
| QosAtMostOnce
| QosAtLeastOnce
| QosExactlyOnce
| QosInvalid (n : N).

#[export] Instance QosLevel_eq_dec : EqDecision QosLevel.
Proof. solve_decision. Defined.

Inductive ReturnCode :=
| RetCodeAccepted
| RetCodeUnacceptableProtocolVersion
| RetCodeIdentifierRejected
| RetCodeServerUnavailable
| RetCodeBadUsernameOrPassword
| RetCodeNotAuthorized.

#[export] Instance ReturnCode_eq_dec : EqDecision ReturnCode.
Proof. solve_decision. Defined.

Record Header := {
  DupFlag : bool;
  Qos : QosLevel;
  Retain : bool
}.

Record Connect := {
  ProtocolName : string;
  ProtocolVersion : N;
  ClientId : string;
  CleanSession : bool;
  KeepAliveTimer : Z;      (* uint16, seconds *)
  UsernameFlag : bool;
  PasswordFlag : bool;
  Username : string;
  Password : string;
  WillFlag : bool
}.

Section Messages.
Context `{Mqttmsg}.

Record Publish := {
  PubHeader : Header;
  TopicName : string;
  MessageId : N;         (* uint16 *)
  PubPayload : Payload
}.

(** [m.Header.Retain = b] *)
Definition set_Retain (b : bool) (m : Publish) : Publish := {|
  PubHeader := {| DupFlag := DupFlag (PubHeader m);
                  Qos := Qos (PubHeader m);
                  Retain := b |};
  TopicName := TopicName m;
  MessageId := MessageId m;
  PubPayload := PubPayload m
|}.

(** [proto.Message].  A PUBLISH is the one message that several goroutines
    share and that is written after it was built, so its representation [P] is
    left open: a pointer in the broker, a value on the wire. *)
Inductive Message (P : Type) :=
| MConnect (m : Connect)
| MConnAck (rc : ReturnCode)
| MPublish (p : P)
| MPubAck (qos : QosLevel) (mid : N)
| MSubscribe (mid : N) (topics : list (string * QosLevel))
| MSubAck (mid : N) (qos : list QosLevel)
| MUnsubscribe (mid : N) (topics : list string)
| MUnsubAck (mid : N)
| MPingReq
| MPingResp
| MDisconnect
| MOther (kind : N).     (* PUBREC, PUBREL, PUBCOMP *)

End Messages.
Arguments MConnect {P} m.
Arguments MConnAck {P} rc.
Arguments MPublish {P} p.
Arguments MPubAck {P} qos mid.
Arguments MSubscribe {P} mid topics.
Arguments MSubAck {P} mid qos.
Arguments MUnsubscribe {P} mid topics.
Arguments MUnsubAck {P} mid.
Arguments MPingReq {P}.
Arguments MPingResp {P}.
Arguments MDisconnect {P}.
Arguments MOther {P} kind.

(** The message with its PUBLISH representation replaced: reading through the
    pointer, or allocating. *)
Definition Message_map {P Q : Type} (f : P -> Q) (m : Message P) : Message Q :=
  match m with
  | MConnect m => MConnect m
  | MConnAck rc => MConnAck rc
  | MPublish p => MPublish (f p)
  | MPubAck q mid => MPubAck q mid
  | MSubscribe mid ts => MSubscribe mid ts
  | MSubAck mid qs => MSubAck mid qs
  | MUnsubscribe mid ts => MUnsubscribe mid ts
  | MUnsubAck mid => MUnsubAck mid
  | MPingReq => MPingReq
  | MPingResp => MPingResp
  | MDisconnect => MDisconnect
  | MOther k => MOther k
  end.

(** ** The other packages the broker calls *)

(** [m.Bytes()] of mqttmsg, and the leaky bucket of golib/ratelimiter: its
    state, its constructor (capacity and drain period) and [Pour] at a given
    time. *)
Class Extern `{Mqttmsg} := {
  msg_Bytes : Message Publish -> Z;
  LeakyBucket : Type;
  NewLeakyBucket : Z -> Z -> LeakyBucket;
  Pour : LeakyBucket -> Z -> Z -> bool * LeakyBucket
}.

(** ** A concrete instance, for evaluating the model *)

Definition bytes_mqttmsg : Mqttmsg := {|
  Payload := string;
  Payload_Size := fun p => Z.of_nat (String.length p)
|}.

(** A bucket that never drains, and messages counted as one byte each. *)
Definition plain_extern : @Extern bytes_mqttmsg := {|
  msg_Bytes := fun _ => 1%Z;
  LeakyBucket := Z;
  NewLeakyBucket := fun cap _ => cap;
  Pour := fun room _ n => if (n <=? room)%Z then (true, (room - n)%Z) else (false, room)
|}.
