(* ===== verification/Store.v ===== *)
(** * In-flight message stores (src/broker/store.go, src/broker/memstore.go)

    The [Store] interface as a class of operations with its laws, the
    [MemoryStore] that implements it, the keys of stored messages, the rules that
    say which messages are persisted, and the registry of stores by client id. *)

From Stdlib Require Import ZArith Lia Ascii.
From stdpp Require Import base gmap list strings numbers sets.
From S2P Require Import Prelude GoString GoSlice Proto.

Local Open Scope string_scope.

(** ** The Store interface *)

Class Store (St M : Type) := {
  Open : St -> St;
  Put : string -> M -> St -> St;
  Get : string -> St -> option M;      (* [None]: the nil message *)
  All : St -> list string;
  Del : string -> St -> St;
  Close : St -> St;
  Reset : St -> St
}.

(** What the broker relies on. *)
Class StoreLaws (St M : Type) `{Store St M} := {
  Get_Put k k' m st : Get k' (Put k m st) = if decide (k = k') then Some m else Get k' st;
  Get_Del k k' st : Get k' (Del k st) = if decide (k = k') then None else Get k' st;
  Get_Reset k st : Get k (Reset st) = None;
  Get_Open k st : Get k (Open st) = Get k st;
  Get_Close k st : Get k (Close st) = Get k st;
  elem_of_All k st : k ∈ All st <-> is_Some (Get k st);
  NoDup_All st : NoDup (All st)
}.

(** ** MemoryStore *)

Record MemoryStore (M : Type) := MkMemoryStore {
  ms_messages : gmap string M;
  ms_opened : bool
}.
Arguments MkMemoryStore {M}.
Arguments ms_messages {M}.
Arguments ms_opened {M}.

Module Memory.
Section Memory.
Context `{GoRuntime} {M : Type}.
Implicit Types st : MemoryStore M.

Definition NewMemoryStore : MemoryStore M := MkMemoryStore ∅ false.

Definition Open st := MkMemoryStore (ms_messages st) true.

Definition Put (key : string) (message : M) st :=
  MkMemoryStore (<[key := message]> (ms_messages st)) (ms_opened st).

Definition Get (key : string) st : option M := ms_messages st !! key.

(** The keys, in the order the run time visits the map. *)
Definition All st : list string := range_order ((map_to_list (ms_messages st)).*1).

Definition Del (key : string) st :=
  MkMemoryStore (delete key (ms_messages st)) (ms_opened st).

Definition Close st := MkMemoryStore (ms_messages st) false.

Definition Reset st := MkMemoryStore (∅ : gmap string M) (ms_opened st).
End Memory.
End Memory.

#[export] Instance MemoryStore_Store `{GoRuntime} {M} : Store (MemoryStore M) M := {|
  Open := Memory.Open;
  Put := Memory.Put;
  Get := Memory.Get;
  All := Memory.All;
  Del := Memory.Del;
  Close := Memory.Close;
  Reset := Memory.Reset
|}.

Lemma elem_of_range_order `{GoRuntime} {A} (x : A) (l : list A) :
  x ∈ range_order l <-> x ∈ l.
Proof. by rewrite range_order_perm. Qed.

Lemma MemoryStore_All_elem `{GoRuntime} {M} (st : MemoryStore M) k :
  k ∈ Memory.All st <-> is_Some (Memory.Get k st).
Proof.
  unfold Memory.All, Memory.Get. rewrite elem_of_range_order, list_elem_of_fmap. split.
  - intros ([k' m] & -> & Hin). apply elem_of_map_to_list in Hin. simpl. eauto.
  - intros [m Hm]. exists (k, m). split; [done|]. by apply elem_of_map_to_list.
Qed.

#[export] Instance MemoryStore_laws `{GoRuntime} {M} : StoreLaws (MemoryStore M) M.
Proof.
  split; simpl; unfold Memory.Get, Memory.Put, Memory.Del, Memory.Reset, Memory.Open,
                       Memory.Close; simpl.
  - intros. apply lookup_insert.
  - intros. apply lookup_delete.
  - intros. apply lookup_empty.
  - done.
  - done.
  - intros. apply MemoryStore_All_elem.
  - intros st. unfold Memory.All. rewrite range_order_perm. apply NoDup_fst_map_to_list.
Qed.

(** ** Keys *)

Definition IBOUND_PREFIX : string := "i.".
Definition OBOUND_PREFIX : string := "o.".

Definition ibound_mid2key (mid : N) : string := IBOUND_PREFIX +:+ Itoa mid.
Definition obound_mid2key (mid : N) : string := OBOUND_PREFIX +:+ Itoa mid.

(** [key[2:]]: [None] is the slice-bounds panic on a shorter key. *)
Definition key_tail (key : string) : option string :=
  if (2 <=? String.length key)%nat
  then Some (String.substring 2 (String.length key - 2) key) else None.

Definition key2mid (key : string) : option N :=
  t ← key_tail key; Some (Z.to_N (to_uint16 (fst (Atoi t)))).

(** ** Which messages are persisted *)

(** The call on the store that a persist rule makes, if it makes one. *)
Inductive store_call (M : Type) :=
| CallPut (key : string) (m : M)
| CallDel (key : string).
Arguments CallPut {M}.
Arguments CallDel {M}.

Definition run_call {St M} `{Store St M} (call : option (store_call M)) (s : St) : St :=
  match call with
  | None => s
  | Some (CallPut k m) => Put k m s
  | Some (CallDel k) => Del k s
  end.

Section Persist.
Context `{Mqttmsg} {M : Type}.

(** [persist_outbound(s, m)]: [v] is what the message holds, [m] the message
    itself, which is what the store keeps. *)
Definition persist_outbound_call (v : Message Publish) (m : M) : option (store_call M) :=
  match v with
  | MPublish p =>
      if decide (Qos (PubHeader p) = QosAtLeastOnce)
      then Some (CallPut (obound_mid2key (MessageId p)) m) else None
  | MPubAck _ mid => Some (CallDel (ibound_mid2key mid))
  | _ => None
  end.

(** [persist_inbound(s, m)] *)
Definition persist_inbound_call (v : Message Publish) (m : M) : option (store_call M) :=
  match v with
  | MPublish p =>
      if decide (Qos (PubHeader p) = QosAtLeastOnce)
      then Some (CallPut (ibound_mid2key (MessageId p)) m) else None
  | MPubAck _ mid => Some (CallDel (obound_mid2key mid))
  | _ => None
  end.

Context {St : Type} `{Store St M}.

Definition persist_outbound (s : St) (v : Message Publish) (m : M) : St :=
  run_call (persist_outbound_call v m) s.
Definition persist_inbound (s : St) (v : Message Publish) (m : M) : St :=
  run_call (persist_inbound_call v m) s.
End Persist.

(** ** The registry of client stores *)

(** [clientStores], with the stores it points to: a store is shared by all the
    connections of a client id. *)
Record registry (St : Type) := Registry {
  clientStores : gmap string nat;
  store_heap : list St
}.
Arguments Registry {St}.
Arguments clientStores {St}.
Arguments store_heap {St}.

Definition getClientStore {St} (new : St) (clientId : string) (r : registry St)
    : registry St * nat :=
  match clientStores r !! clientId with
  | Some p => (r, p)
  | None =>
      let p := length (store_heap r) in
      (Registry (<[clientId := p]> (clientStores r)) (store_heap r ++ [new]), p)
  end.

Definition delClientStore {St} (clientId : string) (r : registry St) : registry St :=
  Registry (delete clientId (clientStores r)) (store_heap r).

Definition registry_wf {St} (r : registry St) : Prop :=
  (forall id p, clientStores r !! id = Some p -> p < length (store_heap r)) /\
  (forall id id' p, clientStores r !! id = Some p -> clientStores r !! id' = Some p -> id = id').

(** ** Lemmas *)

Lemma registry_wf_empty {St} : registry_wf (Registry (∅ : gmap string nat) ([] : list St)).
Proof. split; intros *; simpl; rewrite lookup_empty; discriminate. Qed.

Lemma key_tail_ibound mid : key_tail (ibound_mid2key mid) = Some (Itoa mid).
Proof.
  unfold key_tail, ibound_mid2key. rewrite string_length_app. simpl.
  by rewrite Nat.sub_0_r, substring_0_all.
Qed.

Lemma key_tail_obound mid : key_tail (obound_mid2key mid) = Some (Itoa mid).
Proof.
  unfold key_tail, obound_mid2key. rewrite string_length_app. simpl.
  by rewrite Nat.sub_0_r, substring_0_all.
Qed.

Lemma ibound_obound_ne m m' : ibound_mid2key m <> obound_mid2key m'.
Proof. discriminate. Qed.

Lemma ibound_mid2key_inj m m' : ibound_mid2key m = ibound_mid2key m' -> m = m'.
Proof. intros Heq. apply Itoa_inj. by apply (string_app_inj_l IBOUND_PREFIX). Qed.

Lemma obound_mid2key_inj m m' : obound_mid2key m = obound_mid2key m' -> m = m'.
Proof. intros Heq. apply Itoa_inj. by apply (string_app_inj_l OBOUND_PREFIX). Qed.

Lemma getClientStore_lookup {St} new id (r : registry St) :
  clientStores (getClientStore new id r).1 !! id = Some (getClientStore new id r).2.
Proof.
  unfold getClientStore. destruct (clientStores r !! id) as [p|] eqn:E; simpl; [done|].
  apply lookup_insert_eq.
Qed.

Lemma getClientStore_wf {St} new id (r : registry St) :
  registry_wf r -> registry_wf (getClientStore new id r).1.
Proof.
  intros [Hlt Hinj]. unfold getClientStore.
  destruct (clientStores r !! id) as [p|] eqn:E; [done|]. split; simpl.
  - intros id' p. rewrite lookup_insert, length_app. simpl.
    case_decide; intros Hp; [injection Hp as <-; lia|]. apply Hlt in Hp. lia.
  - intros id1 id2 p. rewrite !lookup_insert.
    repeat case_decide; intros H1 H2; subst; try done.
    + injection H1 as <-. apply Hlt in H2. lia.
    + injection H2 as <-. apply Hlt in H1. lia.
    + eauto.
Qed.

(** ** Properties *)

(** A key round trip.  For every 16-bit message id, [key2mid] recovers the id
    from the inbound and from the outbound key, so distinct ids have distinct
    keys in each direction, and no inbound key is an outbound key. *)
Theorem key_roundtrip (mid mid' : N) (Hmid : (mid < 65536)%N) :
  key2mid (ibound_mid2key mid) = Some mid /\
  key2mid (obound_mid2key mid) = Some mid /\
  (ibound_mid2key mid = ibound_mid2key mid' <-> mid = mid') /\
  (obound_mid2key mid = obound_mid2key mid' <-> mid = mid') /\
  ibound_mid2key mid <> obound_mid2key mid'.
Proof.
  unfold key2mid. rewrite key_tail_ibound, key_tail_obound. simpl.
  rewrite Atoi_Itoa by lia. simpl. rewrite to_uint16_id by lia. rewrite N2Z.id.
  split; [done|]. split; [done|].
  split; [split; [apply ibound_mid2key_inj|congruence]|].
  split; [split; [apply obound_mid2key_inj|congruence]|].
  apply ibound_obound_ne.
Qed.

Lemma key_roundtrip_witness :
  (65535 < 65536)%N /\ key2mid (ibound_mid2key 65535) = Some 65535%N.
Proof. split; [reflexivity|]. apply (key_roundtrip 65535 0). reflexivity. Defined.

(** The store of a QoS 1 publication, for any store that satisfies the
    interface.  Receiving a PUBLISH with QoS 1 records it under its inbound key
    and nothing else changes; sending the PUBACK with its id removes that record
    and nothing else changes; a message of another QoS is not recorded. *)
Theorem inbound_publication_persisted `{Mqttmsg} {M St : Type} `{StoreLaws St M}
    (s : St) (p : Publish) (m ack : M) (q : QosLevel) (k : string) :
  let mid := MessageId p in
  let s1 := persist_inbound s (MPublish p) m in
  let s2 := persist_outbound s1 (MPubAck q mid) ack in
  Get k s1 = (if decide (Qos (PubHeader p) = QosAtLeastOnce /\ k = ibound_mid2key mid)
              then Some m else Get k s) /\
  Get k s2 = (if decide (k = ibound_mid2key mid) then None else Get k s).
Proof.
  intros mid s1 s2. subst s1 s2. unfold persist_outbound, persist_inbound. simpl.
  rewrite Get_Del. destruct (decide (Qos _ = _)) as [Hq|Hq]; simpl;
    rewrite ?Get_Put; subst mid; repeat case_decide; naive_solver.
Qed.

Lemma inbound_publication_persisted_witness :
  let R := doubling_runtime in
  let p := @Build_Publish bytes_mqttmsg (Build_Header false QosAtLeastOnce false) "t" 7 "x" in
  let s : MemoryStore nat := Memory.NewMemoryStore in
  Get "i.7" (persist_inbound s (MPublish p) 3%nat) = Some 3%nat /\
  Get "i.7" (persist_outbound (H := bytes_mqttmsg) (persist_inbound s (MPublish p) 3%nat)
               (MPubAck QosAtMostOnce 7) 4%nat) = None.
Proof.
  intros R p s.
  destruct (@inbound_publication_persisted bytes_mqttmsg _ _ _ MemoryStore_laws
              s p 3%nat 4%nat QosAtMostOnce "i.7") as [H1 H2].
  split; [exact H1|exact H2].
Defined.

(** The store of an outgoing publication, for any store that satisfies the
    interface.  Sending a PUBLISH with QoS 1 records it under its outbound key;
    it is never confused with an inbound record, and the rule for a PUBACK that
    comes in ([persist_inbound]) removes it and nothing else. *)
Theorem outbound_publication_persisted `{Mqttmsg} {M St : Type} `{StoreLaws St M}
    (s : St) (p : Publish) (m ack : M) (q : QosLevel) (k : string) (mid' : N) :
  let mid := MessageId p in
  let s1 := persist_outbound s (MPublish p) m in
  let s2 := persist_inbound s1 (MPubAck q mid) ack in
  Get k s1 = (if decide (Qos (PubHeader p) = QosAtLeastOnce /\ k = obound_mid2key mid)
              then Some m else Get k s) /\
  Get (ibound_mid2key mid') s1 = Get (ibound_mid2key mid') s /\
  Get k s2 = (if decide (k = obound_mid2key mid) then None else Get k s).
Proof.
  intros mid s1 s2. subst s1 s2. unfold persist_outbound, persist_inbound. simpl.
  rewrite Get_Del. pose proof (ibound_obound_ne mid' mid).
  destruct (decide (Qos _ = _)) as [Hq|Hq]; simpl;
    rewrite ?Get_Put; subst mid; repeat case_decide; naive_solver.
Qed.

Lemma outbound_publication_persisted_witness :
  let R := doubling_runtime in
  let p := @Build_Publish bytes_mqttmsg (Build_Header false QosAtLeastOnce false) "t" 7 "x" in
  let s : MemoryStore nat := Memory.NewMemoryStore in
  Get "o.7" (persist_outbound s (MPublish p) 3%nat) = Some 3%nat /\
  Get "o.7" (persist_inbound (H := bytes_mqttmsg) (persist_outbound s (MPublish p) 3%nat)
               (MPubAck QosAtMostOnce 7) 4%nat) = None.
Proof.
  intros R p s.
  destruct (@outbound_publication_persisted bytes_mqttmsg _ _ _ MemoryStore_laws
              s p 3%nat 4%nat QosAtMostOnce "o.7" 7) as (H1 & _ & H2).
  split; [exact H1|exact H2].
Defined.

(** The registry of client stores.  [getClientStore] returns the store that
    is registered for the client id and keeps all other registrations; asking
    again returns the same store, two clients never share one, and only
    [delClientStore] makes the id forget its store. *)
Theorem client_store_stable {St : Type} (new : St) (id id' : string) (r : registry St)
    (Hwf : registry_wf r) :
  let r1 := (getClientStore new id r).1 in
  let p := (getClientStore new id r).2 in
  getClientStore new id r1 = (r1, p) /\
  registry_wf r1 /\
  (id' <> id -> clientStores r1 !! id' = clientStores r !! id' /\
                clientStores r1 !! id' <> Some p) /\
  (forall q st, store_heap r !! q = Some st -> store_heap r1 !! q = Some st) /\
  (clientStores r !! id = None -> store_heap r1 !! p = Some new) /\
  clientStores (delClientStore id r1) !! id = None.
Proof.
  pose proof (getClientStore_lookup new id r) as Hl.
  pose proof (getClientStore_wf new id r Hwf) as Hwf1.
  destruct (getClientStore new id r) as [r1 p] eqn:E. simpl in *.
  split; [unfold getClientStore; by rewrite Hl|]. split; [done|].
  split; [|split; [|split]].
  - intros Hne. split.
    + unfold getClientStore in E. destruct (clientStores r !! id); injection E as <- <-; [done|].
      by apply lookup_insert_ne.
    + intros Hp. apply Hne. by eapply (proj2 Hwf1).
  - intros q st Hq. unfold getClientStore in E.
    destruct (clientStores r !! id); injection E as <- <-; [done|].
    by apply lookup_app_l_Some.
  - intros Hn. unfold getClientStore in E. rewrite Hn in E. injection E as <- <-. simpl.
    apply last_snoc_lookup.
  - apply lookup_delete_eq.
Qed.

Lemma client_store_stable_witness :
  let r := Registry {["d" := 0%nat]} [false] in
  let r1 := (getClientStore true "c" r).1 in
  let p := (getClientStore true "c" r).2 in
  registry_wf r /\ p = 1%nat /\ getClientStore true "c" r1 = (r1, p).
Proof.
  assert (registry_wf (Registry {["d" := 0%nat]} [false])) as Hwf.
  { split; simpl.
    - intros id p Hp. apply lookup_singleton_Some in Hp as [_ <-]. lia.
    - intros id id' p Hp Hp'. apply lookup_singleton_Some in Hp as [<- _].
      by apply lookup_singleton_Some in Hp' as [<- _]. }
  split; [exact Hwf|]. split; [reflexivity|].
  exact (proj1 (client_store_stable true "c" "d" _ Hwf)).
Defined.
