(* ===== verification/Stats.v ===== *)
(** * Statistics (src/broker/stats.go)

    The shared counters with their atomic updates, the figures the reporting
    goroutine computes at each tick, and the answers of the REST interface. *)

From Stdlib Require Import ZArith Lia.
From stdpp Require Import base gmap list strings numbers.
From S2P Require Import Prelude GoString GoProc Config Proto.

Local Open Scope string_scope.
Local Open Scope Z_scope.

Record stats := Stats {
  interval : Z;
  statsListenAddr : string;
  profListenAddr : string;
  topics : Z;
  replBytes : Z;
  inBytes : Z;
  outBytes : Z;
  repl : Z;
  recv : Z;
  sent : Z;
  sessions : Z;      (* cumulated *)
  aborts : Z;        (* cumulated aborted client sessions *)
  clients : Z;
  peers : Z
}.

(** The value built by [NewServer]. *)
Definition new_stats (b : BrokerConfig) : stats :=
  Stats (StatsInterval b) (StatsHttpListenAddr b) (ProfHttpListenAddr b) 0 0 0 0 0 0 0 0 0 0 0.

(** [atomic.AddInt64(&this.f, d)] for each counter. *)
Definition add_replBytes d (s : stats) := Stats (interval s) (statsListenAddr s) (profListenAddr s)
  (topics s) (wrap64 (replBytes s + d)) (inBytes s) (outBytes s) (repl s) (recv s) (sent s) (sessions s) (aborts s) (clients s) (peers s).
Definition add_inBytes d (s : stats) := Stats (interval s) (statsListenAddr s) (profListenAddr s)
  (topics s) (replBytes s) (wrap64 (inBytes s + d)) (outBytes s) (repl s) (recv s) (sent s) (sessions s) (aborts s) (clients s) (peers s).
Definition add_outBytes d (s : stats) := Stats (interval s) (statsListenAddr s) (profListenAddr s)
  (topics s) (replBytes s) (inBytes s) (wrap64 (outBytes s + d)) (repl s) (recv s) (sent s) (sessions s) (aborts s) (clients s) (peers s).
Definition add_repl d (s : stats) := Stats (interval s) (statsListenAddr s) (profListenAddr s)
  (topics s) (replBytes s) (inBytes s) (outBytes s) (wrap64 (repl s + d)) (recv s) (sent s) (sessions s) (aborts s) (clients s) (peers s).
Definition add_recv d (s : stats) := Stats (interval s) (statsListenAddr s) (profListenAddr s)
  (topics s) (replBytes s) (inBytes s) (outBytes s) (repl s) (wrap64 (recv s + d)) (sent s) (sessions s) (aborts s) (clients s) (peers s).
Definition add_sent d (s : stats) := Stats (interval s) (statsListenAddr s) (profListenAddr s)
  (topics s) (replBytes s) (inBytes s) (outBytes s) (repl s) (recv s) (wrap64 (sent s + d)) (sessions s) (aborts s) (clients s) (peers s).
Definition add_sessions d (s : stats) := Stats (interval s) (statsListenAddr s) (profListenAddr s)
  (topics s) (replBytes s) (inBytes s) (outBytes s) (repl s) (recv s) (sent s) (wrap64 (sessions s + d)) (aborts s) (clients s) (peers s).
Definition add_aborts d (s : stats) := Stats (interval s) (statsListenAddr s) (profListenAddr s)
  (topics s) (replBytes s) (inBytes s) (outBytes s) (repl s) (recv s) (sent s) (sessions s) (wrap64 (aborts s + d)) (clients s) (peers s).
Definition add_clients d (s : stats) := Stats (interval s) (statsListenAddr s) (profListenAddr s)
  (topics s) (replBytes s) (inBytes s) (outBytes s) (repl s) (recv s) (sent s) (sessions s) (aborts s) (wrap64 (clients s + d)) (peers s).
Definition add_peers d (s : stats) := Stats (interval s) (statsListenAddr s) (profListenAddr s)
  (topics s) (replBytes s) (inBytes s) (outBytes s) (repl s) (recv s) (sent s) (sessions s) (aborts s) (clients s) (wrap64 (peers s + d)).

Section Counters.
Context `{Extern}.

Definition addIn (m : Message Publish) (s : stats) : stats := add_inBytes (wrap64 (msg_Bytes m)) s.
Definition addOut (m : Message Publish) (s : stats) : stats := add_outBytes (wrap64 (msg_Bytes m)) s.
Definition addRepl (m : Message Publish) (s : stats) : stats := add_replBytes (wrap64 (msg_Bytes m)) s.
End Counters.

Definition aborted (s : stats) : stats := add_aborts 1 s.
Definition replicated (s : stats) : stats := add_repl 1 s.
Definition messageRecv (s : stats) : stats := add_recv 1 s.
Definition messageSend (s : stats) : stats := add_sent 1 s.
(** Two atomic additions in the code, one update here: the state in between differs in
    [sessions] only, which is read for printing and by no other code. *)
Definition clientConnect (s : stats) : stats := add_sessions 1 (add_clients 1 s).
Definition clientDisconnect (s : stats) : stats := add_clients (-1) s.
Definition peerConnect (s : stats) : stats := add_peers 1 s.
Definition peerDisconnect (s : stats) : stats := add_peers (-1) s.

(** Current simultaneous client connections; [int] has 64 bits. *)
Definition Clients (s : stats) : Z := clients s.

(** [stats.String]: [%d] of seven counters. *)
Definition stats_String (s : stats) : string :=
  "{recv:" +:+ Itoa_Z (recv s) +:+ ", repl:" +:+ Itoa_Z (repl s) +:+ "/" +:+ Itoa_Z (peers s)
  +:+ ", sent:" +:+ Itoa_Z (sent s) +:+ "/" +:+ Itoa_Z (clients s)
  +:+ ", sess:" +:+ Itoa_Z (sessions s) +:+ ", abort:" +:+ Itoa_Z (aborts s) +:+ "}".

(** ** The reporting goroutine *)

(** What the run time and the kernel report at a tick: user and system time of
    getrusage as seconds and microseconds, total GC pause and number of GCs. *)
Record sample := {
  utime_sec : Z; utime_usec : Z;
  stime_sec : Z; stime_usec : Z;
  PauseTotalNs : Z; NumGC : Z
}.

(** The variables that live from one tick to the next. *)
Record reporter := { lastUserTime : Z; lastSysTime : Z; lastPackets : Z }.

(** The figures of one report.  A CPU share is the exact quotient of its two
    integer operands, before the conversion to float64. *)
Record report := {
  userCpu : Z * Z; sysCpu : Z * Z;
  gcPauseMs : Z; gcPauseMeanMs : Z;
  throughput : Z
}.

Definition nsInMs : Z := 1000 * 1000.

(** The body of the ticker loop of [stats.start]. *)
Definition tick (s : stats) (x : sample) (r : reporter) : (report * reporter) + panic :=
  let userTime := wrap64 (utime_sec x * 1000000000 + utime_usec x) in
  let sysTime := wrap64 (stime_sec x * 1000000000 + stime_usec x) in
  let totalPackets := wrap64 (recv s + sent s) in
  let seconds := Z.quot (interval s) Second in
  if seconds =? 0 then inr DivideByZero
  else if nsInMs * NumGC x =? 0 then inr DivideByZero
  else inl ({| userCpu := (wrap64 (userTime - lastUserTime r) * 100, interval s);
               sysCpu := (wrap64 (sysTime - lastSysTime r) * 100, interval s);
               gcPauseMs := Z.quot (PauseTotalNs x) nsInMs;
               gcPauseMeanMs := Z.quot (PauseTotalNs x) (nsInMs * NumGC x) + 1;
               throughput := wrap64 (Z.quot (wrap64 (totalPackets - lastPackets r)) seconds) |},
            {| lastUserTime := userTime; lastSysTime := sysTime; lastPackets := totalPackets |}).

(** The loop over the ticks; [time.NewTicker] panics on a non-positive period. *)
Fixpoint ticks (xs : list (stats * sample)) (r : reporter) : list report + panic :=
  match xs with
  | [] => inl []
  | (s, x) :: xs' =>
      match tick s x r with
      | inr w => inr w
      | inl (rep, r') =>
          match ticks xs' r' with
          | inr w => inr w
          | inl reps => inl (rep :: reps)
          end
      end
  end.

Definition start (s0 : stats) (xs : list (stats * sample)) : list report + panic :=
  if interval s0 <=? 0 then inr (UserPanic "non-positive interval for NewTicker")
  else ticks xs {| lastUserTime := 0; lastSysTime := 0; lastPackets := 0 |}.

(** ** The REST interface *)

(** What the handler reads of the process: opaque values. *)
Record process := {
  BuildId : string;
  Callstack : string;
  NumGoroutine : Z
}.

Inductive value :=
| VStr (s : string)
| VInt (z : Z)
| VList (l : list string)
| VMemStats
| VRusage.

Definition links : list string :=
  ["/s/ping"; "/s/ver"; "s/sys"; "/s/stat"; "/s/trace"].

Definition handleHttpQuery (p : process) (s : stats) (cmd : string) : gmap string value :=
  let output : gmap string value :=
    if cmd =s "ping" then {[ "status" := VStr "ok" ]}
    else if cmd =s "ver" then {[ "ver" := VStr (BuildId p) ]}
    else if cmd =s "trace" then {[ "callstack" := VStr (Callstack p) ]}
    else if cmd =s "sys" then
      <["rusage" := VRusage]> (<["memory" := VMemStats]> {[ "goroutines" := VInt (NumGoroutine p) ]})
    else if cmd =s "stat" then {[ "stats" := VStr (stats_String s) ]}
    else ∅ in
  let output := <["links" := VList links]> output in
  if negb (profListenAddr s =s "")
  then <["pprof" := VStr ("http://" +:+ profListenAddr s +:+ "/debug/pprof/")]> output
  else output.

(** ** Property *)

(** When the statistics goroutine survives.  Reporting panics at the first
    tick exactly when the interval is not positive (the ticker), when it is below
    one second or when no garbage collection has run yet (two divisions by zero);
    otherwise every tick reports. *)
Theorem stats_reporting_safe (s0 : stats) (xs : list (stats * sample))
    (Hsame : Forall (fun '(s, x) => interval s = interval s0 /\ 0 <= NumGC x) xs) :
  match start s0 xs with
  | inl reps => length reps = length xs /\ 0 < interval s0 /\
                (xs <> [] -> Second <= interval s0) /\ Forall (fun '(_, x) => 0 < NumGC x) xs
  | inr w => interval s0 <= 0 \/
             (xs <> [] /\ interval s0 < Second) \/ Exists (fun '(_, x) => NumGC x = 0) xs
  end.
Proof.
  unfold start. destruct (interval s0 <=? 0) eqn:E0; [left; lia|].
  apply Z.leb_gt in E0.
  generalize {| lastUserTime := 0; lastSysTime := 0; lastPackets := 0 |} as r.
  induction Hsame as [|[s x] xs [Hi Hg] Hsame IH]; intros r; simpl.
  { repeat split; try done; lia. }
  unfold tick. rewrite Hi. destruct (Z.quot (interval s0) Second =? 0) eqn:E1; breflect.
  { right. left. split; [done|]. apply Z.quot_small_iff in E1; [|done].
    change Second with 1000000000 in *. lia. }
  destruct (nsInMs * NumGC x =? 0) eqn:E2; breflect.
  { right. right. constructor. unfold nsInMs in E2. lia. }
  specialize (IH {| lastUserTime := wrap64 (utime_sec x * 1000000000 + utime_usec x);
                    lastSysTime := wrap64 (stime_sec x * 1000000000 + stime_usec x);
                    lastPackets := wrap64 (recv s + sent s) |}).
  assert (Second <= interval s0).
  { destruct (Z.lt_ge_cases (interval s0) Second); [|done].
    rewrite Z.quot_small in E1 by lia. done. }
  destruct (ticks xs _) as [reps|w]; simpl.
  - destruct IH as (Hl & _ & _ & Hf). repeat split; try done; [lia|].
    constructor; [|done]. unfold nsInMs in E2. lia.
  - destruct IH as [?|[[_ ?]|He]]; [lia|lia|]. right. right. by constructor 2.
Qed.

Lemma stats_reporting_safe_witness :
  let s := Stats (10 * Second) "" "" 0 0 0 0 0 0 0 0 0 0 0 in
  let xs := [(s, Build_sample 1 5 0 3 100 2)] in
  exists reps, start s xs = inl reps /\ length reps = 1%nat.
Proof.
  intros s xs.
  pose proof (stats_reporting_safe s xs ltac:(repeat constructor; vm_compute; congruence)) as Hw.
  destruct (start s xs) as [reps|w] eqn:E; [|by vm_compute in E].
  exists reps. split; [reflexivity|exact (proj1 Hw)].
Defined.
