(* ===== verification/Redis.v ===== *)
(** * The redis store (src/broker/redistore.go)

    The connection pool of redigo and msgpack are parameters ([RedisLib]); what their
    documentation promises is [RedisLaws].  The methods return the errors they log.
    The theorems: a stored value is read back, a value that cannot be marshalled still
    replaces the one stored before, and every call keeps a connection of the pool. *)

From Stdlib Require Import ZArith Lia.
From stdpp Require Import base gmap list strings numbers sets.
From S2P Require Import Prelude GoString GoProc.

Local Open Scope string_scope.
Local Open Scope list_scope.

(** The commands sent, bytes as strings. *)
Inductive command :=
| SET (key m : string)
| GET (key : string)
| DEL (key : string)
| EXPIRE (key : string) (sec : N).

Notation rerror := string (only parsing).

Class RedisLib := {
  value : Type;
  Marshal : value -> string * option rerror;
  (** The variable pointed to, before and after. *)
  Unmarshal : string -> value -> value * option rerror;
  redis : Type;
  Conn : Type;
  answer : Type;
  pool_Get : redis -> redis * Conn;
  conn_Do : Conn -> command -> redis -> redis * (answer * option rerror);
  (** [redis.Bytes] of the two results of [Do]. *)
  Bytes : answer * option rerror -> string * option rerror;
}.

Section RedisStore.
Context `{RedisLib}.

Record RedisStore := MkRedisStore { pool : redis; rs_mu : bool }.

Definition lock : proc RedisStore unit :=
  atomic (fun s => if rs_mu s then Blocked else Done (MkRedisStore (pool s) true) tt).
Definition unlock : proc RedisStore unit := modify (fun s => MkRedisStore (pool s) false).

(** [this.pool.Get().Do(...)] *)
Definition pool_Do (cmd : command) : proc RedisStore (answer * option rerror) :=
  c <- atomic (fun s => let '(r, c) := pool_Get (pool s) in Done (MkRedisStore r (rs_mu s)) c);;
  atomic (fun s => let '(r, a) := conn_Do c cmd (pool s) in Done (MkRedisStore r (rs_mu s)) a).

Definition logged (err : option rerror) : list rerror :=
  match err with Some e => [e] | None => [] end.

Definition RedisStore_Store (key : string) (val : value) : proc RedisStore (list rerror) :=
  lock;;;
  let '(m, err) := Marshal val in
  a <- pool_Do (SET key m);;
  unlock;;;
  Ret (logged err ++ logged a.2).

Definition RedisStore_Get (key : string) (val : value) : proc RedisStore (value * list rerror) :=
  lock;;;
  a <- pool_Do (GET key);;
  let '(m, err) := Bytes a in
  let '(val', err') := Unmarshal m val in
  unlock;;;
  Ret (val', logged err ++ logged err').

Definition RedisStore_Del (key : string) : proc RedisStore (list rerror) :=
  lock;;; pool_Do (DEL key);;; unlock;;; Ret [].

Definition RedisStore_Expire (key : string) (sec : N) : proc RedisStore (list rerror) :=
  lock;;; a <- pool_Do (EXPIRE key sec);; unlock;;; Ret (logged a.2).
End RedisStore.
Arguments RedisStore {_}.

(** ** What the libraries promise *)

(** What a command does to the keys; an expiry is a matter of time. *)
Definition command_effect (cmd : command) (m : gmap string string) : gmap string string :=
  match cmd with
  | SET k v => <[k := v]> m
  | GET _ => m
  | DEL k => delete k m
  | EXPIRE _ _ => m
  end.

(** A connection that was got, and answers, is in use until it is closed.  A command
    without an error was carried out; [redis.Bytes] of the answer to GET is the value of
    the key. *)
Class RedisLaws `{RedisLib} := {
  contents : redis -> gmap string string;
  in_use : redis -> nat;
  pool_Get_law r : contents (pool_Get r).1 = contents r;
  conn_Do_law c cmd r r' a : conn_Do c cmd r = (r', (a, None)) ->
    contents r' = command_effect cmd (contents r);
  in_use_law r cmd r' a : conn_Do (pool_Get r).2 cmd (pool_Get r).1 = (r', (a, None)) ->
    in_use r' = S (in_use r);
  Bytes_law c k r r' a v : conn_Do c (GET k) r = (r', (a, None)) ->
    contents r !! k = Some v -> Bytes (a, None) = (v, None);
  Bytes_error_law a e : (Bytes (a, Some e)).2 = Some e;
  Unmarshal_law v m v0 : Marshal v = (m, None) -> Unmarshal m v0 = (v, None);
}.

Section RedisFacts.
Context `{RedisLaws}.
Implicit Types (s : RedisStore).

(** A command through the pool, the mutex held. *)
Lemma exec_pool_Do cmd s : exists s' a err,
  exec (pool_Do cmd) s = Returned s' (a, err) /\ rs_mu s' = rs_mu s /\
  (err = None -> in_use (pool s') = S (in_use (pool s)) /\
     contents (pool s') = command_effect cmd (contents (pool s))) /\
  (forall k v, cmd = GET k -> err = None -> contents (pool s) !! k = Some v -> Bytes (a, None) = (v, None)).
Proof.
  unfold pool_Do. rewrite exec_bind, exec_atomic.
  pose proof (pool_Get_law (pool s)) as Hc. pose proof (in_use_law (pool s)) as Hu.
  destruct (pool_Get (pool s)) as [r c]. cbn [fst snd] in Hc, Hu.
  rewrite exec_atomic. cbn [pool rs_mu]. destruct (conn_Do c cmd r) as [r' [a err]] eqn:E.
  eexists _, a, err. split; [reflexivity|]. cbn [pool rs_mu]. split; [done|]. rewrite <- Hc. split.
  - intros ->. split; [by eapply Hu|by eapply conn_Do_law].
  - intros k v -> ->. by apply (Bytes_law c k r r').
Qed.

(** An operation on a free store: lock, one command, unlock. *)
Lemma exec_locked {A} cmd s (k : answer * option rerror -> proc RedisStore A) s1 a :
  rs_mu s = false -> exec (pool_Do cmd) (MkRedisStore (pool s) true) = Returned s1 a ->
  exec (lock;;; x <- pool_Do cmd;; k x) s = exec (k a) s1.
Proof.
  intros Hm E. rewrite exec_bind. unfold lock. rewrite exec_atomic, Hm. by rewrite exec_bind, E.
Qed.

(** Every operation returns and leaves the mutex free. *)
Lemma exec_Store key val s : rs_mu s = false -> exists s' errs,
  exec (RedisStore_Store key val) s = Returned s' errs /\ rs_mu s' = false /\
  forall m err, Marshal val = (m, err) -> errs = logged err ->
    in_use (pool s') = S (in_use (pool s)) /\ contents (pool s') = <[key := m]> (contents (pool s)).
Proof.
  intros Hm. unfold RedisStore_Store. destruct (Marshal val) as [m err].
  destruct (exec_pool_Do (SET key m) (MkRedisStore (pool s) true)) as (s1 & a & e & E & _ & Hok & _).
  rewrite (exec_locked _ _ _ _ _ Hm E). cbn. eexists _, _. split; [reflexivity|]. split; [done|].
  intros m' err' [= <- <-] Hl. apply Hok. destruct e; [|done]. by destruct err.
Qed.

Lemma exec_Get key val0 s : rs_mu s = false -> exists s' val errs,
  exec (RedisStore_Get key val0) s = Returned s' (val, errs) /\ rs_mu s' = false /\
  (errs = [] -> in_use (pool s') = S (in_use (pool s)) /\ contents (pool s') = contents (pool s) /\
     forall v m, Marshal v = (m, None) -> contents (pool s) !! key = Some m -> val = v).
Proof.
  intros Hm. unfold RedisStore_Get.
  destruct (exec_pool_Do (GET key) (MkRedisStore (pool s) true)) as (s1 & a & e & E & _ & Hok & Hb).
  rewrite (exec_locked _ _ _ _ _ Hm E). destruct (Bytes (a, e)) as [m err] eqn:EB.
  destruct (Unmarshal m val0) as [val err'] eqn:EU. cbn. eexists _, val, _. split; [reflexivity|].
  split; [done|]. intros Hl. cbn [pool] in *. destruct e as [e|].
  { pose proof (Bytes_error_law a e) as Hx. rewrite EB in Hx. cbn in Hx. by subst err. }
  destruct Hok as [Hu Hc]; [done|]. do 2 (split; [done|]). intros v m' HM Hk.
  rewrite (Hb key m') in EB by done. injection EB as <- <-.
  rewrite (Unmarshal_law v _ val0 HM) in EU. congruence.
Qed.

(** The server answers every command. *)
Definition answers : Prop := forall c cmd r, (conn_Do c cmd r).2.2 = None.

(** [Del] logs nothing, so that only a server that answers has deleted the key. *)
Lemma exec_Del key s : rs_mu s = false -> exists s',
  exec (RedisStore_Del key) s = Returned s' [] /\ rs_mu s' = false /\
  (answers -> contents (pool s') = delete key (contents (pool s))).
Proof.
  intros Hm. unfold RedisStore_Del.
  destruct (exec_pool_Do (DEL key) (MkRedisStore (pool s) true)) as (s1 & a & e & E & _ & Hok & _).
  rewrite (exec_locked _ _ _ _ _ Hm E). cbn. eexists. split; [reflexivity|]. split; [done|].
  intros Hans. apply Hok. revert E. unfold pool_Do. rewrite exec_bind, exec_atomic.
  destruct (pool_Get _) as [r c]. rewrite exec_atomic. cbn [pool rs_mu].
  specialize (Hans c (DEL key) r). destruct (conn_Do c (DEL key) r) as [r' [a' e']].
  by intros [= _ _ <-].
Qed.
End RedisFacts.

(** C35: the redis store reads back what it stored, and loses connections.  [Store] on a
    free store returns with the mutex free.  When it logged nothing but the error of
    msgpack, if there was one, the key holds the bytes msgpack returned, so a value that
    could not be marshalled has replaced the one stored before; and [Get], when it logs
    nothing, returns the value if it was marshalled.  Each of the two calls has taken a
    connection of the pool that nothing closes. *)
Theorem redis_store_roundtrip `{RedisLaws} (key : string) (val val0 : value) (s : RedisStore)
    (m : string) (err : option rerror)
    (Hmu : rs_mu s = false) (HM : Marshal val = (m, err)) :
  exists s1 errs1, exec (RedisStore_Store key val) s = Returned s1 errs1 /\ rs_mu s1 = false /\
    (errs1 = logged err ->
     contents (pool s1) = <[key := m]> (contents (pool s)) /\
     exists s2 v errs2, exec (RedisStore_Get key val0) s1 = Returned s2 (v, errs2) /\ rs_mu s2 = false /\
       (errs2 = [] -> contents (pool s2) = contents (pool s1) /\
          in_use (pool s2) = 2 + in_use (pool s) /\ (err = None -> v = val))).
Proof.
  destruct (exec_Store key val s Hmu) as (s1 & errs1 & E1 & Hm1 & H1).
  exists s1, errs1. do 2 (split; [done|]). intros Hl. destruct (H1 m err HM Hl) as [Hu1 Hc1].
  split; [done|]. destruct (exec_Get key val0 s1 Hm1) as (s2 & v & errs2 & E2 & Hm2 & H2).
  exists s2, v, errs2. do 2 (split; [done|]). intros Hl2. destruct (H2 Hl2) as (Hu2 & Hc2 & Hv).
  split; [done|]. split; [lia|]. intros ->. apply (Hv val m HM). by rewrite Hc1, lookup_insert_eq.
Qed.

(** ** A small redis, for the witness *)

Module DemoRedis.
(** Values are booleans, as in presence.go; the state is the keys and the connections. *)
#[export] Instance map_redis : RedisLib := {
  value := bool;
  Marshal b := ((if b : bool then "t" else "f"), None);
  Unmarshal m v := if m =s "t" then (true, None) else if m =s "f" then (false, None)
                   else (v, Some "msgpack: EOF");
  redis := gmap string string * nat; Conn := unit; answer := option string;
  pool_Get r := ((r.1, S r.2), tt);
  conn_Do _ cmd r :=
    ((command_effect cmd r.1, r.2), ((match cmd with GET k => r.1 !! k | _ => None end), None));
  Bytes a := match a with
             | (_, Some e) => ("", Some e)
             | (Some m, None) => (m, None)
             | (None, None) => ("", Some "redigo: nil returned")
             end;
}.

#[export] Instance map_redis_laws : RedisLaws.
Proof.
  refine {| contents := fun r : redis => r.1; in_use := fun r : redis => r.2 |}; cbn.
  - done.
  - by intros c cmd r r' a [= <- _].
  - by intros r cmd r' a [= <- _].
  - intros c k r r' a v [= _ <-]. by intros ->.
  - by intros a e; destruct a.
  - by intros [] m v0 [= <-].
Defined.

Definition result_of {A} (o : outcome RedisStore A) (d : A) : A :=
  match o with Returned _ a => a | _ => d end.
Definition state_of {A} (o : outcome RedisStore A) (d : @RedisStore map_redis) : @RedisStore map_redis :=
  match o with Returned s _ => s | _ => d end.
Definition empty : @RedisStore map_redis := @MkRedisStore map_redis (∅, 0) false.
End DemoRedis.

Lemma redis_store_roundtrip_witness :
  exists s1 errs1 s2 v errs2,
    exec (RedisStore_Store "_pre:u" (true : @value DemoRedis.map_redis)) DemoRedis.empty = Returned s1 errs1 /\
    exec (RedisStore_Get "_pre:u" (false : @value DemoRedis.map_redis)) s1 = Returned s2 (v, errs2) /\
    errs2 = [] /\ (pool s2 : gmap string string * nat).2 = 2 /\ v = true.
Proof.
  destruct (@redis_store_roundtrip DemoRedis.map_redis DemoRedis.map_redis_laws "_pre:u" true false
    DemoRedis.empty "t" None) as (s1 & errs1 & E1 & _ & H1); [reflexivity..|].
  destruct H1 as (_ & s2 & v & errs2 & E2 & _ & H2).
  - apply (f_equal (fun o => DemoRedis.result_of o [])) in E1. symmetry. exact E1.
  - exists s1, errs1, s2, v, errs2. split; [exact E1|]. split; [exact E2|].
    assert (errs2 = []) as Hl.
    { apply (f_equal (fun o => DemoRedis.state_of o DemoRedis.empty)) in E1. cbn [DemoRedis.state_of] in E1.
      rewrite <- E1 in E2. apply (f_equal (fun o => (DemoRedis.result_of o (false, ["blocked"])).2)) in E2.
      symmetry. vm_compute in E2. exact E2. }
    split; [exact Hl|]. destruct (H2 Hl) as (_ & Hu & Hv). split; [exact Hu|exact (Hv eq_refl)].
Defined.
