(* ===== verification/Discovery.v ===== *)
(** * Discovery of the other brokers through etcd (src/cluster/discovery.go)

    The etcd client and [url.Parse] are parameters ([EtcdLib]); what the etcd
    documentation promises of the client is [EtcdLaws].  [Do] is a tree of atomic
    actions, so that the calls of many machines interleave.  The theorems: in every
    interleaving at most one machine becomes the leader and the others find a machine
    that registered before them; the heartbeats keep a machine registered. *)

From Stdlib Require Import ZArith Lia Ascii.
From stdpp Require Import base gmap list strings numbers sets.
From S2P Require Import Prelude GoString GoProc.

Local Open Scope string_scope.
Local Open Scope list_scope.

(** ** path.Clean and path.Join *)

Definition SLASH_CHAR : ascii := "/"%char.

(** One path element onto the cleaned elements before it. *)
Definition clean_elem (rooted : bool) (acc : list string) (e : string) : list string :=
  if (e =s "") || (e =s ".") then acc
  else if e =s ".." then
    match rev acc with
    | [] => if rooted then acc else acc ++ [".."]
    | l :: r => if l =s ".." then acc ++ [".."] else rev r
    end
  else acc ++ [e].

Definition clean_elems (s : string) : list string :=
  fold_left (clean_elem (HasPrefix s "/")) (Split s SLASH_CHAR) [].

Definition path_Clean (s : string) : string :=
  if HasPrefix s "/" then "/" +:+ Join (clean_elems s) SLASH_CHAR
  else match clean_elems s with [] => "." | es => Join es SLASH_CHAR end.

(** The elements before the first non-empty one are dropped; the result of [Join] is
    empty when all are. *)
Fixpoint path_Join (elem : list string) : string :=
  match elem with
  | [] => ""
  | e :: es => if e =s "" then path_Join es else path_Clean (Join (e :: es) SLASH_CHAR)
  end.

(** A name that is one path element. *)
Definition simple (x : string) : bool :=
  negb (x =s "") && negb (x =s ".") && negb (x =s "..") && negb (Contains x "/").

Lemma Join_snoc ps x : ps <> [] -> Join (ps ++ [x]) SLASH_CHAR = Join ps SLASH_CHAR +:+ "/" +:+ x.
Proof.
  induction ps as [|p ps IH]; [done|]. intros _. destruct ps as [|q ps]; [done|].
  change ((p :: q :: ps) ++ [x]) with (p :: ((q :: ps) ++ [x])).
  rewrite (Join_cons p (q :: ps)), Join_cons by done. rewrite IH by done.
  by rewrite string_app_assoc.
Qed.

Lemma Split_snoc s x :
  SLASH_CHAR ∉ chars x -> Split (s +:+ "/" +:+ x) SLASH_CHAR = Split s SLASH_CHAR ++ [x].
Proof.
  intros Hx. rewrite <- (Join_Split s SLASH_CHAR) at 1.
  rewrite <- Join_snoc by apply Split_nonempty. apply Split_Join.
  - by intros [_ ?]%app_nil.
  - intros p [Hp|Hp]%elem_of_app; [by eapply Split_no_sep|].
    by apply list_elem_of_singleton in Hp as ->.
Qed.

Lemma simple_spec x : simple x = true -> x <> "" /\ x <> "." /\ x <> ".." /\ SLASH_CHAR ∉ chars x.
Proof.
  unfold simple. rewrite !andb_true_iff, !negb_true_iff, !String.eqb_neq. intros (((?&?)&?)&Hc).
  do 3 (split; [done|]). intros Hin. apply Contains_char in Hin. unfold SLASH_CHAR in Hin. congruence.
Qed.

Lemma clean_elem_simple b acc x : simple x = true -> clean_elem b acc x = acc ++ [x].
Proof.
  intros (H1 & H2 & H3 & _)%simple_spec. unfold clean_elem.
  by apply String.eqb_neq in H1 as ->, H2 as ->, H3 as ->.
Qed.

Lemma HasPrefix_slash_app s t : s <> "" -> HasPrefix (s +:+ t) "/" = HasPrefix s "/".
Proof. intros Hs. destruct s as [|c s]; [done|]. unfold HasPrefix. simpl. by destruct (ascii_dec "/" c), s, t. Qed.

(** A name joined to a directory is the cleaned directory, a slash and the name. *)
Lemma path_Join_child d x : d <> "" -> clean_elems d <> [] -> simple x = true ->
  path_Join [d; x] = path_Join [d] +:+ "/" +:+ x.
Proof.
  intros Hd Hc Hx. cbn [path_Join]. apply String.eqb_neq in Hd as Hd'. rewrite Hd'.
  change (Join [d; x] SLASH_CHAR) with (d +:+ "/" +:+ x). change (Join [d] SLASH_CHAR) with d.
  assert (clean_elems (d +:+ "/" +:+ x) = clean_elems d ++ [x]) as E.
  { unfold clean_elems. rewrite HasPrefix_slash_app, Split_snoc by (done || by apply simple_spec).
    rewrite fold_left_app. by apply clean_elem_simple. }
  unfold path_Clean. rewrite E, HasPrefix_slash_app by done.
  destruct (HasPrefix d "/"); [by rewrite Join_snoc, string_app_assoc by done|].
  destruct (clean_elems d) as [|y ys]; [done|]. exact (Join_snoc (y :: ys) x Hc).
Qed.

(** Two simple names after a slash: equal suffixes are equal names. *)
Lemma HasSuffix_name root x y : simple x = true -> simple y = true ->
  HasSuffix (root +:+ "/" +:+ x) ("/" +:+ y) = (x =s y).
Proof.
  intros Hx Hy. apply simple_spec in Hx as (_ & _ & _ & Hx), Hy as (_ & _ & _ & Hy).
  apply eq_iff_eq_true. rewrite HasSuffix_spec, String.eqb_eq. split; [|intros ->; by exists root].
  intros [t E]. apply (f_equal (fun s => Split s SLASH_CHAR)) in E.
  rewrite !Split_snoc in E by done. by apply app_inj_tail in E as [_ E].
Qed.

(** ** The etcd client *)

(** [etcd.Node]: a value, or a directory with its nodes. *)
Inductive Node := MkNode (Key Value : string) (Nodes : list Node).
Definition Key (n : Node) : string := let 'MkNode k _ _ := n in k.
Definition Value (n : Node) : string := let 'MkNode _ v _ := n in v.
Definition Nodes (n : Node) : list Node := let 'MkNode _ _ l := n in l.

(** [etcd.Response], as far as it is read. *)
Record Response := MkResponse { resp_Node : option Node }.

(** The errors of the libraries: an [EtcdError] or another one. *)
Inductive liberror :=
| EtcdError (ErrorCode : Z)
| OtherError (text : string).

(** What a call of the client returns: the response and the error. *)
Notation reply := (option Response * option liberror)%type.

Class EtcdLib := {
  URL : Type;
  url_Parse : string -> URL + liberror;
  url_Path : URL -> string;
  url_String : URL -> string;
  etcd : Type;
  Client : Type;
  NewClient : list string -> Client;
  client_Set : Client -> string -> string -> Z -> etcd -> etcd * reply;
  client_Create : Client -> string -> string -> Z -> etcd -> etcd * reply;
  client_Get : Client -> string -> bool -> bool -> etcd -> etcd * reply;
  EcodeNodeExist : Z;
  (** [d] seconds pass at the servers. *)
  elapse : Z -> etcd -> etcd;
}.

(** The errors [Do] returns: of a library, or made here. *)
Inductive goerror :=
| FromLib (e : liberror)
| Made (text : string).

(** ** The discoverer *)

Definition keyPrefix : string := "/v2/keys/".
Definition stateKey : string := "_state".
Definition startedState : string := "started".
Definition defaultTTL : Z := 604800.
Definition noPeers : goerror :=
  Made "Discovery found an initialized cluster but no peers are registered.".

Section Operations.
Context `{EtcdLib}.

Record Discoverer := MkDiscoverer {
  client : option Client;
  name : string;
  peer : string;
  prefix : string;
  discoveryURL : string;
}.

(** The shared state: etcd, a clock in seconds, the discoverers by pointer, and the
    discoverer of each goroutine that runs [startHeartbeat]. *)
Record world := MkWorld {
  w_etcd : etcd;
  w_now : Z;
  w_discs : list Discoverer;
  w_beats : list nat;
}.

Definition set_w_etcd (e : etcd) (w : world) : world := MkWorld e (w_now w) (w_discs w) (w_beats w).
Definition set_w_discs (l : list Discoverer) (w : world) : world :=
  MkWorld (w_etcd w) (w_now w) l (w_beats w).
Definition set_w_beats (l : list nat) (w : world) : world :=
  MkWorld (w_etcd w) (w_now w) (w_discs w) l.

Notation result := (list string * option goerror)%type.

(** The fields of [*this]. *)
Definition this (p : nat) : proc world Discoverer :=
  atomic (fun w => match w_discs w !! p with Some d => Done w d | None => Panicked NilDeref end).

Definition write_disc (p : nat) (f : Discoverer -> Discoverer) : proc world unit :=
  atomic (fun w => match w_discs w !! p with
                   | Some d => Done (set_w_discs (<[p := f d]> (w_discs w)) w) tt
                   | None => Panicked NilDeref
                   end).

(** A call of [this.client]. *)
Definition call_client (p : nat) (f : Discoverer -> Client -> etcd -> etcd * reply) : proc world reply :=
  atomic (fun w =>
    match w_discs w !! p with
    | Some d =>
        match client d with
        | Some c => let '(e, r) := f d c (w_etcd w) in Done (set_w_etcd e w) r
        | None => Panicked NilDeref
        end
    | None => Panicked NilDeref
    end).

Definition heartbeat (p : nat) : proc world (option liberror) :=
  r <- call_client p (fun d c => client_Set c (path_Join [prefix d; name d]) (peer d) defaultTTL);;
  Ret r.2.

(** The loop over the nodes of the directory, and what follows it. *)
Definition list_peers (p : nat) (nodes : list Node) : proc world result :=
  d <- this p;;
  let peers := map Value (filter (fun n => HasSuffix (Key n) ("/" +:+ name d) = false) nodes) in
  match peers with
  | [] => Ret ([], Some noPeers)
  | _ => Ret (peers, None)
  end.

Definition findPeers (p : nat) : proc world result :=
  r <- call_client p (fun d c => client_Get c (path_Join [prefix d]) false true);;
  match r with
  | (_, Some err) => Ret ([], Some (FromLib err))
  | (None, None) => panics NilDeref
  | (Some resp, None) =>
      match resp_Node resp with
      | None => d <- this p;; Ret ([], Some (Made (prefix d +:+ " key doesn't exist.")))
      | Some node => list_peers p (Nodes node)
      end
  end.

(** The error is an [EtcdError] with the code of an existing node. *)
Definition is_node_exist (err : liberror) : bool :=
  match err with EtcdError code => (code =? EcodeNodeExist)%Z | OtherError _ => false end.

(** The response to the creation of the state key. *)
Definition do_elected (p : nat) (resp : option Response) : proc world result :=
  match resp with
  | None => findPeers p
  | Some r =>
      match resp_Node r with
      | None => panics NilDeref
      | Some n => if Value n =s startedState then Ret ([], None) else findPeers p
      end
  end.

(** The attempt to take the leadership role. *)
Definition do_elect (p : nat) : proc world result :=
  r <- call_client p (fun d c => client_Create c (path_Join [prefix d; stateKey]) startedState 0);;
  match r.2 with
  | Some err => if is_node_exist err then do_elected p r.1 else Ret ([], Some (FromLib err))
  | None => do_elected p r.1
  end.

(** [go this.startHeartbeat()] *)
Definition do_spawn (p : nat) : proc world result :=
  modify (fun w => set_w_beats (w_beats w ++ [p]) w);;; do_elect p.

Definition do_register (p : nat) : proc world result :=
  err <- heartbeat p;;
  match err with
  | Some err => Ret ([], Some (FromLib err))
  | None => do_spawn p
  end.

Definition do_client (p : nat) (u : URL) : proc world result :=
  write_disc p (fun d => MkDiscoverer (Some (NewClient [url_String u])) (name d) (peer d)
                           (TrimPrefix (url_Path u) keyPrefix) (discoveryURL d));;;
  do_register p.

Definition Discoverer_Do (p : nat) (url nm pr : string) : proc world result :=
  write_disc p (fun d => MkDiscoverer (client d) nm pr (prefix d) url);;;
  match url_Parse url with
  | inr err => Ret ([], Some (FromLib err))
  | inl u => do_client p u
  end.

(** The interval of [startHeartbeat] in seconds, and one turn of its loop: the interval
    passes, then the heartbeat, whose error is only logged. *)
Definition heartbeatInterval : Z := Z.quot defaultTTL 8.
Definition pass (d : Z) (w : world) : world :=
  MkWorld (elapse d (w_etcd w)) (w_now w + d) (w_discs w) (w_beats w).
Definition startHeartbeat_turn (p : nat) : proc world (option liberror) :=
  modify (pass heartbeatInterval);;; heartbeat p.
End Operations.

Arguments Discoverer {_}.
Arguments world {_}.

(** ** What etcd promises *)

(** The remaining seconds of a key after [d] seconds; a key without a time to live
    stays. *)
Definition age (d : Z) (x : string * option Z) : option (string * option Z) :=
  match x with
  | (v, None) => Some (v, None)
  | (v, Some r) => if (d <? r)%Z then Some (v, Some (r - d)%Z) else None
  end.

(** The documented behaviour of the client.  A call that fails may have been carried
    out or not, unless the error says that the node exists.  A listing has the keys
    under the directory that do not start with an underscore. *)
Class EtcdLaws `{EtcdLib} := {
  view : Client -> etcd -> gmap string (string * option Z);
  Set_law c k v ttl e e' r err : (0 < ttl)%Z ->
    client_Set c k v ttl e = (e', (r, err)) ->
    view c e' = <[k := (v, Some ttl)]> (view c e) \/ (err <> None /\ view c e' = view c e);
  Create_law c k v e e' r :
    client_Create c k v 0 e = (e', (r, None)) ->
    view c e !! k = None /\ view c e' = <[k := (v, None)]> (view c e) /\
    exists n, r = Some (MkResponse (Some n)) /\ Value n = v;
  Create_exists_law c k v e e' r err :
    client_Create c k v 0 e = (e', (r, Some err)) -> is_node_exist err = true ->
    r = None /\ is_Some (view c e !! k) /\ view c e' = view c e;
  Create_failed_law c k v e e' r err :
    client_Create c k v 0 e = (e', (r, Some err)) -> is_node_exist err = false ->
    view c e' = view c e \/ (view c e !! k = None /\ view c e' = <[k := (v, None)]> (view c e));
  Get_law c k e e' r :
    client_Get c k false true e = (e', (r, None)) ->
    exists n root, r = Some (MkResponse (Some n)) /\
      forall x v t, simple x = true -> HasPrefix x "_" = false ->
        view c e !! (k +:+ "/" +:+ x) = Some (v, t) ->
        exists l, MkNode (root +:+ "/" +:+ x) v l ∈ Nodes n;
  Get_reads_law c k e e' r : client_Get c k false true e = (e', r) -> view c e' = view c e;
  elapse_law c d e : (0 <= d)%Z -> view c (elapse d e) = omap (age d) (view c e);
}.

(** ** All machines of a cluster *)

Notation result := (list string * option goerror)%type.

(** The machines, each in its call of [Do], share etcd; machine [i] has the discoverer
    with pointer [i]. *)
Record cluster `{EtcdLib} := MkCluster {
  cl_world : world;
  cl_calls : list (proc world result);
}.
Arguments MkCluster {_} _ _.

(** One action of one machine, one heartbeat, or time passing. *)
Inductive cluster_step `{EtcdLib} : cluster -> cluster -> Prop :=
| step_call w ts i f w' q :
    ts !! i = Some (Step f) -> f w = Done w' q ->
    cluster_step (MkCluster w ts) (MkCluster w' (<[i := q]> ts))
| step_beat w ts i w' err :
    i ∈ w_beats w -> exec (heartbeat i) w = Returned w' err ->
    cluster_step (MkCluster w ts) (MkCluster w' ts)
| step_pass w ts d :
    (0 <= d)%Z -> cluster_step (MkCluster w ts) (MkCluster (pass d w) ts).

(** A cluster before its machines, names and peer addresses in [ms], call [Do]. *)
Definition boot `{EtcdLib} (url : string) (ms : list (string * string)) (e : etcd) (t0 : Z) : cluster :=
  MkCluster (MkWorld e t0 (map (fun _ => MkDiscoverer None "" "" "" "") ms) [])
            (imap (fun i m => Discoverer_Do i url m.1 m.2) ms).

Definition started `{EtcdLib} url ms e t0 (C : cluster) : Prop :=
  rtc cluster_step (boot url ms e t0) C.

(** ** The invariant of a cluster *)

(** How far a call of [Do] is: not registered, registered, leader, an attempt to become
    leader that failed, or on the way to the list of peers. *)
Inductive stage := Before | Registered | Leader | Tried | Follower.

#[local] Instance stage_eq_dec : EqDecision stage.
Proof. solve_decision. Defined.

Section Cluster.
Context `{EtcdLaws} (url : string) (u : URL) (ms : list (string * string)) (t0 : Z).
Implicit Types (w : world) (i j : nat) (m : string * string).

Let pfx : string := TrimPrefix (url_Path u) keyPrefix.
Let cl : Client := NewClient [url_String u].
Let machine_key m : string := path_Join [pfx; m.1].
Let state_key : string := path_Join [pfx; stateKey].

Hypothesis Hparse : url_Parse url = inl u.
Hypothesis Hpfx : pfx <> "" /\ clean_elems pfx <> [].
Hypothesis Hnames : forall i m, ms !! i = Some m -> simple m.1 = true /\ HasPrefix m.1 "_" = false.
Hypothesis Hdistinct : NoDup (map fst ms).

Lemma child_key x : simple x = true -> path_Join [pfx; x] = path_Join [pfx] +:+ "/" +:+ x.
Proof. intros Hx. destruct Hpfx. by apply path_Join_child. Qed.

Lemma machine_key_state i m : ms !! i = Some m -> machine_key m <> state_key.
Proof.
  intros [Hs Hh]%Hnames. unfold machine_key, state_key. rewrite !child_key by done.
  intros E%string_app_inj_l%string_app_inj_l. rewrite E in Hh. done.
Qed.

Lemma machine_key_inj i j m m' : ms !! i = Some m -> ms !! j = Some m' ->
  machine_key m = machine_key m' -> i = j.
Proof.
  intros Hi Hj. destruct (Hnames _ _ Hi), (Hnames _ _ Hj).
  unfold machine_key. rewrite !child_key by done. intros E%string_app_inj_l%string_app_inj_l.
  eapply (NoDup_lookup (map fst ms)); [done| |].
  - by rewrite list_lookup_fmap, Hi.
  - rewrite list_lookup_fmap, Hj. simpl. by rewrite E.
Qed.

(** Since [t0] the time to live of a registration has passed. *)
Definition late w : Prop := (t0 + defaultTTL <= w_now w)%Z.

Definition registered w m : Prop :=
  exists r, view cl (w_etcd w) !! machine_key m = Some (m.2, Some r) /\
            (t0 + defaultTTL <= w_now w + r)%Z.

Definition ready w i m : Prop :=
  w_discs w !! i = Some (MkDiscoverer (Some cl) m.1 m.2 pfx url).

Definition lists_other i (nodes : list Node) : Prop :=
  exists j m root l, j <> i /\ ms !! j = Some m /\ MkNode (root +:+ "/" +:+ m.1) m.2 l ∈ nodes.

Definition knows_other i (peers : list string) : Prop :=
  exists j m, j <> i /\ ms !! j = Some m /\ m.2 ∈ peers.

(** Where a call of [Do] by machine [i] is, and what it knows there. *)
Inductive at_stage w i m : stage -> proc world result -> Prop :=
| at_do : i < length (w_discs w) -> at_stage w i m Before (Discoverer_Do i url m.1 m.2)
| at_client d : w_discs w !! i = Some d -> name d = m.1 -> peer d = m.2 -> discoveryURL d = url ->
    at_stage w i m Before (do_client i u)
| at_register : ready w i m -> at_stage w i m Before (do_register i)
| at_unregistered err : at_stage w i m Before (Ret ([], Some (FromLib err)))
| at_spawn : ready w i m -> at_stage w i m Registered (do_spawn i)
| at_elect : ready w i m -> at_stage w i m Registered (do_elect i)
| at_leader : at_stage w i m Leader (Ret ([], None))
| at_tried err : at_stage w i m Tried (Ret ([], Some (FromLib err)))
| at_find : ready w i m -> at_stage w i m Follower (findPeers i)
| at_list nodes : ready w i m -> late w \/ lists_other i nodes ->
    at_stage w i m Follower (list_peers i nodes)
| at_failed err : at_stage w i m Follower (Ret ([], Some (FromLib err)))
| at_lonely : late w -> at_stage w i m Follower (Ret ([], Some noPeers))
| at_follower peers : peers <> [] -> late w \/ knows_other i peers ->
    at_stage w i m Follower (Ret (peers, None)).

Lemma at_stage_stable w w' i m st q :
  w_discs w' !! i = w_discs w !! i -> (w_now w <= w_now w')%Z ->
  at_stage w i m st q -> at_stage w' i m st q.
Proof.
  intros Hd Ht. assert (late w -> late w') by (unfold late; lia).
  destruct 1; try (econstructor; unfold ready in *; rewrite ?Hd; by eauto).
  - constructor. apply lookup_lt_is_Some. rewrite Hd. by apply lookup_lt_is_Some.
  - constructor; [by unfold ready; rewrite Hd|naive_solver].
  - constructor; [done|naive_solver].
Qed.

(** What one action of [Do] does to etcd, and the stage it leads to. *)
Inductive effect w w' m : stage -> stage -> Prop :=
| eff_none st : view cl (w_etcd w') = view cl (w_etcd w) -> effect w w' m st st
| eff_set st' :
    view cl (w_etcd w') = <[machine_key m := (m.2, Some defaultTTL)]> (view cl (w_etcd w)) ->
    st' = Before \/ st' = Registered -> effect w w' m Before st'
| eff_created st' : view cl (w_etcd w) !! state_key = None ->
    view cl (w_etcd w') = <[state_key := (startedState, None)]> (view cl (w_etcd w)) ->
    st' = Leader \/ st' = Tried -> effect w w' m Registered st'
| eff_tried : view cl (w_etcd w') = view cl (w_etcd w) -> effect w w' m Registered Tried
| eff_lost : is_Some (view cl (w_etcd w) !! state_key) ->
    view cl (w_etcd w') = view cl (w_etcd w) -> effect w w' m Registered Follower.

(** What holds after one action of a call at stage [st]. *)
Definition moved w i m (st : stage) w' (q : proc world result) : Prop :=
  exists st', at_stage w' i m st' q /\ effect w w' m st st' /\ w_now w' = w_now w /\
    (forall j, j <> i \/ st <> Before -> w_discs w' !! j = w_discs w !! j) /\
    (w_beats w' = w_beats w \/ (w_beats w' = w_beats w ++ [i] /\ st = Registered /\ ready w i m)).

(** The first action of a body. *)
Definition act {S A} (p : proc S A) (s : S) : option (astep S (proc S A)) :=
  match p with Step f => Some (f s) | Ret _ => None end.

Lemma act_call_client p f (k : reply -> proc world result) w w' q d c :
  w_discs w !! p = Some d -> client d = Some c ->
  act (bind (call_client p f) k) w = Some (Done w' q) ->
  exists e r, f d c (w_etcd w) = (e, r) /\ w' = set_w_etcd e w /\ q = k r.
Proof.
  intros Hd Hc. simpl. rewrite Hd, Hc. destruct (f d c (w_etcd w)) as [e r].
  intros [= <- <-]. by exists e, r.
Qed.

Lemma act_write_disc p f (k : unit -> proc world result) w w' q d :
  w_discs w !! p = Some d -> act (bind (write_disc p f) k) w = Some (Done w' q) ->
  w' = set_w_discs (<[p := f d]> (w_discs w)) w /\ q = k tt.
Proof. intros Hd. simpl. rewrite Hd. by intros [= <- <-]. Qed.

Lemma register_moves w w' i m q : ready w i m ->
  act (do_register i) w = Some (Done w' q) -> moved w i m Before w' q.
Proof.
  intros Hr Ha. cbn in Ha. rewrite Hr in Ha. cbn [client name peer prefix] in Ha.
  destruct (client_Set _ _ _ _ _) as [e [r err]] eqn:E. injection Ha as <- <-.
  apply Set_law in E; [|done]. simpl in E |- *. destruct err as [err|].
  - exists Before. split; [constructor|]. split; [|by auto].
    destruct E as [E|[_ E]]; [by apply eff_set; auto|by apply eff_none].
  - exists Registered. split; [by constructor|]. split; [|by auto].
    destruct E as [E|[? _]]; [|done]. by apply eff_set; auto.
Qed.

Lemma elect_moves w w' i m q : ready w i m ->
  act (do_elect i) w = Some (Done w' q) -> moved w i m Registered w' q.
Proof.
  intros Hr Ha. destruct (act_call_client i
    (fun d c => client_Create c (path_Join [prefix d; stateKey]) startedState 0)
    (fun r => match r.2 with
       | Some err => if is_node_exist err then do_elected i r.1 else Ret ([], Some (FromLib err))
       | None => do_elected i r.1 end) w w' q _ _ Hr eq_refl)
    as (e & [r err] & E & -> & ->); [exact Ha|]. cbn [fst snd].
  destruct err as [err|]; [destruct (is_node_exist err) eqn:Hx|].
  - destruct (Create_exists_law _ _ _ _ _ _ _ E Hx) as (-> & Hs & Hv).
    exists Follower. split; [by apply at_find|]. split; [by apply eff_lost|by auto].
  - exists Tried. split; [constructor|]. split; [|by auto].
    destruct (Create_failed_law _ _ _ _ _ _ _ E Hx) as [Hv|[Hn Hv]];
      [by apply eff_tried|by apply eff_created; auto].
  - destruct (Create_law _ _ _ _ _ _ E) as (Hn & Hv & n & -> & Hs).
    exists Leader. cbn [do_elected resp_Node]. rewrite Hs. split; [constructor|].
    split; [by apply eff_created; auto|by auto].
Qed.

(** Somebody else is registered, or the registrations may have expired. *)
Definition other_registered w i : Prop :=
  late w \/ exists j m, j <> i /\ ms !! j = Some m /\ registered w m.

Lemma find_moves w w' i m q : ready w i m -> other_registered w i ->
  act (findPeers i) w = Some (Done w' q) -> moved w i m Follower w' q.
Proof.
  intros Hr Ho Ha. cbn in Ha. rewrite Hr in Ha. cbn [client prefix] in Ha.
  destruct (client_Get _ _ _ _ _) as [e [r err]] eqn:E. injection Ha as <- <-.
  pose proof (Get_reads_law _ _ _ _ _ E) as Hv.
  exists Follower. split; [|split; [by apply eff_none|by auto]].
  destruct err as [err|]; [destruct r; apply at_failed|].
  destruct (Get_law _ _ _ _ _ E) as (n & root & -> & Hl). cbn [resp_Node].
  apply at_list; [done|]. destruct Ho as [Ho|(j & m' & Hj & Hm & rest & Hk & _)]; [by left|right].
  destruct (Hnames _ _ Hm) as [Hs Hh]. unfold machine_key in Hk. rewrite child_key in Hk by done.
  destruct (Hl _ _ _ Hs Hh Hk) as [l Hin]. by exists j, m', root, l.
Qed.

Lemma list_moves w w' i m nodes q : ms !! i = Some m -> ready w i m ->
  late w \/ lists_other i nodes ->
  act (list_peers i nodes) w = Some (Done w' q) -> moved w i m Follower w' q.
Proof.
  intros Hm Hr Ho Ha. cbn in Ha. rewrite Hr in Ha. injection Ha as <- <-. cbn [name].
  set (peers := map Value _). exists Follower. split; [|split; [by apply eff_none|by auto]].
  assert (late w \/ knows_other i peers) as Hk.
  { destruct Ho as [Ho|(j & m' & root & l & Hj & Hm' & Hin)]; [by left|right].
    exists j, m'. do 2 (split; [done|]). apply list_elem_of_fmap.
    exists (MkNode (root +:+ "/" +:+ m'.1) m'.2 l). split; [done|].
    apply list_elem_of_filter. split; [|done]. cbn [Key].
    destruct (Hnames _ _ Hm), (Hnames _ _ Hm'). rewrite HasSuffix_name by done.
    apply String.eqb_neq. intros E. apply Hj.
    eapply (NoDup_lookup (map fst ms)); [done| |]; rewrite list_lookup_fmap; [by rewrite Hm'|].
    rewrite Hm. simpl. by rewrite E. }
  destruct peers as [|x peers].
  - apply at_lonely. destruct Hk as [?|(?&?&?&?&?%not_elem_of_nil)]; done.
  - by apply at_follower.
Qed.

Lemma call_moves w w' i m st q0 q : ms !! i = Some m -> at_stage w i m st q0 ->
  (st = Follower -> other_registered w i) ->
  act q0 w = Some (Done w' q) -> moved w i m st w' q.
Proof.
  intros Hm Hs Ho Ha. destruct Hs; try discriminate Ha.
  - destruct (lookup_lt_is_Some_2 (w_discs w) i) as [d Hd]; [done|].
    destruct (act_write_disc _ _ _ _ _ _ _ Hd Ha) as [-> ->]. rewrite Hparse.
    exists Before. split; [|split; [by apply eff_none|]].
    + eapply at_client; [by apply list_lookup_insert_eq|done..].
    + split; [done|]. split; [|by auto]. intros j [Hj|?]; [|done]. by apply list_lookup_insert_ne.
  - destruct (act_write_disc _ _ _ _ _ _ _ H1 Ha) as [-> ->].
    exists Before. split; [|split; [by apply eff_none|]].
    + apply at_register. unfold ready. cbn. rewrite list_lookup_insert_eq by by eapply lookup_lt_Some.
      fold pfx cl. simplify_eq. by destruct d, m; simplify_eq/=.
    + split; [done|]. split; [|by auto]. intros j [Hj|?]; [|done]. by apply list_lookup_insert_ne.
  - by apply register_moves.
  - injection Ha as <- <-. exists Registered. split; [by apply at_elect|].
    split; [by apply eff_none|]. do 2 (split; [done|]). by right.
  - by apply elect_moves.
  - apply find_moves; auto.
  - by eapply list_moves.
Qed.

(** ** Every execution *)

(** The state key is there once there is a leader or a follower; it was made by a
    machine [j] that is the leader, or whose attempt failed. *)
Definition state_inv (sts : list stage) w : Prop :=
  (view cl (w_etcd w) !! state_key = None /\
   forall i, sts !! i <> Some Leader /\ sts !! i <> Some Follower) \/
  (exists v j, view cl (w_etcd w) !! state_key = Some (v, None) /\
   (sts !! j = Some Leader \/ sts !! j = Some Tried) /\
   forall i, sts !! i = Some Leader -> i = j).

(** [sts] are the stages of the calls: who is past its registration is registered. *)
Record cluster_inv (sts : list stage) w (ts : list (proc world result)) : Prop := {
  inv_calls i q : ts !! i = Some q ->
    exists m st, ms !! i = Some m /\ sts !! i = Some st /\ at_stage w i m st q;
  inv_len : length sts = length ts;
  inv_now : (t0 <= w_now w)%Z;
  inv_registered i m st : ms !! i = Some m -> sts !! i = Some st -> st <> Before ->
    late w \/ registered w m;
  inv_beats i : i ∈ w_beats w ->
    exists m st, ms !! i = Some m /\ sts !! i = Some st /\ st <> Before /\ ready w i m;
  inv_state : state_inv sts w;
}.

Lemma inv_boot e : view cl e !! state_key = None ->
  cluster_inv (map (fun _ => Before) ms) (cl_world (boot url ms e t0)) (cl_calls (boot url ms e t0)).
Proof.
  intros He. split; cbn.
  - intros i q Hq. rewrite list_lookup_imap in Hq. destruct (ms !! i) as [m|] eqn:Hm; [|done].
    injection Hq as <-. exists m, Before. rewrite list_lookup_fmap, Hm. do 2 (split; [done|]).
    apply at_do. cbn. rewrite length_map. by eapply lookup_lt_Some.
  - by rewrite length_map, length_imap.
  - lia.
  - intros i m st _ Hs Hb. rewrite list_lookup_fmap in Hs. by destruct (ms !! i); simplify_eq/=.
  - by intros i ?%not_elem_of_nil.
  - left. split; [done|]. intros i. rewrite list_lookup_fmap. by destruct (ms !! i).
Qed.

(** A follower can find the machine that made the state key. *)
Lemma inv_other sts w ts i : cluster_inv sts w ts -> sts !! i = Some Follower -> other_registered w i.
Proof.
  intros HI Hi. destruct (inv_state _ _ _ HI) as [[_ Hn]|(v & j & _ & Hj & _)].
  - by destruct (Hn i).
  - assert (exists st, sts !! j = Some st /\ st <> Before /\ st <> Follower) as (st & Hst & Hb & Hf).
    { destruct Hj as [Hj|Hj]; rewrite Hj; by eexists. }
    assert (is_Some (cl_calls (MkCluster w ts) !! j)) as [q Hq].
    { apply lookup_lt_is_Some. cbn. rewrite <- (inv_len _ _ _ HI). by eapply lookup_lt_Some. }
    destruct (inv_calls _ _ _ HI j q Hq) as (m & _ & Hm & _).
    destruct (inv_registered _ _ _ HI j m st Hm Hst Hb) as [?|?]; [by left|right].
    exists j, m. split; [congruence|done].
Qed.

(** Registrations survive the writes of the machines. *)
Lemma registered_effect w w' i j m m' st st' : ms !! i = Some m -> ms !! j = Some m' ->
  w_now w' = w_now w -> (t0 <= w_now w)%Z -> effect w w' m st st' ->
  registered w m' -> registered w' m'.
Proof.
  intros Hi Hj Hn Ht He (r & Hv & Hr). unfold registered.
  destruct He as [? E|? E|? _ E|E|_ E]; rewrite E, Hn; try by exists r.
  - destruct (decide (machine_key m = machine_key m')) as [Hk|Hk].
    + assert (i = j) as -> by by eapply machine_key_inj. simplify_eq.
      exists defaultTTL. rewrite lookup_insert_eq. split; [done|lia].
    + exists r. by rewrite lookup_insert_ne.
  - exists r. rewrite lookup_insert_ne; [done|]. intros Hk. by eapply (machine_key_state j).
Qed.

Lemma registered_now w w' m st st' : w_now w' = w_now w -> (t0 <= w_now w)%Z ->
  effect w w' m st st' -> st = Before -> st' <> Before -> registered w' m.
Proof.
  intros Hn Ht [? E|? E ?|?|?|?] Hs Hs'; try done. exists defaultTTL.
  rewrite E, Hn, lookup_insert_eq. split; [done|lia].
Qed.

Lemma state_inv_same sts w w' i st' :
  view cl (w_etcd w') !! state_key = view cl (w_etcd w) !! state_key ->
  st' = Before \/ st' = Registered \/ st' = Tried \/
    (st' = Follower /\ is_Some (view cl (w_etcd w) !! state_key)) ->
  sts !! i = Some Before \/ sts !! i = Some Registered ->
  state_inv sts w -> state_inv (<[i := st']> sts) w'.
Proof.
  intros Hv Hst Hi HS. assert (i < length sts) by (apply lookup_lt_is_Some; naive_solver).
  destruct HS as [[Hn Hs]|(v & j & Hs & Hj & Hu)].
  - left. rewrite Hv. split; [done|]. intros k. destruct (decide (k = i)) as [->|Hk].
    + rewrite list_lookup_insert_eq by done. rewrite Hn in Hst.
      destruct Hst as [->|[->|[->|[_ [? ?]]]]]; done.
    + rewrite list_lookup_insert_ne by done. apply Hs.
  - right. exists v, j. rewrite Hv. split; [done|].
    assert (i <> j) by naive_solver. rewrite list_lookup_insert_ne by done. split; [done|].
    intros k Hk. apply Hu. destruct (decide (k = i)) as [->|Hki].
    + rewrite list_lookup_insert_eq in Hk by done. naive_solver.
    + by rewrite list_lookup_insert_ne in Hk.
Qed.

Lemma state_inv_effect sts w w' i m st st' : ms !! i = Some m -> sts !! i = Some st ->
  effect w w' m st st' -> state_inv sts w -> state_inv (<[i := st']> sts) w'.
Proof.
  intros Hm Hi He HS. destruct He as [st E|st' E Hst|st' Hn E Hst|E|Hl E].
  - rewrite list_insert_id by done. unfold state_inv. by rewrite E.
  - apply (state_inv_same _ w); [|naive_solver|by left|done].
    rewrite E, lookup_insert_ne; [done|]. by eapply machine_key_state.
  - destruct HS as [[_ Hs]|(v & j & Hs & _)]; [|congruence].
    right. exists startedState, i. rewrite E, lookup_insert_eq. split; [done|].
    rewrite list_lookup_insert_eq by by eapply lookup_lt_Some. split; [naive_solver|].
    intros k Hk. destruct (decide (k = i)) as [|Hki]; [done|].
    rewrite list_lookup_insert_ne in Hk by done. by destruct (Hs k).
  - apply (state_inv_same _ w); [by rewrite E|by auto|by right|done].
  - apply (state_inv_same _ w); [by rewrite E|by auto 6|by right|done].
Qed.

Lemma effect_not_before w w' m st st' : effect w w' m st st' -> st <> Before -> st' <> Before.
Proof. destruct 1; naive_solver. Qed.

Lemma inv_registered_call sts w ts w' i m st st' : cluster_inv sts w ts ->
  ms !! i = Some m -> sts !! i = Some st -> effect w w' m st st' -> w_now w' = w_now w ->
  forall j m' st1, ms !! j = Some m' -> <[i := st']> sts !! j = Some st1 -> st1 <> Before ->
    late w' \/ registered w' m'.
Proof.
  intros HI Hm Hst He Hn j m' st1 Hm' Hj Hb. pose proof (inv_now _ _ _ HI) as Ht.
  assert (forall st2, sts !! j = Some st2 -> st2 <> Before -> late w' \/ registered w' m') as Hold.
  { intros st2 H2 Hb2. destruct (inv_registered _ _ _ HI j m' st2) as [Hl|Hr]; try done.
    - left. unfold late in *. lia.
    - right. by eapply (registered_effect w w' i j). }
  destruct (decide (j = i)) as [->|Hji]; [|rewrite list_lookup_insert_ne in Hj by done; by eapply Hold].
  rewrite list_lookup_insert_eq in Hj by by eapply lookup_lt_Some. simplify_eq.
  destruct (decide (st = Before)) as [Hs|Hs]; [right; by eapply registered_now|by eapply Hold].
Qed.

Lemma inv_beats_call sts w ts w' i m st st' : cluster_inv sts w ts ->
  ms !! i = Some m -> sts !! i = Some st -> effect w w' m st st' ->
  (forall j, j <> i \/ st <> Before -> w_discs w' !! j = w_discs w !! j) ->
  w_beats w' = w_beats w \/ (w_beats w' = w_beats w ++ [i] /\ st = Registered /\ ready w i m) ->
  forall j, j ∈ w_beats w' -> exists m' st1, ms !! j = Some m' /\
    <[i := st']> sts !! j = Some st1 /\ st1 <> Before /\ ready w' j m'.
Proof.
  intros HI Hm Hst He Hd Hb j Hj.
  assert (exists m' st1, ms !! j = Some m' /\ sts !! j = Some st1 /\ st1 <> Before /\ ready w j m')
    as (m' & st1 & Hm' & Hs & Hb1 & Hr).
  { destruct Hb as [Hb|(Hb & -> & Hr)]; rewrite Hb in Hj; [by apply (inv_beats _ _ _ HI)|].
    apply elem_of_app in Hj as [Hj| ->%list_elem_of_singleton]; [by apply (inv_beats _ _ _ HI)|].
    by exists m, Registered. }
  exists m'. unfold ready. destruct (decide (j = i)) as [->|Hji]; simplify_eq.
  - exists st'. rewrite list_lookup_insert_eq by by eapply lookup_lt_Some. rewrite Hd by by right.
    do 2 (split; [done|]). split; [by eapply effect_not_before|done].
  - exists st1. rewrite list_lookup_insert_ne, Hd by auto. done.
Qed.

Lemma inv_call sts w ts i f w' q : cluster_inv sts w ts ->
  ts !! i = Some (Step f) -> f w = Done w' q ->
  exists st', cluster_inv (<[i := st']> sts) w' (<[i := q]> ts).
Proof.
  intros HI Hi Hf. destruct (inv_calls _ _ _ HI i _ Hi) as (m & st & Hm & Hst & Hat).
  pose proof (inv_now _ _ _ HI) as Ht.
  destruct (call_moves w w' i m st (Step f) q) as (st' & Hat' & He & Hn & Hd & Hb); try done.
  { intros ->. by eapply inv_other. }
  { simpl. by rewrite Hf. }
  exists st'. split.
  - intros j q' Hj. destruct (decide (j = i)) as [->|Hji].
    + rewrite list_lookup_insert_eq in Hj by by eapply lookup_lt_Some. injection Hj as <-.
      exists m, st'. by rewrite list_lookup_insert_eq by by eapply lookup_lt_Some.
    + rewrite list_lookup_insert_ne in Hj by done.
      destruct (inv_calls _ _ _ HI j q' Hj) as (m' & st1 & ? & ? & ?). exists m', st1.
      rewrite list_lookup_insert_ne by done. do 2 (split; [done|]).
      eapply at_stage_stable; [by apply Hd; left|lia|done].
  - rewrite !length_insert. apply (inv_len _ _ _ HI).
  - lia.
  - by eapply inv_registered_call.
  - by eapply inv_beats_call.
  - by eapply state_inv_effect, inv_state.
Qed.

(** A heartbeat of a registered machine writes what its registration wrote. *)
Lemma inv_beat sts w ts i w' err : cluster_inv sts w ts -> i ∈ w_beats w ->
  exec (heartbeat i) w = Returned w' err -> cluster_inv sts w' ts.
Proof.
  intros HI Hi Hx. destruct (inv_beats _ _ _ HI i Hi) as (m & st & Hm & Hst & Hb & Hr).
  pose proof (inv_now _ _ _ HI) as Ht.
  cbn in Hx. rewrite Hr in Hx. cbn [client name peer prefix] in Hx.
  destruct (client_Set _ _ _ _ _) as [e [r err']] eqn:E. cbn in Hx. injection Hx as <- _.
  apply Set_law in E; [|done].
  assert (exists st1 st2, effect w (set_w_etcd e w) m st1 st2) as (st1 & st2 & He).
  { destruct E as [E|[_ E]]; [exists Before, Before; apply eff_set; [done|by left]|].
    exists Before, Before. by apply eff_none. }
  split; cbn [w_now w_beats set_w_etcd]; try apply HI.
  - intros j q Hj. destruct (inv_calls _ _ _ HI j q Hj) as (m' & st' & ? & ? & ?).
    exists m', st'. do 2 (split; [done|]). apply (at_stage_stable w); [done| |done]. cbn. lia.
  - intros j m' st' Hm' Hs Hb'. destruct (inv_registered _ _ _ HI j m' st') as [Hl|Hg]; try done.
    + by left.
    + right. by eapply (registered_effect w _ i j).
  - pose proof (inv_state _ _ _ HI) as HS. unfold state_inv in *. cbn [w_etcd set_w_etcd].
    assert (view cl e !! state_key = view cl (w_etcd w) !! state_key) as Ek; [|by rewrite Ek].
    destruct E as [E|[_ E]]; rewrite E; [|done]. apply lookup_insert_ne. by eapply machine_key_state.
Qed.

(** Time passes: registrations made since [t0] last for the time to live. *)
Lemma inv_pass sts w ts d : (0 <= d)%Z -> cluster_inv sts w ts -> cluster_inv sts (pass d w) ts.
Proof.
  intros Hd HI. pose proof (inv_now _ _ _ HI) as Ht.
  split; cbn [w_now w_beats pass]; try apply HI; [|lia| |].
  - intros j q Hj. destruct (inv_calls _ _ _ HI j q Hj) as (m & st & ? & ? & ?).
    exists m, st. do 2 (split; [done|]). apply (at_stage_stable w); [done| |done]. cbn. lia.
  - intros j m st Hm Hs Hb. unfold late, registered. cbn [w_now w_etcd pass].
    destruct (decide (t0 + defaultTTL <= w_now w + d)%Z) as [?|Hl]; [by left|right].
    destruct (inv_registered _ _ _ HI j m st) as [Hw|(r & Hv & Hr)]; try done.
    { unfold late in Hw. lia. }
    exists (r - d)%Z. rewrite elapse_law, lookup_omap, Hv by done. cbn.
    assert (d <? r = true)%Z as -> by (apply Z.ltb_lt; lia). split; [done|lia].
  - destruct (inv_state _ _ _ HI) as [[Hn Hs]|(v & j & Hs & Hu)]; [left|right; exists v, j];
      cbn [w_etcd pass]; rewrite elapse_law, lookup_omap by done; [rewrite Hn|rewrite Hs]; done.
Qed.

Lemma inv_started e C : view cl e !! state_key = None -> started url ms e t0 C ->
  exists sts, cluster_inv sts (cl_world C) (cl_calls C).
Proof.
  intros He Hr. unfold started in Hr.
  remember (boot url ms e t0) as C0 eqn:E0.
  assert (exists sts, cluster_inv sts (cl_world C0) (cl_calls C0)) as Hinit.
  { subst. eexists. by apply inv_boot. }
  clear E0. induction Hr as [|C1 C2 C3 Hs _ IH]; [done|]. apply IH. destruct Hinit as [sts HI].
  destruct Hs; cbn in *.
  - edestruct inv_call; eauto.
  - exists sts. by eapply inv_beat.
  - exists sts. by apply inv_pass.
Qed.

(** No action of a call panics or blocks. *)
Lemma call_runs w i m st q : at_stage w i m st q ->
  (exists r, q = Ret r) \/ exists w' q', act q w = Some (Done w' q').
Proof.
  destruct 1 as [Hl|d Hd| Hr|?|?| Hr| |?| Hr|nodes Hr ?|?|?|?]; eauto; right.
  - apply lookup_lt_is_Some in Hl as [d Hd]. cbn. rewrite Hd. by do 2 eexists.
  - cbn. rewrite Hd. by do 2 eexists.
  - cbn. rewrite Hr. cbn [client]. by destruct (client_Set _ _ _ _ _) as [e [r err]]; do 2 eexists.
  - cbn. rewrite Hr. cbn [client]. by destruct (client_Create _ _ _ _ _) as [e [r err]]; do 2 eexists.
  - cbn. rewrite Hr. cbn [client]. by destruct (client_Get _ _ _ _ _) as [e [r err]]; do 2 eexists.
  - cbn. rewrite Hr. by do 2 eexists.
Qed.

Lemma inv_one_leader sts w ts i j : cluster_inv sts w ts ->
  ts !! i = Some (Ret ([], None)) -> ts !! j = Some (Ret ([], None)) -> i = j.
Proof.
  intros HI Hi Hj.
  assert (forall k, ts !! k = Some (Ret ([], None)) -> sts !! k = Some Leader) as Hl.
  { intros k Hk. destruct (inv_calls _ _ _ HI k _ Hk) as (m & st & _ & Hst & Hat).
    by inversion Hat; subst. }
  destruct (inv_state _ _ _ HI) as [[_ Hn]|(v & k & _ & _ & Hu)].
  - by destruct (Hn i) as [[] _]; apply Hl.
  - by rewrite (Hu i), (Hu j) by auto.
Qed.
End Cluster.

(** C13: the election of the first leader is safe and the others find the cluster.  Any
    number of machines with distinct names call [Do] with one discovery URL on a
    cluster whose state key is not set yet; their actions interleave in any order, with
    heartbeats and the passing of time, and any call of etcd may fail, carried out or
    not.  In every state reached at most one machine has returned as the leader; no
    call panics or blocks; and as long as the time to live of a registration has not
    passed, a machine that returned peers has the address of another machine among
    them, and no machine is told that an initialized cluster has no peers. *)
Theorem discovery_one_leader `{EtcdLaws} (url : string) (u : URL) (ms : list (string * string))
    (e : etcd) (t0 : Z) (C : cluster)
    (Hparse : url_Parse url = inl u)
    (Hpfx : TrimPrefix (url_Path u) keyPrefix <> "" /\ clean_elems (TrimPrefix (url_Path u) keyPrefix) <> [])
    (Hnames : forall i m, ms !! i = Some m -> simple m.1 = true /\ HasPrefix m.1 "_" = false)
    (Hdistinct : NoDup (map fst ms))
    (Hfresh : view (NewClient [url_String u]) e !!
                path_Join [TrimPrefix (url_Path u) keyPrefix; stateKey] = None)
    (HC : started url ms e t0 C) :
  (forall i j, cl_calls C !! i = Some (Ret ([], None)) ->
               cl_calls C !! j = Some (Ret ([], None)) -> i = j) /\
  (forall i f, cl_calls C !! i = Some (Step f) -> exists w' q, f (cl_world C) = Done w' q) /\
  ((w_now (cl_world C) < t0 + defaultTTL)%Z ->
   (forall i peers, cl_calls C !! i = Some (Ret (peers, None)) -> peers <> [] ->
      exists j m, j <> i /\ ms !! j = Some m /\ m.2 ∈ peers) /\
   (forall i peers, cl_calls C !! i <> Some (Ret (peers, Some noPeers)))).
Proof.
  destruct (inv_started url u ms t0 Hparse Hpfx Hnames Hdistinct e C Hfresh HC) as [sts HI].
  split; [intros i j; by eapply inv_one_leader|]. split.
  - intros i f Hi. destruct (inv_calls _ _ _ _ _ _ _ HI i _ Hi) as (m & st & _ & _ & Hat).
    destruct (call_runs _ _ _ _ _ _ _ _ _ Hat) as [[r ?]|(w' & q & Ha)]; [done|].
    injection Ha as Ha. by exists w', q.
  - intros Ht. assert (~ late t0 (cl_world C)) by (unfold late; lia). split.
    + intros i peers Hi Hp. destruct (inv_calls _ _ _ _ _ _ _ HI i _ Hi) as (m & st & _ & _ & Hat).
      inversion Hat as [| | | | | | | | | | | |? Hne Hk]; subst; [done|]. by destruct Hk.
    + intros i peers Hi. destruct (inv_calls _ _ _ _ _ _ _ HI i _ Hi) as (m & st & _ & _ & Hat).
      by inversion Hat.
Qed.

(** ** The heartbeats *)

(** [n] turns of [startHeartbeat], with the errors that it logs. *)
Fixpoint startHeartbeat `{EtcdLib} (p : nat) (n : nat) : proc world (list (option liberror)) :=
  match n with
  | 0 => Ret []
  | S n' => err <- startHeartbeat_turn p;; errs <- startHeartbeat p n';; Ret (err :: errs)
  end.

(** The longest run of failures that ends a list of heartbeats which starts after [k]
    failures in a row; [None] when there are seven failures in a row. *)
Fixpoint misses (k : nat) (errs : list (option liberror)) : option nat :=
  match errs with
  | [] => Some k
  | None :: errs' => misses 0 errs'
  | Some _ :: errs' => if (k <? 6)%nat then misses (S k) errs' else None
  end.

Section Heartbeats.
Context `{EtcdLaws}.

(** [k] turns ago, or later, the key was set. *)
Definition registered_since (c : Client) (d : Discoverer) (k : nat) (w : world) : Prop :=
  exists r, view c (w_etcd w) !! path_Join [prefix d; name d] = Some (peer d, Some r) /\
            (defaultTTL - Z.of_nat k * heartbeatInterval <= r)%Z.

Definition next_miss (k : nat) (err : option liberror) : nat :=
  match err with None => 0 | Some _ => S k end.

Lemma registered_since_set c d k w e err : k <= 6 -> registered_since c d k w ->
  view c e = <[path_Join [prefix d; name d] := (peer d, Some defaultTTL)]>
               (view c (elapse heartbeatInterval (w_etcd w))) \/
  (err <> None /\ view c e = view c (elapse heartbeatInterval (w_etcd w))) ->
  registered_since c d (next_miss k err) (set_w_etcd e (pass heartbeatInterval w)).
Proof.
  intros Hk (r & Hv & Hr) E. unfold registered_since, defaultTTL in *.
  assert (heartbeatInterval = 75600%Z) as Hi by reflexivity. rewrite Hi in *.
  cbn [w_etcd set_w_etcd]. destruct E as [E|[Hne E]]; rewrite E.
  - rewrite lookup_insert_eq. exists 604800%Z. split; [done|lia].
  - exists (r - 75600)%Z. rewrite elapse_law, lookup_omap, Hv by lia. cbn.
    assert (75600 <? r = true)%Z as -> by (apply Z.ltb_lt; lia).
    split; [done|]. destruct err; [cbn; lia|done].
Qed.

Lemma exec_heartbeat_turn p w d c : w_discs w !! p = Some d -> client d = Some c ->
  exists w' err, exec (startHeartbeat_turn p) w = Returned w' err /\ w_discs w' = w_discs w /\
    forall k, k <= 6 -> registered_since c d k w -> registered_since c d (next_miss k err) w'.
Proof.
  intros Hd Hc. unfold startHeartbeat_turn, heartbeat, call_client.
  rewrite exec_bind, exec_modify, exec_bind, exec_atomic. cbn [w_discs pass]. rewrite Hd, Hc.
  cbn [w_etcd pass]. destruct (client_Set _ _ _ _ _) as [e [rr err]] eqn:E.
  apply Set_law in E; [|done]. eexists _, err. split; [reflexivity|]. split; [done|].
  intros k Hk Hr. by apply registered_since_set.
Qed.

Lemma exec_startHeartbeat p d c n w : client d = Some c -> w_discs w !! p = Some d ->
  exists w' errs, exec (startHeartbeat p n) w = Returned w' errs /\ length errs = n /\
    forall k k', k <= 6 -> registered_since c d k w -> misses k errs = Some k' ->
      k' <= 6 /\ registered_since c d k' w'.
Proof.
  intros Hc. revert w. induction n as [|n IH]; intros w Hd; cbn [startHeartbeat].
  { exists w, []. do 2 (split; [done|]). by intros k k' ?? [= <-]. }
  destruct (exec_heartbeat_turn p w d c Hd Hc) as (w1 & err & E1 & Hd1 & H1).
  destruct (IH w1) as (w2 & errs & E2 & Hl & H2); [by rewrite Hd1|].
  exists w2, (err :: errs). rewrite exec_bind, E1, exec_bind, E2. split; [done|].
  split; [simpl; by rewrite Hl|]. intros k k' Hk Hr Hm. specialize (H1 k Hk Hr).
  destruct err as [err|]; simpl in Hm; [|by apply (H2 0); [lia|..]].
  destruct (Nat.ltb_spec k 6); [|done]. by apply (H2 (S k)); [lia|..].
Qed.
End Heartbeats.

(** C34: the heartbeats keep a machine registered.  Every eighth of the time to live
    [startHeartbeat] sets the key of its machine; whatever errors etcd returns, if no
    seven heartbeats in a row fail, then the loop has run all its turns and the key is
    still there with the address of the machine, and it stays there for more than the
    interval to the next heartbeat. *)
Theorem heartbeats_keep_registration `{EtcdLaws} (p n : nat) (d : Discoverer) (c : Client)
    (r0 : Z) (w : world)
    (Hd : w_discs w !! p = Some d) (Hc : client d = Some c)
    (Hreg : view c (w_etcd w) !! path_Join [prefix d; name d] = Some (peer d, Some r0))
    (Hr0 : (defaultTTL <= r0)%Z) :
  exists w' errs, exec (startHeartbeat p n) w = Returned w' errs /\ length errs = n /\
    (misses 0 errs <> None ->
     exists r, view c (w_etcd w') !! path_Join [prefix d; name d] = Some (peer d, Some r) /\
               (heartbeatInterval < r)%Z).
Proof.
  destruct (exec_startHeartbeat p d c n w Hc Hd) as (w' & errs & E & Hl & Hk).
  exists w', errs. do 2 (split; [done|]). intros Hm. destruct (misses 0 errs) as [k'|] eqn:Em; [|done].
  destruct (Hk 0 k') as [Hk' (r & Hv & Hr)]; [lia| |done|].
  - exists r0. split; [done|lia].
  - exists r. split; [done|]. assert (heartbeatInterval = 75600%Z) as Hi by reflexivity.
    unfold defaultTTL in Hr. lia.
Qed.

(** ** A small etcd, for the witnesses *)

Module DemoEtcd.
(** A URL that is only a path; a store that never fails. *)
Definition store := gmap string (string * option Z).
Definition ttl_of (ttl : Z) : option Z := if (ttl =? 0)%Z then None else Some ttl.

(** The nodes under [k], hidden ones left out. *)
Definition listing (k : string) (e : store) : list Node :=
  omap (fun kv : string * (string * option Z) =>
          let x := TrimPrefix kv.1 (k +:+ "/") in
          if HasPrefix kv.1 (k +:+ "/") && simple x && negb (HasPrefix x "_")
          then Some (MkNode ("/" +:+ kv.1) kv.2.1 []) else None) (map_to_list e).

#[export] Instance map_etcd : EtcdLib := {
  URL := string; url_Parse s := inl s; url_Path s := s; url_String s := s;
  etcd := store; Client := list string; NewClient ms := ms;
  client_Set _ k v ttl e :=
    (<[k := (v, ttl_of ttl)]> e, (Some (MkResponse (Some (MkNode k v []))), None));
  client_Create _ k v ttl e :=
    match e !! k with
    | Some _ => (e, (None, Some (EtcdError 105)))
    | None => (<[k := (v, ttl_of ttl)]> e, (Some (MkResponse (Some (MkNode k v []))), None))
    end;
  client_Get _ k _ _ e := (e, (Some (MkResponse (Some (MkNode k "" (listing k e)))), None));
  EcodeNodeExist := 105;
  elapse d e := omap (age d) e;
}.

Lemma listing_complete k e x v t : simple x = true -> HasPrefix x "_" = false ->
  e !! (k +:+ "/" +:+ x) = Some (v, t) -> MkNode (("/" +:+ k) +:+ "/" +:+ x) v [] ∈ listing k e.
Proof.
  intros Hx Hh He. apply list_elem_of_omap. exists (k +:+ "/" +:+ x, (v, t)). cbn [fst snd].
  split; [by apply elem_of_map_to_list|].
  rewrite <- string_app_assoc, TrimPrefix_app, Hx, Hh.
  assert (HasPrefix ((k +:+ "/") +:+ x) (k +:+ "/") = true) as ->.
  { apply HasPrefix_spec. by exists x. }
  cbn [andb negb]. by rewrite !string_app_assoc.
Qed.

#[export] Instance map_etcd_laws : EtcdLaws.
Proof.
  refine {| view := fun _ e => e |}; cbn.
  - intros c k v ttl e e' r err Ht [= <- _ _]. left. unfold ttl_of.
    by destruct (Z.eqb_spec ttl 0); [lia|].
  - intros c k v e e' r. destruct (e !! k) eqn:E; [done|]. intros [= <- <-]. by eauto.
  - intros c k v e e' r err. destruct (e !! k) eqn:E; [|done]. intros [= <- <- <-]. by eauto.
  - intros c k v e e' r err. destruct (e !! k) eqn:E; [|done]. intros [= <- <- <-]. by left.
  - intros c k e e' r [= <- <-]. eexists _, ("/" +:+ k). split; [done|]. cbn [Nodes].
    intros x v t Hx Hh He. exists []. by eapply listing_complete.
  - by intros c k e e' r [= <- _].
  - done.
Defined.

(** One action of machine [i]. *)
Definition run_call (C : cluster) (i : nat) : cluster :=
  match cl_calls C !! i with
  | Some (Step f) =>
      match f (cl_world C) with
      | Done w q => MkCluster w (<[i := q]> (cl_calls C))
      | _ => C
      end
  | _ => C
  end.

Lemma run_calls_started l C : rtc cluster_step C (fold_left run_call l C).
Proof.
  revert C. induction l as [|i l IH]; intros C; [done|]. cbn [fold_left].
  etrans; [|apply IH]. unfold run_call. destruct C as [w ts]. cbn [cl_calls cl_world].
  destruct (ts !! i) as [[r|f]|] eqn:Hi; [done| |done].
  destruct (f w) as [w' q| |] eqn:Hf; [|done..]. by eapply rtc_once, step_call.
Qed.

Definition machines : list (string * string) := [("a", "10.0.0.1"); ("b", "10.0.0.2")].
Definition url : string := "/v2/keys/token".

(** The two machines take turns. *)
Definition finished : cluster :=
  fold_left run_call [0; 1; 0; 1; 0; 1; 0; 1; 1; 0; 0; 1; 0; 0] (boot url machines (∅ : store) 0).
End DemoEtcd.

Lemma discovery_one_leader_witness :
  cl_calls DemoEtcd.finished !! 1 = Some (Ret ([], None)) /\
  cl_calls DemoEtcd.finished !! 0 = Some (Ret (["10.0.0.2"], None)) /\
  (cl_calls DemoEtcd.finished !! 0 = Some (Ret ([], None)) -> 0 = 1).
Proof.
  split; [vm_compute; reflexivity|]. split; [vm_compute; reflexivity|]. intros H0.
  refine (proj1 (@discovery_one_leader DemoEtcd.map_etcd DemoEtcd.map_etcd_laws DemoEtcd.url DemoEtcd.url DemoEtcd.machines
    (∅ : DemoEtcd.store) 0 DemoEtcd.finished _ _ _ _ _ _) 0 1 H0 _).
  - reflexivity.
  - vm_compute. by split.
  - intros [|[|i]] m Hm; [injection Hm as <-; vm_compute; auto..|discriminate Hm].
  - apply (bool_decide_unpack _). by vm_compute.
  - reflexivity.
  - apply DemoEtcd.run_calls_started.
  - vm_compute. reflexivity.
Defined.

Lemma heartbeats_keep_registration_witness :
  exists w' errs, exec (startHeartbeat 1 10) (cl_world DemoEtcd.finished) = Returned w' errs /\
    exists r, (w_etcd w' : DemoEtcd.store) !! "token/b" = Some ("10.0.0.2", Some r) /\
              (heartbeatInterval < r)%Z.
Proof.
  destruct (@heartbeats_keep_registration DemoEtcd.map_etcd DemoEtcd.map_etcd_laws 1 10
    (@MkDiscoverer DemoEtcd.map_etcd (Some ["/v2/keys/token"]) "b" "10.0.0.2" "token" "/v2/keys/token")
    ["/v2/keys/token"] defaultTTL (cl_world DemoEtcd.finished)) as (w' & errs & E & _ & Hr).
  - vm_compute. reflexivity.
  - reflexivity.
  - vm_compute. reflexivity.
  - vm_compute. discriminate.
  - exists w', errs. split; [exact E|]. apply Hr.
    assert ((match exec (startHeartbeat 1 10) (cl_world DemoEtcd.finished) with
             | Returned _ l => l | _ => [] end) = errs) as <- by (rewrite E; reflexivity).
    vm_compute. discriminate.
Defined.
