(* ===== verification/Subs.v ===== *)
(** * The subscription table (src/broker/subs.go)

    [subscriptions]: the exact-topic map, whose values are slices shared with the
    callers of [subscribers], the list of wildcard filters and the retained
    messages, with one definition per critical section.  An abstract table
    ([table]) says who is subscribed to what; the operations refine it, and the
    places where they do not are theorems too.  Connections are pointers ([nat]). *)

From Stdlib Require Import ZArith Lia.
From stdpp Require Import base gmap list strings numbers sets.
From S2P Require Import Prelude GoString GoProc GoSlice Wild Proto.

Local Open Scope string_scope.
Local Open Scope list_scope.

(** Pointers to messages and to connections. *)
Notation ptr := nat (only parsing).
Notation conn_ptr := nat (only parsing).

(** [*incomingConn] comparison [p == c]. *)
Definition is_conn (c : conn_ptr) (p : option conn_ptr) : bool :=
  match p with Some d => Nat.eqb d c | None => false end.

Section Subs.
Context `{GoRuntime} `{Mqttmsg}.

Record subscriptions := Subscriptions {
  posts : chan ptr;
  mu : bool;                            (* the mutex is held *)
  subs : gmap string slice;
  retain : gmap string Publish;
  wildcards : list (wild conn_ptr);
  arrays : list (list (option conn_ptr))   (* the backing arrays of [subs] *)
}.

Definition newSubscriptions (queueLen : nat) : subscriptions :=
  Subscriptions (make_chan queueLen) false ∅ ∅ [] [].

Definition subs_at (this : subscriptions) (topic : string) : slice :=
  default nil_slice (subs this !! topic).

(** The critical section of [add]. *)
Definition add (topic : string) (c : conn_ptr) (this : subscriptions) : subscriptions :=
  if isWildcard topic then
    let w := newWild topic c in
    if valid w then
      Subscriptions (posts this) (mu this) (subs this) (retain this)
        (wildcards this ++ [w]) (arrays this)
    else this
  else
    let r := append (arrays this) (subs_at this topic) (Some c) in
    Subscriptions (posts this) (mu this) (<[topic := r.2]> (subs this)) (retain this)
      (wildcards this) r.1.

(** The wildcard loop of [subscribers]: appends to the slice [res]. *)
Definition add_matching (parts : list string) (ws : list (wild conn_ptr))
    (h : list (list (option conn_ptr))) (res : slice)
    : list (list (option conn_ptr)) * slice :=
  foldl (fun hr w => if matches w parts then append hr.1 hr.2 (Some (wild_c w)) else hr)
    (h, res) ws.

(** The critical section of [subscribers]; the slice it returns shares the array
    of the topic as long as the capacity allows it. *)
Definition subscribers (topic : string) (this : subscriptions) : subscriptions * slice :=
  let res := subs_at this topic in
  let parts := Split topic SLASH in
  let r := add_matching parts (wildcards this) (arrays this) res in
  (Subscriptions (posts this) (mu this) (subs this) (retain this) (wildcards this) r.1, r.2).

(** The critical section of [unsubAll]. *)
Definition unsubAll (c : conn_ptr) (this : subscriptions) : subscriptions :=
  let slices := range_order (map_to_list (subs this)) in
  Subscriptions (posts this) (mu this) (subs this) (retain this)
    (filter (fun w => wild_c w <> c) (wildcards this))
    (foldl (fun h kv => sweep (is_conn c) h kv.2) (arrays this) slices).

(** The critical section of [unsub]. *)
Definition unsub (topic : string) (c : conn_ptr) (this : subscriptions) : subscriptions :=
  match subs this !! topic with
  | None => this
  | Some s =>
      let h := sweep (is_conn c) (arrays this) s in
      let nils := length (filter (fun p => p = None) (elems h s)) in
      Subscriptions (posts this) (mu this)
        (if Nat.eqb nils (sl_len s) then delete topic (subs this) else subs this)
        (retain this) (wildcards this) h
  end.

(** The retained message of a topic, as [sendRetain] looks it up: nothing for a
    wildcard filter. *)
Definition retained_for (topic : string) (this : subscriptions) : option Publish :=
  if isWildcard topic then None else retain this !! topic.

(** The critical sections of [run] that touch the retained messages. *)
Definition delete_retain (topic : string) (this : subscriptions) : subscriptions :=
  Subscriptions (posts this) (mu this) (subs this) (delete topic (retain this))
    (wildcards this) (arrays this).

Definition set_retain (m : Publish) (this : subscriptions) : subscriptions :=
  Subscriptions (posts this) (mu this) (subs this)
    (<[TopicName m := set_Retain true m]> (retain this)) (wildcards this) (arrays this).

(** ** Well-formedness *)

Record subs_wf (this : subscriptions) : Prop := {
  swf_slice t s : subs this !! t = Some s ->
    slice_wf (arrays this) s /\ 0 < sl_cap s;
  swf_disjoint t t' s s' : subs this !! t = Some s -> subs this !! t' = Some s' ->
    t <> t' -> sl_arr s <> sl_arr s';
  swf_literal t s : subs this !! t = Some s -> isWildcard t = false;
  swf_wild : Forall (fun w => valid w = true) (wildcards this);
  swf_retain t m : retain this !! t = Some m ->
    TopicName m = t /\ Retain (PubHeader m) = true
}.

(** ** The abstract table *)

(** Who is subscribed: the live subscribers of each topic in order, and the
    wildcard filters in order. *)
Record table := Table {
  t_exact : string -> list conn_ptr;
  t_wild : list (list string * conn_ptr)
}.

Definition table_empty : table := Table (fun _ => []) [].

Definition table_add (topic : string) (c : conn_ptr) (a : table) : table :=
  if isWildcard topic then
    if valid (newWild topic c) then Table (t_exact a) (t_wild a ++ [(Split topic SLASH, c)])
    else a
  else Table (fun t => if decide (t = topic) then t_exact a t ++ [c] else t_exact a t) (t_wild a).

Definition table_unsub (topic : string) (c : conn_ptr) (a : table) : table :=
  Table (fun t => if decide (t = topic) then filter (fun d => d <> c) (t_exact a t)
                  else t_exact a t) (t_wild a).

Definition table_unsubAll (c : conn_ptr) (a : table) : table :=
  Table (fun t => filter (fun d => d <> c) (t_exact a t))
    (filter (fun wc => wc.2 <> c) (t_wild a)).

Definition table_receivers (topic : string) (a : table) : list conn_ptr :=
  t_exact a topic ++
  (filter (fun wc => filter_denotes wc.1 (Split topic SLASH)) (t_wild a)).*2.

(** The pointers of a slice that are not nil. *)
Definition live (h : list (list (option conn_ptr))) (s : slice) : list conn_ptr :=
  omap id (elems h s).

Record refines (this : subscriptions) (a : table) : Prop := {
  ref_exact t : live (arrays this) (subs_at this t) = t_exact a t;
  ref_wild : (fun w => (wild_wild w, wild_c w)) <$> wildcards this = t_wild a
}.

Lemma subs_wf_set_retain m (t : subscriptions) : subs_wf t -> subs_wf (set_retain m t).
Proof.
  intros [Hsl Hd Hl Hv Hr]. split; try done.
  intros t' m'. simpl. rewrite lookup_insert. case_decide; [|apply Hr]. by intros [= <-].
Qed.

Lemma refines_set_retain m (t : subscriptions) a : refines t a -> refines (set_retain m t) a.
Proof. by intros [? ?]. Qed.

(** Every table refines the abstract table that it shows. *)
Lemma refines_self this :
  refines this (Table (fun t => live (arrays this) (subs_at this t))
                  ((fun w => (wild_wild w, wild_c w)) <$> wildcards this)).
Proof. by split. Qed.

(** ** Lemmas on the slices of the table *)

Lemma live_append h s h' s' c :
  slice_wf h s -> append h s (Some c) = (h', s') -> live h' s' = live h s ++ [c].
Proof.
  intros Hwf Ha. unfold live. by rewrite (append_elems _ _ _ _ _ Hwf Ha), omap_app.
Qed.

Lemma omap_sweep c (l : list (option conn_ptr)) :
  omap id ((fun x => if is_conn c x then None else x) <$> l) =
  filter (fun d => d <> c) (omap id l).
Proof.
  induction l as [|[d|] l IH]; csimpl; [done| |done].
  destruct (Nat.eqb d c) eqn:E; breflect; csimpl; rewrite IH.
  - subst. by rewrite filter_cons_False by naive_solver.
  - by rewrite filter_cons_True.
Qed.

Lemma live_sweep c h s :
  slice_wf h s -> live (sweep (is_conn c) h s) s = filter (fun d => d <> c) (live h s).
Proof. intros Hwf. unfold live. by rewrite sweep_elems, omap_sweep. Qed.

Lemma subs_at_wf this t : subs_wf this -> slice_wf (arrays this) (subs_at this t).
Proof.
  intros Hwf. unfold subs_at. destruct (subs this !! t) as [s|] eqn:E; simpl;
    [|apply nil_slice_wf]. by apply (swf_slice _ Hwf) in E as [].
Qed.

Lemma slice_wf_arr h (s : slice) :
  slice_wf (A := conn_ptr) h s -> 0 < sl_cap s -> sl_arr s < length h.
Proof. intros [_ [?|(a & Ha & _)]] ?; [lia|]. by eapply lookup_lt_Some. Qed.

(** The wildcard loop appends the matching connections in order, and leaves
    alone every slice that ends no later in the same array. *)
Lemma add_matching_spec parts ws h res :
  slice_wf h res ->
  let r := add_matching parts ws h res in
  slice_wf r.1 r.2 /\
  live r.1 r.2 = live h res ++ (wild_c <$> filter (fun w => matches w parts = true) ws) /\
  (forall t : slice, slice_wf h t -> 0 < sl_cap t ->
     apart t res -> slice_wf r.1 t /\ elems r.1 t = elems h t).
Proof.
  intros Hres. unfold add_matching. revert h res Hres.
  induction ws as [|w ws IH]; intros h res Hres; simpl.
  { rewrite app_nil_r. auto. }
  destruct (matches w parts) eqn:E.
  - rewrite filter_cons_True by done.
    destruct (append h res (Some (wild_c w))) as [h' res'] eqn:Ha.
    pose proof (append_wf _ _ _ _ _ Hres Ha) as Hwf'.
    destruct (IH h' res' Hwf') as (H1 & H2 & H3).
    split; [done|]. split.
    { rewrite H2, (live_append _ _ _ _ _ Hres Ha). simpl. by rewrite <- (assoc_L app). }
    intros t Ht Hcap Hsep.
    destruct (append_frame _ _ _ _ _ _ Hres Ht Ha Hsep) as [He Ht'].
    destruct (H3 t Ht' Hcap) as [H4 H5].
    { eapply append_apart; [|done|done]. by apply slice_wf_arr. }
    split; [done|congruence].
  - rewrite filter_cons_False by congruence. by apply IH.
Qed.

(** The slice of a topic is apart from the slice of every topic of the table. *)
Lemma subs_at_apart this t topic s :
  subs_wf this -> subs this !! t = Some s -> apart s (subs_at this topic).
Proof.
  intros Hwf Ht. unfold subs_at, apart. destruct (subs this !! topic) as [s'|] eqn:E; simpl.
  - destruct (decide (t = topic)) as [->|Hne].
    + rewrite Ht in E. injection E as <-. right. left. done.
    + left. by eapply swf_disjoint.
  - right. right. done.
Qed.

(** ** Every operation keeps the table well formed and refines the abstract one *)

Lemma newSubscriptions_wf n : subs_wf (newSubscriptions n).
Proof.
  split; simpl; try by intros *; rewrite lookup_empty. constructor.
Qed.

Lemma newSubscriptions_refines n : refines (newSubscriptions n) table_empty.
Proof. split; simpl; [|done]. intros t. unfold subs_at. simpl. by rewrite lookup_empty. Qed.

Lemma add_wf topic c this : subs_wf this -> subs_wf (add topic c this).
Proof.
  intros Hwf. unfold add. destruct (isWildcard topic) eqn:Ew.
  { destruct (valid (newWild topic c)) eqn:Ev; [|done].
    destruct Hwf. split; simpl; try done. apply Forall_app; auto. }
  pose proof (subs_at_wf this topic Hwf) as Hs.
  destruct (append (arrays this) (subs_at this topic) (Some c)) as [h' s'] eqn:Ha.
  pose proof (append_wf _ _ _ _ _ Hs Ha) as Hs'.
  assert (0 < sl_cap s') as Hcap.
  { pose proof (append_len _ _ _ _ _ Ha). destruct Hs' as [? _]. lia. }
  assert (forall t s, subs this !! t = Some s -> t <> topic -> sl_arr s <> sl_arr s') as Harr.
  { intros t s Ht Hne. destruct (append_arr _ _ _ _ _ Ha) as [Hr|Hr]; rewrite Hr.
    - unfold subs_at in *. destruct (subs this !! topic) as [s0|] eqn:E; simpl in *;
        [by eapply swf_disjoint|].
      unfold append in Ha. simpl in Ha. injection Ha as <- <-. simpl in Hr.
      apply (swf_slice _ Hwf) in Ht as [Ht Hc]. pose proof (slice_wf_arr _ _ Ht Hc). lia.
    - apply (swf_slice _ Hwf) in Ht as [Ht Hc]. pose proof (slice_wf_arr _ _ Ht Hc). lia. }
  split; simpl.
  - intros t s. rewrite lookup_insert. case_decide; [by intros [= <-]|]. intros Ht.
    pose proof (subs_at_apart this t topic s Hwf Ht) as Hap.
    apply (swf_slice _ Hwf) in Ht as [Ht Hc]. split; [|done].
    by destruct (append_frame _ _ _ _ _ _ Hs Ht Ha Hap).
  - intros t t' s1 s2. rewrite !lookup_insert.
    repeat case_decide; intros Ht Ht' Hne; subst; simplify_eq; [|by eauto|by eapply swf_disjoint].
    intros Heq. by eapply Harr.
  - intros t s. rewrite lookup_insert. case_decide; [congruence|]. apply (swf_literal _ Hwf).
  - apply Hwf.
  - apply Hwf.
Qed.

Lemma add_refines topic c this a :
  subs_wf this -> refines this a -> refines (add topic c this) (table_add topic c a).
Proof.
  intros Hwf [He Hw]. unfold add, table_add. destruct (isWildcard topic) eqn:Ew.
  { destruct (valid (newWild topic c)); [|by split].
    split; simpl; [done|]. by rewrite fmap_app, Hw. }
  pose proof (subs_at_wf this topic Hwf) as Hs.
  destruct (append (arrays this) (subs_at this topic) (Some c)) as [h' s'] eqn:Ha.
  split; simpl; [|done]. intros t. unfold subs_at at 1. simpl. rewrite lookup_insert.
  destruct (decide (topic = t)) as [->|Hne].
  - rewrite decide_True by done. simpl. rewrite <- He. by apply live_append.
  - rewrite decide_False by done. rewrite <- He. unfold live, subs_at.
    destruct (subs this !! t) as [s|] eqn:Et; simpl; [|done].
    f_equal. pose proof (subs_at_apart this t topic s Hwf Et) as Hap.
    apply (swf_slice _ Hwf) in Et as [Et _].
    by destruct (append_frame _ _ _ _ _ _ Hs Et Ha Hap).
Qed.

Lemma wild_refines (this : subscriptions) a parts :
  subs_wf this -> refines this a ->
  wild_c <$> filter (fun w => matches w parts = true) (wildcards this) =
  (filter (fun wc => filter_denotes wc.1 parts) (t_wild a)).*2.
Proof.
  intros Hwf [_ <-]. pose proof (swf_wild _ Hwf) as Hv.
  induction Hv as [|w ws Hw _ IH]; [done|]. csimpl.
  apply valid_spec in Hw.
  pose proof (matches_from_spec (wild_wild w) 0 parts Hw (Nat.le_0_l _)) as Hm.
  rewrite drop_0 in Hm. destruct (matches w parts) eqn:E; unfold matches in E.
  - rewrite !filter_cons_True by (done || by apply Hm). csimpl. by rewrite IH.
  - rewrite !filter_cons_False by (simpl; rewrite <- ?Hm; unfold matches; congruence). done.
Qed.

(** The result lists the receivers of the abstract table in order, and the table
    itself is as before, although [append] may have written into its arrays. *)
Lemma subscribers_spec topic this a :
  subs_wf this -> refines this a ->
  let r := subscribers topic this in
  subs_wf r.1 /\ refines r.1 a /\ slice_wf (arrays r.1) r.2 /\
  live (arrays r.1) r.2 = table_receivers topic a.
Proof.
  intros Hwf Href. pose proof (subs_at_wf this topic Hwf) as Hs.
  pose proof (add_matching_spec (Split topic SLASH) (wildcards this) _ _ Hs) as (H1 & H2 & H3).
  unfold subscribers. simpl.
  destruct (add_matching _ _ _ _) as [h' res]; simpl in *.
  assert (forall t s, subs this !! t = Some s -> slice_wf h' s /\ elems h' s = elems (arrays this) s)
    as Hkeep.
  { intros t s Ht. pose proof (subs_at_apart this t topic s Hwf Ht).
    apply (swf_slice _ Hwf) in Ht as [Ht Hc]. by apply H3. }
  split; [|split; [|split; [done|]]].
  - destruct Hwf as [Hsl Hd Hl Hv Hr]. split; simpl; try done.
    intros t s Ht. destruct (Hsl t s Ht) as [_ Hc]. by destruct (Hkeep t s Ht).
  - destruct Href as [He Hw]. split; simpl; [|done]. intros t. rewrite <- He.
    unfold live, subs_at. simpl. destruct (subs this !! t) as [s|] eqn:Et; simpl; [|done].
    by destruct (Hkeep t s Et) as [_ ->].
  - unfold table_receivers. rewrite H2, (ref_exact _ _ Href). f_equal. by apply wild_refines.
Qed.

Lemma unsub_wf topic c this : subs_wf this -> subs_wf (unsub topic c this).
Proof.
  intros Hwf. unfold unsub. destruct (subs this !! topic) as [s|] eqn:E; [|done].
  destruct Hwf as [Hsl Hd Hl Hv Hr].
  assert (forall t s', (if Nat.eqb (length (filter (fun p => p = None)
                          (elems (sweep (is_conn c) (arrays this) s) s))) (sl_len s)
                        then delete topic (subs this) else subs this) !! t = Some s' ->
                       subs this !! t = Some s') as Hsub.
  { intros t s'. destruct (Nat.eqb _ _); [|done]. rewrite lookup_delete_Some. by intros []. }
  split; simpl; [| | |done|done].
  - intros t s' Ht. apply Hsub in Ht. destruct (Hsl t s' Ht) as [Ht' Hc].
    split; [by apply sweep_wf|done].
  - intros t t' s1 s2 Ht Ht'. apply Hsub in Ht, Ht'. eauto.
  - intros t s' Ht. apply Hsub in Ht. eauto.
Qed.

(** A list of pointers that are all nil has no live pointer. *)
Lemma all_nil_live (l : list (option conn_ptr)) :
  length (filter (fun p => p = None) l) = length l -> omap id l = [].
Proof.
  intros Hl. assert (Forall (fun p => p = None) l) as Hf.
  { induction l as [|p l IH]; [constructor|].
    destruct (decide (p = None)) as [->|Hp].
    - rewrite filter_cons_True in Hl by done. simpl in Hl. constructor; [done|]. apply IH. lia.
    - rewrite filter_cons_False in Hl by done. simpl in Hl.
      pose proof (length_filter (fun p => p = None) l). lia. }
  induction Hf as [|p l -> _ IH]; csimpl; [done|]. apply IH.
  rewrite filter_cons_True in Hl by done. simpl in Hl. lia.
Qed.

Lemma unsub_refines topic c this a :
  subs_wf this -> refines this a -> refines (unsub topic c this) (table_unsub topic c a).
Proof.
  intros Hwf Href. unfold unsub, table_unsub.
  destruct (subs this !! topic) as [s|] eqn:E; destruct Href as [He Hw].
  - destruct (swf_slice _ Hwf _ _ E) as [Hs Hc].
    split; simpl; [|done]. intros t. rewrite <- He.
    destruct (decide (t = topic)) as [->|Hne].
    + assert (subs_at this topic = s) as -> by (unfold subs_at; by rewrite E).
      rewrite <- (live_sweep c) by done. unfold subs_at. simpl.
      destruct (Nat.eqb _ _) eqn:En; breflect.
      * rewrite lookup_delete_eq. symmetry. apply all_nil_live.
        rewrite En. symmetry. apply length_elems. by apply sweep_wf.
      * by rewrite E.
    + unfold live, subs_at. simpl.
      assert ((if Nat.eqb (length (filter (fun p => p = None)
                 (elems (sweep (is_conn c) (arrays this) s) s))) (sl_len s)
               then delete topic (subs this) else subs this) !! t = subs this !! t) as ->.
      { destruct (Nat.eqb _ _); [|done]. by apply lookup_delete_ne. }
      destruct (subs this !! t) as [s'|] eqn:Et; simpl; [|done].
      f_equal. apply sweep_frame; [done| |by eapply swf_disjoint].
      by apply (swf_slice _ Hwf) in Et as [].
  - split; [|done]. intros t. rewrite He. simpl. case_decide; [subst|done].
    assert (t_exact a topic = []) as ->; [|done].
    rewrite <- He. unfold subs_at. by rewrite E.
Qed.

(** Sweeping a list of slices of the table. *)
Lemma sweep_all_spec c this (l : list (string * slice)) h :
  subs_wf this -> NoDup l.*1 ->
  (forall k s, (k, s) ∈ l -> subs this !! k = Some s) ->
  (forall t s, subs this !! t = Some s -> slice_wf h s) ->
  let h' := foldl (fun h kv => sweep (is_conn c) h kv.2) h l in
  forall t s, subs this !! t = Some s ->
    slice_wf h' s /\
    live h' s = if decide (t ∈ l.*1) then filter (fun d => d <> c) (live h s) else live h s.
Proof.
  intros Hwf. revert h. induction l as [|[k s0] l IH]; intros h Hnd Hl Hh h' t s Ht.
  { split; [by eapply Hh|]. by destruct (decide _) as [Hin%elem_of_nil|]. }
  rewrite fmap_cons in Hnd |- *. apply NoDup_cons in Hnd as [Hk Hnd].
  assert (subs this !! k = Some s0) as Hks by (apply Hl; left).
  destruct (IH (sweep (is_conn c) h s0)) with (t := t) (s := s) as [Hw Hlive]; try done.
  { intros k' s' Hin. apply Hl. by right. }
  { intros t' s' Ht'. apply sweep_wf. by eapply Hh. }
  subst h'. cbn [foldl snd]. split; [done|]. rewrite Hlive.
  destruct (decide (t = k)) as [->|Hne].
  - rewrite Hks in Ht. injection Ht as <-. rewrite decide_False by done.
    rewrite decide_True by (by left). apply live_sweep. by eapply Hh.
  - assert (live (sweep (is_conn c) h s0) s = live h s) as ->.
    { unfold live. rewrite sweep_frame; [done|by eapply Hh|by eapply Hh|].
      by eapply swf_disjoint. }
    destruct (decide (t ∈ l.*1)) as [Hin|Hin].
    + by rewrite decide_True by (by right).
    + by rewrite decide_False by set_solver.
Qed.

Lemma unsubAll_sweeps c this t s :
  subs_wf this -> subs this !! t = Some s ->
  slice_wf (arrays (unsubAll c this)) s /\
  live (arrays (unsubAll c this)) s = filter (fun d => d <> c) (live (arrays this) s).
Proof.
  intros Hwf Ht. unfold unsubAll. simpl.
  destruct (sweep_all_spec c this (range_order (map_to_list (subs this))) (arrays this) Hwf)
    with (t := t) (s := s) as [Hw Hl]; try done.
  - rewrite range_order_perm. apply NoDup_fst_map_to_list.
  - intros k s'. rewrite range_order_perm. apply elem_of_map_to_list.
  - intros t' s' Ht'. by apply (swf_slice _ Hwf) in Ht' as [].
  - split; [done|]. rewrite Hl. rewrite decide_True; [done|].
    apply list_elem_of_fmap. exists (t, s). split; [done|].
    rewrite range_order_perm. by apply elem_of_map_to_list.
Qed.

Lemma unsubAll_wf c this : subs_wf this -> subs_wf (unsubAll c this).
Proof.
  intros Hwf. pose proof (unsubAll_sweeps c this) as Hsw.
  destruct Hwf as [Hsl Hd Hl Hv Hr]. split; simpl; [|done|done| |done].
  - intros t s Ht. destruct (Hsl t s Ht). split; [|done].
    by apply (Hsw t s (Build_subs_wf _ Hsl Hd Hl Hv Hr)).
  - by apply Forall_filter_sub.
Qed.

Lemma unsubAll_refines c this a :
  subs_wf this -> refines this a -> refines (unsubAll c this) (table_unsubAll c a).
Proof.
  intros Hwf [He Hw]. split.
  - intros t. change (t_exact (table_unsubAll c a) t) with (filter (fun d => d <> c) (t_exact a t)).
    rewrite <- He. unfold subs_at. simpl subs.
    destruct (subs this !! t) as [s|] eqn:Et; simpl default; [|done].
    by apply (unsubAll_sweeps c this t s Hwf Et).
  - simpl. rewrite <- Hw. clear. induction (wildcards this) as [|w ws IH]; [done|]. csimpl.
    destruct (decide (wild_c w = c)).
    + rewrite !filter_cons_False by (simpl; naive_solver). done.
    + rewrite !filter_cons_True by done. csimpl. by rewrite IH.
Qed.
End Subs.

(** ** Histories of operations *)

(** The operations on a table, in the order in which they take the mutex. *)
Inductive table_op :=
| OpAdd (topic : string) (c : conn_ptr)
| OpUnsub (topic : string) (c : conn_ptr)
| OpUnsubAll (c : conn_ptr)
| OpSubscribers (topic : string).

Section Histories.
Context `{GoRuntime} `{Mqttmsg}.

Definition run_op (this : subscriptions) (o : table_op) : subscriptions :=
  match o with
  | OpAdd t c => add t c this
  | OpUnsub t c => unsub t c this
  | OpUnsubAll c => unsubAll c this
  | OpSubscribers t => (subscribers t this).1
  end.

Definition run_table (a : table) (o : table_op) : table :=
  match o with
  | OpAdd t c => table_add t c a
  | OpUnsub t c => table_unsub t c a
  | OpUnsubAll c => table_unsubAll c a
  | OpSubscribers _ => a
  end.

Definition run_ops (n : nat) (ops : list table_op) : subscriptions :=
  foldl run_op (newSubscriptions n) ops.

Definition run_tables (ops : list table_op) : table := foldl run_table table_empty ops.

Lemma run_op_refines this a o :
  subs_wf this -> refines this a ->
  subs_wf (run_op this o) /\ refines (run_op this o) (run_table a o).
Proof.
  intros Hwf Href. destruct o as [t c|t c|c|t]; simpl.
  - auto using add_wf, add_refines.
  - auto using unsub_wf, unsub_refines.
  - auto using unsubAll_wf, unsubAll_refines.
  - by destruct (subscribers_spec t this a Hwf Href) as (? & ? & _).
Qed.

Lemma run_ops_refines n ops :
  subs_wf (run_ops n ops) /\ refines (run_ops n ops) (run_tables ops).
Proof.
  unfold run_ops, run_tables. induction ops as [|o ops IH] using rev_ind; simpl.
  - auto using newSubscriptions_wf, newSubscriptions_refines.
  - rewrite !foldl_snoc. destruct IH. by apply run_op_refines.
Qed.

(** Connection [c] occurs nowhere in the table. *)
Definition absent (c : conn_ptr) (a : table) : Prop :=
  (forall t, c ∉ t_exact a t) /\ c ∉ (t_wild a).*2.

Lemma unsubAll_refines_absent c this a :
  subs_wf this -> refines this a -> absent c a -> refines (unsubAll c this) a.
Proof.
  intros Hwf Href [He Hw]. destruct (unsubAll_refines c this a Hwf Href) as [He' Hw'].
  assert (forall {B} (f : B -> conn_ptr) (l : list B), c ∉ f <$> l -> filter (fun x => f x <> c) l = l) as Hid.
  { intros B f l. induction l as [|x l IH]; csimpl; [done|]. intros Hn. apply not_elem_of_cons in Hn as [Hx Hn].
    rewrite filter_cons_True by congruence. by rewrite IH. }
  split.
  - intros t. rewrite He'. simpl. apply (Hid _ id). rewrite list_fmap_id. apply He.
  - rewrite Hw'. simpl. by apply (Hid _ snd).
Qed.

Lemma absent_receivers c a t : absent c a -> c ∉ table_receivers t a.
Proof.
  intros [He Hw] Hin. unfold table_receivers in Hin. apply elem_of_app in Hin as [Hin|Hin].
  - by apply (He t).
  - apply Hw. apply list_elem_of_fmap in Hin as (wc & -> & Hin).
    apply list_elem_of_filter in Hin as [_ Hin]. by apply list_elem_of_fmap_2.
Qed.

Lemma unsubAll_absent c a : absent c (table_unsubAll c a).
Proof.
  split; simpl.
  - intros t Hin. by apply list_elem_of_filter in Hin as [? _].
  - intros Hin. apply list_elem_of_fmap in Hin as (wc & Heq & Hin).
    by apply list_elem_of_filter in Hin as [? _].
Qed.

(** Adding [c] is the only operation that brings it into the table. *)
Lemma run_table_absent c a o :
  (forall t, o <> OpAdd t c) -> absent c a -> absent c (run_table a o).
Proof.
  intros Hne [He Hw]. destruct o as [t d|t d|d|t]; simpl; [| | |done].
  - assert (c <> d) by (intros ->; by eapply Hne).
    unfold table_add. repeat case_goal; try done; (split; simpl; [|done || set_solver]).
    + done.
    + intros t'. case_decide; [|done]. specialize (He t'). set_solver.
  - split; simpl; [|done]. intros t'. case_decide; [|done].
    rewrite list_elem_of_filter. intros [_ ?]. by eapply He.
  - split; simpl.
    + intros t'. rewrite list_elem_of_filter. intros [_ ?]. by eapply He.
    + intros Hin. apply Hw. apply list_elem_of_fmap in Hin as (wc & -> & Hin).
      apply list_elem_of_filter in Hin as [_ Hin]. by apply list_elem_of_fmap_2.
Qed.

Lemma run_tables_absent c a ops :
  Forall (fun o => forall t, o <> OpAdd t c) ops -> absent c a -> absent c (foldl run_table a ops).
Proof.
  intros Hf. revert a. induction Hf as [|o ops Ho _ IH]; intros a Ha; simpl; [done|].
  apply IH. by apply run_table_absent.
Qed.
End Histories.

(** ** Properties *)

(** C10: refinement of the subscription table.  After any history of [add], [unsub],
    [unsubAll] and [subscribers] on a new table, the concrete state (slices with
    nil holes, shared arrays, wildcard list) is well formed and represents the
    abstract table of the same history, and [subscribers] returns, in order, the
    live subscribers of the topic followed by those of the wildcard filters whose
    meaning contains the topic. *)
Theorem subscriptions_refine_table `{GoRuntime} `{Mqttmsg} (n : nat)
    (ops : list table_op) (topic : string) :
  let this := run_ops n ops in
  let r := subscribers topic this in
  subs_wf this /\ refines this (run_tables ops) /\
  live (arrays r.1) r.2 = table_receivers topic (run_tables ops).
Proof.
  destruct (run_ops_refines n ops) as [Hwf Href]. split; [done|]. split; [done|].
  by destruct (subscribers_spec topic _ _ Hwf Href) as (_ & _ & _ & ?).
Qed.

(** Who receives a publication.  After any history, a connection is among the
    subscribers of a topic exactly when it has a live subscription to that very
    topic or a registered wildcard filter that denotes the topic. *)
Theorem receivers_characterised `{GoRuntime} `{Mqttmsg} (n : nat)
    (ops : list table_op) (topic : string) (c : conn_ptr) :
  let r := subscribers topic (run_ops n ops) in
  c ∈ live (arrays r.1) r.2 <->
  c ∈ t_exact (run_tables ops) topic \/
  exists ws, (ws, c) ∈ t_wild (run_tables ops) /\ filter_denotes ws (Split topic SLASH).
Proof.
  intros r. destruct (run_ops_refines n ops) as [Hwf Href].
  destruct (subscribers_spec topic _ _ Hwf Href) as (_ & _ & _ & Hl).
  subst r. rewrite Hl. unfold table_receivers. rewrite elem_of_app, list_elem_of_fmap.
  setoid_rewrite list_elem_of_filter. split.
  - intros [?|([ws c'] & -> & Hd & Hin)]; [by left|right]. by exists ws.
  - intros [?|(ws & Hin & Hd)]; [by left|right]. by exists (ws, c).
Qed.

(** A connection that is gone receives nothing.  After [unsubAll c], and as
    long as [c] is not added again, no [subscribers] call on any topic returns it,
    whatever other operations follow. *)
Theorem unsubAll_final `{GoRuntime} `{Mqttmsg} (n : nat) (before after : list table_op)
    (c : conn_ptr) (topic : string)
    (Hafter : Forall (fun o => forall t, o <> OpAdd t c) after) :
  let r := subscribers topic (run_ops n (before ++ OpUnsubAll c :: after)) in
  c ∉ live (arrays r.1) r.2.
Proof.
  intros r. destruct (run_ops_refines n (before ++ OpUnsubAll c :: after)) as [Hwf Href].
  destruct (subscribers_spec topic _ _ Hwf Href) as (_ & _ & _ & Hl).
  subst r. rewrite Hl. apply absent_receivers. unfold run_tables.
  rewrite foldl_app. simpl. apply run_tables_absent; [done|]. apply unsubAll_absent.
Qed.

Lemma unsubAll_final_witness :
  let R := doubling_runtime in let M := bytes_mqttmsg in
  let after := [OpSubscribers "a/b"; OpAdd "a/b" 2] in
  let r := @subscribers R M "a/b"
             (@run_ops R M 5 ([OpAdd "a/b" 1; OpAdd "a/#" 1] ++ OpUnsubAll 1 :: after)) in
  live (arrays r.1) r.2 = [2] /\ 1 ∉ live (arrays r.1) r.2.
Proof.
  intros R M after. split; [reflexivity|].
  apply (@unsubAll_final R M 5 [OpAdd "a/b" 1; OpAdd "a/#" 1] after 1 "a/b").
  repeat constructor; discriminate.
Defined.

(** Unsubscribing from a wildcard filter does nothing.  In every reachable
    table, [unsub] with a topic that contains a wildcard character leaves the
    whole state as it is, so the filter goes on matching. *)
Theorem unsub_wildcard_ineffective `{GoRuntime} `{Mqttmsg} (n : nat)
    (ops : list table_op) (topic : string) (c : conn_ptr)
    (Hwild : isWildcard topic = true) :
  unsub topic c (run_ops n ops) = run_ops n ops.
Proof.
  destruct (run_ops_refines n ops) as [Hwf _]. unfold unsub.
  destruct (subs (run_ops n ops) !! topic) as [s|] eqn:E; [|done].
  apply (swf_literal _ Hwf) in E. congruence.
Qed.

Lemma unsub_wildcard_ineffective_witness :
  let R := doubling_runtime in let M := bytes_mqttmsg in
  let this := @run_ops R M 5 [OpAdd "a/#" 1] in
  isWildcard "a/#" = true /\ unsub "a/#" 1 this = this /\
  live (arrays (subscribers "a/b" this).1) (subscribers "a/b" this).2 = [1].
Proof.
  intros R M this. split; [reflexivity|]. split; [|reflexivity].
  exact (@unsub_wildcard_ineffective R M 5 [OpAdd "a/#" 1] "a/#" 1 eq_refl).
Defined.

Lemma add_matching_filter `{GoRuntime} parts ws h res :
  add_matching parts ws h res =
  foldl (fun hr w => append hr.1 hr.2 (Some (wild_c w))) (h, res)
    (filter (fun w => matches w parts = true) ws).
Proof.
  unfold add_matching. revert h res. induction ws as [|w ws IH]; intros h res; simpl; [done|].
  destruct (matches w parts) eqn:E.
  - rewrite filter_cons_True by done. simpl.
    destruct (append h res (Some (wild_c w))) as [h' res']. apply IH.
  - rewrite filter_cons_False by congruence. apply IH.
Qed.

(** C37: the slice that [subscribers] returns is not a snapshot.  When the slice of
    the topic has room for the one matching wildcard subscriber, the result shares
    its array, and the next [add] to the topic overwrites that entry: a worker
    that is still reading the result delivers to the new subscriber in its place. *)
Theorem subscribers_result_overwritten `{GoRuntime} `{Mqttmsg} (this : subscriptions)
    (topic : string) (w : wild conn_ptr) (d : conn_ptr)
    (Hwf : subs_wf this) (Hlit : isWildcard topic = false)
    (Hone : filter (fun w => matches w (Split topic SLASH) = true) (wildcards this) = [w])
    (Hroom : sl_len (subs_at this topic) < sl_cap (subs_at this topic)) :
  let r := subscribers topic this in
  let i := sl_len (subs_at this topic) in
  index (arrays r.1) r.2 i = Some (wild_c w) /\
  index (arrays (add topic d r.1)) r.2 i = Some d.
Proof.
  intros r i. subst r i. unfold subscribers. rewrite add_matching_filter, Hone. cbn [foldl fst snd].
  pose proof (subs_at_wf this topic Hwf) as [Hle [Hz|(arr & Ha & Hl)]]; [lia|].
  set (s := subs_at this topic) in *.
  assert (sl_arr s < length (arrays this)) by (by eapply lookup_lt_Some).
  assert ((sl_len s <? sl_cap s) = true)%nat as Hlt by (by apply Nat.ltb_lt).
  assert ((sl_len s <? S (sl_len s)) = true)%nat as Hlt' by (apply Nat.ltb_lt; lia).
  unfold add. rewrite Hlit. change (subs_at (Subscriptions _ _ _ _ _ _) topic) with s.
  unfold append. rewrite Hlt. simpl. unfold index. simpl. rewrite Hlt'.
  unfold array_at, set_array. rewrite !list_lookup_insert_eq by (rewrite ?length_insert; done).
  simpl. rewrite Ha. simpl.
  rewrite !list_lookup_insert_eq by (rewrite ?length_insert; lia). done.
Qed.

Lemma subscribers_result_overwritten_witness :
  let R := doubling_runtime in let M := bytes_mqttmsg in
  let this := @run_ops R M 5 [OpAdd "t" 1; OpAdd "t" 2; OpAdd "t" 3; OpAdd "#" 9] in
  let r := subscribers "t" this in
  elems (arrays r.1) r.2 = [Some 1; Some 2; Some 3; Some 9] /\
  index (arrays (@add R M "t" 4 r.1)) r.2 3 = Some 4.
Proof.
  intros R M this. split; [reflexivity|].
  apply (@subscribers_result_overwritten R M this "t" (newWild "#" 9) 4).
  - apply run_ops_refines.
  - reflexivity.
  - reflexivity.
  - vm_compute. lia.
Defined.
