(* ===== verification/Broker.v ===== *)
(** * The broker state and its handlers (src/broker: session.go, proto.go, subs.go,
      server.go, endpoint.go, peers.go, presence.go, auth.go, types.go, global.go)

    One record holds what the goroutines of a broker share: the connections, the
    global map of clients, the stores, the subscription table, the peers, the
    statistics, and the memory of the messages and receipts they point to.  Each
    method is a goroutine body ([proc]) made of the atomic actions of the source,
    in its order: a channel operation, an atomic counter update, a critical
    section, a read or write of a shared field. *)

From Stdlib Require Import ZArith Lia.
From stdpp Require Import base gmap list strings numbers.
From S2P Require Import Prelude GoString GoProc GoSlice Wild Config Proto Store Stats Subs.

Local Open Scope string_scope.
Local Open Scope list_scope.

Definition protocolName : string := "MQIsdp".
Definition protocolVersion : N := 3.
Definition maxClientIdLength : nat := 23.
Definition PRESENCE_KEY_PREFIX : string := "_pre:".

(** A command sent to the redis server of the presence service. *)
Inductive redis_cmd :=
| RedisSet (key : string)
| RedisDel (key : string).

(** Goroutines started by a [go] statement inside a handler. *)
Inductive goroutine :=
| GoHeartbeat (c : conn_ptr) (keepAliveTimer : Z).

(** What a loop body does next: another iteration, or [return]. *)
Inductive flow := Continue | Return.

#[export] Instance flow_eq_dec : EqDecision flow.
Proof. solve_decision. Defined.

Section State.
Context `{GoRuntime} `{Extern}.

(** A job of an outbound queue; the receipt is a channel that is only closed. *)
Record job := Job { job_m : Message ptr; job_r : option nat }.

Record incomingConn := IncomingConn {
  flag : option Connect;              (* nil if not CONNECT ok *)
  alive : bool;
  connectedAt : Z;
  lastOpTime : Z;                     (* seconds *)
  stopChan : bool;                    (* closed *)
  netClosed : bool;                   (* the net.Conn is closed *)
  jobs : chan job;
  heartbeatStop : bool;               (* closed *)
  store : option nat;                 (* nil, or a store of the registry *)
  subN : Z;
  leakyBucket : LeakyBucket;
  wire : list (Message Publish)       (* messages written to the net.Conn *)
}.

Record endpoint := Endpoint {
  ep_cf : PeersConfig;
  ep_host : string;
  ep_connected : bool;                (* conn is open *)
  ep_jobs : chan job;
  ep_alive : bool;
  ep_running : bool;
  ep_wire : list (Message Publish)    (* messages written to the peer *)
}.

Record Server := MkServer {
  srv_cf : Config;
  srv_heap : list Publish;            (* the PUBLISH messages, by pointer *)
  srv_conns : list incomingConn;      (* the connections, by pointer *)
  srv_clients : gmap string conn_ptr; (* clients, key is client id *)
  srv_stores : registry (MemoryStore (Message ptr));
  srv_subs : subscriptions;
  srv_nodes : gmap string endpoint;   (* peers.nodes *)
  srv_stats : stats;
  srv_receipts : list bool;           (* receipts by pointer, true when closed *)
  srv_redis : list redis_cmd;         (* commands sent to redis, oldest first *)
  srv_gos : list goroutine;           (* goroutines started by go statements *)
  srv_clock : Z                       (* time.Now, seconds *)
}.

Definition set_heap (v : list Publish) (s : Server) : Server :=
  MkServer (srv_cf s) v (srv_conns s) (srv_clients s) (srv_stores s) (srv_subs s) (srv_nodes s)
    (srv_stats s) (srv_receipts s) (srv_redis s) (srv_gos s) (srv_clock s).
Definition set_conns (v : list incomingConn) (s : Server) : Server :=
  MkServer (srv_cf s) (srv_heap s) v (srv_clients s) (srv_stores s) (srv_subs s) (srv_nodes s)
    (srv_stats s) (srv_receipts s) (srv_redis s) (srv_gos s) (srv_clock s).
Definition set_clients (v : gmap string conn_ptr) (s : Server) : Server :=
  MkServer (srv_cf s) (srv_heap s) (srv_conns s) v (srv_stores s) (srv_subs s) (srv_nodes s)
    (srv_stats s) (srv_receipts s) (srv_redis s) (srv_gos s) (srv_clock s).
Definition set_stores (v : registry (MemoryStore (Message ptr))) (s : Server) : Server :=
  MkServer (srv_cf s) (srv_heap s) (srv_conns s) (srv_clients s) v (srv_subs s) (srv_nodes s)
    (srv_stats s) (srv_receipts s) (srv_redis s) (srv_gos s) (srv_clock s).
Definition set_subs (v : subscriptions) (s : Server) : Server :=
  MkServer (srv_cf s) (srv_heap s) (srv_conns s) (srv_clients s) (srv_stores s) v (srv_nodes s)
    (srv_stats s) (srv_receipts s) (srv_redis s) (srv_gos s) (srv_clock s).
Definition set_nodes (v : gmap string endpoint) (s : Server) : Server :=
  MkServer (srv_cf s) (srv_heap s) (srv_conns s) (srv_clients s) (srv_stores s) (srv_subs s) v
    (srv_stats s) (srv_receipts s) (srv_redis s) (srv_gos s) (srv_clock s).
Definition set_stats (v : stats) (s : Server) : Server :=
  MkServer (srv_cf s) (srv_heap s) (srv_conns s) (srv_clients s) (srv_stores s) (srv_subs s)
    (srv_nodes s) v (srv_receipts s) (srv_redis s) (srv_gos s) (srv_clock s).
Definition set_receipts (v : list bool) (s : Server) : Server :=
  MkServer (srv_cf s) (srv_heap s) (srv_conns s) (srv_clients s) (srv_stores s) (srv_subs s)
    (srv_nodes s) (srv_stats s) v (srv_redis s) (srv_gos s) (srv_clock s).
Definition set_redis (v : list redis_cmd) (s : Server) : Server :=
  MkServer (srv_cf s) (srv_heap s) (srv_conns s) (srv_clients s) (srv_stores s) (srv_subs s)
    (srv_nodes s) (srv_stats s) (srv_receipts s) v (srv_gos s) (srv_clock s).
Definition set_gos (v : list goroutine) (s : Server) : Server :=
  MkServer (srv_cf s) (srv_heap s) (srv_conns s) (srv_clients s) (srv_stores s) (srv_subs s)
    (srv_nodes s) (srv_stats s) (srv_receipts s) (srv_redis s) v (srv_clock s).
Definition set_clock (v : Z) (s : Server) : Server :=
  MkServer (srv_cf s) (srv_heap s) (srv_conns s) (srv_clients s) (srv_stores s) (srv_subs s)
    (srv_nodes s) (srv_stats s) (srv_receipts s) (srv_redis s) (srv_gos s) v.

Definition set_flag (v : option Connect) (k : incomingConn) : incomingConn :=
  IncomingConn v (alive k) (connectedAt k) (lastOpTime k) (stopChan k) (netClosed k) (jobs k)
    (heartbeatStop k) (store k) (subN k) (leakyBucket k) (wire k).
Definition set_alive (v : bool) (k : incomingConn) : incomingConn :=
  IncomingConn (flag k) v (connectedAt k) (lastOpTime k) (stopChan k) (netClosed k) (jobs k)
    (heartbeatStop k) (store k) (subN k) (leakyBucket k) (wire k).
Definition set_connectedAt (v : Z) (k : incomingConn) : incomingConn :=
  IncomingConn (flag k) (alive k) v (lastOpTime k) (stopChan k) (netClosed k) (jobs k)
    (heartbeatStop k) (store k) (subN k) (leakyBucket k) (wire k).
Definition set_lastOpTime (v : Z) (k : incomingConn) : incomingConn :=
  IncomingConn (flag k) (alive k) (connectedAt k) v (stopChan k) (netClosed k) (jobs k)
    (heartbeatStop k) (store k) (subN k) (leakyBucket k) (wire k).
Definition set_stopChan (v : bool) (k : incomingConn) : incomingConn :=
  IncomingConn (flag k) (alive k) (connectedAt k) (lastOpTime k) v (netClosed k) (jobs k)
    (heartbeatStop k) (store k) (subN k) (leakyBucket k) (wire k).
Definition set_netClosed (v : bool) (k : incomingConn) : incomingConn :=
  IncomingConn (flag k) (alive k) (connectedAt k) (lastOpTime k) (stopChan k) v (jobs k)
    (heartbeatStop k) (store k) (subN k) (leakyBucket k) (wire k).
Definition set_jobs (v : chan job) (k : incomingConn) : incomingConn :=
  IncomingConn (flag k) (alive k) (connectedAt k) (lastOpTime k) (stopChan k) (netClosed k) v
    (heartbeatStop k) (store k) (subN k) (leakyBucket k) (wire k).
Definition set_heartbeatStop (v : bool) (k : incomingConn) : incomingConn :=
  IncomingConn (flag k) (alive k) (connectedAt k) (lastOpTime k) (stopChan k) (netClosed k)
    (jobs k) v (store k) (subN k) (leakyBucket k) (wire k).
Definition set_store (v : option nat) (k : incomingConn) : incomingConn :=
  IncomingConn (flag k) (alive k) (connectedAt k) (lastOpTime k) (stopChan k) (netClosed k)
    (jobs k) (heartbeatStop k) v (subN k) (leakyBucket k) (wire k).
Definition set_subN (v : Z) (k : incomingConn) : incomingConn :=
  IncomingConn (flag k) (alive k) (connectedAt k) (lastOpTime k) (stopChan k) (netClosed k)
    (jobs k) (heartbeatStop k) (store k) v (leakyBucket k) (wire k).
Definition set_leakyBucket (v : LeakyBucket) (k : incomingConn) : incomingConn :=
  IncomingConn (flag k) (alive k) (connectedAt k) (lastOpTime k) (stopChan k) (netClosed k)
    (jobs k) (heartbeatStop k) (store k) (subN k) v (wire k).
Definition set_wire (v : list (Message Publish)) (k : incomingConn) : incomingConn :=
  IncomingConn (flag k) (alive k) (connectedAt k) (lastOpTime k) (stopChan k) (netClosed k)
    (jobs k) (heartbeatStop k) (store k) (subN k) (leakyBucket k) v.

Definition set_ep_jobs (v : chan job) (e : endpoint) : endpoint :=
  Endpoint (ep_cf e) (ep_host e) (ep_connected e) v (ep_alive e) (ep_running e) (ep_wire e).

(** ** Actions on parts of the state *)

Definition put_conn (c : conn_ptr) (k : incomingConn) (s : Server) : Server :=
  set_conns (<[c := k]> (srv_conns s)) s.

(** An action on the connection that [c] points to. *)
Definition on_conn {A} (c : conn_ptr) (f : incomingConn -> astep incomingConn A)
    : proc Server A :=
  atomic (fun s =>
    match srv_conns s !! c with
    | None => Panicked NilDeref
    | Some k => match f k with
                | Done k' a => Done (put_conn c k' s) a
                | Blocked => Blocked
                | Panicked w => Panicked w
                end
    end).

Definition read_conn {A} (c : conn_ptr) (f : incomingConn -> A) : proc Server A :=
  atomic (fun s => match srv_conns s !! c with
                   | None => Panicked NilDeref
                   | Some k => Done s (f k)
                   end).

Definition write_conn (c : conn_ptr) (f : incomingConn -> incomingConn) : proc Server unit :=
  on_conn c (fun k => Done (f k) tt).

(** An operation on the outbound queue of a connection. *)
Definition on_jobs {A} (op : chan job -> astep (chan job) A) (k : incomingConn)
    : astep incomingConn A :=
  match op (jobs k) with
  | Done q a => Done (set_jobs q k) a
  | Blocked => Blocked
  | Panicked w => Panicked w
  end.

Definition do_stats (f : stats -> stats) : proc Server unit :=
  modify (fun s => set_stats (f (srv_stats s)) s).

(** A critical section of the subscription table without blocking operations. *)
Definition critical {A} (f : subscriptions -> subscriptions * A) : proc Server A :=
  atomic (fun s =>
    if mu (srv_subs s) then Blocked
    else let r := f (srv_subs s) in Done (set_subs r.1 s) r.2).

Definition critical_ (f : subscriptions -> subscriptions) : proc Server unit :=
  critical (fun t => (f t, tt)).

Definition set_mu (b : bool) (t : subscriptions) : subscriptions :=
  Subscriptions (posts t) b (subs t) (retain t) (wildcards t) (arrays t).
Definition set_posts (q : chan ptr) (t : subscriptions) : subscriptions :=
  Subscriptions q (mu t) (subs t) (retain t) (wildcards t) (arrays t).

Definition mu_Lock : proc Server unit :=
  atomic (fun s => if mu (srv_subs s) then Blocked
                   else Done (set_subs (set_mu true (srv_subs s)) s) tt).
Definition mu_Unlock : proc Server unit :=
  modify (fun s => set_subs (set_mu false (srv_subs s)) s).

(** What a message holds now. *)
Definition view (heap : list Publish) (m : Message ptr) : option (Message Publish) :=
  match m with
  | MPublish p => MPublish <$> heap !! p
  | MConnect m => Some (MConnect m)
  | MConnAck rc => Some (MConnAck rc)
  | MPubAck q mid => Some (MPubAck q mid)
  | MSubscribe mid ts => Some (MSubscribe mid ts)
  | MSubAck mid qs => Some (MSubAck mid qs)
  | MUnsubscribe mid ts => Some (MUnsubscribe mid ts)
  | MUnsubAck mid => Some (MUnsubAck mid)
  | MPingReq => Some MPingReq
  | MPingResp => Some MPingResp
  | MDisconnect => Some MDisconnect
  | MOther k => Some (MOther k)
  end.

Definition read_msg (m : Message ptr) : proc Server (Message Publish) :=
  atomic (fun s => match view (srv_heap s) m with
                   | Some v => Done s v
                   | None => Panicked NilDeref
                   end).

Definition read_pub (p : ptr) : proc Server Publish :=
  atomic (fun s => match srv_heap s !! p with
                   | Some v => Done s v
                   | None => Panicked NilDeref
                   end).

(** A new message: the address of a composite literal or of a local copy. *)
Definition alloc (v : Publish) : proc Server ptr :=
  atomic (fun s => Done (set_heap (srv_heap s ++ [v]) s) (length (srv_heap s))).

(** A message as it comes out of the decoder: fresh memory. *)
Definition alloc_msg (v : Message Publish) : proc Server (Message ptr) :=
  match v with
  | MPublish p => l <- alloc p;; Ret (MPublish l)
  | MConnect m => Ret (MConnect m)
  | MConnAck rc => Ret (MConnAck rc)
  | MPubAck q mid => Ret (MPubAck q mid)
  | MSubscribe mid ts => Ret (MSubscribe mid ts)
  | MSubAck mid qs => Ret (MSubAck mid qs)
  | MUnsubscribe mid ts => Ret (MUnsubscribe mid ts)
  | MUnsubAck mid => Ret (MUnsubAck mid)
  | MPingReq => Ret MPingReq
  | MPingResp => Ret MPingResp
  | MDisconnect => Ret MDisconnect
  | MOther k => Ret (MOther k)
  end.

(** A method call on [this.store]: a nil interface panics. *)
Definition on_store {A} (c : conn_ptr)
    (f : MemoryStore (Message ptr) -> MemoryStore (Message ptr) * A) : proc Server A :=
  atomic (fun s =>
    match srv_conns s !! c with
    | None => Panicked NilDeref
    | Some k =>
        match store k with
        | None => Panicked NilDeref
        | Some p =>
            match store_heap (srv_stores s) !! p with
            | None => Panicked NilDeref
            | Some st =>
                let r := f st in
                Done (set_stores (Registry (clientStores (srv_stores s))
                        (<[p := r.1]> (store_heap (srv_stores s)))) s) r.2
            end
        end
    end).

Definition call_store (c : conn_ptr) (call : option (store_call (Message ptr)))
    : proc Server unit :=
  match call with
  | None => Ret tt
  | Some _ => on_store c (fun st => (run_call call st, tt))
  end.
End State.
