(* ===== verification/Session.v ===== *)
(** * Client sessions (src/broker: session.go, proto.go, auth.go, presence.go,
      and the goroutine bodies of subs.go, peers.go, endpoint.go)

    The methods of [incomingConn], the subscription workers and the submission to
    peers, as goroutine bodies over the shared state of [Broker]. *)

From Stdlib Require Import ZArith Lia.
From stdpp Require Import base gmap list strings numbers.
From S2P Require Import Prelude GoString GoProc GoSlice Wild Config Proto Store Stats Subs Broker.

Local Open Scope string_scope.
Local Open Scope list_scope.

Section Session.
Context `{GoRuntime} `{Extern}.

(** ** auth.go: both accept everything; [authorized] does not look at the message. *)

Definition authenticate (username passwd : string) : bool := true.
Definition authorized (username : string) : bool := true.

(** ** Queues, receipts and the client map (session.go) *)

(** [this.submit(m)] *)
Definition submit (c : conn_ptr) (m : Message ptr) : proc Server unit :=
  is_alive <- read_conn c alive;;
  if negb is_alive then Ret tt
  else
    block <- reads (fun s => BuffOverflowStrategy (Broker (srv_cf s)) =s BufferOverflowBlock);;
    if (block : bool) then on_conn c (on_jobs (ch_send (Job m None)))
    else on_conn c (on_jobs (ch_try_send (Job m None)));;; Ret tt.

(** [this.submitSync(m)] *)
Definition submitSync (c : conn_ptr) (m : Message ptr) : proc Server nat :=
  r <- atomic (fun s => Done (set_receipts (srv_receipts s ++ [false]) s)
                          (length (srv_receipts s)));;
  on_conn c (on_jobs (ch_send (Job m (Some r))));;;
  Ret r.

(** [receipt.wait()] *)
Definition wait (r : nat) : proc Server unit :=
  atomic (fun s => if decide (srv_receipts s !! r = Some true) then Done s tt else Blocked).

(** [close(job.r)] *)
Definition close_receipt (r : nat) : proc Server unit :=
  atomic (fun s => if decide (srv_receipts s !! r = Some true) then Panicked CloseOfClosed
                   else Done (set_receipts (<[r := true]> (srv_receipts s)) s) tt).

Definition refreshOpTime (c : conn_ptr) : proc Server unit :=
  now <- reads srv_clock;;
  write_conn c (set_lastOpTime now).

(** [this.stop()] *)
Definition stop (c : conn_ptr) : proc Server unit :=
  do_stats aborted;;;
  on_conn c (fun k => if stopChan k then Panicked CloseOfClosed
                      else Done (set_stopChan true k) tt).

Definition connected (k : incomingConn) : bool :=
  match flag k with Some _ => true | None => false end.

(** [this.add()]: the connection already registered under this client id, if any. *)
Definition add_client (c : conn_ptr) : proc Server (option conn_ptr) :=
  atomic (fun s =>
    match srv_conns s !! c with
    | None => Panicked NilDeref
    | Some k =>
        match flag k with
        | None => Panicked NilDeref
        | Some m =>
            match srv_clients s !! ClientId m with
            | Some existing => Done s (Some existing)
            | None => Done (set_clients (<[ClientId m := c]> (srv_clients s)) s) None
            end
        end
    end).

(** [this.del()] *)
Definition del_client (c : conn_ptr) : proc Server unit :=
  atomic (fun s =>
    match srv_conns s !! c with
    | None => Panicked NilDeref
    | Some k =>
        match flag k with
        | None => Done s tt
        | Some m => Done (set_clients (delete (ClientId m) (srv_clients s)) s) tt
        end
    end).

(** ** Presence (presence.go): the commands sent to redis *)

Definition CheckIn (username : string) : proc Server unit :=
  modify (fun s => set_redis (srv_redis s ++ [RedisSet (PRESENCE_KEY_PREFIX +:+ username)]) s).
Definition CheckOut (username : string) : proc Server unit :=
  modify (fun s => set_redis (srv_redis s ++ [RedisDel (PRESENCE_KEY_PREFIX +:+ username)]) s).

(** ** The subscription workers (subs.go) *)

(** [this.posts <- post{m: m}] *)
Definition subs_submit (p : ptr) : proc Server unit :=
  atomic (fun s =>
    match ch_send p (posts (srv_subs s)) with
    | Done q _ => Done (set_subs (set_posts q (srv_subs s)) s) tt
    | Blocked => Blocked
    | Panicked w => Panicked w
    end).

(** Reads one entry of the slice returned by [subscribers], outside the mutex. *)
Definition read_entry (sl : slice) (i : nat) : proc Server (option conn_ptr) :=
  reads (fun s => index (arrays (srv_subs s)) sl i).

(** The critical section that saves a copy of the message. *)
Definition save_retain (p : ptr) : proc Server unit :=
  atomic (fun s =>
    if mu (srv_subs s) then Blocked
    else match srv_heap s !! p with
         | None => Panicked NilDeref
         | Some msg => Done (set_subs (set_retain msg (srv_subs s)) s) tt
         end).

(** The body of the loop of [run] for one post; [Return] ends the worker. *)
Definition run_post (p : ptr) : proc Server flow :=
  v <- read_pub p;;
  modify (fun s => set_heap (alter (set_Retain false) p (srv_heap s)) s);;;
  if Retain (PubHeader v) && (Payload_Size (PubPayload v) =? 0)%Z then
    critical_ (delete_retain (TopicName v));;;
    Ret Return
  else
    sl <- critical (subscribers (TopicName v));;
    for_range (sl_len sl) 0 (fun i =>
      x <- read_entry sl i;;
      match x with
      | Some c => submit c (MPublish p)
      | None => Ret tt
      end);;;
    if Retain (PubHeader v) then
      save_retain p;;;
      Ret Continue
    else Ret Continue.

(** [for post := range this.posts]: takes the next post. *)
Definition run_next : proc Server (option ptr) :=
  atomic (fun s =>
    match ch_recv (posts (srv_subs s)) with
    | Done q x => Done (set_subs (set_posts q (srv_subs s)) s) x
    | Blocked => Blocked
    | Panicked w => Panicked w
    end).

Definition run_body : proc Server flow :=
  x <- run_next;;
  match x with
  | Some p => run_post p
  | None => Ret Return
  end.

(** [sendRetain(topic, c)]: the mutex is held while the message is submitted. *)
Definition sendRetain (topic : string) (c : conn_ptr) : proc Server unit :=
  mu_Lock;;;
  r <- reads (fun s => retained_for topic (srv_subs s));;
  match r with
  | Some m => p <- alloc m;; submit c (MPublish p)
  | None => Ret tt
  end;;;
  mu_Unlock.

(** ** Replication (endpoint.go, peers.go) *)

Definition on_node {A} (host : string) (f : endpoint -> astep endpoint A) : proc Server A :=
  atomic (fun s =>
    match srv_nodes s !! host with
    | None => Panicked NilDeref
    | Some e => match f e with
                | Done e' a => Done (set_nodes (<[host := e']> (srv_nodes s)) s) a
                | Blocked => Blocked
                | Panicked w => Panicked w
                end
    end).

Definition on_ep_jobs {A} (op : chan job -> astep (chan job) A) (e : endpoint)
    : astep endpoint A :=
  match op (ep_jobs e) with
  | Done q a => Done (set_ep_jobs q e) a
  | Blocked => Blocked
  | Panicked w => Panicked w
  end.

(** [endpoint.submit(m)] *)
Definition ep_submit (host : string) (m : Message ptr) : proc Server unit :=
  is_alive <- on_node host (fun e => Done e (ep_alive e));;
  if negb is_alive then Ret tt
  else
    block <- on_node host (fun e => Done e (PeersBuffOverflowStrategy (ep_cf e) =s BufferOverflowBlock));;
    if (block : bool) then on_node host (on_ep_jobs (ch_send (Job m None)))
    else on_node host (on_ep_jobs (ch_try_send (Job m None)));;; Ret tt.

(** [peers.replicate(m)] *)
Definition replicate_pub (p : ptr) : proc Server unit :=
  hosts <- reads (fun s => range_order ((map_to_list (srv_nodes s)).*1));;
  for_each hosts (fun host => ep_submit host (MPublish p)).

(** ** The handlers (proto.go) *)

(** The checks of [doConnect] before [this.flag] is set. *)
Definition connect_rc_syntax (m : Connect) : ReturnCode :=
  let rc := RetCodeAccepted in
  let rc := if negb (ProtocolName m =s protocolName)
               || negb (ProtocolVersion m =? protocolVersion)%N
            then RetCodeUnacceptableProtocolVersion else rc in
  if (String.length (ClientId m) <? 1)%nat || (maxClientIdLength <? String.length (ClientId m))%nat
  then RetCodeIdentifierRejected else rc.

(** The authentication step. *)
Definition connect_rc_auth (b : BrokerConfig) (m : Connect) (rc : ReturnCode) : ReturnCode :=
  if negb (AllowAnonymousConnect b) &&
     (negb (UsernameFlag m) || (Username m =s "") ||
      negb (PasswordFlag m) || (Password m =s ""))
  then RetCodeNotAuthorized
  else if UsernameFlag m && negb (authenticate (Username m) (Password m))
  then RetCodeBadUsernameOrPassword
  else rc.

(** The limit on simultaneous connections. *)
Definition connect_rc_limit (b : BrokerConfig) (nclients : Z) (rc : ReturnCode) : ReturnCode :=
  if (0 <? MaxConnections b)%Z && (MaxConnections b <? nclients)%Z
  then RetCodeServerUnavailable else rc.

(** Redelivery of one stored message. *)
Definition redeliver (c : conn_ptr) (key : string) : proc Server unit :=
  if key =s "" then panics IndexOutOfRange
  else
    msg <- on_store c (fun st => (st, Get key st));;
    match msg with
    | Some (MPublish p) =>
        v <- read_pub p;;
        if decide (Qos (PubHeader v) = QosAtLeastOnce) then submit c (MPublish p) else Ret tt
    | Some (MPubAck q mid) =>
        if decide (q = QosAtLeastOnce) then submit c (MPubAck q mid) else Ret tt
    | _ => Ret tt
    end.

(** [doConnect] from the start of the heartbeat on, once the client is
    registered: the session store, redelivery, presence and the CONNACK. *)
Definition connect_session (c : conn_ptr) (m : Connect) (b : BrokerConfig) (rc : ReturnCode)
    : proc Server ReturnCode :=
  (if (0 <? KeepAliveTimer m)%Z
   then modify (fun s => set_gos (srv_gos s ++ [GoHeartbeat c (KeepAliveTimer m)]) s)
   else Ret tt);;;
  st <- atomic (fun s =>
          let r := getClientStore Memory.NewMemoryStore (ClientId m) (srv_stores s) in
          Done (set_stores r.1 s) r.2);;
  write_conn c (set_store (Some st));;;
  (if negb (CleanSession m)
   then keys <- on_store c (fun st => (st, All st));;
        for_each keys (redeliver c)
   else on_store c (fun st => (Reset st, tt)));;;
  now <- reads srv_clock;;
  write_conn c (set_connectedAt now);;;
  (if EnablePresence b && negb (Username m =s "") then CheckIn (Username m) else Ret tt);;;
  submit c (MConnAck rc);;;
  Ret rc.

Definition doConnect (c : conn_ptr) (m : Connect) : proc Server ReturnCode :=
  let rc := connect_rc_syntax m in
  write_conn c (set_flag (Some m));;;
  b <- reads (fun s => Broker (srv_cf s));;
  let rc := connect_rc_auth b m rc in
  n <- reads (fun s => Clients (srv_stats s));;
  let rc := connect_rc_limit b n rc in
  existing <- add_client c;;
  match existing with
  | Some e =>
      r <- submitSync e MDisconnect;;
      wait r;;;
      del_client e
  | None => Ret tt
  end;;;
  add_client c;;;
  connect_session c m b rc.

(** [this.flag.Username]: a nil flag panics. *)
Definition flag_username (c : conn_ptr) : proc Server string :=
  f <- read_conn c flag;;
  match f with
  | Some m => Ret (Username m)
  | None => panics NilDeref
  end.

(** The rate limit of [doPublish]; the handler goes on after [stop]. *)
Definition publish_limit (c : conn_ptr) : proc Server unit :=
  now <- reads srv_clock;;
  room <- on_conn c (fun k => let r := Pour (leakyBucket k) now 1%Z in
                             Done (set_leakyBucket r.2 k) r.1);;
  if negb room then stop c else Ret tt.

Definition doPublish (c : conn_ptr) (p : ptr) : proc Server unit :=
  publish_limit c;;;
  username <- flag_username c;;
  if negb (authorized username) then stop c
  else
    v <- read_pub p;;
    call_store c (persist_inbound_call (MPublish v) (MPublish p));;;
    subs_submit p;;;
    replicate_pub p;;;
    if decide (Qos (PubHeader v) = QosAtLeastOnce)
    then submit c (MPubAck QosAtMostOnce (MessageId v))
    else Ret tt.

(** Does nothing yet in the source. *)
Definition doPublishAck (c : conn_ptr) (q : QosLevel) (mid : N) : proc Server unit := Ret tt.

(** The subscription of one topic of a SUBSCRIBE; it goes on after [stop]. *)
Definition subscribe_topic (c : conn_ptr) (topic : string) : proc Server unit :=
  write_conn c (fun k => set_subN (wrap64 (subN k + 1)) k);;;
  n <- read_conn c subN;;
  limit <- reads (fun s => ClientMaxSubscriptions (Broker (srv_cf s)));;
  (if (limit <? n)%Z then stop c else Ret tt);;;
  critical_ (add topic c).

Definition doSubscribe (c : conn_ptr) (mid : N) (topics : list (string * QosLevel))
    : proc Server unit :=
  username <- flag_username c;;
  if negb (authorized username) then stop c
  else
    for_each topics (fun tq => subscribe_topic c tq.1);;;
    submit c (MSubAck mid (replicate (length topics) QosAtMostOnce));;;
    for_each topics (fun tq => sendRetain tq.1 c).

Definition unsubscribe_topic (c : conn_ptr) (topic : string) : proc Server unit :=
  write_conn c (fun k => set_subN (wrap64 (subN k - 1)) k);;;
  critical_ (unsub topic c).

Definition doUnsubscribe (c : conn_ptr) (mid : N) (topics : list string) : proc Server unit :=
  for_each topics (unsubscribe_topic c);;;
  submit c (MUnsubAck mid).

(** ** The loops of a session (session.go) *)

(** One iteration of [inboundLoop] with the decoded message [v]. *)
Definition inbound_msg (c : conn_ptr) (v : Message Publish) : proc Server flow :=
  m <- alloc_msg v;;
  do_stats messageRecv;;;
  do_stats (addIn v);;;
  refreshOpTime c;;;
  match m with
  | MConnect m =>
      rc <- doConnect c m;;
      if decide (rc = RetCodeAccepted) then Ret Continue else Ret Return
  | MPublish p => doPublish c p;;; Ret Continue
  | MSubscribe mid ts => doSubscribe c mid ts;;; Ret Continue
  | MUnsubscribe mid ts => doUnsubscribe c mid ts;;; Ret Continue
  | MPubAck q mid => doPublishAck c q mid;;; Ret Continue
  | MPingReq => submit c MPingResp;;; Ret Continue
  | MDisconnect => Ret Return
  | _ => Ret Return
  end.

(** One iteration of [inboundLoop] when decoding fails. *)
Definition inbound_err (c : conn_ptr) : proc Server flow :=
  do_stats aborted;;; Ret Return.

Definition onTerminate (c : conn_ptr) : proc Server unit :=
  presence <- reads (fun s => EnablePresence (Broker (srv_cf s)));;
  if negb presence then Ret tt
  else
    username <- flag_username c;;
    if username =s "" then Ret tt
    else
      conn <- read_conn c connected;;
      if (conn : bool) then CheckOut username else Ret tt.

(** The deferred function of [inboundLoop]. *)
Definition inbound_defer (c : conn_ptr) : proc Server unit :=
  do_stats clientDisconnect;;;
  st <- read_conn c store;;
  match st with
  | Some _ => on_store c (fun st => (Close st, tt))
  | None => Ret tt
  end;;;
  write_conn c (set_alive false);;;
  on_conn c (on_jobs ch_close);;;
  onTerminate c.

(** [case job, on := <-this.jobs] of [outboundLoop]; [sent] says whether
    [Encode] to the net.Conn succeeds. *)
Definition outbound_job (c : conn_ptr) (sent : bool) : proc Server flow :=
  x <- on_conn c (on_jobs ch_recv);;
  match x with
  | None => Ret Return
  | Some j =>
      v <- read_msg (job_m j);;
      call_store c (persist_outbound_call v (job_m j));;;
      v <- read_msg (job_m j);;
      (if sent then write_conn c (fun k => set_wire (wire k ++ [v]) k) else Ret tt);;;
      match job_r j with Some r => close_receipt r | None => Ret tt end;;;
      if negb sent then Ret Return
      else
        do_stats messageSend;;;
        v <- read_msg (job_m j);;
        do_stats (addOut v);;;
        refreshOpTime c;;;
        match job_m j with
        | MDisconnect => Ret Return
        | _ => Ret Continue
        end
  end.

(** [case <-this.stopChan] of [outboundLoop]. *)
Definition outbound_stop (c : conn_ptr) : proc Server flow :=
  on_conn c (fun k => if stopChan k then Done k Return else Blocked).

(** The deferred function of [outboundLoop]. *)
Definition outbound_defer (c : conn_ptr) : proc Server unit :=
  on_conn c (fun k => if heartbeatStop k then Panicked CloseOfClosed
                      else Done (set_heartbeatStop true k) tt);;;
  write_conn c (set_netClosed true);;;
  del_client c;;;
  critical_ (unsubAll c).

(** The instant after which an idle client is kicked out: the last operation plus
    one and a half keep-alive periods, rounded toward zero. *)
Definition idle_deadline (last keepAlive : Z) : Z := Z.quot (2 * last + 3 * keepAlive) 2.

(** [case <-ticker.C] of [heartbeat] *)
Definition heartbeat_tick (c : conn_ptr) (keepAlive : Z) : proc Server flow :=
  last <- read_conn c lastOpTime;;
  now <- reads srv_clock;;
  is_alive <- read_conn c alive;;
  if (0 <? now - idle_deadline last keepAlive)%Z && is_alive then
    r <- submitSync c MDisconnect;;
    wait r;;;
    do_stats aborted;;;
    Ret Return
  else Ret Continue.

(** [case <-this.heartbeatStop] of [heartbeat] *)
Definition heartbeat_stop (c : conn_ptr) : proc Server flow :=
  on_conn c (fun k => if heartbeatStop k then Done k Return else Blocked).

(** ** Accepting a connection (server.go) *)

Definition new_conn (b : BrokerConfig) (now : Z) : incomingConn :=
  IncomingConn None true 0 now false false
    (make_chan (Z.to_nat (ClientOutboundQueueLen b))) false None 0
    (NewLeakyBucket (to_uint16 (ClientMaxPublishPerMinute b)) Minute) [].

(** The new [incomingConn] of an accepted connection. *)
Definition accept_conn (s : Server) : astep Server conn_ptr :=
  let b := Broker (srv_cf s) in
  if (ClientOutboundQueueLen b <? 0)%Z then Panicked (UserPanic "makechan: size out of range")
  else Done (set_conns (srv_conns s ++ [new_conn b (srv_clock s)]) s) (length (srv_conns s)).

Definition accept : proc Server conn_ptr :=
  do_stats clientConnect;;;
  atomic accept_conn.

(** [NewServer(cf)] at time [now]. *)
Definition NewServer (conf : Config) (now : Z) : Server + panic :=
  if (SubscriptionsQueueLen (Broker conf) <? 0)%Z
  then inr (UserPanic "makechan: size out of range")
  else inl (MkServer conf [] [] ∅ (Registry ∅ [])
              (newSubscriptions (Z.to_nat (SubscriptionsQueueLen (Broker conf)))) ∅
              (new_stats (Broker conf)) [] [] [] now).
End Session.
