(* ===== verification/SessionFacts.v ===== *)
(** * What the handlers do when they run alone

    Symbolic execution of the handlers of [Session] without interference: the
    normal behaviour of each on every branch, and the inputs on which it panics. *)

From Stdlib Require Import ZArith Lia Ascii.
From stdpp Require Import base gmap list strings numbers sets.
From S2P Require Import Prelude GoString GoProc GoSlice Wild Config Proto Store Stats Subs Broker.
From S2P Require Import Session.

Local Open Scope string_scope.
Local Open Scope list_scope.

(** Computes the fields of a state built from [s] by updates. *)
Ltac flatten s :=
  destruct s as [? ? ? ? ? ? ? ? ? ? ? ?];
  cbv [put_conn set_heap set_conns set_clients set_stores set_subs set_nodes set_stats
       set_receipts set_redis set_gos set_clock srv_cf srv_heap srv_conns srv_clients srv_stores
       srv_subs srv_nodes srv_stats srv_receipts srv_redis srv_gos srv_clock].

Section Exec.
Context `{GoRuntime} `{Extern}.
Implicit Types (s : Server) (k : incomingConn) (c : conn_ptr).

(** ** Primitive actions *)

Lemma exec_read_conn {A} c (f : incomingConn -> A) s k :
  srv_conns s !! c = Some k -> exec (read_conn c f) s = Returned s (f k).
Proof. intros Hk. unfold read_conn. rewrite exec_atomic. by rewrite Hk. Qed.

Lemma exec_on_conn {A} c (f : incomingConn -> astep incomingConn A) s k :
  srv_conns s !! c = Some k ->
  exec (on_conn c f) s =
  match f k with
  | Done k' a => Returned (put_conn c k' s) a
  | Blocked => Stuck s (on_conn c f)
  | Panicked w => Crashed s w
  end.
Proof. intros Hk. unfold on_conn. rewrite exec_atomic, Hk. by destruct (f k). Qed.

Lemma exec_write_conn c f s k :
  srv_conns s !! c = Some k -> exec (write_conn c f) s = Returned (put_conn c (f k) s) tt.
Proof. intros Hk. unfold write_conn. by rewrite (exec_on_conn _ _ _ k). Qed.

Lemma exec_do_stats f s : exec (do_stats f) s = Returned (set_stats (f (srv_stats s)) s) tt.
Proof. done. Qed.

Lemma put_conn_eq c k k' s :
  srv_conns s !! c = Some k -> srv_conns (put_conn c k' s) !! c = Some k'.
Proof. intros Hk. simpl. apply list_lookup_insert_eq. by eapply lookup_lt_Some. Qed.

Lemma put_conn_ne c d k' s :
  c <> d -> srv_conns (put_conn c k' s) !! d = srv_conns s !! d.
Proof. intros Hne. simpl. by apply list_lookup_insert_ne. Qed.

Lemma put_conn_put c k k' s : put_conn c k' (put_conn c k s) = put_conn c k' s.
Proof. unfold put_conn, set_conns. simpl. by rewrite list_insert_insert_eq. Qed.

Lemma put_conn_id c k s : srv_conns s !! c = Some k -> put_conn c k s = s.
Proof.
  intros Hk. unfold put_conn, set_conns. rewrite list_insert_id by done. by destruct s.
Qed.

Lemma exec_critical_ f s :
  mu (srv_subs s) = false ->
  exec (critical_ f) s = Returned (set_subs (f (srv_subs s)) s) tt.
Proof. intros Hm. unfold critical_, critical. rewrite exec_atomic. by rewrite Hm. Qed.

Lemma exec_refreshOpTime c s k :
  srv_conns s !! c = Some k ->
  exec (refreshOpTime c) s = Returned (put_conn c (set_lastOpTime (srv_clock s) k) s) tt.
Proof.
  intros Hk. unfold refreshOpTime. rewrite exec_bind, exec_reads. by apply exec_write_conn.
Qed.

(** ** Submitting to a queue *)

Definition push_job (j : job) k : incomingConn :=
  set_jobs (Chan (ch_buf (jobs k) ++ [j]) (ch_cap (jobs k)) false) k.

(** The queue of [k] takes another job. *)
Definition has_room k : Prop :=
  ch_closed (jobs k) = false /\ length (ch_buf (jobs k)) < ch_cap (jobs k).

Lemma ch_send_room {A} (x : A) q :
  ch_closed q = false -> length (ch_buf q) < ch_cap q ->
  ch_send x q = Done (Chan (ch_buf q ++ [x]) (ch_cap q) false) tt.
Proof.
  intros Hc Hl. unfold ch_send. rewrite Hc. apply Nat.ltb_lt in Hl. by rewrite Hl.
Qed.

Lemma ch_try_send_room {A} (x : A) q :
  ch_closed q = false -> length (ch_buf q) < ch_cap q ->
  ch_try_send x q = Done (Chan (ch_buf q ++ [x]) (ch_cap q) false) true.
Proof.
  intros Hc Hl. unfold ch_try_send. rewrite Hc. apply Nat.ltb_lt in Hl. by rewrite Hl.
Qed.

Lemma exec_submit_dead c m s k :
  srv_conns s !! c = Some k -> alive k = false -> exec (submit c m) s = Returned s tt.
Proof.
  intros Hk Ha. unfold submit. rewrite exec_bind, (exec_read_conn _ _ _ _ Hk). by rewrite Ha.
Qed.

Lemma exec_submit_room c m s k :
  srv_conns s !! c = Some k -> alive k = true -> has_room k ->
  exec (submit c m) s = Returned (put_conn c (push_job (Job m None) k) s) tt.
Proof.
  intros Hk Ha [Hc Hl]. unfold submit.
  rewrite exec_bind, (exec_read_conn _ _ _ _ Hk), Ha. cbn [negb].
  rewrite exec_bind, exec_reads. case_goal.
  - rewrite (exec_on_conn _ _ _ _ Hk). unfold on_jobs. by rewrite ch_send_room.
  - rewrite exec_bind, (exec_on_conn _ _ _ _ Hk). unfold on_jobs. by rewrite ch_try_send_room.
Qed.

Lemma exec_submit_closed c m s k :
  srv_conns s !! c = Some k -> alive k = true -> ch_closed (jobs k) = true ->
  exec (submit c m) s = Crashed s SendOnClosed.
Proof.
  intros Hk Ha Hc. unfold submit.
  rewrite exec_bind, (exec_read_conn _ _ _ _ Hk), Ha. cbn [negb].
  rewrite exec_bind, exec_reads. case_goal.
  - rewrite (exec_on_conn _ _ _ _ Hk). unfold on_jobs, ch_send. by rewrite Hc.
  - rewrite exec_bind, (exec_on_conn _ _ _ _ Hk). unfold on_jobs, ch_try_send. by rewrite Hc.
Qed.

Lemma exec_submit_full c m s k :
  srv_conns s !! c = Some k -> alive k = true -> ch_closed (jobs k) = false ->
  ch_cap (jobs k) <= length (ch_buf (jobs k)) ->
  if BuffOverflowStrategy (Broker (srv_cf s)) =s BufferOverflowBlock
  then exists p, exec (submit c m) s = Stuck s p
  else exec (submit c m) s = Returned s tt.
Proof.
  intros Hk Ha Hc Hl. assert ((length (ch_buf (jobs k)) <? ch_cap (jobs k))%nat = false) as Hf
    by (by apply Nat.ltb_ge).
  unfold submit. rewrite exec_bind, (exec_read_conn _ _ _ _ Hk), Ha. cbn [negb].
  rewrite exec_bind, exec_reads. case_goal.
  - eexists. rewrite (exec_on_conn _ _ _ _ Hk). unfold on_jobs, ch_send. by rewrite Hc, Hf.
  - rewrite exec_bind, (exec_on_conn _ _ _ _ Hk). unfold on_jobs, ch_try_send. rewrite Hc, Hf.
    simpl. f_equal. assert (set_jobs (jobs k) k = k) as -> by (by destruct k).
    by apply put_conn_id.
Qed.

(** ** Stopping a session, and the flag *)

Lemma exec_stop_open c s k :
  srv_conns s !! c = Some k -> stopChan k = false ->
  exec (stop c) s =
  Returned (put_conn c (set_stopChan true k) (set_stats (aborted (srv_stats s)) s)) tt.
Proof.
  intros Hk Hs. unfold stop. rewrite exec_bind, exec_do_stats.
  rewrite (exec_on_conn _ _ _ k) by done. by rewrite Hs.
Qed.

Lemma exec_stop_closed c s k :
  srv_conns s !! c = Some k -> stopChan k = true ->
  exec (stop c) s = Crashed (set_stats (aborted (srv_stats s)) s) CloseOfClosed.
Proof.
  intros Hk Hs. unfold stop. rewrite exec_bind, exec_do_stats.
  rewrite (exec_on_conn _ _ _ k) by done. by rewrite Hs.
Qed.

Lemma exec_flag_username c s k :
  srv_conns s !! c = Some k ->
  exec (flag_username c) s =
  match flag k with
  | Some m => Returned s (Username m)
  | None => Crashed s NilDeref
  end.
Proof.
  intros Hk. unfold flag_username. rewrite exec_bind, (exec_read_conn _ _ _ _ Hk).
  by destruct (flag k).
Qed.

(** ** CONNECT *)

(** The return code of [doConnect], given the number of clients it reads. *)
Definition connect_rc (b : BrokerConfig) (nclients : Z) (m : Connect) : ReturnCode :=
  connect_rc_limit b nclients (connect_rc_auth b m (connect_rc_syntax m)).

(** What a CONNECT must satisfy to be accepted. *)
Record connect_acceptable (b : BrokerConfig) (nclients : Z) (m : Connect) : Prop := {
  ca_protocol : ProtocolName m = protocolName /\ ProtocolVersion m = protocolVersion;
  ca_id : 1 <= String.length (ClientId m) <= maxClientIdLength;
  ca_auth : AllowAnonymousConnect b = true \/
            (UsernameFlag m = true /\ Username m <> "" /\
             PasswordFlag m = true /\ Password m <> "");
  ca_limit : (MaxConnections b <= 0)%Z \/ (nclients <= MaxConnections b)%Z
}.

Lemma connect_rc_syntax_accepted m :
  connect_rc_syntax m = RetCodeAccepted <->
  (ProtocolName m = protocolName /\ ProtocolVersion m = protocolVersion) /\
  1 <= String.length (ClientId m) <= maxClientIdLength.
Proof.
  unfold connect_rc_syntax.
  destruct (_ <? 1)%nat eqn:E1; [simpl; breflect; split; [done|lia]|].
  destruct (maxClientIdLength <? _)%nat eqn:E2; [simpl; breflect; split; [done|lia]|].
  simpl. breflect. destruct (ProtocolName m =s protocolName) eqn:E3; simpl; breflect.
  - destruct (ProtocolVersion m =? protocolVersion)%N eqn:E4; simpl.
    + apply N.eqb_eq in E4. split; [|done]. intros _. split; [done|lia].
    + apply N.eqb_neq in E4. split; [done|tauto].
  - split; [done|tauto].
Qed.

Lemma connect_rc_auth_accepted b m rc :
  connect_rc_auth b m rc = RetCodeAccepted <->
  (AllowAnonymousConnect b = true \/
   (UsernameFlag m = true /\ Username m <> "" /\ PasswordFlag m = true /\ Password m <> "")) /\
  rc = RetCodeAccepted.
Proof.
  unfold connect_rc_auth, authenticate. rewrite andb_false_r.
  destruct (AllowAnonymousConnect b); simpl; [tauto|].
  destruct (UsernameFlag m); simpl; [|naive_solver].
  destruct (Username m =s "") eqn:E1; breflect; simpl; [naive_solver|].
  destruct (PasswordFlag m); simpl; [|naive_solver].
  destruct (Password m =s "") eqn:E2; breflect; naive_solver.
Qed.

Lemma connect_rc_limit_accepted b n rc :
  connect_rc_limit b n rc = RetCodeAccepted <->
  ((MaxConnections b <= 0)%Z \/ (n <= MaxConnections b)%Z) /\ rc = RetCodeAccepted.
Proof.
  unfold connect_rc_limit. destruct (0 <? MaxConnections b)%Z eqn:E1; simpl; breflect.
  - destruct (MaxConnections b <? n)%Z eqn:E2; breflect.
    + split; [done|]. intros [[?|?] _]; lia.
    + split; [|tauto]. intros ->. split; [by right|done].
  - split; [|tauto]. intros ->. split; [by left|done].
Qed.

Lemma connect_rc_accepted b n m :
  connect_rc b n m = RetCodeAccepted <-> connect_acceptable b n m.
Proof.
  unfold connect_rc. rewrite connect_rc_limit_accepted, connect_rc_auth_accepted,
    connect_rc_syntax_accepted. split.
  - intros (? & ? & ? & ?). by constructor.
  - intros [? ? ? ?]. tauto.
Qed.

(** The connection after a CONNECT with a clean session on a free client id. *)
Definition connected_conn (m : Connect) (st : nat) (now : Z) (rc : ReturnCode) k : incomingConn :=
  push_job (Job (MConnAck rc) None)
    (set_connectedAt now (set_store (Some st) (set_flag (Some m) k))).

Lemma exec_go_if (b : bool) g s :
  exec (if b then modify (fun s => set_gos (srv_gos s ++ [g]) s) else Ret tt) s =
  Returned (set_gos (srv_gos s ++ if b then [g] else []) s) tt.
Proof. destruct b; [done|]. simpl. rewrite app_nil_r. by destruct s. Qed.

Lemma exec_CheckIn_if (b : bool) u s :
  exec (if b then CheckIn u else Ret tt) s =
  Returned (set_redis (srv_redis s ++ if b then [RedisSet (PRESENCE_KEY_PREFIX +:+ u)] else []) s) tt.
Proof. destruct b; [done|]. simpl. rewrite app_nil_r. by destruct s. Qed.

Lemma exec_on_store {A} c (f : MemoryStore (Message ptr) -> MemoryStore (Message ptr) * A) s k p st :
  srv_conns s !! c = Some k -> store k = Some p -> store_heap (srv_stores s) !! p = Some st ->
  exec (on_store c f) s =
  Returned (set_stores (Registry (clientStores (srv_stores s))
              (<[p := (f st).1]> (store_heap (srv_stores s)))) s) (f st).2.
Proof. intros Hk Hp Hst. unfold on_store. rewrite exec_atomic. by rewrite Hk, Hp, Hst. Qed.

Lemma exec_connect_session_clean c m b rc s k :
  srv_conns s !! c = Some k -> alive k = true -> has_room k ->
  CleanSession m = true -> registry_wf (srv_stores s) ->
  let g := getClientStore Memory.NewMemoryStore (ClientId m) (srv_stores s) in
  exists s', exec (connect_session c m b rc) s = Returned s' rc /\
    srv_conns s' = <[c := push_job (Job (MConnAck rc) None)
                            (set_connectedAt (srv_clock s) (set_store (Some g.2) k))]> (srv_conns s) /\
    srv_clients s' = srv_clients s /\
    clientStores (srv_stores s') = clientStores g.1 /\
    (exists st, store_heap (srv_stores s') !! g.2 = Some st /\ ms_messages st = ∅) /\
    srv_redis s' = srv_redis s ++
      (if EnablePresence b && negb (Username m =s "")
       then [RedisSet (PRESENCE_KEY_PREFIX +:+ Username m)] else []) /\
    srv_gos s' = srv_gos s ++
      (if (0 <? KeepAliveTimer m)%Z then [GoHeartbeat c (KeepAliveTimer m)] else []) /\
    srv_subs s' = srv_subs s /\ srv_heap s' = srv_heap s /\ srv_stats s' = srv_stats s /\
    srv_cf s' = srv_cf s /\ srv_clock s' = srv_clock s /\
    (forall p, p <> g.2 -> store_heap (srv_stores s') !! p = store_heap g.1 !! p) /\
    srv_nodes s' = srv_nodes s /\ srv_receipts s' = srv_receipts s.
Proof.
  intros Hk Ha Hroom Hclean Hreg g.
  assert (c < length (srv_conns s)) as Hlt by (by eapply lookup_lt_Some).
  pose proof (getClientStore_lookup Memory.NewMemoryStore (ClientId m) (srv_stores s)) as Hg.
  pose proof (getClientStore_wf Memory.NewMemoryStore (ClientId m) (srv_stores s) Hreg) as Hgwf.
  fold g in Hg, Hgwf. destruct (lookup_lt_is_Some_2 _ _ (proj1 Hgwf _ _ Hg)) as [st Hst].
  unfold connect_session. rewrite exec_bind, exec_go_if.
  rewrite exec_bind, exec_atomic. cbn [srv_stores set_gos]. fold g.
  rewrite exec_bind, (exec_write_conn _ _ _ k) by done.
  rewrite Hclean. cbn [negb].
  rewrite exec_bind, (exec_on_store _ _ _ (set_store (Some g.2) k) g.2 st);
    [|by apply put_conn_eq with k|done|done].
  rewrite exec_bind, exec_reads.
  rewrite exec_bind, (exec_write_conn _ _ _ (set_store (Some g.2) k))
    by (by apply (put_conn_eq c k)).
  rewrite exec_bind, exec_CheckIn_if.
  rewrite exec_bind, (exec_submit_room _ _ _ (set_connectedAt (srv_clock s) (set_store (Some g.2) k)));
    [|simpl; apply list_lookup_insert_eq; by rewrite length_insert|done|done].
  simpl. eexists. split; [reflexivity|]. simpl.
  rewrite !list_insert_insert_eq. do 3 (split; [done|]). split.
  { eexists. split; [apply list_lookup_insert_eq; by eapply lookup_lt_Some|done]. }
  do 7 (split; [done|]). split; [|done]. intros p Hne. by apply list_lookup_insert_ne.
Qed.

(** A CONNECT on a free client id registers the connection and goes on. *)
Lemma exec_doConnect_free c m s k :
  srv_conns s !! c = Some k -> srv_clients s !! ClientId m = None ->
  let b := Broker (srv_cf s) in
  exec (doConnect c m) s =
  exec (connect_session c m b (connect_rc b (Clients (srv_stats s)) m))
    (set_clients (<[ClientId m := c]> (srv_clients s)) (put_conn c (set_flag (Some m) k) s)).
Proof.
  intros Hk Hfree b. unfold doConnect.
  rewrite exec_bind, (exec_write_conn _ _ _ _ Hk).
  rewrite exec_bind, exec_reads.
  rewrite exec_bind, exec_reads. cbn [srv_cf srv_stats put_conn set_conns]. fold b.
  fold (connect_rc b (Clients (srv_stats s)) m).
  rewrite exec_bind. unfold add_client at 1. rewrite exec_atomic.
  rewrite (put_conn_eq _ _ _ _ Hk). cbn [flag set_flag srv_clients put_conn set_conns].
  rewrite Hfree. cbn [bind].
  rewrite exec_bind. unfold add_client. rewrite exec_atomic.
  cbn [srv_conns set_clients]. rewrite (put_conn_eq _ _ _ _ Hk).
  cbn [flag set_flag srv_clients set_clients]. by rewrite lookup_insert_eq.
Qed.

Lemma exec_doConnect_fresh c m s k :
  srv_conns s !! c = Some k -> alive k = true -> has_room k ->
  srv_clients s !! ClientId m = None -> CleanSession m = true -> registry_wf (srv_stores s) ->
  let b := Broker (srv_cf s) in
  let rc := connect_rc b (Clients (srv_stats s)) m in
  let g := getClientStore Memory.NewMemoryStore (ClientId m) (srv_stores s) in
  exists s', exec (doConnect c m) s = Returned s' rc /\
    srv_conns s' = <[c := connected_conn m g.2 (srv_clock s) rc k]> (srv_conns s) /\
    srv_clients s' = <[ClientId m := c]> (srv_clients s) /\
    clientStores (srv_stores s') = clientStores g.1 /\
    (exists st, store_heap (srv_stores s') !! g.2 = Some st /\ ms_messages st = ∅) /\
    srv_redis s' = srv_redis s ++
      (if EnablePresence b && negb (Username m =s "")
       then [RedisSet (PRESENCE_KEY_PREFIX +:+ Username m)] else []) /\
    srv_gos s' = srv_gos s ++
      (if (0 <? KeepAliveTimer m)%Z then [GoHeartbeat c (KeepAliveTimer m)] else []) /\
    srv_subs s' = srv_subs s /\ srv_heap s' = srv_heap s /\ srv_stats s' = srv_stats s /\
    srv_cf s' = srv_cf s /\ srv_clock s' = srv_clock s /\
    (forall p, p <> g.2 -> store_heap (srv_stores s') !! p = store_heap g.1 !! p) /\
    srv_nodes s' = srv_nodes s /\ srv_receipts s' = srv_receipts s.
Proof.
  intros Hk Ha Hroom Hfree Hclean Hreg b rc g.
  rewrite (exec_doConnect_free _ _ _ _ Hk Hfree). fold b rc.
  destruct (exec_connect_session_clean c m b rc
    (set_clients (<[ClientId m := c]> (srv_clients s)) (put_conn c (set_flag (Some m) k) s))
    (set_flag (Some m) k)) as (s' & E & Hc & Hrest); try done.
  { by apply put_conn_eq with k. }
  exists s'. split; [done|]. split; [|done].
  rewrite Hc. simpl. by rewrite list_insert_insert_eq.
Qed.

(** ** The start of an inbound iteration *)

(** The state in which the handler of a decoded message starts. *)
Definition received (c : conn_ptr) (v : Message Publish) k s : Server :=
  let s1 := match v with MPublish p => set_heap (srv_heap s ++ [p]) s | _ => s end in
  put_conn c (set_lastOpTime (srv_clock s) k)
    (set_stats (addIn v (messageRecv (srv_stats s))) s1).

Lemma exec_prologue {A} c v k s (rest : proc Server A) :
  srv_conns s !! c = Some k -> (forall p, v <> MPublish p) ->
  exec (do_stats messageRecv;;; do_stats (addIn v);;; refreshOpTime c;;; rest) s =
  exec rest (received c v k s).
Proof.
  intros Hk Hv. rewrite exec_bind, exec_do_stats, exec_bind, exec_do_stats.
  rewrite exec_bind, (exec_refreshOpTime _ _ k) by done.
  unfold received. destruct v; try done. by destruct (Hv p).
Qed.

Lemma received_conn c v k s :
  srv_conns s !! c = Some k ->
  srv_conns (received c v k s) !! c = Some (set_lastOpTime (srv_clock s) k).
Proof.
  intros Hk. unfold received. apply put_conn_eq with k. by destruct v.
Qed.

Lemma exec_inbound_publish c v k s :
  srv_conns s !! c = Some k ->
  exec (inbound_msg c (MPublish v)) s =
  exec (doPublish c (length (srv_heap s));;; Ret Continue) (received c (MPublish v) k s).
Proof.
  intros Hk. unfold inbound_msg, alloc_msg, alloc.
  rewrite exec_bind, exec_bind, exec_atomic. cbn [exec].
  rewrite exec_bind, exec_do_stats, exec_bind, exec_do_stats.
  by rewrite exec_bind, (exec_refreshOpTime _ _ k) by done.
Qed.

Lemma exec_inbound_subscribe c mid ts k s :
  srv_conns s !! c = Some k ->
  exec (inbound_msg c (MSubscribe mid ts)) s =
  exec (doSubscribe c mid ts;;; Ret Continue) (received c (MSubscribe mid ts) k s).
Proof.
  intros Hk. unfold inbound_msg. cbn [alloc_msg bind]. by rewrite (exec_prologue _ _ k).
Qed.

(** ** Messages before CONNECT *)

(** The connection and the state after the rate limiter of a publication. *)
Definition limited_conn (now : Z) k : incomingConn :=
  let r := Pour (leakyBucket k) now 1%Z in
  if r.1 then set_leakyBucket r.2 k else set_stopChan true (set_leakyBucket r.2 k).

Definition limited (c : conn_ptr) k s : Server :=
  let r := Pour (leakyBucket k) (srv_clock s) 1%Z in
  put_conn c (limited_conn (srv_clock s) k)
    (if r.1 then s else set_stats (aborted (srv_stats s)) s).

Lemma exec_publish_limit c s k :
  srv_conns s !! c = Some k ->
  ((Pour (leakyBucket k) (srv_clock s) 1%Z).1 = false -> stopChan k = false) ->
  exec (publish_limit c) s = Returned (limited c k s) tt.
Proof.
  intros Hk Hs. unfold publish_limit, limited, limited_conn.
  rewrite exec_bind, exec_reads, exec_bind, (exec_on_conn _ _ _ _ Hk). cbv zeta beta.
  destruct (Pour (leakyBucket k) (srv_clock s) 1%Z) as [room b']. cbn [fst snd] in *.
  destruct room; cbn [negb]; [done|].
  rewrite (exec_stop_open _ _ (set_leakyBucket b' k));
    [|by apply put_conn_eq with k|by apply Hs].
  unfold put_conn, set_conns, set_stats. simpl. by rewrite list_insert_insert_eq.
Qed.

Lemma limited_lookup c s k :
  srv_conns s !! c = Some k ->
  srv_conns (limited c k s) !! c = Some (limited_conn (srv_clock s) k).
Proof.
  intros Hk. unfold limited. apply put_conn_eq with k. by case_goal.
Qed.

Lemma limited_conn_flag now k : flag (limited_conn now k) = flag k.
Proof. unfold limited_conn. by case_goal. Qed.

Lemma exec_publish_unconnected c v s k :
  srv_conns s !! c = Some k -> flag k = None -> stopChan k = false ->
  exists s', exec (inbound_msg c (MPublish v)) s = Crashed s' NilDeref.
Proof.
  intros Hk Hf Hs. rewrite (exec_inbound_publish _ _ _ _ Hk).
  pose proof (received_conn c (MPublish v) k s Hk) as Hk1.
  eexists. rewrite exec_bind. unfold doPublish.
  rewrite exec_bind, (exec_publish_limit _ _ _ Hk1) by done.
  rewrite exec_bind, (exec_flag_username _ _ _ (limited_lookup _ _ _ Hk1)).
  rewrite limited_conn_flag. simpl. by rewrite Hf.
Qed.

Lemma exec_subscribe_unconnected c mid ts s k :
  srv_conns s !! c = Some k -> flag k = None ->
  exists s', exec (inbound_msg c (MSubscribe mid ts)) s = Crashed s' NilDeref.
Proof.
  intros Hk Hf. rewrite (exec_inbound_subscribe _ _ _ _ _ Hk).
  pose proof (received_conn c (MSubscribe mid ts) k s Hk) as Hk1.
  eexists. rewrite exec_bind. unfold doSubscribe.
  rewrite exec_bind, (exec_flag_username _ _ _ Hk1). simpl. by rewrite Hf.
Qed.

(** ** SUBSCRIBE *)

Definition limit_of s : Z := ClientMaxSubscriptions (Broker (srv_cf s)).

(** One more subscription, counted and added. *)
Definition subscribed_one (c : conn_ptr) (topic : string) k s : Server :=
  set_subs (add topic c (srv_subs s)) (put_conn c (set_subN (subN k + 1)%Z k) s).

Lemma exec_subscribe_topic c topic s k :
  srv_conns s !! c = Some k -> mu (srv_subs s) = false -> in_int64 (subN k + 1) ->
  exec (subscribe_topic c topic) s =
  if (limit_of s <? subN k + 1)%Z then
    if stopChan k then
      Crashed (set_stats (aborted (srv_stats s)) (put_conn c (set_subN (subN k + 1)%Z k) s))
        CloseOfClosed
    else
      Returned (set_stats (aborted (srv_stats s))
                  (subscribed_one c topic (set_stopChan true k) s)) tt
  else Returned (subscribed_one c topic k s) tt.
Proof.
  intros Hk Hm Hn. unfold subscribe_topic. set (k1 := set_subN (subN k + 1)%Z k).
  rewrite exec_bind, (exec_write_conn _ _ _ _ Hk), (wrap64_id _ Hn). fold k1.
  assert (srv_conns (put_conn c k1 s) !! c = Some k1) as Hk1 by (by apply put_conn_eq with k).
  rewrite exec_bind, (exec_read_conn _ _ _ _ Hk1), exec_bind, exec_reads.
  rewrite exec_bind. cbn [srv_cf put_conn set_conns]. fold (limit_of s).
  cbn [subN k1 set_subN].
  destruct (limit_of s <? subN k + 1)%Z; [|by apply exec_critical_].
  destruct (stopChan k) eqn:Hs.
  - by rewrite (exec_stop_closed _ _ k1).
  - rewrite (exec_stop_open _ _ k1) by done. rewrite exec_critical_ by done.
    unfold subscribed_one, put_conn, set_conns, set_subs, set_stats. simpl.
    by rewrite list_insert_insert_eq.
Qed.

Lemma subscribed_one_conn c topic k k0 s :
  srv_conns s !! c = Some k0 ->
  srv_conns (subscribed_one c topic k s) !! c = Some (set_subN (subN k + 1)%Z k).
Proof. intros Hk. simpl. apply list_lookup_insert_eq. by eapply lookup_lt_Some. Qed.

Lemma add_mu topic c (t : subscriptions) : mu (add topic c t) = mu t.
Proof. unfold add. by repeat case_goal. Qed.
Lemma add_posts topic c (t : subscriptions) : posts (add topic c t) = posts t.
Proof. unfold add. by repeat case_goal. Qed.
Lemma add_retain topic c (t : subscriptions) : retain (add topic c t) = retain t.
Proof. unfold add. by repeat case_goal. Qed.

(** Too many topics: the second one over the limit closes [stopChan] again. *)
Lemma exec_subscribe_flood c (ts : list (string * QosLevel)) s k :
  srv_conns s !! c = Some k -> mu (srv_subs s) = false ->
  (- 2 ^ 63 <= subN k)%Z -> (subN k + Z.of_nat (length ts) < 2 ^ 63)%Z ->
  (stopChan k = true -> (limit_of s <= subN k)%Z) ->
  (Z.max (limit_of s) (subN k) + (if stopChan k then 1 else 2) <= subN k + Z.of_nat (length ts))%Z ->
  exists s', exec (for_each ts (fun tq => subscribe_topic c tq.1)) s = Crashed s' CloseOfClosed.
Proof.
  revert s k. induction ts as [|[t q] ts IH]; intros s k Hk Hm Hlo Hhi Hst Hlen; simpl in Hlen.
  { destruct (stopChan k); lia. }
  simpl in Hhi. cbn [for_each fst]. rewrite exec_bind.
  rewrite (exec_subscribe_topic c t s k Hk Hm) by (unfold in_int64; lia).
  destruct (limit_of s <? subN k + 1)%Z eqn:El; breflect.
  - destruct (stopChan k) eqn:Es; [by eexists|].
    apply (IH _ (set_subN (subN k + 1)%Z (set_stopChan true k))).
    + exact (subscribed_one_conn c t (set_stopChan true k) k s Hk).
    + simpl. by rewrite add_mu.
    + simpl. lia.
    + simpl. lia.
    + simpl. intros _. change (limit_of (set_stats _ _)) with (limit_of s). lia.
    + simpl. change (limit_of (set_stats _ _)) with (limit_of s). lia.
  - assert (stopChan k = false) as Es.
    { destruct (stopChan k) eqn:Es; [|done]. specialize (Hst eq_refl). lia. }
    rewrite Es in *. apply (IH _ (set_subN (subN k + 1)%Z k)).
    + by apply subscribed_one_conn with k.
    + simpl. by rewrite add_mu.
    + simpl. lia.
    + simpl. lia.
    + simpl. rewrite Es. done.
    + simpl. rewrite Es. change (limit_of (subscribed_one _ _ _ _)) with (limit_of s). lia.
Qed.

(** All the topics of a SUBSCRIBE, within the limit. *)
Definition add_all (c : conn_ptr) (ts : list (string * QosLevel)) (t : subscriptions) : subscriptions :=
  foldl (fun t tq => add tq.1 c t) t ts.

Lemma exec_subscribe_all c (ts : list (string * QosLevel)) s k :
  srv_conns s !! c = Some k -> mu (srv_subs s) = false ->
  (- 2 ^ 63 <= subN k)%Z -> (subN k + Z.of_nat (length ts) < 2 ^ 63)%Z ->
  (subN k + Z.of_nat (length ts) <= limit_of s)%Z ->
  exec (for_each ts (fun tq => subscribe_topic c tq.1)) s =
  Returned (set_subs (add_all c ts (srv_subs s))
              (put_conn c (set_subN (subN k + Z.of_nat (length ts))%Z k) s)) tt.
Proof.
  revert s k. induction ts as [|[t q] ts IH]; intros s k Hk Hm Hlo Hhi Hlim; simpl in Hlim, Hhi.
  - simpl. rewrite Z.add_0_r. assert (set_subN (subN k) k = k) as -> by (by destruct k).
    rewrite put_conn_id by done. by destruct s.
  - cbn [for_each fst]. rewrite exec_bind, (exec_subscribe_topic c t s k Hk Hm) by (unfold in_int64; lia).
    destruct (limit_of s <? subN k + 1)%Z eqn:El; breflect; [lia|].
    rewrite (IH _ (set_subN (subN k + 1)%Z k)).
    + f_equal. unfold subscribed_one, put_conn, set_subs, set_conns. simpl.
      rewrite list_insert_insert_eq.
      replace (subN k + 1 + Z.of_nat (length ts))%Z
        with (subN k + Z.of_nat (S (length ts)))%Z by lia. done.
    + by apply subscribed_one_conn with k.
    + simpl. by rewrite add_mu.
    + simpl. lia.
    + simpl. lia.
    + simpl. change (limit_of (subscribed_one _ _ _ _)) with (limit_of s). lia.
Qed.

(** The table that the topics of a SUBSCRIBE leave, and what they do not touch. *)
Lemma add_all_table c (ts : list (string * QosLevel)) (t : subscriptions) :
  (mu (add_all c ts t) = mu t /\ posts (add_all c ts t) = posts t /\ retain (add_all c ts t) = retain t) /\
  (subs_wf t -> subs_wf (add_all c ts t)) /\
  (forall a, subs_wf t -> refines t a ->
     refines (add_all c ts t) (foldl (fun a tq => table_add tq.1 c a) a ts)).
Proof.
  unfold add_all. revert t. induction ts as [|tq ts IH]; intros t; simpl; [done|].
  destruct (IH (add tq.1 c t)) as ((Hm & Hp & Hr) & Hw & Ha).
  rewrite add_mu in Hm. rewrite add_posts in Hp. rewrite add_retain in Hr. split; [done|].
  split; [intros; by apply Hw, add_wf|]. intros a Hwf Hra. apply Ha; [by apply add_wf|by apply add_refines].
Qed.

(** The retained message for a topic: none for one with a wildcard character. *)
Lemma retained_for_spec topic (t : subscriptions) :
  retained_for topic t =
  if bool_decide ("#"%char ∈ chars topic \/ "+"%char ∈ chars topic) then None else retain t !! topic.
Proof.
  unfold retained_for. pose proof (isWildcard_spec topic) as Hs.
  case_bool_decide as Hw; destruct (isWildcard topic); try done; exfalso.
  - by apply Hs in Hw.
  - by apply Hw, Hs.
Qed.

(** The state after retained messages [ms] were queued for [c], each a new copy. *)
Definition queued_copies (c : conn_ptr) (ms : list Publish) k s : Server :=
  put_conn c
    (set_jobs (Chan (ch_buf (jobs k) ++
                     ((fun p => Job (MPublish p) None) <$> seq (length (srv_heap s)) (length ms)))
                 (ch_cap (jobs k)) false) k)
    (set_heap (srv_heap s ++ ms) s).

Lemma set_mu_twice (t : subscriptions) : mu t = false -> set_mu false (set_mu true t) = t.
Proof. destruct t. simpl. by intros ->. Qed.

Lemma exec_sendRetain c topic s k :
  srv_conns s !! c = Some k -> mu (srv_subs s) = false -> alive k = true -> has_room k ->
  exec (sendRetain topic c) s =
  Returned (queued_copies c (option_list (retained_for topic (srv_subs s))) k s) tt.
Proof.
  intros Hk Hm Ha Hroom. unfold sendRetain, mu_Lock.
  rewrite exec_bind, exec_atomic, Hm, exec_bind, exec_reads. cbn [srv_subs set_subs].
  change (retained_for topic (set_mu true (srv_subs s))) with (retained_for topic (srv_subs s)).
  destruct (retained_for topic (srv_subs s)) as [m|]; cbn [option_list].
  - rewrite exec_bind, exec_bind. unfold alloc. rewrite exec_atomic.
    rewrite (exec_submit_room _ _ _ k) by done.
    unfold mu_Unlock. rewrite exec_modify. f_equal.
    unfold queued_copies, put_conn, push_job, set_heap, set_subs, set_conns. simpl.
    by rewrite set_mu_twice.
  - rewrite exec_bind. cbn [exec]. unfold mu_Unlock. rewrite exec_modify. f_equal.
    unfold queued_copies. simpl. rewrite !app_nil_r.
    assert (set_jobs (Chan (ch_buf (jobs k)) (ch_cap (jobs k)) false) k = k) as ->.
    { destruct Hroom as [Hc _]. destruct k as [? ? ? ? ? ? [b n cl]]. simpl in *. by subst. }
    unfold put_conn, set_heap, set_subs, set_conns. simpl.
    rewrite set_mu_twice, list_insert_id by done. by destruct s.
Qed.

Lemma exec_sendRetain_all c (ts : list (string * QosLevel)) s k :
  srv_conns s !! c = Some k -> mu (srv_subs s) = false -> alive k = true ->
  ch_closed (jobs k) = false -> length (ch_buf (jobs k)) + length ts <= ch_cap (jobs k) ->
  exec (for_each ts (fun tq => sendRetain tq.1 c)) s =
  Returned (queued_copies c (omap (fun tq => retained_for tq.1 (srv_subs s)) ts) k s) tt.
Proof.
  revert s k. induction ts as [|[t q] ts IH]; intros s k Hk Hm Ha Hc Hlen; simpl in Hlen.
  - simpl. f_equal. unfold queued_copies. simpl. rewrite !app_nil_r.
    assert (set_jobs (Chan (ch_buf (jobs k)) (ch_cap (jobs k)) false) k = k) as ->.
    { destruct k as [? ? ? ? ? ? [b n cl]]. simpl in *. by subst. }
    unfold put_conn, set_heap, set_conns. simpl. rewrite list_insert_id by done. by destruct s.
  - cbn [for_each fst]. rewrite exec_bind.
    rewrite (exec_sendRetain c t s k) by (done || (split; [done|lia])).
    set (r := option_list (retained_for t (srv_subs s))).
    assert (length r <= 1) as Hr by (subst r; destruct (retained_for t (srv_subs s)); simpl; lia).
    rewrite (IH _ (set_jobs (Chan (ch_buf (jobs k) ++
        ((fun p => Job (MPublish p) None) <$> seq (length (srv_heap s)) (length r)))
        (ch_cap (jobs k)) false) k)); [|by apply put_conn_eq with k|done|done|done|].
    + f_equal.
      assert (omap (fun tq : string * QosLevel => retained_for tq.1 (srv_subs s)) ((t, q) :: ts) =
              r ++ omap (fun tq => retained_for tq.1 (srv_subs s)) ts) as ->.
      { subst r. csimpl. by destruct (retained_for t (srv_subs s)). }
      unfold queued_copies, put_conn, set_conns, set_heap. simpl.
      rewrite list_insert_insert_eq, <- !(assoc_L app), !length_app, seq_app, fmap_app. done.
    + simpl. rewrite length_app, length_fmap, length_seq. lia.
Qed.
End Exec.

(** ** A small server, for evaluating the handlers *)

#[local] Existing Instance doubling_runtime.
#[local] Existing Instance bytes_mqttmsg.
#[local] Existing Instance plain_extern.

Module Demo.

Definition conf (presence : bool) (strategy : string) : Config := {|
  Broker := Build_BrokerConfig ":1883" "" "" "" presence (10 * Minute) 0 (3 * Second) false
              strategy "" "" true 4 (100 * Millisecond) 2 3 2 60;
  Peers := zero_PeersConfig;
  Redis := zero_RedisConfig
|}.

Definition ok_state {A} (o : outcome Server A) (s0 : Server) : Server :=
  match o with Returned s _ => s | _ => s0 end.

Definition server (presence : bool) (strategy : string) : Server :=
  match NewServer (conf presence strategy) 1000 with
  | inl s => ok_state (exec accept s) s
  | inr _ => MkServer (conf presence strategy) [] [] ∅ (Registry ∅ []) (newSubscriptions 0) ∅
               (new_stats (Broker (conf presence strategy))) [] [] [] 0
  end.

Definition connect_msg (id : string) : Connect :=
  Build_Connect protocolName protocolVersion id true 0 false false "" "" false.

Definition publish_msg (topic : string) (qos : QosLevel) (retain : bool) (mid : N) (payload : string)
    : Publish :=
  Build_Publish (Build_Header false qos retain) topic mid payload.

(** Connection 0 of the small server after its CONNECT. *)
Definition after_connect (strategy : string) : Server :=
  ok_state (exec (inbound_msg 0 (MConnect (connect_msg "c0"))) (server false strategy))
    (server false strategy).

(** The states the witnesses start from: one accepted connection, with presence
    enabled, and the connection after its CONNECT under either overflow strategy. *)
Definition accepted_conn : Server := Eval vm_compute in server true "block".
Definition session_block : Server := Eval vm_compute in after_connect "block".
Definition session_discard : Server := Eval vm_compute in after_connect "discard".
End Demo.

(** ** Properties *)

(** C17: CONNECT on a free client id with a clean session, running alone on a
    living connection whose queue has room.  The handler returns the code that
    says accepted exactly for an acceptable request (protocol, id length,
    credentials, number of clients); the client id maps to the connection, its
    flag is the request, its store is the one registered for the id and is empty,
    the CONNACK is queued last, the heartbeat is started exactly when a keep-alive
    is given, the presence key is set exactly when it is enabled and there is a
    user name, and the subscriptions and messages are untouched. *)
Theorem connect_fresh_client `{GoRuntime} `{Extern} (c : conn_ptr) (m : Connect) (s : Server)
    (k : incomingConn)
    (Hk : srv_conns s !! c = Some k) (Ha : alive k = true) (Hroom : has_room k)
    (Hfree : srv_clients s !! ClientId m = None) (Hclean : CleanSession m = true)
    (Hreg : registry_wf (srv_stores s)) :
  let b := Broker (srv_cf s) in
  let n := Clients (srv_stats s) in
  let g := getClientStore Memory.NewMemoryStore (ClientId m) (srv_stores s) in
  exists s' rc, exec (doConnect c m) s = Returned s' rc /\
    (rc = RetCodeAccepted <-> connect_acceptable b n m) /\
    srv_clients s' = <[ClientId m := c]> (srv_clients s) /\
    srv_conns s' = <[c := connected_conn m g.2 (srv_clock s) rc k]> (srv_conns s) /\
    clientStores (srv_stores s') !! ClientId m = Some g.2 /\
    (exists st, store_heap (srv_stores s') !! g.2 = Some st /\ ms_messages st = ∅) /\
    srv_gos s' = srv_gos s ++
      (if (0 <? KeepAliveTimer m)%Z then [GoHeartbeat c (KeepAliveTimer m)] else []) /\
    srv_redis s' = srv_redis s ++
      (if EnablePresence b && negb (Username m =s "")
       then [RedisSet (PRESENCE_KEY_PREFIX +:+ Username m)] else []) /\
    srv_subs s' = srv_subs s /\ srv_heap s' = srv_heap s.
Proof.
  intros b n g.
  destruct (exec_doConnect_fresh c m s k Hk Ha Hroom Hfree Hclean Hreg)
    as (s' & E & Hc & Hcl & Hcs & Hst & Hr & Hg & Hsub & Hh & _).
  exists s', (connect_rc b n m). split; [done|]. split; [apply connect_rc_accepted|].
  repeat (split; [done|]). split; [|done].
  rewrite Hcs. apply getClientStore_lookup.
Qed.

Lemma connect_fresh_client_witness :
  let s := Demo.accepted_conn in
  exists k, srv_conns s !! 0 = Some k /\
  exists s' rc, exec (doConnect 0 (Demo.connect_msg "c0")) s = Returned s' rc /\
    srv_clients s' = <["c0" := 0]> (srv_clients s).
Proof.
  intros s. eexists. split; [reflexivity|].
  destruct (connect_fresh_client 0 (Demo.connect_msg "c0") s _ eq_refl eq_refl) as
    (s' & rc & E & _ & Hcl & _).
  - split; [reflexivity|vm_compute; lia].
  - reflexivity.
  - reflexivity.
  - apply registry_wf_empty.
  - exists s', rc. split; [exact E|exact Hcl].
Defined.

(** A message before CONNECT takes the broker down.  If the first message of a
    connection is a PUBLISH or a SUBSCRIBE, the handler dereferences the nil
    connection flag and panics, whatever the message, the rate limiter and the
    rest of the state are. *)
Theorem message_before_connect_panics `{GoRuntime} `{Extern} (c : conn_ptr)
    (v : Message Publish) (s : Server) (k : incomingConn)
    (Hk : srv_conns s !! c = Some k) (Hflag : flag k = None) (Hstop : stopChan k = false)
    (Hv : (exists p, v = MPublish p) \/ (exists mid ts, v = MSubscribe mid ts)) :
  exists s', exec (inbound_msg c v) s = Crashed s' NilDeref.
Proof.
  destruct Hv as [[p ->]|(mid & ts & ->)].
  - by eapply exec_publish_unconnected.
  - by eapply exec_subscribe_unconnected.
Qed.

Lemma message_before_connect_panics_witness :
  let s := Demo.accepted_conn in
  exists k, srv_conns s !! 0 = Some k /\ flag k = None /\
  exists s', exec (inbound_msg 0 (MPublish (Demo.publish_msg "t" QosAtMostOnce false 0 "x"))) s =
             Crashed s' NilDeref.
Proof.
  intros s. eexists. split; [reflexivity|]. split; [reflexivity|].
  apply (message_before_connect_panics 0 _ s _ eq_refl eq_refl eq_refl).
  left. eexists. reflexivity.
Defined.

(** Too many topics in one SUBSCRIBE take the broker down.  On a connected
    session that was not stopped, a SUBSCRIBE whose topics go over the limit on
    subscriptions by two or more closes the stop channel a second time, which
    panics: the handler does not return after [stop]. *)
Theorem subscribe_flood_panics `{GoRuntime} `{Extern} (c : conn_ptr) (mid : N)
    (ts : list (string * QosLevel)) (s : Server) (k : incomingConn) (m : Connect)
    (Hk : srv_conns s !! c = Some k) (Hflag : flag k = Some m) (Hstop : stopChan k = false)
    (Hmu : mu (srv_subs s) = false)
    (Hlo : (- 2 ^ 63 <= subN k)%Z) (Hhi : (subN k + Z.of_nat (length ts) < 2 ^ 63)%Z)
    (Hover : (Z.max (limit_of s) (subN k) + 2 <= subN k + Z.of_nat (length ts))%Z) :
  exists s', exec (inbound_msg c (MSubscribe mid ts)) s = Crashed s' CloseOfClosed.
Proof.
  rewrite (exec_inbound_subscribe _ _ _ _ _ Hk).
  pose proof (received_conn c (MSubscribe mid ts) k s Hk) as Hk1.
  rewrite exec_bind. unfold doSubscribe.
  rewrite exec_bind, (exec_flag_username _ _ _ Hk1). cbn [flag set_lastOpTime]. rewrite Hflag.
  cbn [negb authorized]. rewrite exec_bind.
  destruct (exec_subscribe_flood c ts _ _ Hk1) as [s' ->]; simpl; try done.
  - by rewrite Hstop.
  - rewrite Hstop. exact Hover.
  - by eexists.
Qed.

Lemma subscribe_flood_panics_witness :
  let s := Demo.session_block in
  let ts := [("a", QosAtMostOnce); ("b", QosAtMostOnce); ("c", QosAtMostOnce); ("d", QosAtMostOnce)] in
  exists s', exec (inbound_msg 0 (MSubscribe 1 ts)) s = Crashed s' CloseOfClosed.
Proof.
  intros s ts.
  refine (subscribe_flood_panics 0 1 ts s _ (Demo.connect_msg "c0") eq_refl eq_refl eq_refl eq_refl _ _ _);
    [vm_compute; discriminate|vm_compute; reflexivity|vm_compute; discriminate].
Defined.

(** C21: SUBSCRIBE within the limit, on a connected session with room in its queue,
    running alone; the whole state after it is known.  The handler returns to the loop.
    The table of subscriptions, as the abstract table it stands for, has the topics
    added for the connection in order, and its lock, posts and retained messages are as
    before.  The SUBACK with one granted QoS 0 per topic is queued, followed by a new
    copy of the message retained for each topic that has neither a hash nor a plus
    sign.  The topics are counted for the session, the message and its bytes are
    counted, the time of the last operation is now, and everything else is unchanged,
    the other connections included. *)
Theorem subscribe_within_limit `{GoRuntime} `{Extern} (c : conn_ptr) (mid : N)
    (ts : list (string * QosLevel)) (s : Server) (k : incomingConn) (m : Connect) (a : table)
    (Hk : srv_conns s !! c = Some k) (Hflag : flag k = Some m) (Ha : alive k = true)
    (Hwf : subs_wf (srv_subs s)) (Hra : refines (srv_subs s) a)
    (Hmu : mu (srv_subs s) = false) (Hopen : ch_closed (jobs k) = false)
    (Hroom : length (ch_buf (jobs k)) + 1 + length ts <= ch_cap (jobs k))
    (Hlo : (- 2 ^ 63 <= subN k)%Z) (Hhi : (subN k + Z.of_nat (length ts) < 2 ^ 63)%Z)
    (Hlim : (subN k + Z.of_nat (length ts) <= limit_of s)%Z) :
  let copies := omap (fun tq : string * QosLevel =>
    if bool_decide ("#"%char ∈ chars tq.1 \/ "+"%char ∈ chars tq.1) then None
    else retain (srv_subs s) !! tq.1) ts in
  let answers := Job (MSubAck mid (replicate (length ts) QosAtMostOnce)) None ::
    ((fun p => Job (MPublish p) None) <$> seq (length (srv_heap s)) (length copies)) in
  exists s', exec (inbound_msg c (MSubscribe mid ts)) s = Returned s' Continue /\
    subs_wf (srv_subs s') /\
    refines (srv_subs s') (foldl (fun a tq => table_add tq.1 c a) a ts) /\
    mu (srv_subs s') = false /\ posts (srv_subs s') = posts (srv_subs s) /\
    retain (srv_subs s') = retain (srv_subs s) /\
    srv_heap s' = srv_heap s ++ copies /\
    srv_conns s' = <[c := set_jobs (Chan (ch_buf (jobs k) ++ answers) (ch_cap (jobs k)) false)
                            (set_subN (subN k + Z.of_nat (length ts))%Z
                              (set_lastOpTime (srv_clock s) k))]> (srv_conns s) /\
    srv_stats s' = add_inBytes (wrap64 (msg_Bytes (MSubscribe mid ts))) (add_recv 1 (srv_stats s)) /\
    srv_cf s' = srv_cf s /\ srv_clients s' = srv_clients s /\ srv_stores s' = srv_stores s /\
    srv_nodes s' = srv_nodes s /\ srv_receipts s' = srv_receipts s /\ srv_redis s' = srv_redis s /\
    srv_gos s' = srv_gos s /\ srv_clock s' = srv_clock s.
Proof.
  intros copies answers. rewrite (exec_inbound_subscribe _ _ _ _ _ Hk).
  pose proof (received_conn c (MSubscribe mid ts) k s Hk) as Hk1.
  set (s1 := received c (MSubscribe mid ts) k s) in *.
  set (k1 := set_lastOpTime (srv_clock s) k) in *.
  rewrite exec_bind. unfold doSubscribe.
  rewrite exec_bind, (exec_flag_username _ _ _ Hk1). cbn [flag set_lastOpTime k1]. rewrite Hflag.
  cbn [negb authorized]. fold k1. rewrite exec_bind, (exec_subscribe_all c ts s1 k1) by done.
  set (k2 := set_subN (subN k1 + Z.of_nat (length ts))%Z k1).
  change (srv_subs s1) with (srv_subs s). set (tb := add_all c ts (srv_subs s)).
  destruct (add_all_table c ts (srv_subs s)) as ((Hm & Hp & Hr) & Hw & Href). fold tb in Hm, Hp, Hr, Hw, Href.
  assert (srv_conns (set_subs tb (put_conn c k2 s1)) !! c = Some k2) as Hk2
    by (exact (put_conn_eq _ _ _ _ Hk1)).
  rewrite exec_bind, (exec_submit_room _ _ _ _ Hk2); [|done|split; [done|simpl; lia]].
  set (k3 := push_job _ k2).
  assert (srv_conns (put_conn c k3 (set_subs tb (put_conn c k2 s1))) !! c = Some k3) as Hk3
    by (by apply put_conn_eq with k2).
  rewrite (exec_sendRetain_all c ts _ k3 Hk3); [|simpl; by rewrite Hm|done|done|simpl; rewrite length_app; simpl; lia].
  assert (omap (fun tq : string * QosLevel => retained_for tq.1 tb) ts = copies) as Ec.
  { unfold copies. clearbody tb. clear -Hr. induction ts as [|tq ts IH]; csimpl; [done|]. by rewrite retained_for_spec, Hr, IH. }
  cbn [srv_subs put_conn set_subs set_conns]. rewrite Ec.
  eexists. split; [reflexivity|]. split; [by apply Hw|]. split; [by apply Href|].
  split; [by rewrite <- Hmu|]. split; [exact Hp|]. split; [exact Hr|]. split; [reflexivity|].
  split; [|done]. unfold queued_copies, answers, s1, received.
  cbn [srv_conns put_conn set_conns set_subs set_stats set_heap srv_heap]. rewrite !list_insert_insert_eq. f_equal.
  cbn [jobs k3 push_job set_jobs ch_buf ch_cap]. by rewrite <- (assoc_L app).
Qed.

Lemma subscribe_within_limit_witness :
  let kept := Demo.publish_msg "a" QosAtMostOnce true 0 "x" in
  let s := set_subs (set_retain kept (srv_subs Demo.session_block)) Demo.session_block in
  let ts := [("a", QosAtMostOnce); ("b/#", QosAtMostOnce)] in
  exists s', exec (inbound_msg 0 (MSubscribe 9 ts)) s = Returned s' Continue /\
    srv_heap s' = [kept] /\
    (exists k', srv_conns s' = [k'] /\
       ch_buf (jobs k') = [Job (MConnAck RetCodeAccepted) None;
                           Job (MSubAck 9 [QosAtMostOnce; QosAtMostOnce]) None; Job (MPublish 0) None]) /\
    refines (srv_subs s') (table_add "b/#" 0 (table_add "a" 0 table_empty)).
Proof.
  intros kept s ts.
  assert (subs_wf (srv_subs s) /\ refines (srv_subs s) table_empty) as [Hwf Hra].
  { change (srv_subs s) with (set_retain kept (newSubscriptions 3)). split.
    - apply subs_wf_set_retain, newSubscriptions_wf.
    - destruct (newSubscriptions_refines 3) as [He Hw]. split; [exact He|exact Hw]. }
  destruct (subscribe_within_limit 0 9 ts s _ (Demo.connect_msg "c0") table_empty eq_refl eq_refl eq_refl
    Hwf Hra eq_refl eq_refl) as (s' & E & _ & Href & _ & _ & _ & Hh & Hc & _).
  - vm_compute. lia.
  - vm_compute. discriminate.
  - vm_compute. reflexivity.
  - vm_compute. discriminate.
  - exists s'. split; [exact E|]. split; [rewrite Hh; vm_compute; reflexivity|].
    split; [|exact Href]. eexists. split; [rewrite Hc; reflexivity|vm_compute; reflexivity].
Defined.
