(* ===== verification/Delivery.v ===== *)
(** * Delivering a publication (src/broker: subs.go, proto.go, session.go, store.go)

    What a publication does, handler by handler, when each runs alone: it is
    persisted, posted, replicated and acknowledged by [doPublish], fanned out by a
    subscription worker, sent and recorded by [outboundLoop], and redelivered by
    the CONNECT of a later session. *)

From Stdlib Require Import ZArith Lia.
From stdpp Require Import base gmap list strings numbers sets.
From S2P Require Import Prelude GoString GoProc GoSlice Wild Config Proto Store Stats Subs Broker.
From S2P Require Import Session SessionFacts.

Local Open Scope string_scope.
Local Open Scope list_scope.

Section Delivery.
Context `{GoRuntime} `{Extern}.
Implicit Types (s : Server) (k : incomingConn) (c : conn_ptr) (p : ptr).

(** ** Offering a message to a connection, under the discard strategy *)

Definition offer (m : Message ptr) k : incomingConn :=
  if alive k && (length (ch_buf (jobs k)) <? ch_cap (jobs k))%nat
  then push_job (Job m None) k else k.

(** Only a dead connection has a closed queue. *)
Definition open_if_alive k : Prop := alive k = true -> ch_closed (jobs k) = false.

Definition discards s : Prop := BuffOverflowStrategy (Broker (srv_cf s)) <> BufferOverflowBlock.

Lemma exec_submit_offer c m s k :
  srv_conns s !! c = Some k -> open_if_alive k -> discards s ->
  exec (submit c m) s = Returned (put_conn c (offer m k) s) tt.
Proof.
  intros Hk Ho Hd. unfold offer. destruct (alive k) eqn:Ha; simpl.
  - destruct (_ <? _)%nat eqn:El; breflect.
    + apply exec_submit_room; [done..|]. split; [by apply Ho|done].
    + pose proof (exec_submit_full c m s k Hk Ha (Ho Ha) El) as Hf.
      destruct (_ =s _) eqn:Eb; breflect; [done|]. by rewrite put_conn_id.
  - rewrite put_conn_id by done. by eapply exec_submit_dead.
Qed.

Lemma offer_open m k : open_if_alive k -> open_if_alive (offer m k).
Proof. unfold offer. case_goal; [|done]. by intros _ _. Qed.

Lemma offer_alive m k : alive (offer m k) = alive k.
Proof. unfold offer. by case_goal. Qed.

(** Offering to the connections [cs] in order. *)
Definition offer_all (m : Message ptr) (cs : list conn_ptr) (ks : list incomingConn)
    : list incomingConn :=
  foldl (fun ks c => alter (offer m) c ks) ks cs.

Definition count (c : conn_ptr) (cs : list conn_ptr) : nat := length (filter (fun d => d = c) cs).

Lemma count_cons c d cs : count c (d :: cs) = (if decide (d = c) then 1 else 0) + count c cs.
Proof.
  unfold count. destruct (decide (d = c)) as [->|Hne].
  - by rewrite filter_cons_True.
  - by rewrite filter_cons_False.
Qed.

Lemma offer_all_lookup m cs ks c :
  offer_all m cs ks !! c = Nat.iter (count c cs) (offer m) <$> ks !! c.
Proof.
  revert ks. induction cs as [|d cs IH]; intros ks; simpl.
  - by rewrite option_fmap_id.
  - rewrite IH, count_cons. destruct (decide (d = c)) as [->|Hne].
    + rewrite list_lookup_alter_eq, <- option_fmap_compose. apply option_fmap_ext.
      intros k. change (1 + count c cs) with (S (count c cs)). by rewrite Nat.iter_succ_r.
    + by rewrite list_lookup_alter_ne.
Qed.

(** [n] offers put as many copies as the queue has room for. *)
Lemma iter_offer m n k :
  length (ch_buf (jobs k)) <= ch_cap (jobs k) ->
  let k' := Nat.iter n (offer m) k in
  alive k' = alive k /\ ch_cap (jobs k') = ch_cap (jobs k) /\
  ch_buf (jobs k') = ch_buf (jobs k) ++
    replicate (if alive k then Nat.min n (ch_cap (jobs k) - length (ch_buf (jobs k))) else 0)
      (Job m None).
Proof.
  intros Hl. induction n as [|n IH]; cbv zeta.
  - simpl. split; [done|]. split; [done|]. destruct (alive k); simpl; by rewrite app_nil_r.
  - rewrite Nat.iter_succ. destruct IH as (Ha & Hc & Hb).
    set (k1 := Nat.iter n (offer m) k) in *. unfold offer. rewrite Ha, Hc.
    destruct (alive k) eqn:Hk; cbn [andb]; [|by rewrite Ha, Hc, Hb].
    set (r := ch_cap (jobs k) - length (ch_buf (jobs k))) in *.
    rewrite Hb, length_app, length_replicate.
    destruct (_ <? _)%nat eqn:El; breflect.
    + assert (Nat.min (S n) r = S (Nat.min n r)) as -> by lia.
      cbn [alive jobs push_job set_jobs ch_cap ch_buf]. split; [done|]. split; [done|].
      by rewrite Hb, <- (assoc_L app), <- replicate_S_end.
    + assert (Nat.min (S n) r = Nat.min n r) as -> by lia. by rewrite Ha, Hc, Hb.
Qed.

(** ** Fan-out by a worker *)

Lemma exec_fan_out m sl s n i :
  discards s -> Forall open_if_alive (srv_conns s) ->
  n + i = length (elems (arrays (srv_subs s)) sl) ->
  Forall (fun c => c < length (srv_conns s)) (live (arrays (srv_subs s)) sl) ->
  exec (for_range n i (fun i => x <- read_entry sl i;;
          match x with Some c => submit c m | None => Ret tt end)) s =
  Returned (set_conns (offer_all m (omap id (drop i (elems (arrays (srv_subs s)) sl)))
                         (srv_conns s)) s) tt.
Proof.
  revert s i. induction n as [|n IH]; intros s i Hd Hopen Hn Hval.
  - simpl. rewrite drop_ge by lia. simpl. by destruct s.
  - cbn [for_range]. rewrite exec_bind, exec_bind. unfold read_entry at 1. rewrite exec_reads.
    rewrite index_elems.
    destruct (lookup_lt_is_Some_2 (elems (arrays (srv_subs s)) sl) i) as [x Hx]; [lia|].
    rewrite Hx, (drop_S _ _ _ Hx). cbn [default]. destruct x as [c|].
    + assert (c < length (srv_conns s)) as Hc.
      { rewrite Forall_forall in Hval. apply Hval. unfold live. apply list_elem_of_omap.
        exists (Some c). split; [by eapply list_elem_of_lookup_2|done]. }
      apply lookup_lt_is_Some in Hc as [k Hk].
      pose proof (Forall_lookup_1 _ _ _ _ Hopen Hk) as Hok.
      cbn [from_option id]. rewrite (exec_submit_offer _ _ _ _ Hk Hok Hd). rewrite IH; simpl.
      * by rewrite (list_alter_insert _ _ _ _ Hk).
      * done.
      * apply Forall_insert; [done|by apply offer_open].
      * lia.
      * by rewrite length_insert.
    + cbn [from_option id exec]. apply IH; [done..|lia|done].
Qed.

Lemma exec_read_pub p v s : srv_heap s !! p = Some v -> exec (read_pub p) s = Returned s v.
Proof. intros Hp. unfold read_pub. by rewrite exec_atomic, Hp. Qed.

Lemma heap_alter (f : Publish -> Publish) p v (h : list Publish) :
  h !! p = Some v -> alter f p h !! p = Some (f v).
Proof. intros Hp. rewrite (list_alter_insert _ _ _ _ Hp). apply list_lookup_insert_eq. by eapply lookup_lt_Some. Qed.

Lemma exec_critical {A} (f : subscriptions -> subscriptions * A) s :
  mu (srv_subs s) = false ->
  exec (critical f) s = Returned (set_subs (f (srv_subs s)).1 s) (f (srv_subs s)).2.
Proof. intros Hm. unfold critical. by rewrite exec_atomic, Hm. Qed.

(** A publication that is not a deletion of a retained message. *)
Definition deletes_retained (v : Publish) : bool :=
  Retain (PubHeader v) && (Payload_Size (PubPayload v) =? 0)%Z.

Lemma exec_run_post p v s a :
  srv_heap s !! p = Some v -> deletes_retained v = false ->
  discards s -> mu (srv_subs s) = false ->
  Forall open_if_alive (srv_conns s) ->
  subs_wf (srv_subs s) -> refines (srv_subs s) a ->
  Forall (fun c => c < length (srv_conns s)) (table_receivers (TopicName v) a) ->
  let t := (subscribers (TopicName v) (srv_subs s)).1 in
  exec (run_post p) s =
  Returned
    (set_subs (if Retain (PubHeader v) then set_retain (set_Retain false v) t else t)
      (set_conns (offer_all (MPublish p) (table_receivers (TopicName v) a) (srv_conns s))
        (set_heap (alter (set_Retain false) p (srv_heap s)) s))) Continue.
Proof.
  intros Hp Hdel Hd Hm Hopen Hwf Href Hval t.
  destruct (subscribers_spec (TopicName v) _ _ Hwf Href) as (_ & _ & Hsl & Hlive). fold t in Hsl, Hlive.
  unfold run_post. rewrite exec_bind, (exec_read_pub _ _ _ Hp), exec_bind, exec_modify.
  fold (deletes_retained v). rewrite Hdel.
  rewrite exec_bind, exec_critical by done. cbn [srv_subs set_heap]. fold t.
  set (sl := (subscribers (TopicName v) (srv_subs s)).2) in *.
  rewrite exec_bind, exec_fan_out; [|done|done|cbn [srv_subs set_subs]..].
  - rewrite drop_0. cbn [srv_subs srv_conns set_subs set_heap].
    change (omap id (elems (arrays t) sl)) with (live (arrays t) sl). rewrite Hlive.
    destruct (Retain (PubHeader v)); [|done].
    unfold save_retain. rewrite exec_bind, exec_atomic.
    cbn [srv_subs srv_heap set_conns set_subs set_heap].
    change (mu t) with (mu (srv_subs s)). by rewrite Hm, (heap_alter _ _ _ _ Hp).
  - rewrite (length_elems _ _ Hsl). lia.
  - by rewrite Hlive.
Qed.

(** ** Replication *)

Definition offer_ep (m : Message ptr) (e : endpoint) : endpoint :=
  if ep_alive e && (length (ch_buf (ep_jobs e)) <? ch_cap (ep_jobs e))%nat
  then set_ep_jobs (Chan (ch_buf (ep_jobs e) ++ [Job m None]) (ch_cap (ep_jobs e)) false) e
  else e.

(** A submission to [e] neither panics nor blocks. *)
Definition ep_ready (e : endpoint) : Prop :=
  ep_alive e = true ->
  ch_closed (ep_jobs e) = false /\
  (PeersBuffOverflowStrategy (ep_cf e) = BufferOverflowBlock ->
   length (ch_buf (ep_jobs e)) < ch_cap (ep_jobs e)).

Lemma exec_on_node {A} host (f : endpoint -> astep endpoint A) s e e' a :
  srv_nodes s !! host = Some e -> f e = Done e' a ->
  exec (on_node host f) s = Returned (set_nodes (<[host := e']> (srv_nodes s)) s) a.
Proof. intros He Hf. unfold on_node. by rewrite exec_atomic, He, Hf. Qed.

Lemma set_nodes_id host e s : srv_nodes s !! host = Some e ->
  set_nodes (<[host := e]> (srv_nodes s)) s = s.
Proof. intros He. rewrite insert_id by done. by destruct s. Qed.

Lemma exec_ep_submit host m s e :
  srv_nodes s !! host = Some e -> ep_ready e ->
  exec (ep_submit host m) s = Returned (set_nodes (<[host := offer_ep m e]> (srv_nodes s)) s) tt.
Proof.
  intros He Hr. unfold ep_submit, offer_ep.
  rewrite exec_bind, (exec_on_node host (fun e => Done e (ep_alive e)) _ e e (ep_alive e) He eq_refl),
    (set_nodes_id _ _ _ He).
  destruct (ep_alive e) eqn:Ha; cbn [negb andb]; [|by rewrite (set_nodes_id _ _ _ He)].
  destruct (Hr Ha) as [Hc Hb].
  rewrite exec_bind.
  rewrite (exec_on_node host (fun e =>
      Done e (PeersBuffOverflowStrategy (ep_cf e) =s BufferOverflowBlock)) _ e e _ He eq_refl).
  rewrite (set_nodes_id _ _ _ He).
  destruct (_ =s _) eqn:Eb; breflect.
  - specialize (Hb Eb). rewrite (proj2 (Nat.ltb_lt _ _) Hb).
    apply exec_on_node with e; [done|]. unfold on_ep_jobs. by rewrite ch_send_room.
  - rewrite exec_bind. destruct (_ <? _)%nat eqn:El; breflect.
    + erewrite exec_on_node; [done..|]. unfold on_ep_jobs. by rewrite ch_try_send_room.
    + erewrite exec_on_node; [|done|].
      2:{ unfold on_ep_jobs, ch_try_send. rewrite Hc, (proj2 (Nat.ltb_ge _ _) El). done. }
      simpl. by destruct e.
Qed.

Lemma exec_replicate_hosts m hosts s :
  NoDup hosts ->
  (forall h, h ∈ hosts -> exists e, srv_nodes s !! h = Some e /\ ep_ready e) ->
  exists nodes, exec (for_each hosts (fun host => ep_submit host m)) s =
                Returned (set_nodes nodes s) tt /\
    forall h, nodes !! h = if decide (h ∈ hosts) then offer_ep m <$> srv_nodes s !! h
                           else srv_nodes s !! h.
Proof.
  revert s. induction hosts as [|h hosts IH]; intros s Hnd Hh.
  - exists (srv_nodes s). split; [by destruct s|]. intros h. by rewrite decide_False by set_solver.
  - apply NoDup_cons in Hnd as [Hn Hnd]. destruct (Hh h) as (e & He & Hr); [by left|].
    cbn [for_each]. rewrite exec_bind, (exec_ep_submit _ _ _ _ He Hr).
    destruct (IH (set_nodes (<[h := offer_ep m e]> (srv_nodes s)) s)) as (nodes & E & Hl); [done| |].
    { intros h' Hin. destruct (Hh h') as (e' & He' & Hr'); [by right|]. exists e'.
      split; [|done]. simpl. by rewrite lookup_insert_ne by set_solver. }
    exists nodes. split; [done|]. intros h'. rewrite Hl. simpl.
    destruct (decide (h' = h)) as [->|Hne].
    + rewrite decide_False by done. rewrite decide_True by (by left). by rewrite lookup_insert_eq, He.
    + rewrite lookup_insert_ne by done. destruct (decide (h' ∈ hosts)).
      * by rewrite decide_True by (by right).
      * by rewrite decide_False by set_solver.
Qed.

Lemma exec_replicate p s :
  (forall h e, srv_nodes s !! h = Some e -> ep_ready e) ->
  exec (replicate_pub p) s = Returned (set_nodes (offer_ep (MPublish p) <$> srv_nodes s) s) tt.
Proof.
  intros Hr. unfold replicate_pub. rewrite exec_bind, exec_reads.
  set (hosts := range_order _).
  assert (forall h, h ∈ hosts <-> is_Some (srv_nodes s !! h)) as Hdom.
  { intros h. unfold hosts. rewrite elem_of_range_order, list_elem_of_fmap. split.
    - intros ([h' e] & -> & Hin). apply elem_of_map_to_list in Hin. by exists e.
    - intros [e He]. exists (h, e). split; [done|]. by apply elem_of_map_to_list. }
  destruct (exec_replicate_hosts (MPublish p) hosts s) as (nodes & -> & Hl).
  - unfold hosts. rewrite range_order_perm. apply NoDup_fst_map_to_list.
  - intros h [e He]%Hdom. exists e. eauto.
  - do 2 f_equal. apply map_eq. intros h. rewrite Hl, lookup_fmap.
    destruct (decide (h ∈ hosts)) as [|Hn]; [done|].
    rewrite Hdom in Hn. by destruct (srv_nodes s !! h); [destruct Hn|].
Qed.

(** ** PUBLISH *)

Lemma exec_call_store c call s k sp st :
  srv_conns s !! c = Some k -> store k = Some sp -> store_heap (srv_stores s) !! sp = Some st ->
  exec (call_store c call) s =
  Returned (set_stores (Registry (clientStores (srv_stores s))
              (<[sp := run_call call st]> (store_heap (srv_stores s)))) s) tt.
Proof.
  intros Hk Hsp Hst. unfold call_store. destruct call as [x|].
  - by rewrite (exec_on_store _ _ _ _ _ _ Hk Hsp Hst).
  - simpl. rewrite list_insert_id by done. by destruct s as [? ? ? ? []].
Qed.

Definition post_room s : Prop :=
  ch_closed (posts (srv_subs s)) = false /\
  length (ch_buf (posts (srv_subs s))) < ch_cap (posts (srv_subs s)).

Definition push_post p (t : subscriptions) : subscriptions :=
  set_posts (Chan (ch_buf (posts t) ++ [p]) (ch_cap (posts t)) false) t.

Lemma exec_subs_submit p s :
  post_room s -> exec (subs_submit p) s = Returned (set_subs (push_post p (srv_subs s)) s) tt.
Proof.
  intros [Hc Hl]. unfold subs_submit. rewrite exec_atomic, ch_send_room by done. done.
Qed.

Lemma limited_conn_fields now k :
  alive (limited_conn now k) = alive k /\ jobs (limited_conn now k) = jobs k /\
  store (limited_conn now k) = store k.
Proof. unfold limited_conn. by case_goal. Qed.

(** The state in which [doPublish] goes on after the rate limiter. *)
Lemma limited_received c v s k :
  stopChan k = false ->
  let pour := Pour (leakyBucket k) (srv_clock s) 1%Z in
  let counted := add_inBytes (wrap64 (msg_Bytes (MPublish v))) (add_recv 1 (srv_stats s)) in
  let k1 := set_lastOpTime (srv_clock s) k in
  let k2 := set_lastOpTime (srv_clock s) (set_leakyBucket pour.2 (set_stopChan (negb pour.1) k)) in
  limited c k1 (received c (MPublish v) k s) =
    put_conn c k2 (set_stats (if pour.1 then counted else add_aborts 1 counted)
                    (set_heap (srv_heap s ++ [v]) s)) /\
  limited_conn (srv_clock s) k1 = k2.
Proof.
  intros Hs pour counted k1 k2. unfold limited, limited_conn, k1, k2. cbn [leakyBucket set_lastOpTime].
  change (srv_clock (received c (MPublish v) k s)) with (srv_clock s). fold pour.
  destruct pour as [[] b']; cbn [fst snd negb]; (split; [|destruct k; simpl in *; by subst]);
    unfold received; flatten s; rewrite list_insert_insert_eq; destruct k; simpl in *; by subst.
Qed.

(** [doPublish] past its rate limiter, on a connected session. *)
Lemma exec_publish_body c p v s k sp st :
  srv_conns s !! c = Some k -> flag k <> None -> alive k = true -> has_room k ->
  store k = Some sp -> store_heap (srv_stores s) !! sp = Some st ->
  srv_heap s !! p = Some v -> post_room s ->
  (forall h e, srv_nodes s !! h = Some e -> ep_ready e) ->
  ((Pour (leakyBucket k) (srv_clock s) 1%Z).1 = false -> stopChan k = false) ->
  exec (doPublish c p) s =
  Returned
    (let s1 := limited c k s in
     let k1 := limited_conn (srv_clock s) k in
     let s2 := set_nodes (offer_ep (MPublish p) <$> srv_nodes s1)
       (set_subs (push_post p (srv_subs s1))
         (set_stores (Registry (clientStores (srv_stores s1))
           (<[sp := persist_inbound st (MPublish v) (MPublish p)]> (store_heap (srv_stores s1)))) s1)) in
     if decide (Qos (PubHeader v) = QosAtLeastOnce)
     then put_conn c (push_job (Job (MPubAck QosAtMostOnce (MessageId v)) None) k1) s2
     else s2) tt.
Proof.
  intros Hk Hf Ha Hroom Hsp Hst Hp Hpost Hn Hstop. cbv zeta. unfold doPublish.
  rewrite exec_bind, (exec_publish_limit _ _ _ Hk Hstop).
  pose proof (limited_lookup c s k Hk) as Hk1.
  destruct (limited_conn_fields (srv_clock s) k) as (Ha1 & Hj1 & Hs1).
  assert (forall A (f : Server -> A), (forall k' s', f (put_conn c k' s') = f s') ->
    (forall x s', f (set_stats x s') = f s') -> f (limited c k s) = f s) as Hlim.
  { intros A f Hf1 Hf2. unfold limited. rewrite Hf1. case_goal; [done|by rewrite Hf2]. }
  set (s1 := limited c k s) in *. set (k1 := limited_conn (srv_clock s) k) in *.
  rewrite exec_bind, (exec_flag_username _ _ _ Hk1).
  unfold k1 at 1. rewrite limited_conn_flag. destruct (flag k) as [m|]; [|done].
  cbn [negb authorized].
  rewrite exec_bind, (exec_read_pub _ v) by (by rewrite (Hlim _ srv_heap)).
  rewrite exec_bind, (exec_call_store _ _ _ k1 sp st);
    [|done|congruence|by rewrite (Hlim _ srv_stores)].
  rewrite exec_bind, exec_subs_submit by (unfold post_room; cbn [srv_subs set_stores]; by rewrite (Hlim _ srv_subs)).
  rewrite exec_bind, exec_replicate by (cbn [srv_nodes set_subs set_stores]; by rewrite (Hlim _ srv_nodes)).
  destruct (decide _); [|done].
  rewrite (exec_submit_room _ _ _ k1); [done..|congruence|]. unfold has_room. by rewrite Hj1.
Qed.

(** ** The sending side *)

Lemma exec_read_msg m v s : view (srv_heap s) m = Some v -> exec (read_msg m) s = Returned s v.
Proof. intros Hv. unfold read_msg. by rewrite exec_atomic, Hv. Qed.

Lemma exec_receipt (r : option nat) s :
  (forall x, r = Some x -> srv_receipts s !! x <> Some true) ->
  exec (match r with Some x => close_receipt x | None => Ret tt end) s =
  Returned (set_receipts (match r with Some x => <[x := true]> (srv_receipts s)
                                     | None => srv_receipts s end) s) tt.
Proof.
  intros Hr. destruct r as [x|]; [|by destruct s].
  unfold close_receipt. rewrite exec_atomic, decide_False by (by apply Hr). done.
Qed.

(** One turn of [outboundLoop] that sends the first message of the queue. *)
Lemma exec_outbound_sent c j rest v s k sp st :
  srv_conns s !! c = Some k -> ch_buf (jobs k) = j :: rest ->
  view (srv_heap s) (job_m j) = Some v ->
  store k = Some sp -> store_heap (srv_stores s) !! sp = Some st ->
  (forall x, job_r j = Some x -> srv_receipts s !! x <> Some true) ->
  let q := jobs k in
  let k1 := set_jobs (Chan rest (ch_cap q) (ch_closed q)) k in
  exec (outbound_job c true) s =
  Returned
    (put_conn c (set_lastOpTime (srv_clock s) (set_wire (wire k ++ [v]) k1))
      (set_stats (addOut v (messageSend (srv_stats s)))
        (set_receipts (match job_r j with Some x => <[x := true]> (srv_receipts s)
                                        | None => srv_receipts s end)
          (set_stores (Registry (clientStores (srv_stores s))
            (<[sp := persist_outbound st v (job_m j)]> (store_heap (srv_stores s)))) s))))
    (match job_m j with MDisconnect => Return | _ => Continue end).
Proof.
  intros Hk Hb Hv Hsp Hst Hr q k1. unfold outbound_job.
  rewrite exec_bind, (exec_on_conn _ _ _ _ Hk). unfold on_jobs, ch_recv. rewrite Hb.
  fold q k1.
  assert (srv_conns (put_conn c k1 s) !! c = Some k1) as Hk1 by (by apply put_conn_eq with k).
  rewrite exec_bind, (exec_read_msg _ v) by done.
  rewrite exec_bind, (exec_call_store _ _ _ k1 sp st Hk1 Hsp Hst).
  rewrite exec_bind, (exec_read_msg _ v) by done.
  rewrite exec_bind, (exec_write_conn _ _ _ k1), exec_bind, exec_receipt by done.
  cbn [negb]. rewrite exec_bind, exec_do_stats.
  rewrite exec_bind, (exec_read_msg _ v), exec_bind, exec_do_stats by done.
  rewrite exec_bind, (exec_refreshOpTime _ _ (set_wire (wire k ++ [v]) k1))
    by (by apply (put_conn_eq c k1)).
  flatten s.
  rewrite !list_insert_insert_eq. by destruct (job_m j).
Qed.

(** One turn that fails to send it. *)
Lemma exec_outbound_failed c j rest v s k sp st :
  srv_conns s !! c = Some k -> ch_buf (jobs k) = j :: rest ->
  view (srv_heap s) (job_m j) = Some v ->
  store k = Some sp -> store_heap (srv_stores s) !! sp = Some st ->
  (forall x, job_r j = Some x -> srv_receipts s !! x <> Some true) ->
  let q := jobs k in
  exec (outbound_job c false) s =
  Returned
    (put_conn c (set_jobs (Chan rest (ch_cap q) (ch_closed q)) k)
      (set_receipts (match job_r j with Some x => <[x := true]> (srv_receipts s)
                                      | None => srv_receipts s end)
        (set_stores (Registry (clientStores (srv_stores s))
          (<[sp := persist_outbound st v (job_m j)]> (store_heap (srv_stores s)))) s))) Return.
Proof.
  intros Hk Hb Hv Hsp Hst Hr q. unfold outbound_job.
  rewrite exec_bind, (exec_on_conn _ _ _ _ Hk). unfold on_jobs, ch_recv. rewrite Hb.
  fold q. set (k1 := set_jobs _ k).
  assert (srv_conns (put_conn c k1 s) !! c = Some k1) as Hk1 by (by apply put_conn_eq with k).
  rewrite exec_bind, (exec_read_msg _ v) by done.
  rewrite exec_bind, (exec_call_store _ _ _ k1 sp st Hk1 Hsp Hst).
  rewrite exec_bind, (exec_read_msg _ v) by done.
  rewrite exec_bind. cbn [exec]. rewrite exec_bind, exec_receipt by done.
  by flatten s.
Qed.

(** The loop goes on after every message but a DISCONNECT. *)
Lemma outbound_flow h (m : Message ptr) v :
  view h m = Some v ->
  match m with MDisconnect => Return | _ => Continue end = Continue <-> v <> MDisconnect.
Proof.
  destruct m as [?|?|p|? ?|? ?|? ?|? ?|?| | | |?]; simpl.
  3: intros Hv; apply fmap_Some in Hv as (? & _ & ->).
  all: intros; simplify_eq; by split.
Qed.

(** The store after [persist_outbound], key by key. *)
Lemma persist_outbound_lookup (st : MemoryStore (Message ptr)) v m key :
  ms_messages (persist_outbound st v m) !! key =
  match v with
  | MPublish u => if bool_decide (Qos (PubHeader u) = QosAtLeastOnce /\ key = "o." +:+ Itoa (MessageId u))
                  then Some m else ms_messages st !! key
  | MPubAck _ mid => if bool_decide (key = "i." +:+ Itoa mid) then None else ms_messages st !! key
  | _ => ms_messages st !! key
  end.
Proof.
  unfold persist_outbound. destruct v as [?|?|u|q mid|? ?|? ?|? ?|?| | | |?]; try done;
    cbn [persist_outbound_call]; unfold ibound_mid2key, obound_mid2key, IBOUND_PREFIX, OBOUND_PREFIX.
  - destruct (decide (Qos (PubHeader u) = QosAtLeastOnce)) as [Hq|Hq]; simpl.
    + rewrite lookup_insert. repeat case_decide; repeat case_bool_decide; naive_solver.
    + rewrite bool_decide_false by naive_solver. done.
  - simpl. rewrite lookup_delete. repeat case_decide; repeat case_bool_decide; naive_solver.
Qed.

Lemma persist_outbound_opened (st : MemoryStore (Message ptr)) v m :
  ms_opened (persist_outbound st v m) = ms_opened st.
Proof. unfold persist_outbound. destruct v; try done. cbn [persist_outbound_call]. by case_decide. Qed.

(** ** Redelivery *)

(** The stored message is redelivered: a publication or an acknowledgement of QoS 1. *)
Definition redelivers (heap : list Publish) (m : Message ptr) : bool :=
  match m with
  | MPublish p => match heap !! p with
                  | Some v => bool_decide (Qos (PubHeader v) = QosAtLeastOnce)
                  | None => false
                  end
  | MPubAck q _ => bool_decide (q = QosAtLeastOnce)
  | _ => false
  end.

(** What a resumed session is sent, given its store. *)
Definition redelivered (heap : list Publish) (st : MemoryStore (Message ptr)) : list (Message ptr) :=
  omap (fun key => match Get key st with
                   | Some m => if redelivers heap m then Some m else None
                   | None => None
                   end) (All st).

(** Every key is not empty and every stored publication is in memory. *)
Definition store_valid (heap : list Publish) (st : MemoryStore (Message ptr)) : Prop :=
  forall key m, ms_messages st !! key = Some m ->
    key <> "" /\ (forall p, m = MPublish p -> p < length heap).

Definition push_jobs (ms : list (Message ptr)) k : incomingConn :=
  set_jobs (Chan (ch_buf (jobs k) ++ ((fun m => Job m None) <$> ms)) (ch_cap (jobs k))
              (ch_closed (jobs k))) k.

Lemma push_jobs_nil k : push_jobs [] k = k.
Proof. destruct k as [? ? ? ? ? ? []]. unfold push_jobs. simpl. by rewrite app_nil_r. Qed.

Lemma push_jobs_app ms ms' k : push_jobs ms' (push_jobs ms k) = push_jobs (ms ++ ms') k.
Proof.
  destruct k as [? ? ? ? ? ? []]. unfold push_jobs, set_jobs. simpl.
  by rewrite fmap_app, <- (assoc_L app).
Qed.

Lemma push_job_jobs m k : ch_closed (jobs k) = false -> push_job (Job m None) k = push_jobs [m] k.
Proof. intros Hc. unfold push_job, push_jobs. by rewrite Hc. Qed.

Lemma exec_redeliver c key s k sp st :
  srv_conns s !! c = Some k -> store k = Some sp -> store_heap (srv_stores s) !! sp = Some st ->
  alive k = true -> has_room k -> store_valid (srv_heap s) st -> key <> "" ->
  exec (redeliver c key) s =
  Returned (put_conn c (push_jobs (match Get key st with
                                   | Some m => if redelivers (srv_heap s) m then [m] else []
                                   | None => []
                                   end) k) s) tt.
Proof.
  intros Hk Hsp Hst Ha Hroom Hval Hkey. unfold redeliver.
  destruct (key =s "") eqn:Ek; breflect; [done|].
  rewrite exec_bind, (exec_on_store _ _ _ _ _ _ Hk Hsp Hst). cbn [fst snd].
  rewrite list_insert_id by done. change (Get key st) with (ms_messages st !! key).
  assert (set_stores (Registry (clientStores (srv_stores s)) (store_heap (srv_stores s))) s = s) as ->
    by (by destruct s as [? ? ? ? []]).
  pose proof (proj1 Hroom) as Hc.
  assert (forall m, exec (submit c m) s = Returned (put_conn c (push_jobs [m] k) s) tt) as Hsub.
  { intros m. rewrite <- push_job_jobs by done. by apply exec_submit_room. }
  assert (exec (Ret tt) s = Returned (put_conn c (push_jobs [] k) s) tt) as Hnil
    by (by rewrite push_jobs_nil, put_conn_id).
  destruct (ms_messages st !! key) as [m|] eqn:Eg; [|done].
  destruct m as [?|?|p|q mid|? ?|? ?|? ?|?| | | |?]; try done; cbn [redelivers].
  - assert (is_Some (srv_heap s !! p)) as [v Hv]
      by (apply lookup_lt_is_Some; by eapply (Hval key)).
    rewrite exec_bind, (exec_read_pub _ _ _ Hv), Hv.
    destruct (decide _); [rewrite bool_decide_true by done|rewrite bool_decide_false by done]; done.
  - destruct (decide _); [rewrite bool_decide_true by done|rewrite bool_decide_false by done]; done.
Qed.

Lemma exec_redeliver_all c keys s k sp st :
  srv_conns s !! c = Some k -> store k = Some sp -> store_heap (srv_stores s) !! sp = Some st ->
  alive k = true -> ch_closed (jobs k) = false ->
  length (ch_buf (jobs k)) + length keys <= ch_cap (jobs k) ->
  store_valid (srv_heap s) st -> Forall (fun key => key <> "") keys ->
  exec (for_each keys (redeliver c)) s =
  Returned (put_conn c (push_jobs (omap (fun key => match Get key st with
                   | Some m => if redelivers (srv_heap s) m then Some m else None
                   | None => None
                   end) keys) k) s) tt.
Proof.
  intros Hk Hsp Hst Ha Hc Hlen Hval Hkeys. revert s k Hk Hsp Hst Ha Hc Hlen Hval.
  induction Hkeys as [|key keys Hkey _ IH]; intros s k Hk Hsp Hst Ha Hc Hlen Hval.
  - cbn [omap list_omap]. by rewrite push_jobs_nil, put_conn_id.
  - simpl in Hlen. cbn [for_each].
    rewrite exec_bind, (exec_redeliver _ _ _ _ _ _ Hk Hsp Hst Ha); [|split; [done|lia]|done|done].
    set (r := match Get key st with Some m => if redelivers (srv_heap s) m then [m] else [] | None => [] end).
    assert (length r <= 1) as Hr by (unfold r; repeat case_goal; simpl; lia).
    rewrite (IH _ (push_jobs r k)); [|by apply put_conn_eq with k|done|done|done|done| |done].
    + rewrite put_conn_put, push_jobs_app. cbn [srv_heap put_conn set_conns]. do 3 f_equal.
      unfold r. cbn [omap list_omap]. destruct (Get key st) as [m|]; [|done].
      by destruct (redelivers _ _).
    + simpl. rewrite length_app, length_fmap. lia.
Qed.

Lemma exec_connect_session_resume c m b rc s k sp st :
  srv_conns s !! c = Some k -> alive k = true -> ch_closed (jobs k) = false ->
  CleanSession m = false ->
  clientStores (srv_stores s) !! ClientId m = Some sp ->
  store_heap (srv_stores s) !! sp = Some st -> store_valid (srv_heap s) st ->
  length (ch_buf (jobs k)) + length (All st) + 1 <= ch_cap (jobs k) ->
  exists s' k', exec (connect_session c m b rc) s = Returned s' rc /\
    srv_conns s' !! c = Some k' /\
    ch_buf (jobs k') = ch_buf (jobs k) ++
      ((fun m => Job m None) <$> redelivered (srv_heap s) st ++ [MConnAck rc]) /\
    srv_stores s' = srv_stores s.
Proof.
  intros Hk Ha Hc Hclean Hreg Hst Hval Hlen.
  unfold connect_session. rewrite exec_bind, exec_go_if.
  rewrite exec_bind, exec_atomic. cbn [srv_stores set_gos].
  unfold getClientStore. rewrite Hreg. cbn [fst snd].
  rewrite exec_bind, (exec_write_conn _ _ _ k) by done.
  set (k1 := set_store (Some sp) k). rewrite Hclean. cbn [negb].
  set (s1 := put_conn c k1 _).
  assert (srv_conns s1 !! c = Some k1) as Hk1 by (by apply put_conn_eq with k).
  rewrite exec_bind, exec_bind, (exec_on_store _ _ _ k1 sp st) by done.
  cbn [fst snd]. rewrite list_insert_id by done.
  assert (set_stores (Registry (clientStores (srv_stores s1)) (store_heap (srv_stores s1))) s1 = s1)
    as -> by (subst s1; by destruct s as [? ? ? ? []]).
  rewrite (exec_redeliver_all _ _ _ k1 sp st); [|done..|cbn [jobs set_store k1]; lia|done|].
  2:{ apply Forall_forall. intros key Hin. apply MemoryStore_All_elem in Hin as [x Hx].
      by apply (Hval key x). }
  fold (redelivered (srv_heap s1) st). change (srv_heap s1) with (srv_heap s).
  set (k2 := push_jobs _ k1).
  assert (srv_conns (put_conn c k2 s1) !! c = Some k2) as Hk2 by (by apply put_conn_eq with k1).
  rewrite exec_bind, exec_reads, exec_bind, (exec_write_conn _ _ _ k2 Hk2).
  set (k3 := set_connectedAt _ k2).
  assert (length (redelivered (srv_heap s) st) <= length (All st)) as Hle
    by apply length_omap_le.
  rewrite exec_bind, exec_CheckIn_if, exec_bind, (exec_submit_room _ _ _ k3);
    [|by apply (put_conn_eq c k2)|done|split; [done|]].
  2:{ cbn [jobs k3 k2 k1 push_jobs set_connectedAt set_store set_jobs ch_buf ch_cap].
      rewrite length_app, length_fmap. lia. }
  eexists _, _. split; [reflexivity|]. split.
  { eapply put_conn_eq. by apply (put_conn_eq c k2). }
  split; [|done]. cbn [jobs push_job k3 k2 k1 push_jobs set_connectedAt set_store set_jobs ch_buf].
  by rewrite fmap_app, <- (assoc_L app).
Qed.

(** A resumed session on a free client id. *)
Lemma exec_doConnect_resume c m s k sp st :
  srv_conns s !! c = Some k -> alive k = true -> ch_closed (jobs k) = false ->
  srv_clients s !! ClientId m = None -> CleanSession m = false ->
  clientStores (srv_stores s) !! ClientId m = Some sp ->
  store_heap (srv_stores s) !! sp = Some st -> store_valid (srv_heap s) st ->
  length (ch_buf (jobs k)) + length (All st) + 1 <= ch_cap (jobs k) ->
  let rc := connect_rc (Broker (srv_cf s)) (Clients (srv_stats s)) m in
  exists s' k', exec (doConnect c m) s = Returned s' rc /\
    srv_conns s' !! c = Some k' /\
    ch_buf (jobs k') = ch_buf (jobs k) ++
      ((fun m => Job m None) <$> redelivered (srv_heap s) st ++ [MConnAck rc]) /\
    srv_stores s' = srv_stores s.
Proof.
  intros Hk Ha Hc Hfree Hclean Hreg Hst Hval Hlen rc.
  rewrite (exec_doConnect_free _ _ _ _ Hk Hfree). fold rc.
  destruct (exec_connect_session_resume c m (Broker (srv_cf s)) rc
    (set_clients (<[ClientId m := c]> (srv_clients s)) (put_conn c (set_flag (Some m) k) s))
    (set_flag (Some m) k) sp st) as (s' & k' & E & Hrest); try done.
  - by apply put_conn_eq with k.
  - by exists s', k'.
Qed.

(** A PUBACK from the client changes no store. *)
Lemma exec_inbound_puback c q mid s k :
  srv_conns s !! c = Some k ->
  exec (inbound_msg c (MPubAck q mid)) s = Returned (received c (MPubAck q mid) k s) Continue.
Proof.
  intros Hk. unfold inbound_msg. cbn [alloc_msg bind]. by rewrite (exec_prologue _ _ k).
Qed.
End Delivery.

#[local] Existing Instance doubling_runtime.
#[local] Existing Instance bytes_mqttmsg.
#[local] Existing Instance plain_extern.

(** ** Properties *)

(** C8: fan-out under the discard strategy.  A worker that takes a publication
    which does not delete a retained message, running alone, goes on; every
    connection that is alive gets as many copies as it has matching subscriptions,
    up to the free room of its queue, after what the queue held, and a dead one
    gets none; the message is sent without its retain flag; if the flag was set, a
    copy with the flag set becomes the retained message of the topic, otherwise the
    retained messages stay; the subscriptions stay as they are. *)
Theorem worker_fans_out `{GoRuntime} `{Extern} (p : ptr) (v : Publish) (s : Server) (a : table)
    (Hp : srv_heap s !! p = Some v) (Hdel : deletes_retained v = false)
    (Hd : discards s) (Hmu : mu (srv_subs s) = false)
    (Hopen : Forall open_if_alive (srv_conns s))
    (Hwf : subs_wf (srv_subs s)) (Href : refines (srv_subs s) a)
    (Hval : Forall (fun c => c < length (srv_conns s)) (table_receivers (TopicName v) a)) :
  exists s', exec (run_post p) s = Returned s' Continue /\
    (forall c k, srv_conns s !! c = Some k -> chan_wf (jobs k) ->
       exists k', srv_conns s' !! c = Some k' /\ alive k' = alive k /\
         ch_buf (jobs k') = ch_buf (jobs k) ++
           replicate (if alive k
                      then Nat.min (count c (table_receivers (TopicName v) a))
                             (ch_cap (jobs k) - length (ch_buf (jobs k)))
                      else 0) (Job (MPublish p) None)) /\
    srv_heap s' !! p = Some (set_Retain false v) /\
    retain (srv_subs s') =
      (if Retain (PubHeader v)
       then <[TopicName v := set_Retain true v]> (retain (srv_subs s)) else retain (srv_subs s)) /\
    refines (srv_subs s') a.
Proof.
  rewrite (exec_run_post p v s a) by done. eexists. split; [reflexivity|].
  destruct (subscribers_spec (TopicName v) _ _ Hwf Href) as (_ & Hr & _ & _).
  repeat split.
  - intros c k Hk Hch. cbn [srv_conns set_subs set_conns]. rewrite offer_all_lookup, Hk.
    eexists. split; [reflexivity|].
    by destruct (iter_offer (MPublish p) (count c (table_receivers (TopicName v) a)) k Hch)
      as (? & _ & ?).
  - by apply heap_alter.
  - cbn [srv_subs set_subs]. destruct (Retain (PubHeader v)); [|done]. by destruct v as [[]].
  - intros t. cbn [srv_subs set_subs]. destruct (Retain (PubHeader v)); apply Hr.
  - cbn [srv_subs set_subs]. destruct (Retain (PubHeader v)); apply Hr.
Qed.

(** The discarding session of the small server, subscribed twice to a topic and
    about to deliver a publication of it. *)
Module Demo2.
Definition subscribed : Server := Eval vm_compute in
  let s := Demo.session_discard in
  let t := add "t/#" 0 (add "t/x" 0 (srv_subs s)) in
  set_heap [Demo.publish_msg "t/x" QosAtLeastOnce true 7 "hello";
            Demo.publish_msg "t/x" QosAtLeastOnce true 8 ""] (set_subs t s).

(** The session with its CONNACK sent. *)
Definition drained : Server := Eval vm_compute in
  Demo.ok_state (exec (outbound_job 0 true) Demo.session_block) Demo.session_block.

(** The session with a QoS 1 publication in its queue. *)
Definition publication_queued : Server := Eval vm_compute in
  let s := set_heap [Demo.publish_msg "t" QosAtLeastOnce false 7 "x"] drained in
  Demo.ok_state (exec (submit 0 (MPublish 0)) s) s.

(** The client left, its store holds an outbound publication it was sent, and a new
    connection, number 1, was accepted. *)
Definition sent_publication : Publish := Demo.publish_msg "t" QosAtLeastOnce false 5 "x".
Definition sent_store : MemoryStore (Message ptr) := MkMemoryStore {["o.5" := MPublish 0]} false.
Definition resumable : Server := Eval vm_compute in
  let s := Demo.ok_state (exec accept drained) drained in
  set_heap [sent_publication]
    (set_clients ∅ (set_stores (Registry {["c0" := 0]} [sent_store]) s)).
Definition resume : Connect :=
  Build_Connect protocolName protocolVersion "c0" false 0 false false "" "" false.

Lemma sent_store_valid : store_valid [sent_publication] sent_store.
Proof.
  intros key m Hm. unfold sent_store in Hm. cbn [ms_messages] in Hm.
  rewrite lookup_singleton in Hm. case_decide; simplify_eq. split; [done|].
  intros p [= <-]. simpl. lia.
Qed.

Definition subscribed_table : table := table_add "t/#" 0 (table_add "t/x" 0 table_empty).

Lemma subscribed_wf : subs_wf (srv_subs subscribed) /\ refines (srv_subs subscribed) subscribed_table.
Proof.
  change (srv_subs subscribed) with (add "t/#" 0 (add "t/x" 0 (newSubscriptions 3))).
  split.
  - apply add_wf, add_wf, newSubscriptions_wf.
  - apply add_refines; [apply add_wf, newSubscriptions_wf|].
    apply add_refines; [apply newSubscriptions_wf|apply newSubscriptions_refines].
Qed.
End Demo2.

Lemma worker_fans_out_witness :
  let s := Demo2.subscribed in
  exists s' k', exec (run_post 0) s = Returned s' Continue /\ srv_conns s' !! 0 = Some k' /\
    ch_buf (jobs k') = [Job (MConnAck RetCodeAccepted) None; Job (MPublish 0) None;
                        Job (MPublish 0) None].
Proof.
  intros s. destruct Demo2.subscribed_wf as [Hwf Href].
  destruct (worker_fans_out 0 (Demo.publish_msg "t/x" QosAtLeastOnce true 7 "hello") s
    Demo2.subscribed_table eq_refl eq_refl) as (s' & E & Hdel & _); try done.
  - by repeat constructor.
  - by repeat constructor.
  - destruct (Hdel 0 _ eq_refl) as (k' & Hk & _ & Hb); [vm_compute; lia|].
    exists s', k'. split; [exact E|]. split; [exact Hk|exact Hb].
Defined.

(** A retained publication without payload ends the worker that takes it.
    The retained message of the topic is deleted, no subscriber is sent the
    publication, and the worker leaves its loop: it serves no further post. *)
Theorem empty_retained_ends_worker `{GoRuntime} `{Extern} (p : ptr) (v : Publish) (s : Server)
    (Hp : srv_heap s !! p = Some v) (Hdel : deletes_retained v = true)
    (Hmu : mu (srv_subs s) = false) :
  exec (run_post p) s =
  Returned (set_subs (delete_retain (TopicName v) (srv_subs s))
             (set_heap (alter (set_Retain false) p (srv_heap s)) s)) Return.
Proof.
  unfold run_post. rewrite exec_bind, (exec_read_pub _ _ _ Hp), exec_bind, exec_modify.
  fold (deletes_retained v). rewrite Hdel. by rewrite exec_bind, exec_critical_.
Qed.

Lemma empty_retained_ends_worker_witness :
  let s := Demo2.subscribed in
  exists s', exec (run_post 1) s = Returned s' Return /\ srv_conns s' = srv_conns s.
Proof.
  intros s. eexists. split.
  - exact (empty_retained_ends_worker 1 (Demo.publish_msg "t/x" QosAtLeastOnce true 8 "") s
             eq_refl eq_refl eq_refl).
  - reflexivity.
Defined.

(** C20: PUBLISH on a connected session whose queues have room, with peers that
    neither block nor panic, running alone: the handler returns to the loop, and the
    whole state after it is known.  The message is in memory at a new pointer, which is
    posted to the subscription workers after the posts already there and offered to
    every peer; a QoS 1 message is recorded in the store of the client under the key
    [i.<message id>] and its PUBACK is queued, while any other message changes neither
    the store nor the queue; the message and its bytes are counted, the time of the
    last operation is now, the rate limiter has poured one unit, and the session is
    stopped and counted as aborted exactly when the limiter refuses; the message goes
    out all the same.  The other connections and everything else are unchanged. *)
Theorem publish_accepted `{GoRuntime} `{Extern} (c : conn_ptr) (v : Publish) (s : Server)
    (k : incomingConn) (sp : nat) (st : MemoryStore (Message ptr))
    (Hk : srv_conns s !! c = Some k) (Hf : flag k <> None) (Ha : alive k = true)
    (Hroom : has_room k) (Hsp : store k = Some sp)
    (Hst : store_heap (srv_stores s) !! sp = Some st) (Hpost : post_room s)
    (Hn : forall h e, srv_nodes s !! h = Some e -> ep_ready e) (Hs : stopChan k = false) :
  let p := length (srv_heap s) in
  let qos1 := bool_decide (Qos (PubHeader v) = QosAtLeastOnce) in
  let pour := Pour (leakyBucket k) (srv_clock s) 1%Z in
  let acks := if qos1 then [Job (MPubAck QosAtMostOnce (MessageId v)) None] else [] in
  let counted := add_inBytes (wrap64 (msg_Bytes (MPublish v))) (add_recv 1 (srv_stats s)) in
  exists s' k' st', exec (inbound_msg c (MPublish v)) s = Returned s' Continue /\
    srv_heap s' = srv_heap s ++ [v] /\
    srv_subs s' = push_post p (srv_subs s) /\
    srv_nodes s' = offer_ep (MPublish p) <$> srv_nodes s /\
    clientStores (srv_stores s') = clientStores (srv_stores s) /\
    store_heap (srv_stores s') = <[sp := st']> (store_heap (srv_stores s)) /\
    ms_messages st' = (if qos1 then <["i." +:+ Itoa (MessageId v) := MPublish p]> (ms_messages st)
                       else ms_messages st) /\ ms_opened st' = ms_opened st /\
    srv_conns s' = <[c := k']> (srv_conns s) /\
    k' = set_jobs (Chan (ch_buf (jobs k) ++ acks) (ch_cap (jobs k)) false)
           (set_lastOpTime (srv_clock s)
             (set_leakyBucket pour.2 (set_stopChan (negb pour.1) k))) /\
    srv_stats s' = (if pour.1 then counted else add_aborts 1 counted) /\
    srv_cf s' = srv_cf s /\ srv_clients s' = srv_clients s /\ srv_receipts s' = srv_receipts s /\
    srv_redis s' = srv_redis s /\ srv_gos s' = srv_gos s /\ srv_clock s' = srv_clock s.
Proof.
  intros p qos1 pour acks counted. rewrite (exec_inbound_publish _ _ _ _ Hk).
  pose proof (received_conn c (MPublish v) k s Hk) as Hk1.
  set (k1 := set_lastOpTime (srv_clock s) k) in *. set (s1 := received c (MPublish v) k s) in *.
  assert (srv_heap s1 !! p = Some v) as Hp by apply last_snoc_lookup.
  rewrite exec_bind, (exec_publish_body c p v s1 k1 sp st) by done. cbv zeta.
  destruct (limited_received c v s k Hs) as (E1 & E2). fold s1 k1 in E1, E2.
  change (srv_clock s1) with (srv_clock s). rewrite E1, E2. clear E1 E2.
  fold pour. fold counted. destruct Hroom as [Hopen _].
  assert (forall b, set_jobs (Chan (ch_buf (jobs k) ++ []) (ch_cap (jobs k)) false) b = set_jobs (jobs k) b)
    as Hjobs by (intros b; rewrite app_nil_r, <- Hopen; by destruct (jobs k)).
  unfold acks, qos1, persist_inbound, persist_inbound_call.
  destruct (decide _) as [Hq|Hq]; [rewrite bool_decide_true by done|rewrite bool_decide_false by done];
    cbn [run_call]; eexists _, _, _; (split; [reflexivity|]); do 7 (split; [done|]);
    cbn [srv_conns put_conn set_conns set_nodes set_subs set_stores set_stats set_heap];
    rewrite ?list_insert_insert_eq; (split; [done|]); (split; [|done]); rewrite ?Hjobs; by destruct k.
Qed.

Lemma publish_accepted_witness :
  let s := Demo.session_block in
  exists s' k' st', exec (inbound_msg 0 (MPublish (Demo.publish_msg "t" QosAtLeastOnce false 5 "x"))) s =
                Returned s' Continue /\
    ch_buf (posts (srv_subs s')) = [0] /\
    srv_conns s' = <[0 := k']> (srv_conns s) /\
    ch_buf (jobs k') = [Job (MConnAck RetCodeAccepted) None; Job (MPubAck QosAtMostOnce 5) None] /\
    lastOpTime k' = 1000%Z /\ ms_messages st' !! "i.5" = Some (MPublish 0).
Proof.
  intros s.
  destruct (publish_accepted 0 (Demo.publish_msg "t" QosAtLeastOnce false 5 "x") s _ 0
              (MkMemoryStore ∅ false) eq_refl)
    as (s' & k' & st' & E & _ & Hsub & _ & _ & _ & Hm & _ & Hc & Hk & _); try done.
  - split; [reflexivity|vm_compute; lia].
  - split; [reflexivity|vm_compute; lia].
  - exists s', k', st'. split; [exact E|]. split; [rewrite Hsub; reflexivity|]. split; [exact Hc|].
    rewrite Hk, Hm. repeat split; reflexivity.
Defined.

(** C22: one turn of [outboundLoop] on a queue with a message, for a connection
    with a store, running alone; the whole state after it is known.  The message leaves
    the queue; an outbound QoS 1 publication is recorded in the store under the key
    [o.<message id>], a PUBACK deletes the record under [i.<message id>], every other
    record is kept and no other message changes the store; the receipt is closed.  If
    the network takes the message, it is the next one on the wire, it and its bytes are
    counted, the time of the last operation is now, and the loop goes on unless it was
    a DISCONNECT; otherwise nothing is sent or counted and the loop ends.  The other
    connections and everything else are unchanged. *)
Theorem outbound_turn `{GoRuntime} `{Extern} (c : conn_ptr) (sent : bool) (j : job)
    (rest : list job) (v : Message Publish) (s : Server) (k : incomingConn) (sp : nat)
    (st : MemoryStore (Message ptr))
    (Hk : srv_conns s !! c = Some k) (Hb : ch_buf (jobs k) = j :: rest)
    (Hv : view (srv_heap s) (job_m j) = Some v)
    (Hsp : store k = Some sp) (Hst : store_heap (srv_stores s) !! sp = Some st)
    (Hr : forall x, job_r j = Some x -> srv_receipts s !! x = Some false) :
  let k1 := set_jobs (Chan rest (ch_cap (jobs k)) (ch_closed (jobs k))) k in
  exists s' fl st', exec (outbound_job c sent) s = Returned s' fl /\
    (fl = Continue <-> sent = true /\ v <> MDisconnect) /\
    srv_conns s' = <[c := if sent then set_lastOpTime (srv_clock s) (set_wire (wire k ++ [v]) k1)
                          else k1]> (srv_conns s) /\
    clientStores (srv_stores s') = clientStores (srv_stores s) /\
    store_heap (srv_stores s') = <[sp := st']> (store_heap (srv_stores s)) /\
    ms_opened st' = ms_opened st /\
    (forall key : string, ms_messages st' !! key =
       match v with
       | MPublish u => if bool_decide (Qos (PubHeader u) = QosAtLeastOnce /\ key = "o." +:+ Itoa (MessageId u))
                       then Some (job_m j) else ms_messages st !! key
       | MPubAck _ mid => if bool_decide (key = "i." +:+ Itoa mid) then None else ms_messages st !! key
       | _ => ms_messages st !! key
       end) /\
    srv_receipts s' = (match job_r j with Some x => <[x := true]> (srv_receipts s)
                                        | None => srv_receipts s end) /\
    srv_stats s' = (if sent then add_outBytes (wrap64 (msg_Bytes v)) (add_sent 1 (srv_stats s))
                    else srv_stats s) /\
    srv_subs s' = srv_subs s /\ srv_heap s' = srv_heap s /\ srv_clients s' = srv_clients s /\
    srv_cf s' = srv_cf s /\ srv_nodes s' = srv_nodes s /\ srv_redis s' = srv_redis s /\
    srv_gos s' = srv_gos s /\ srv_clock s' = srv_clock s.
Proof.
  intros k1. assert (forall x, job_r j = Some x -> srv_receipts s !! x <> Some true) as Hr'.
  { intros x Hx. rewrite (Hr x Hx). done. }
  assert (match job_m j with MDisconnect => Return | _ => Continue end = Continue <-> v <> MDisconnect)
    as Hfl by by eapply outbound_flow.
  destruct sent; [rewrite (exec_outbound_sent c j rest v s k sp st) by done
                 |rewrite (exec_outbound_failed c j rest v s k sp st) by done];
    eexists _, _, (persist_outbound st v (job_m j)); (split; [reflexivity|]).
  - split; [rewrite Hfl; tauto|]. do 3 (split; [done|]). split; [apply persist_outbound_opened|].
    split; [apply persist_outbound_lookup|]. done.
  - split; [split; [done|by intros []]|]. do 3 (split; [done|]). split; [apply persist_outbound_opened|].
    split; [apply persist_outbound_lookup|]. done.
Qed.

Lemma outbound_turn_witness :
  let s := Demo2.publication_queued in
  exists s' fl st', exec (outbound_job 0 true) s = Returned s' fl /\
    store_heap (srv_stores s') = [st'] /\ ms_messages st' !! "o.7" = Some (MPublish 0).
Proof.
  intros s.
  destruct (outbound_turn 0 true (Job (MPublish 0) None) [] (MPublish (Demo.publish_msg "t" QosAtLeastOnce false 7 "x"))
    s _ 0 (MkMemoryStore ∅ false) eq_refl eq_refl eq_refl eq_refl eq_refl)
    as (s' & fl & st' & E & _ & _ & _ & Hh & _ & Hm & _).
  - intros x Hx. discriminate.
  - exists s', fl, st'. split; [exact E|]. split; [exact Hh|]. rewrite Hm. reflexivity.
Defined.

(** C16: a QoS 1 publication is acknowledged and its record removed.  A connected
    session with an empty queue and no inbound record for the message id receives
    the publication, and its outbound loop then takes one turn: the PUBACK with the
    id of the message is on the wire, the publication is posted, the queue is empty
    again and the store of the client holds what it held before. *)
Theorem qos1_publication_acknowledged `{GoRuntime} `{Extern} (c : conn_ptr) (v : Publish)
    (s : Server) (k : incomingConn) (sp : nat) (st : MemoryStore (Message ptr))
    (Hk : srv_conns s !! c = Some k) (Hf : flag k <> None) (Ha : alive k = true)
    (Hroom : has_room k) (Hempty : ch_buf (jobs k) = [])
    (Hsp : store k = Some sp) (Hst : store_heap (srv_stores s) !! sp = Some st)
    (Hnew : Get (ibound_mid2key (MessageId v)) st = None) (Hpost : post_room s)
    (Hn : forall h e, srv_nodes s !! h = Some e -> ep_ready e) (Hs : stopChan k = false)
    (Hq : Qos (PubHeader v) = QosAtLeastOnce) :
  exists s1 s2 k2,
    exec (inbound_msg c (MPublish v)) s = Returned s1 Continue /\
    exec (outbound_job c true) s1 = Returned s2 Continue /\
    ch_buf (posts (srv_subs s2)) = ch_buf (posts (srv_subs s)) ++ [length (srv_heap s)] /\
    srv_conns s2 !! c = Some k2 /\ ch_buf (jobs k2) = [] /\
    wire k2 = wire k ++ [MPubAck QosAtMostOnce (MessageId v)] /\
    exists st', store_heap (srv_stores s2) !! sp = Some st' /\ ms_messages st' = ms_messages st.
Proof.
  rewrite (exec_inbound_publish _ _ _ _ Hk).
  pose proof (received_conn c (MPublish v) k s Hk) as Hk1.
  set (k1 := set_lastOpTime (srv_clock s) k) in *. set (s1 := received c (MPublish v) k s) in *.
  assert (srv_heap s1 !! length (srv_heap s) = Some v) as Hp by apply last_snoc_lookup.
  rewrite exec_bind, (exec_publish_body c (length (srv_heap s)) v s1 k1 sp st) by done. cbv zeta.
  pose proof (limited_lookup c s1 k1 Hk1) as Hk2.
  assert (sp < length (store_heap (srv_stores s))) as Hlt by (by eapply lookup_lt_Some).
  assert (store_heap (srv_stores (limited c k1 s1)) = store_heap (srv_stores s) /\
          srv_subs (limited c k1 s1) = srv_subs s) as [Hsto Hsub]
    by (unfold limited; by case_goal).
  destruct (limited_conn_fields (srv_clock s1) k1) as (_ & Hj & Hs2).
  set (k2 := limited_conn (srv_clock s1) k1) in *.
  change (jobs k1) with (jobs k) in Hj. change (store k1) with (store k) in Hs2.
  assert (wire k2 = wire k) as Hw by (unfold k2, limited_conn; by case_goal).
  rewrite decide_True by done. unfold persist_inbound, persist_inbound_call.
  rewrite decide_True by done. cbn [run_call].
  set (k3 := push_job _ k2). set (s2 := put_conn c k3 _).
  assert (srv_conns s2 !! c = Some k3) as Hk3 by (by eapply put_conn_eq).
  exists s2. erewrite (exec_outbound_sent c (Job (MPubAck QosAtMostOnce (MessageId v)) None) []
    (MPubAck QosAtMostOnce (MessageId v)) s2 k3 sp (Put (ibound_mid2key (MessageId v)) (MPublish (length (srv_heap s))) st));
    [|done|cbn [jobs push_job set_jobs ch_buf k3]; by rewrite Hj, Hempty
     |done|cbn [store k3 push_job set_jobs]; by rewrite Hs2| |done].
  - eexists _, _. split; [done|]. split; [reflexivity|].
    split; [cbn -[limited]; by rewrite Hsub|]. split; [apply (put_conn_eq c k3); exact Hk3|].
    split; [done|]. split; [cbn -[limited]; by rewrite Hw|].
    eexists. split; [apply list_lookup_insert_eq|].
    + cbn -[limited]. by rewrite length_insert, Hsto.
    + simpl. rewrite delete_insert_eq, delete_id; done.
  - cbn -[limited]. rewrite Hsto. by apply list_lookup_insert_eq.
Qed.

Lemma qos1_publication_acknowledged_witness :
  let s := Demo2.drained in
  exists s1 s2 k2,
    exec (inbound_msg 0 (MPublish (Demo.publish_msg "t" QosAtLeastOnce false 5 "x"))) s =
      Returned s1 Continue /\
    exec (outbound_job 0 true) s1 = Returned s2 Continue /\
    srv_conns s2 !! 0 = Some k2 /\
    wire k2 = [MConnAck RetCodeAccepted; MPubAck QosAtMostOnce 5].
Proof.
  intros s.
  destruct (qos1_publication_acknowledged 0 (Demo.publish_msg "t" QosAtLeastOnce false 5 "x") s _ 0
              (MkMemoryStore ∅ false) eq_refl)
    as (s1 & s2 & k2 & E1 & E2 & _ & Hk & _ & Hw & _); try done.
  - split; [reflexivity|vm_compute; lia].
  - split; [reflexivity|vm_compute; lia].
  - exists s1, s2, k2. split; [exact E1|]. split; [exact E2|]. split; [exact Hk|exact Hw].
Defined.

(** C23: CONNECT without a clean session, on a free client id whose store exists,
    running alone with room in the queue: the session is sent exactly the stored
    messages of QoS 1, in the order the map iteration gives, and then the CONNACK;
    the store is untouched. *)
Theorem resumed_session_redelivers `{GoRuntime} `{Extern} (c : conn_ptr) (m : Connect) (s : Server)
    (k : incomingConn) (sp : nat) (st : MemoryStore (Message ptr))
    (Hk : srv_conns s !! c = Some k) (Ha : alive k = true) (Hc : ch_closed (jobs k) = false)
    (Hfree : srv_clients s !! ClientId m = None) (Hclean : CleanSession m = false)
    (Hreg : clientStores (srv_stores s) !! ClientId m = Some sp)
    (Hst : store_heap (srv_stores s) !! sp = Some st) (Hval : store_valid (srv_heap s) st)
    (Hlen : length (ch_buf (jobs k)) + length (All st) + 1 <= ch_cap (jobs k)) :
  exists s' k' ms rc, exec (doConnect c m) s = Returned s' rc /\
    (rc = RetCodeAccepted <-> connect_acceptable (Broker (srv_cf s)) (Clients (srv_stats s)) m) /\
    srv_conns s' !! c = Some k' /\
    ch_buf (jobs k') = ch_buf (jobs k) ++ ((fun m => Job m None) <$> ms) ++ [Job (MConnAck rc) None] /\
    (forall x, x ∈ ms <-> exists key, Get key st = Some x /\ redelivers (srv_heap s) x = true) /\
    srv_stores s' = srv_stores s.
Proof.
  destruct (exec_doConnect_resume c m s k sp st Hk Ha Hc Hfree Hclean Hreg Hst Hval Hlen)
    as (s' & k' & E & Hk' & Hb & Hs).
  exists s', k', (redelivered (srv_heap s) st),
    (connect_rc (Broker (srv_cf s)) (Clients (srv_stats s)) m). split; [exact E|].
  split; [apply connect_rc_accepted|]. split; [done|]. split; [by rewrite Hb, fmap_app|].
  split; [|done]. intros x. unfold redelivered. rewrite list_elem_of_omap. split.
  - intros (key & _ & Hx). exists key. destruct (Get key st) as [y|]; [|done].
    destruct (redelivers _ y) eqn:E'; by simplify_eq.
  - intros (key & Hg & Hx). exists key. rewrite Hg, Hx. split; [|done].
    apply MemoryStore_All_elem. by exists x.
Qed.

Lemma resumed_session_redelivers_witness :
  let s := Demo2.resumable in
  exists s' k' ms rc, exec (doConnect 1 Demo2.resume) s = Returned s' rc /\
    srv_conns s' !! 1 = Some k' /\
    ch_buf (jobs k') = ((fun m => Job m None) <$> ms) ++ [Job (MConnAck rc) None] /\ MPublish 0 ∈ ms.
Proof.
  intros s.
  destruct (resumed_session_redelivers 1 Demo2.resume s _ 0 Demo2.sent_store eq_refl eq_refl eq_refl
    eq_refl eq_refl eq_refl eq_refl Demo2.sent_store_valid)
    as (s' & k' & ms & rc & E & _ & Hk & Hb & Hms & _).
  - vm_compute. lia.
  - exists s', k', ms, rc. split; [exact E|]. split; [exact Hk|]. split; [exact Hb|].
    apply Hms. exists "o.5". split; reflexivity.
Defined.

(** C24: an acknowledged publication is delivered again.  A QoS 1 publication is in
    the store under its outbound key; the subscriber acknowledges it on connection
    [c], which goes on as if nothing had come; when the client resumes its session
    on connection [c'], the publication is queued for it again, although it was
    acknowledged. *)
Theorem acknowledged_publication_redelivered `{GoRuntime} `{Extern} (c c' : conn_ptr) (q : QosLevel)
    (m : Connect) (p : ptr) (v : Publish) (s : Server) (k k' : incomingConn) (sp : nat)
    (st : MemoryStore (Message ptr))
    (Hk : srv_conns s !! c = Some k) (Hk' : srv_conns s !! c' = Some k') (Hcc : c <> c')
    (Hp : srv_heap s !! p = Some v) (Hq : Qos (PubHeader v) = QosAtLeastOnce)
    (Hget : Get (obound_mid2key (MessageId v)) st = Some (MPublish p))
    (Ha : alive k' = true) (Hc : ch_closed (jobs k') = false)
    (Hfree : srv_clients s !! ClientId m = None) (Hclean : CleanSession m = false)
    (Hreg : clientStores (srv_stores s) !! ClientId m = Some sp)
    (Hst : store_heap (srv_stores s) !! sp = Some st) (Hval : store_valid (srv_heap s) st)
    (Hlen : length (ch_buf (jobs k')) + length (All st) + 1 <= ch_cap (jobs k')) :
  exists s1 s2 k2 rc,
    exec (inbound_msg c (MPubAck q (MessageId v))) s = Returned s1 Continue /\
    exec (doConnect c' m) s1 = Returned s2 rc /\
    srv_conns s2 !! c' = Some k2 /\ Job (MPublish p) None ∈ ch_buf (jobs k2).
Proof.
  rewrite (exec_inbound_puback _ _ _ _ _ Hk).
  set (s1 := received c (MPubAck q (MessageId v)) k s).
  destruct (exec_doConnect_resume c' m s1 k' sp st) as (s2 & k2 & E & Hk2 & Hb & _); try done.
  { unfold s1, received. by rewrite put_conn_ne. }
  exists s1, s2, k2, (connect_rc (Broker (srv_cf s1)) (Clients (srv_stats s1)) m).
  split; [done|]. split; [done|]. split; [done|]. rewrite Hb.
  apply elem_of_app. right. rewrite fmap_app. apply elem_of_app. left.
  apply list_elem_of_fmap. exists (MPublish p). split; [done|].
  unfold redelivered. apply list_elem_of_omap. exists (obound_mid2key (MessageId v)). split.
  - apply MemoryStore_All_elem. by exists (MPublish p).
  - rewrite Hget. cbn [redelivers]. change (srv_heap s1) with (srv_heap s).
    by rewrite Hp, bool_decide_true.
Qed.

Lemma acknowledged_publication_redelivered_witness :
  let s := Demo2.resumable in
  exists s1 s2 k2 rc, exec (inbound_msg 0 (MPubAck QosAtMostOnce 5)) s = Returned s1 Continue /\
    exec (doConnect 1 Demo2.resume) s1 = Returned s2 rc /\
    srv_conns s2 !! 1 = Some k2 /\ Job (MPublish 0) None ∈ ch_buf (jobs k2).
Proof.
  intros s.
  apply (acknowledged_publication_redelivered 0 1 QosAtMostOnce Demo2.resume 0 Demo2.sent_publication
    s _ _ 0 Demo2.sent_store eq_refl eq_refl (Nat.neq_0_succ 0) eq_refl eq_refl eq_refl eq_refl eq_refl
    eq_refl eq_refl eq_refl eq_refl Demo2.sent_store_valid).
  vm_compute. lia.
Defined.
