(* ===== verification/Lifecycle.v ===== *)
(** * The end of a session, unsubscription and idle clients
      (src/broker: session.go, proto.go, subs.go)

    What the deferred functions of the two loops of a session do, how an
    UNSUBSCRIBE is counted, and when the heartbeat kicks a client out. *)

From Stdlib Require Import ZArith Lia.
From stdpp Require Import base gmap list strings numbers sets.
From S2P Require Import Prelude GoString GoProc GoSlice Wild Config Proto Store Stats Subs Broker.
From S2P Require Import Session SessionFacts.

Local Open Scope string_scope.
Local Open Scope list_scope.

Section Lifecycle.
Context `{GoRuntime} `{Extern}.
Implicit Types (s : Server) (k : incomingConn) (c : conn_ptr).

(** ** The deferred functions *)

(** The store of the registry that [inbound_defer] closes, if any. *)
Definition closed_stores k (r : registry (MemoryStore (Message ptr)))
    : registry (MemoryStore (Message ptr)) :=
  match store k with
  | Some p => match store_heap r !! p with
              | Some st => Registry (clientStores r) (<[p := Close st]> (store_heap r))
              | None => r
              end
  | None => r
  end.

(** Every store pointer is in the registry. *)
Definition store_known k s : Prop :=
  forall p, store k = Some p -> is_Some (store_heap (srv_stores s) !! p).

Lemma exec_close_store c s k :
  srv_conns s !! c = Some k -> store_known k s ->
  exec (match store k with
        | Some _ => on_store c (fun st => (Close st, tt))
        | None => Ret tt
        end) s = Returned (set_stores (closed_stores k (srv_stores s)) s) tt.
Proof.
  intros Hk Hst. unfold closed_stores. destruct (store k) as [p|] eqn:Hp.
  - destruct (Hst p Hp) as [st Hs]. by rewrite (exec_on_store _ _ _ _ _ _ Hk Hp Hs), Hs.
  - by destruct s.
Qed.

(** The state when [onTerminate] starts. *)
Definition inbound_ended (c : conn_ptr) k s : Server :=
  put_conn c (set_jobs (Chan (ch_buf (jobs k)) (ch_cap (jobs k)) true) (set_alive false k))
    (set_stores (closed_stores k (srv_stores s)) (set_stats (clientDisconnect (srv_stats s)) s)).

Lemma exec_inbound_defer c s k :
  srv_conns s !! c = Some k -> store_known k s -> ch_closed (jobs k) = false ->
  exec (inbound_defer c) s = exec (onTerminate c) (inbound_ended c k s).
Proof.
  intros Hk Hst Hc. unfold inbound_defer.
  rewrite exec_bind, exec_do_stats, exec_bind, (exec_read_conn _ _ _ k) by done.
  rewrite exec_bind, (exec_close_store _ _ k) by done.
  rewrite exec_bind, (exec_write_conn _ _ _ k) by done.
  rewrite exec_bind, (exec_on_conn _ _ _ (set_alive false k)) by (by apply (put_conn_eq c k)).
  unfold on_jobs, ch_close. cbn [jobs set_alive]. rewrite Hc.
  f_equal. unfold inbound_ended. flatten s. by rewrite list_insert_insert_eq.
Qed.

Lemma inbound_ended_conn c k s :
  srv_conns s !! c = Some k ->
  srv_conns (inbound_ended c k s) !! c =
  Some (set_jobs (Chan (ch_buf (jobs k)) (ch_cap (jobs k)) true) (set_alive false k)).
Proof. intros Hk. by apply (put_conn_eq c k). Qed.

(** The presence commands sent when a session ends. *)
Definition checkout_cmds (b : BrokerConfig) (username : string) : list redis_cmd :=
  if EnablePresence b && negb (username =s "")
  then [RedisDel (PRESENCE_KEY_PREFIX +:+ username)] else [].

Lemma exec_onTerminate c s k m :
  srv_conns s !! c = Some k -> flag k = Some m ->
  exec (onTerminate c) s =
  Returned (set_redis (srv_redis s ++ checkout_cmds (Broker (srv_cf s)) (Username m)) s) tt.
Proof.
  intros Hk Hf. unfold onTerminate, checkout_cmds. rewrite exec_bind, exec_reads.
  destruct (EnablePresence _); cbn [negb andb]; [|rewrite app_nil_r; by destruct s].
  rewrite exec_bind, (exec_flag_username _ _ _ Hk), Hf.
  destruct (Username m =s ""); cbn [negb]; [rewrite app_nil_r; by destruct s|].
  rewrite exec_bind, (exec_read_conn _ _ _ _ Hk). unfold connected. by rewrite Hf.
Qed.

Lemma exec_del_client c s k m :
  srv_conns s !! c = Some k -> flag k = Some m ->
  exec (del_client c) s = Returned (set_clients (delete (ClientId m) (srv_clients s)) s) tt.
Proof. intros Hk Hf. unfold del_client. by rewrite exec_atomic, Hk, Hf. Qed.

Lemma exec_outbound_defer c s k m :
  srv_conns s !! c = Some k -> flag k = Some m -> heartbeatStop k = false ->
  mu (srv_subs s) = false ->
  exec (outbound_defer c) s =
  Returned (put_conn c (set_netClosed true (set_heartbeatStop true k))
             (set_subs (unsubAll c (srv_subs s))
               (set_clients (delete (ClientId m) (srv_clients s)) s))) tt.
Proof.
  intros Hk Hf Hh Hm. unfold outbound_defer.
  rewrite exec_bind, (exec_on_conn _ _ _ _ Hk), Hh.
  rewrite exec_bind, (exec_write_conn _ _ _ (set_heartbeatStop true k)) by (by apply (put_conn_eq c k)).
  rewrite exec_bind, (exec_del_client _ _ (set_netClosed true (set_heartbeatStop true k)) m);
    [|apply put_conn_eq with (set_heartbeatStop true k); by apply (put_conn_eq c k)|done].
  rewrite exec_critical_ by done. f_equal. flatten s. by rewrite list_insert_insert_eq.
Qed.

(** ** UNSUBSCRIBE *)

Definition unsub_all_topics (c : conn_ptr) (ts : list string) (t : subscriptions) : subscriptions :=
  foldl (fun t topic => unsub topic c t) t ts.

Lemma unsub_mu topic c (t : subscriptions) : mu (unsub topic c t) = mu t.
Proof. unfold unsub. by case_goal. Qed.

Lemma exec_unsubscribe_topics c ts s k :
  srv_conns s !! c = Some k -> mu (srv_subs s) = false ->
  (- 2 ^ 63 <= subN k - Z.of_nat (length ts))%Z -> (subN k < 2 ^ 63)%Z ->
  exec (for_each ts (unsubscribe_topic c)) s =
  Returned (set_subs (unsub_all_topics c ts (srv_subs s))
              (put_conn c (set_subN (subN k - Z.of_nat (length ts))%Z k) s)) tt.
Proof.
  revert s k. induction ts as [|t ts IH]; intros s k Hk Hm Hlo Hhi; cbn [length] in Hlo.
  - simpl. rewrite Z.sub_0_r. assert (set_subN (subN k) k = k) as -> by (by destruct k).
    rewrite put_conn_id by done. by destruct s.
  - cbn [for_each]. unfold unsubscribe_topic at 1.
    rewrite exec_bind, exec_bind, (exec_write_conn _ _ _ _ Hk).
    rewrite wrap64_id by (unfold in_int64; lia). set (k1 := set_subN (subN k - 1)%Z k).
    rewrite exec_critical_ by done. rewrite (IH _ k1).
    + f_equal. replace (subN k1 - Z.of_nat (length ts))%Z with (subN k - Z.of_nat (length (t :: ts)))%Z
        by (cbn [subN k1 set_subN length]; lia).
      flatten s. by rewrite list_insert_insert_eq.
    + by apply (put_conn_eq c k).
    + cbn [srv_subs set_subs]. by rewrite unsub_mu.
    + cbn [subN k1 set_subN]. lia.
    + cbn [subN k1 set_subN]. lia.
Qed.

(** Topics nobody is subscribed to: the table stays as it is. *)
Lemma unsub_all_unknown c ts (t : subscriptions) :
  Forall (fun topic => subs t !! topic = None) ts -> unsub_all_topics c ts t = t.
Proof.
  intros Hts. induction Hts as [|topic ts Ht _ IH]; [done|]. cbn [unsub_all_topics foldl].
  unfold unsub at 2. rewrite Ht. exact IH.
Qed.

(** ** Idle clients *)

Lemma idle_deadline_spec last keepAlive :
  (0 <= last)%Z -> (0 <= keepAlive)%Z ->
  idle_deadline last keepAlive = (last + 3 * keepAlive / 2)%Z.
Proof.
  intros Hl Hk. unfold idle_deadline. rewrite Z.quot_div_nonneg by lia.
  rewrite Z.add_comm, (Z.mul_comm 2), Z.div_add by lia. lia.
Qed.

(** The client was idle for more than one and a half keep-alive periods. *)
Definition over_idle (now last keepAlive : Z) : bool := (0 <? now - idle_deadline last keepAlive)%Z.

Lemma exec_heartbeat_tick c keepAlive s k :
  srv_conns s !! c = Some k ->
  exec (heartbeat_tick c keepAlive) s =
  if over_idle (srv_clock s) (lastOpTime k) keepAlive && alive k
  then exec (r <- submitSync c MDisconnect;; wait r;;; do_stats aborted;;; Ret Return) s
  else Returned s Continue.
Proof.
  intros Hk. unfold heartbeat_tick.
  rewrite exec_bind, (exec_read_conn _ _ _ _ Hk), exec_bind, exec_reads.
  rewrite exec_bind, (exec_read_conn _ _ _ _ Hk). fold (over_idle (srv_clock s) (lastOpTime k) keepAlive).
  by destruct (_ && _).
Qed.

Definition kicked (c : conn_ptr) k s : Server :=
  put_conn c (push_job (Job MDisconnect (Some (length (srv_receipts s)))) k)
    (set_receipts (srv_receipts s ++ [false]) s).

Lemma exec_submitSync c s k :
  srv_conns s !! c = Some k -> has_room k ->
  exec (submitSync c MDisconnect) s = Returned (kicked c k s) (length (srv_receipts s)).
Proof.
  intros Hk [Hc Hl]. unfold submitSync. rewrite exec_bind, exec_atomic.
  rewrite exec_bind, (exec_on_conn _ _ _ k) by done.
  unfold on_jobs. by rewrite ch_send_room.
Qed.

Lemma exec_wait_closed r s :
  srv_receipts s !! r = Some true -> exec (wait r) s = Returned s tt.
Proof. intros Hr. unfold wait. by rewrite exec_atomic, decide_True. Qed.

Lemma exec_wait_open r s :
  srv_receipts s !! r <> Some true -> exec (wait r) s = Stuck s (wait r).
Proof. intros Hr. unfold wait. by rewrite exec_atomic, decide_False. Qed.
End Lifecycle.

#[local] Existing Instance doubling_runtime.
#[local] Existing Instance bytes_mqttmsg.
#[local] Existing Instance plain_extern.

(** ** Properties *)

(** A client that leaves before its CONNECT takes the broker down when
    presence is enabled: the deferred function of [inboundLoop] closes the queue
    and then dereferences the nil connection flag. *)
Theorem leave_before_connect_panics `{GoRuntime} `{Extern} (c : conn_ptr) (s : Server)
    (k : incomingConn)
    (Hk : srv_conns s !! c = Some k) (Hf : flag k = None) (Hst : store_known k s)
    (Hc : ch_closed (jobs k) = false) (Hp : EnablePresence (Broker (srv_cf s)) = true) :
  exists s', exec (inbound_defer c) s = Crashed s' NilDeref /\ srv_redis s' = srv_redis s.
Proof.
  rewrite (exec_inbound_defer _ _ _ Hk Hst Hc). unfold onTerminate.
  rewrite exec_bind, exec_reads. cbn [srv_cf inbound_ended put_conn set_conns set_stores set_stats].
  rewrite Hp. cbn [negb].
  rewrite exec_bind, (exec_flag_username _ _ _ (inbound_ended_conn _ _ _ Hk)).
  cbn [flag set_jobs set_alive]. rewrite Hf. by eexists.
Qed.

Lemma leave_before_connect_panics_witness :
  let s := Demo.accepted_conn in
  exists s', exec (inbound_defer 0) s = Crashed s' NilDeref /\ srv_redis s' = [].
Proof.
  intros s. eapply (leave_before_connect_panics 0 s _ eq_refl eq_refl); try reflexivity.
  intros p Hp. discriminate.
Defined.

(** C18: the end of a connected session.  The deferred function of [inboundLoop]
    and then that of [outboundLoop], running alone: the client count drops by one,
    the connection is dead with its queue closed, the network connection and the
    heartbeat are stopped, the client id is free again, the presence key is
    deleted exactly when it was set, the store of the client keeps its messages,
    no subscription of the connection is left and those of the others stay; a
    message submitted to the connection afterwards changes nothing. *)
Theorem session_ends_clean `{GoRuntime} `{Extern} (c : conn_ptr) (s : Server) (k : incomingConn)
    (m : Connect) (a : table)
    (Hk : srv_conns s !! c = Some k) (Hf : flag k = Some m) (Hst : store_known k s)
    (Hc : ch_closed (jobs k) = false) (Hh : heartbeatStop k = false)
    (Hmu : mu (srv_subs s) = false) (Hwf : subs_wf (srv_subs s)) (Href : refines (srv_subs s) a) :
  exists s' k', exec (inbound_defer c;;; outbound_defer c) s = Returned s' tt /\
    srv_conns s' = <[c := k']> (srv_conns s) /\
    alive k' = false /\ ch_closed (jobs k') = true /\ netClosed k' = true /\ heartbeatStop k' = true /\
    srv_clients s' = delete (ClientId m) (srv_clients s) /\
    srv_stats s' = clientDisconnect (srv_stats s) /\
    srv_redis s' = srv_redis s ++ checkout_cmds (Broker (srv_cf s)) (Username m) /\
    clientStores (srv_stores s') = clientStores (srv_stores s) /\
    (forall p, ms_messages <$> store_heap (srv_stores s') !! p =
               ms_messages <$> store_heap (srv_stores s) !! p) /\
    refines (srv_subs s') (table_unsubAll c a) /\
    (forall msg, exec (submit c msg) s' = Returned s' tt).
Proof.
  rewrite exec_bind, (exec_inbound_defer _ _ _ Hk Hst Hc).
  pose proof (inbound_ended_conn c k s Hk) as Hk1.
  set (k1 := set_jobs _ _) in Hk1.
  rewrite (exec_onTerminate _ _ _ _ Hk1 Hf).
  rewrite (exec_outbound_defer _ _ k1 m) by done.
  set (s2 := put_conn c _ _). eexists s2, _. split; [reflexivity|].
  assert (srv_conns s2 !! c = Some (set_netClosed true (set_heartbeatStop true k1))) as Hk2
    by (by apply put_conn_eq with k1).
  split. { unfold s2, inbound_ended. flatten s. by rewrite list_insert_insert_eq. }
  do 4 (split; [done|]). do 3 (split; [done|]).
  assert (srv_stores s2 = closed_stores k (srv_stores s)) as -> by done. unfold closed_stores.
  split; [by repeat case_goal|]. split; [|split].
  - intros p. destruct (store k) as [q|]; [|done].
    destruct (store_heap (srv_stores s) !! q) as [st|] eqn:Eq; [|done].
    cbn [store_heap]. destruct (decide (q = p)) as [->|Hne].
    + rewrite list_lookup_insert_eq by (by eapply lookup_lt_Some). by rewrite Eq.
    + by rewrite list_lookup_insert_ne.
  - by apply unsubAll_refines.
  - intros msg. by eapply exec_submit_dead.
Qed.

Lemma session_ends_clean_witness :
  let s := Demo.session_block in
  exists s' k', exec (inbound_defer 0;;; outbound_defer 0) s = Returned s' tt /\
    srv_conns s' = <[0 := k']> (srv_conns s) /\ alive k' = false /\
    forall msg, exec (submit 0 msg) s' = Returned s' tt.
Proof.
  intros s.
  destruct (session_ends_clean 0 s _ (Demo.connect_msg "c0") table_empty eq_refl eq_refl)
    as (s' & k' & E & Hc & Ha & _ & _ & _ & _ & _ & _ & _ & _ & _ & Hsub).
  - intros p [= <-]. by eexists.
  - reflexivity.
  - reflexivity.
  - reflexivity.
  - exact (newSubscriptions_wf 3).
  - exact (newSubscriptions_refines 3).
  - exists s', k'. split; [exact E|]. split; [exact Hc|]. split; [exact Ha|exact Hsub].
Defined.

(** UNSUBSCRIBE, on a living session with room in its queue, running alone:
    the subscription count drops by the number of topics named, whether the client
    was subscribed to them or not, each topic is dropped from the table for this
    connection, and the UNSUBACK is queued. *)
Theorem unsubscribe_counts_every_topic `{GoRuntime} `{Extern} (c : conn_ptr) (mid : N)
    (ts : list string) (s : Server) (k : incomingConn)
    (Hk : srv_conns s !! c = Some k) (Ha : alive k = true) (Hroom : has_room k)
    (Hmu : mu (srv_subs s) = false)
    (Hlo : (- 2 ^ 63 <= subN k - Z.of_nat (length ts))%Z) (Hhi : (subN k < 2 ^ 63)%Z) :
  exists s' k', exec (inbound_msg c (MUnsubscribe mid ts)) s = Returned s' Continue /\
    srv_conns s' !! c = Some k' /\ subN k' = (subN k - Z.of_nat (length ts))%Z /\
    ch_buf (jobs k') = ch_buf (jobs k) ++ [Job (MUnsubAck mid) None] /\
    srv_subs s' = foldl (fun t topic => unsub topic c t) (srv_subs s) ts /\
    (Forall (fun topic => subs (srv_subs s) !! topic = None) ts -> srv_subs s' = srv_subs s).
Proof.
  unfold inbound_msg. cbn [alloc_msg bind]. rewrite (exec_prologue _ _ k) by done.
  set (s1 := received c _ k s). pose proof (received_conn c (MUnsubscribe mid ts) k s Hk) as Hk1.
  fold s1 in Hk1. rewrite exec_bind. unfold doUnsubscribe.
  rewrite exec_bind, (exec_unsubscribe_topics _ _ _ _ Hk1) by done.
  set (k2 := set_subN _ _).
  rewrite (exec_submit_room _ _ _ k2); [|by eapply (put_conn_eq c)|done|done].
  eexists _, _. split; [reflexivity|].
  split; [eapply put_conn_eq; by eapply (put_conn_eq c)|]. do 3 (split; [done|]).
  apply unsub_all_unknown.
Qed.

Lemma unsubscribe_counts_every_topic_witness :
  let s := Demo.session_block in
  exists s' k', exec (inbound_msg 0 (MUnsubscribe 3 ["no"; "such"])) s = Returned s' Continue /\
    srv_conns s' !! 0 = Some k' /\ subN k' = (-2)%Z.
Proof.
  intros s.
  destruct (unsubscribe_counts_every_topic 0 3 ["no"; "such"] s _ eq_refl eq_refl)
    as (s' & k' & E & Hk & Hn & _).
  - split; [reflexivity|vm_compute; lia].
  - reflexivity.
  - vm_compute. discriminate.
  - vm_compute. reflexivity.
  - exists s', k'. split; [exact E|]. split; [exact Hk|exact Hn].
Defined.

(** A tick of the heartbeat: a client that is dead or whose last operation
    is at most one and a half keep-alive periods old is left alone.  Otherwise a
    DISCONNECT with a new receipt is queued and the heartbeat waits for it to be
    sent; in every state where the receipt is closed it counts the session as
    aborted and ends. *)
Lemma exec_heartbeat_once `{GoRuntime} `{Extern} (c : conn_ptr) (keepAlive : Z)
    (s : Server) (k : incomingConn)
    (Hk : srv_conns s !! c = Some k) (Hl : (0 <= lastOpTime k)%Z) (Hka : (0 <= keepAlive)%Z)
    (Hroom : has_room k) :
  let idle := (srv_clock s - lastOpTime k)%Z in
  ((idle <= 3 * keepAlive / 2)%Z \/ alive k = false ->
   exec (heartbeat_tick c keepAlive) s = Returned s Continue) /\
  ((3 * keepAlive / 2 < idle)%Z -> alive k = true ->
   exists rest, exec (heartbeat_tick c keepAlive) s = Stuck (kicked c k s) rest /\
     forall s', srv_receipts s' !! length (srv_receipts s) = Some true ->
       exec rest s' = Returned (set_stats (aborted (srv_stats s')) s') Return).
Proof.
  intros idle. rewrite (exec_heartbeat_tick _ _ _ _ Hk). unfold over_idle.
  rewrite idle_deadline_spec by done. split.
  - intros Hor. destruct (0 <? _)%Z eqn:El; breflect; [|done].
    destruct Hor as [Hle|Ha]; [subst idle; lia|by rewrite Ha].
  - intros Hlt Ha. rewrite Ha. subst idle.
    rewrite (proj2 (Z.ltb_lt _ _)) by lia. cbn [andb].
    rewrite exec_bind, (exec_submitSync _ _ _ Hk Hroom), exec_bind.
    rewrite exec_wait_open; [|simpl; by rewrite last_snoc_lookup].
    eexists. split; [reflexivity|]. intros s' Hs'.
    by rewrite exec_bind, (exec_wait_closed _ _ Hs').
Qed.

(** [heartbeat] through ticks at the given times, while its select takes the ticker and
    not [heartbeatStop], the case of [heartbeat_stop]; [true] when it has returned. *)
Fixpoint heartbeat `{GoRuntime} `{Extern} (c : conn_ptr) (keepAlive : Z) (times : list Z) : proc Server bool :=
  match times with
  | [] => Ret false
  | t :: times' =>
      modify (set_clock t);;;
      fl <- heartbeat_tick c keepAlive;;
      match fl with Continue => heartbeat c keepAlive times' | Return => Ret true end
  end.

(** The first [n] ticks after [t0]. *)
Fixpoint tick_times (t0 keepAlive : Z) (n : nat) : list Z :=
  match n with
  | 0 => []
  | S n' => (t0 + keepAlive)%Z :: tick_times (t0 + keepAlive) keepAlive n'
  end.

Lemma tick_times_snoc t0 keepAlive n :
  tick_times t0 keepAlive (S n) = tick_times t0 keepAlive n ++ [(t0 + Z.of_nat (S n) * keepAlive)%Z].
Proof.
  revert t0. induction n as [|n IH]; intros t0; [cbn [tick_times app]; f_equal; lia|].
  change (tick_times t0 keepAlive (S (S n)))
    with ((t0 + keepAlive)%Z :: tick_times (t0 + keepAlive) keepAlive (S n)).
  rewrite IH. cbn [tick_times app]. do 3 f_equal. lia.
Qed.

(** Ticks at which the client is not idle for too long leave everything as it is. *)
Lemma exec_heartbeat_busy `{GoRuntime} `{Extern} c keepAlive k n t0 times s :
  srv_conns s !! c = Some k -> (0 <= lastOpTime k)%Z -> (0 <= keepAlive)%Z -> has_room k ->
  (t0 + Z.of_nat n * keepAlive - lastOpTime k <= 3 * keepAlive / 2)%Z ->
  exec (heartbeat c keepAlive (tick_times t0 keepAlive n ++ times)) s =
  exec (heartbeat c keepAlive times)
    (if decide (n = 0) then s else set_clock (t0 + Z.of_nat n * keepAlive) s).
Proof.
  revert t0 s. induction n as [|n IH]; intros t0 s Hk Hl Hka Hroom Hle; [done|].
  cbn [tick_times app heartbeat]. rewrite exec_bind, exec_modify, exec_bind.
  set (s1 := set_clock (t0 + keepAlive) s).
  destruct (exec_heartbeat_once c keepAlive s1 k Hk Hl Hka Hroom) as [Hbusy _].
  assert (0 <= Z.of_nat n * keepAlive)%Z by (apply Z.mul_nonneg_nonneg; lia).
  rewrite Nat2Z.inj_succ, Z.mul_succ_l in Hle |- *.
  rewrite Hbusy by (left; change (srv_clock s1) with (t0 + keepAlive)%Z; lia). rewrite IH; [|done..|lia].
  rewrite (decide_False (P := S n = 0)) by done. f_equal. unfold s1. case_decide.
  - subst. by replace (t0 + (Z.of_nat 0 * keepAlive + keepAlive))%Z with (t0 + keepAlive)%Z by lia.
  - replace (t0 + keepAlive + Z.of_nat n * keepAlive)%Z with (t0 + (Z.of_nat n * keepAlive + keepAlive))%Z
      by lia. by destruct s.
Qed.

(** C38: the heartbeat kicks an idle client in time.  A living client with room in its
    queue, whose last operation was at most one and a half keep-alive periods before the
    heartbeat started, does nothing any more.  Some tick queues a DISCONNECT for it: more
    than one and a half and at most two and a half periods after its last operation.  The
    ticks before it leave everything as it was; the heartbeat waits until the DISCONNECT
    was sent, and then counts the session as aborted and returns. *)
Theorem heartbeat_kicks_idle_clients `{GoRuntime} `{Extern} (c : conn_ptr) (keepAlive t0 : Z)
    (s : Server) (k : incomingConn)
    (Hk : srv_conns s !! c = Some k) (Hl : (0 <= lastOpTime k)%Z) (Hka : (0 < keepAlive)%Z)
    (Hroom : has_room k) (Ha : alive k = true)
    (Ht0 : (t0 - lastOpTime k <= 3 * keepAlive / 2)%Z) :
  exists n, let T := (t0 + Z.of_nat n * keepAlive)%Z in
    (3 * keepAlive / 2 < T - lastOpTime k <= 3 * keepAlive / 2 + keepAlive)%Z /\
    forall times, exists rest,
      exec (heartbeat c keepAlive (tick_times t0 keepAlive n ++ times)) s =
        Stuck (kicked c k (set_clock T s)) rest /\
      forall s', srv_receipts s' !! length (srv_receipts s) = Some true ->
        exec rest s' = Returned (set_stats (aborted (srv_stats s')) s') true.
Proof.
  set (L := lastOpTime k) in *. set (D := (3 * keepAlive / 2)%Z) in *.
  set (m := ((D - (t0 - L)) / keepAlive)%Z).
  assert (0 <= m)%Z as Hm0 by (apply Z.div_pos; lia).
  assert (m * keepAlive <= D - (t0 - L) < m * keepAlive + keepAlive)%Z as Hm.
  { unfold m. pose proof (Z.div_mod (D - (t0 - L)) keepAlive ltac:(lia)).
    pose proof (Z.mod_pos_bound (D - (t0 - L)) keepAlive Hka). lia. }
  exists (S (Z.to_nat m)). cbv zeta. rewrite Nat2Z.inj_succ, Z2Nat.id by done. split; [lia|]. intros times.
  rewrite tick_times_snoc, Nat2Z.inj_succ, Z2Nat.id by done.
  rewrite <- (assoc_L app), exec_heartbeat_busy with (k := k); [|done|done|lia|done|fold L D; rewrite Z2Nat.id; lia].
  set (s0 := if decide _ then s else _). cbn [app heartbeat]. rewrite exec_bind, exec_modify, exec_bind.
  set (T := (t0 + Z.succ m * keepAlive)%Z).
  replace (set_clock T s0) with (set_clock T s) by (unfold s0; case_decide; by destruct s).
  destruct (exec_heartbeat_once c keepAlive (set_clock T s) k Hk Hl ltac:(lia) Hroom) as [_ Hidle].
  destruct Hidle as (rest & E & Hrest); [unfold T; cbn; fold L D; lia|done|].
  rewrite E. eexists. split; [reflexivity|]. intros s' Hs'. rewrite exec_bind, (Hrest s' Hs'). done.
Qed.

Lemma heartbeat_kicks_idle_clients_witness :
  exists n k rest, srv_conns Demo.session_block !! 0 = Some k /\
    exec (heartbeat 0 30 (tick_times 1000 30 n)) Demo.session_block =
      Stuck (kicked 0 k (set_clock (1000 + Z.of_nat n * 30) Demo.session_block)) rest.
Proof.
  set (s := Demo.session_block). assert (exists k, srv_conns s !! 0 = Some k) as [k Hk] by (eexists; reflexivity).
  destruct (heartbeat_kicks_idle_clients 0 30 1000 s k Hk) as (n & _ & Hn).
  - revert Hk. intros [= <-]. vm_compute. discriminate.
  - reflexivity.
  - revert Hk. intros [= <-]. split; [reflexivity|vm_compute; lia].
  - revert Hk. intros [= <-]. reflexivity.
  - revert Hk. intros [= <-]. vm_compute. discriminate.
  - destruct (Hn []) as (rest & E & _). rewrite app_nil_r in E. exists n, k, rest. split; [exact Hk|exact E].
Defined.
