(* ===== verification/Loops.v ===== *)
(** * The loops of a session as a whole (src/broker/session.go)

    [inboundLoop] on the messages a client sends before its connection breaks, and
    [outboundLoop], turn after turn, each with its deferred function; and what a
    session that connects and disconnects leaves behind. *)

From Stdlib Require Import ZArith Lia.
From stdpp Require Import base gmap list strings numbers sets.
From S2P Require Import Prelude GoString GoProc GoSlice Wild Config Proto Store Stats Subs Broker.
From S2P Require Import Session SessionFacts Delivery Lifecycle.

Local Open Scope string_scope.
Local Open Scope list_scope.

Section Loops.
Context `{GoRuntime} `{Extern}.
Implicit Types (s : Server) (k : incomingConn) (c : conn_ptr).

(** [inboundLoop] when the decoder returns the messages [vs] and then an error. *)
Fixpoint inbound_turns (c : conn_ptr) (vs : list (Message Publish)) : proc Server unit :=
  match vs with
  | [] => inbound_err c;;; Ret tt
  | v :: vs' =>
      fl <- inbound_msg c v;;
      match fl with Continue => inbound_turns c vs' | Return => Ret tt end
  end.

Definition inboundLoop (c : conn_ptr) (vs : list (Message Publish)) : proc Server unit :=
  inbound_turns c vs;;; inbound_defer c.

(** The case a turn of [outboundLoop] selects: a job, whose write succeeds or not, or
    the stop. *)
Inductive select_case := TakeJob (sent : bool) | TakeStop.

(** [outboundLoop] for at most [fuel] turns; [pick i] is the case of turn [i].  The
    result is [false] when the fuel ran out. *)
Fixpoint outbound_turns (c : conn_ptr) (pick : nat -> select_case) (fuel i : nat) : proc Server bool :=
  match fuel with
  | 0 => Ret false
  | S fuel' =>
      fl <- (match pick i with TakeJob sent => outbound_job c sent | TakeStop => outbound_stop c end);;
      match fl with Continue => outbound_turns c pick fuel' (S i) | Return => Ret true end
  end.

Definition outboundLoop (c : conn_ptr) (pick : nat -> select_case) (fuel : nat) : proc Server bool :=
  left <- outbound_turns c pick fuel 0;;
  if (left : bool) then outbound_defer c;;; Ret true else Ret false.

(** ** Draining a closed queue *)

(** The messages written when [vs] are in the queue: up to the first failure or stop, or
    up to and with the first DISCONNECT. *)
Fixpoint written (pick : nat -> select_case) (i : nat) (vs : list (Message Publish)) : list (Message Publish) :=
  match vs with
  | [] => []
  | v :: vs' =>
      match pick i with
      | TakeJob true => v :: (match v with MDisconnect => [] | _ => written pick (S i) vs' end)
      | _ => []
      end
  end.

(** The jobs can be sent: their messages are [vs], their receipts are open and distinct. *)
Definition sendable_jobs (js : list job) (vs : list (Message Publish)) s : Prop :=
  Forall2 (fun j v => view (srv_heap s) (job_m j) = Some v) js vs /\
  NoDup (omap job_r js) /\ Forall (fun r => srv_receipts s !! r <> Some true) (omap job_r js).

(** The first turn on a queue that is drained and closed. *)
Lemma exec_outbound_drained c b s k :
  srv_conns s !! c = Some k -> ch_buf (jobs k) = [] -> ch_closed (jobs k) = true ->
  exec (outbound_job c b) s = Returned s Return.
Proof.
  intros Hk Hb Hc. unfold outbound_job. rewrite exec_bind, (exec_on_conn _ _ _ _ Hk).
  unfold on_jobs, ch_recv. rewrite Hb, Hc. cbn [exec]. f_equal.
  assert (set_jobs (jobs k) k = k) as -> by (by destruct k). by apply put_conn_id.
Qed.

(** What a turn leaves of the jobs behind it. *)
Lemma sendable_jobs_tail j js v vs s s' :
  sendable_jobs (j :: js) (v :: vs) s -> srv_heap s' = srv_heap s ->
  srv_receipts s' = (match job_r j with Some r => <[r := true]> (srv_receipts s)
                                      | None => srv_receipts s end) ->
  sendable_jobs js vs s'.
Proof.
  intros (Hv & Hn & Ho) Hh Hr. apply Forall2_cons in Hv as [_ Hv]. unfold sendable_jobs.
  rewrite Hh, Hr. split; [done|]. simpl in Hn, Ho. destruct (job_r j) as [r|]; [|done].
  apply NoDup_cons in Hn as [Hnr Hn]. apply Forall_cons in Ho as [_ Ho]. split; [done|].
  rewrite Forall_forall in Ho |- *. intros x Hx. rewrite list_lookup_insert_ne; [by apply Ho|].
  intros ->. by apply Hnr.
Qed.

Lemma sendable_jobs_head j js v vs s :
  sendable_jobs (j :: js) (v :: vs) s ->
  view (srv_heap s) (job_m j) = Some v /\ forall r, job_r j = Some r -> srv_receipts s !! r <> Some true.
Proof.
  intros (Hv & _ & Ho). apply Forall2_cons in Hv as [Hv _]. split; [done|]. intros r Hr.
  simpl in Ho. rewrite Hr in Ho. by apply Forall_cons in Ho as [Ho _].
Qed.

#[local] Instance disconnect_dec {P} (m : Message P) : Decision (m = MDisconnect).
Proof. by destruct m; first [by left|by right]. Defined.

Lemma view_disconnect h (m : Message ptr) (v : Message Publish) :
  view h m = Some v -> (m = MDisconnect <-> v = MDisconnect).
Proof.
  destruct m; simpl; try (by intros [= <-]; split). intros Hv.
  apply fmap_Some in Hv as (? & _ & ->). by split.
Qed.

(** What the turns leave of the connection. *)
Definition turned k k' (w : list (Message Publish)) : Prop :=
  wire k' = wire k ++ w /\ flag k' = flag k /\ heartbeatStop k' = heartbeatStop k /\
  alive k' = alive k.

Lemma exec_outbound_stop c s k : srv_conns s !! c = Some k -> stopChan k = true ->
  exec (outbound_stop c) s = Returned s Return.
Proof.
  intros Hk Hs. unfold outbound_stop. rewrite (exec_on_conn _ _ _ _ Hk), Hs. f_equal. by apply put_conn_id.
Qed.

Lemma exec_outbound_turns c pick js : forall vs fuel i s k sp,
  srv_conns s !! c = Some k -> ch_buf (jobs k) = js -> ch_closed (jobs k) = true ->
  store k = Some sp -> sp < length (store_heap (srv_stores s)) -> sendable_jobs js vs s ->
  length js < fuel -> (forall i, pick i = TakeStop -> stopChan k = true) ->
  exists s' k', exec (outbound_turns c pick fuel i) s = Returned s' true /\
    srv_conns s' = <[c := k']> (srv_conns s) /\ turned k k' (written pick i vs) /\
    srv_subs s' = srv_subs s /\ srv_clients s' = srv_clients s.
Proof.
  induction js as [|j js IH]; intros vs fuel i s k sp Hk Hb Hc Hsp Hlt Hs Hf Hst0;
    (destruct fuel as [|fuel]; [simpl in Hf; lia|]); cbn [outbound_turns]; rewrite exec_bind.
  - destruct Hs as [Hv _]. apply Forall2_nil_inv_l in Hv as ->.
    assert (exec (match pick i with TakeJob b => outbound_job c b | TakeStop => outbound_stop c end) s =
            Returned s Return) as ->.
    { destruct (pick i) eqn:Hp; [by apply (exec_outbound_drained c _ s k)|].
      by apply (exec_outbound_stop c s k); [|eapply Hst0]. }
    exists s, k.
    split; [done|]. split; [by rewrite list_insert_id|]. split; [|done].
    split; [by rewrite app_nil_r|done].
  - destruct vs as [|v vs]; [by destruct Hs as [Hv%Forall2_cons_nil_inv _]|].
    destruct (sendable_jobs_head _ _ _ _ _ Hs) as [Hv Hr].
    destruct (lookup_lt_is_Some_2 _ _ Hlt) as [st Hst]. cbn [written].
    destruct (pick i) as [[]|] eqn:Hp.
    + rewrite (exec_outbound_sent c j js v s k sp st Hk Hb Hv Hsp Hst Hr).
      set (s1 := put_conn c _ _). set (k1 := set_lastOpTime _ _) in s1.
      destruct (decide (job_m j = MDisconnect)) as [Hd|Hd].
      { pose proof (proj1 (view_disconnect _ _ _ Hv) Hd) as ->. rewrite Hd.
        exists s1, k1. split; [done|]. done. }
      assert (v <> MDisconnect) as Hdv by (by rewrite <- (view_disconnect _ _ _ Hv)).
      destruct (IH vs fuel (S i) s1 k1 sp) as (s' & k' & E & Hc' & (Hw & Hf' & Hh & Ha) & Hsub & Hcl).
      { by apply (put_conn_eq c k). }
      { done. }
      { done. }
      { done. }
      { simpl. by rewrite length_insert. }
      { by apply (sendable_jobs_tail j js v vs s s1 Hs). }
      { simpl in Hf. lia. }
      { done. }
      exists s', k'. split; [by destruct (job_m j)|].
      split; [rewrite Hc'; unfold s1; flatten s; by rewrite list_insert_insert_eq|].
      split; [|done]. split; [|done]. rewrite Hw. cbn [wire k1 set_lastOpTime set_wire].
      rewrite <- (assoc_L app). by destruct v.
    + rewrite (exec_outbound_failed c j js v s k sp st Hk Hb Hv Hsp Hst Hr).
      eexists _, _. split; [reflexivity|]. split; [reflexivity|]. split; [|done].
      split; [by rewrite app_nil_r|done].
    + rewrite (exec_outbound_stop c s k Hk) by by eapply Hst0. exists s, k. split; [done|].
      split; [by rewrite list_insert_id|]. split; [|done]. split; [by rewrite app_nil_r|done].
Qed.

Lemma written_all pick i vs :
  (forall j, pick j = TakeJob true) -> MDisconnect ∉ vs -> written pick i vs = vs.
Proof.
  intros Hs. revert i. induction vs as [|v vs IH]; intros i Hd; [done|]. cbn [written].
  rewrite Hs. apply not_elem_of_cons in Hd as [Hv Hd]. rewrite IH by done. by destruct v.
Qed.

Lemma exec_outboundLoop c pick fuel vs s k sp m :
  srv_conns s !! c = Some k -> flag k = Some m -> ch_closed (jobs k) = true ->
  store k = Some sp -> sp < length (store_heap (srv_stores s)) -> sendable_jobs (ch_buf (jobs k)) vs s ->
  heartbeatStop k = false -> mu (srv_subs s) = false -> length (ch_buf (jobs k)) < fuel ->
  (forall i, pick i = TakeStop -> stopChan k = true) ->
  exists s' k', exec (outboundLoop c pick fuel) s = Returned s' true /\
    srv_conns s' = <[c := k']> (srv_conns s) /\ wire k' = wire k ++ written pick 0 vs /\
    netClosed k' = true /\ heartbeatStop k' = true /\ alive k' = alive k /\
    srv_clients s' = delete (ClientId m) (srv_clients s) /\
    srv_subs s' = unsubAll c (srv_subs s).
Proof.
  intros Hk Hm Hc Hsp Hlt Hs Hh Hmu Hf Hst0. unfold outboundLoop. rewrite exec_bind.
  destruct (exec_outbound_turns c pick _ vs fuel 0 s k sp Hk eq_refl Hc Hsp Hlt Hs Hf Hst0)
    as (s1 & k1 & -> & Hc1 & (Hw & Hf1 & Hh1 & Ha1) & Hsub & Hcl).
  assert (srv_conns s1 !! c = Some k1) as Hk1.
  { rewrite Hc1. apply list_lookup_insert_eq. by eapply lookup_lt_Some. }
  rewrite exec_bind, (exec_outbound_defer c s1 k1 m Hk1); [|congruence|congruence|by rewrite Hsub].
  eexists _, _. split; [reflexivity|].
  split; [simpl; rewrite Hc1; by rewrite list_insert_insert_eq|].
  split; [done|]. split; [done|]. split; [done|]. split; [done|].
  split; [simpl; by rewrite Hcl|simpl; by rewrite Hsub].
Qed.

Lemma exec_inbound_disconnect c s k :
  srv_conns s !! c = Some k ->
  exec (inbound_msg c MDisconnect) s = Returned (received c MDisconnect k s) Return.
Proof. intros Hk. unfold inbound_msg. cbn [alloc_msg bind]. by rewrite (exec_prologue _ _ k). Qed.

(** A CONNECT with a clean session on a free id: the loop goes on if it is accepted. *)
Lemma exec_connect_turn c m s k :
  srv_conns s !! c = Some k -> alive k = true -> has_room k ->
  srv_clients s !! ClientId m = None -> CleanSession m = true -> registry_wf (srv_stores s) ->
  let rc := connect_rc (Broker (srv_cf s)) (Clients (srv_stats s)) m in
  exists s1 sp st,
    exec (inbound_msg c (MConnect m)) s =
      Returned s1 (if decide (rc = RetCodeAccepted) then Continue else Return) /\
    srv_conns s1 = <[c := connected_conn m sp (srv_clock s) rc (set_lastOpTime (srv_clock s) k)]>
      (srv_conns s) /\
    srv_clients s1 = <[ClientId m := c]> (srv_clients s) /\
    clientStores (srv_stores s1) !! ClientId m = Some sp /\
    store_heap (srv_stores s1) !! sp = Some st /\ ms_messages st = ∅ /\
    srv_redis s1 = srv_redis s ++
      (if EnablePresence (Broker (srv_cf s)) && negb (Username m =s "")
       then [RedisSet (PRESENCE_KEY_PREFIX +:+ Username m)] else []) /\
    srv_subs s1 = srv_subs s /\ clients (srv_stats s1) = clients (srv_stats s) /\ srv_cf s1 = srv_cf s.
Proof.
  intros Hk Ha Hroom Hfree Hclean Hreg rc.
  unfold inbound_msg. cbn [alloc_msg bind]. rewrite (exec_prologue _ _ k) by done.
  pose proof (received_conn c (MConnect m) k s Hk) as Hk1.
  set (s0 := received c (MConnect m) k s) in *.
  destruct (exec_doConnect_fresh c m s0 _ Hk1 Ha Hroom Hfree Hclean Hreg)
    as (s1 & E & Hc & Hcl & Hcs & (st & Hst & Hms) & Hr & _ & Hsub & _ & Hstat & Hcf & _).
  change (connect_rc (Broker (srv_cf s0)) (Clients (srv_stats s0)) m) with rc in *.
  pose proof (getClientStore_lookup Memory.NewMemoryStore (ClientId m) (srv_stores s0)) as Hreg0.
  rewrite <- Hcs in Hreg0. set (sp := (getClientStore _ _ _).2) in *.
  rewrite exec_bind, E. exists s1, sp, st. split; [by case_decide|].
  split; [rewrite Hc; clearbody sp; unfold s0, received; cbn [srv_conns put_conn set_conns set_stats];
          by rewrite list_insert_insert_eq|].
  repeat (split; [done|]). split; [by rewrite Hstat|done].
Qed.

(** The registry after the store of a client id was asked for. *)
Lemma getClientStore_others (id : string) (r : registry (MemoryStore (Message ptr))) :
  let g := getClientStore Memory.NewMemoryStore id r in
  clientStores g.1 = <[id := g.2]> (clientStores r) /\
  forall p, p <> g.2 -> store_heap g.1 !! p = store_heap r !! p.
Proof.
  unfold getClientStore. destruct (clientStores r !! id) as [q|] eqn:Hq; simpl.
  - split; [by rewrite insert_id|done].
  - split; [done|]. intros p Hne. destruct (decide (p < length (store_heap r))) as [Hlt|Hge].
    + by apply lookup_app_l.
    + rewrite !lookup_ge_None_2; [done|lia|]. rewrite length_app. simpl. lia.
Qed.

(** The turns of [outboundLoop] on a closed queue that holds only the CONNACK. *)
Lemma exec_outbound_last c s k sp st m :
  srv_conns s !! c = Some k -> flag k = Some m -> ch_closed (jobs k) = true ->
  ch_buf (jobs k) = [Job (MConnAck RetCodeAccepted) None] ->
  store k = Some sp -> store_heap (srv_stores s) !! sp = Some st ->
  heartbeatStop k = false -> mu (srv_subs s) = false ->
  let k' := set_netClosed true (set_heartbeatStop true (set_lastOpTime (srv_clock s)
    (set_wire (wire k ++ [MConnAck RetCodeAccepted]) (set_jobs (Chan [] (ch_cap (jobs k)) true) k)))) in
  exec (outboundLoop c (fun _ => TakeJob true) 2) s =
  Returned (put_conn c k' (set_subs (unsubAll c (srv_subs s))
    (set_clients (delete (ClientId m) (srv_clients s))
      (set_stats (addOut (MConnAck RetCodeAccepted) (messageSend (srv_stats s))) s)))) true.
Proof.
  intros Hk Hm Hc Hb Hsp Hst Hh Hmu k'. unfold outboundLoop. cbn [outbound_turns].
  rewrite exec_bind, exec_bind, (exec_outbound_sent c _ [] _ s k sp st Hk Hb eq_refl Hsp Hst) by done.
  cbn [job_m job_r]. set (k1 := set_lastOpTime _ _). set (s1 := put_conn c k1 _).
  assert (srv_conns s1 !! c = Some k1) as Hk1 by (by apply (put_conn_eq c k)).
  assert (ch_closed (jobs k1) = true) as Hc1 by done.
  rewrite exec_bind, (exec_outbound_drained c _ s1 k1) by done. cbn [exec].
  rewrite exec_bind, (exec_outbound_defer c s1 k1 m) by done. cbn [exec]. f_equal.
  unfold s1, k', k1, persist_outbound. cbn [persist_outbound_call run_call]. rewrite list_insert_id by done.
  rewrite Hc. flatten s. rewrite list_insert_insert_eq. by destruct srv_stores.
Qed.

(** The connection after the CONNECT, the DISCONNECT and the end of [inboundLoop]. *)
Definition gone_conn (m : Connect) (sp : nat) (now : Z) k : incomingConn :=
  set_jobs (Chan [Job (MConnAck RetCodeAccepted) None] (ch_cap (jobs k)) true)
    (set_alive false (set_lastOpTime now (set_connectedAt now (set_store (Some sp) (set_flag (Some m) k))))).

(** CONNECT and DISCONNECT on a fresh connection, up to the end of [inboundLoop]. *)
Lemma exec_short_inbound c m s k :
  srv_conns s !! c = Some k -> alive k = true -> has_room k -> ch_buf (jobs k) = [] ->
  srv_clients s !! ClientId m = None -> CleanSession m = true -> registry_wf (srv_stores s) ->
  connect_acceptable (Broker (srv_cf s)) (Clients (srv_stats s)) m ->
  let g := getClientStore Memory.NewMemoryStore (ClientId m) (srv_stores s) in
  exists s1 st, exec (inboundLoop c [MConnect m; MDisconnect]) s = Returned s1 tt /\
    srv_conns s1 = <[c := gone_conn m g.2 (srv_clock s) k]> (srv_conns s) /\
    srv_clients s1 = <[ClientId m := c]> (srv_clients s) /\
    clientStores (srv_stores s1) = clientStores g.1 /\
    store_heap (srv_stores s1) !! g.2 = Some st /\ ms_messages st = ∅ /\
    (forall p, p <> g.2 -> store_heap (srv_stores s1) !! p = store_heap g.1 !! p) /\
    srv_redis s1 = srv_redis s ++
      (if EnablePresence (Broker (srv_cf s)) && negb (Username m =s "")
       then [RedisSet (PRESENCE_KEY_PREFIX +:+ Username m); RedisDel (PRESENCE_KEY_PREFIX +:+ Username m)]
       else []) /\
    srv_gos s1 = srv_gos s ++
      (if (0 <? KeepAliveTimer m)%Z then [GoHeartbeat c (KeepAliveTimer m)] else []) /\
    srv_stats s1 = clientDisconnect (addIn MDisconnect (messageRecv
      (addIn (MConnect m) (messageRecv (srv_stats s))))) /\
    srv_subs s1 = srv_subs s /\ srv_heap s1 = srv_heap s /\ srv_cf s1 = srv_cf s /\
    srv_clock s1 = srv_clock s /\ srv_nodes s1 = srv_nodes s /\ srv_receipts s1 = srv_receipts s.
Proof.
  intros Hk Ha Hroom Hempty Hfree Hclean Hreg Hacc g. unfold inboundLoop. cbn [inbound_turns].
  rewrite exec_bind, exec_bind. unfold inbound_msg at 1. cbn [alloc_msg bind]. rewrite (exec_prologue _ _ k) by done.
  pose proof (received_conn c (MConnect m) k s Hk) as Hk1. set (s0 := received c (MConnect m) k s) in *.
  destruct (exec_doConnect_fresh c m s0 _ Hk1 Ha Hroom Hfree Hclean Hreg)
    as (s1 & E & Hc & Hcl & Hcs & (st & Hst & Hms) & Hr & Hg & Hsub & Hh & Hstat & Hcf & Hck & Hoth & Hnd & Hrc).
  change (connect_rc (Broker (srv_cf s0)) (Clients (srv_stats s0)) m) with
    (connect_rc (Broker (srv_cf s)) (Clients (srv_stats s)) m) in *.
  apply connect_rc_accepted in Hacc. rewrite Hacc in *.
  change (srv_stores s0) with (srv_stores s) in *. change (srv_clock s0) with (srv_clock s) in *.
  fold g in Hcs, Hst, Hoth, Hc.
  rewrite exec_bind, E, decide_True by done. cbn [exec].
  set (k1 := connected_conn m g.2 _ _ _) in Hc.
  assert (srv_conns s1 !! c = Some k1) as Hk2.
  { rewrite Hc. apply list_lookup_insert_eq. by eapply lookup_lt_Some. }
  rewrite exec_bind, (exec_inbound_disconnect _ _ _ Hk2). cbn [exec].
  set (s2 := received c MDisconnect k1 s1). pose proof (received_conn c MDisconnect k1 s1 Hk2) as Hk3. fold s2 in Hk3.
  rewrite (exec_inbound_defer c s2 _ Hk3); [|by intros q [= <-]; exists st|done].
  rewrite (exec_onTerminate c _ _ m (inbound_ended_conn c _ s2 Hk3)) by done.
  set (k2 := set_lastOpTime _ k1) in Hk3. set (s3 := inbound_ended c k2 s2).
  assert (srv_stores s3 = Registry (clientStores g.1) (<[g.2 := Close st]> (store_heap (srv_stores s1)))) as Es3.
  { change (srv_stores s3) with (closed_stores k2 (srv_stores s1)). unfold closed_stores.
    change (store k2) with (Some g.2). cbv iota beta. by rewrite Hst, Hcs. }
  pose proof (lookup_lt_Some _ _ _ Hst) as Hlt.
  exists (set_redis (srv_redis s3 ++ checkout_cmds (Broker (srv_cf s3)) (Username m)) s3), (Close st).
  split; [reflexivity|]. split.
  { transitivity (<[c := set_jobs (Chan (ch_buf (jobs k2)) (ch_cap (jobs k2)) true) (set_alive false k2)]>
      (<[c := k2]> (srv_conns s1))); [reflexivity|].
    rewrite Hc. change (srv_conns s0) with (<[c := set_lastOpTime (srv_clock s) k]> (srv_conns s)).
    rewrite !list_insert_insert_eq. f_equal. unfold k2, k1, gone_conn, connected_conn, push_job. rewrite Hck.
    clearbody g. destruct k; simpl in *. by rewrite Hempty. }
  split; [exact Hcl|]. cbn [srv_stores set_redis]. rewrite Es3. cbn [clientStores store_heap].
  split; [reflexivity|]. split; [by apply list_lookup_insert_eq|]. split; [exact Hms|].
  split; [intros p Hne; rewrite list_lookup_insert_ne by done; by apply Hoth|].
  split.
  { transitivity (srv_redis s1 ++ checkout_cmds (Broker (srv_cf s1)) (Username m)); [reflexivity|].
    rewrite Hr, Hcf, <- (assoc_L app). unfold checkout_cmds.
    change (srv_cf s0) with (srv_cf s). by destruct (EnablePresence _ && _). }
  split; [exact Hg|]. split.
  { transitivity (clientDisconnect (addIn MDisconnect (messageRecv (srv_stats s1)))); [reflexivity|].
    by rewrite Hstat. }
  split; [exact Hsub|]. split; [exact Hh|]. split; [exact Hcf|]. split; [exact Hck|]. by split.
Qed.
End Loops.

(** ** Properties *)

(** C15: [outboundLoop] ends once [inboundLoop] has closed the queue.  On a connected
    session whose queue of [n] jobs is closed, with the messages in memory and the
    receipts open and distinct, the loop returns within [n + 1] turns whatever the
    network does and whichever case its select picks, the stop only when the session was
    stopped: it writes the queued messages in order, up to the stop, the first failed
    write or the first DISCONNECT, and all of them when there is none; then the network connection and the heartbeat are stopped, the client id is free and the
    subscriptions of the connection are gone. *)
Theorem outbound_loop_terminates `{GoRuntime} `{Extern} (c : conn_ptr) (pick : nat -> select_case)
    (vs : list (Message Publish)) (s : Server) (k : incomingConn) (sp : nat) (m : Connect)
    (Hk : srv_conns s !! c = Some k) (Hm : flag k = Some m) (Hc : ch_closed (jobs k) = true)
    (Hsp : store k = Some sp) (Hlt : sp < length (store_heap (srv_stores s)))
    (Hs : sendable_jobs (ch_buf (jobs k)) vs s) (Hh : heartbeatStop k = false)
    (Hmu : mu (srv_subs s) = false)
    (Hstop : forall i, pick i = TakeStop -> stopChan k = true) :
  exists s' k', exec (outboundLoop c pick (S (length (ch_buf (jobs k))))) s = Returned s' true /\
    srv_conns s' = <[c := k']> (srv_conns s) /\
    wire k' = wire k ++ written pick 0 vs /\
    ((forall i, pick i = TakeJob true) -> MDisconnect ∉ vs -> wire k' = wire k ++ vs) /\
    netClosed k' = true /\ heartbeatStop k' = true /\
    srv_clients s' = delete (ClientId m) (srv_clients s) /\
    srv_subs s' = unsubAll c (srv_subs s).
Proof.
  destruct (exec_outboundLoop c pick (S (length (ch_buf (jobs k)))) vs s k sp m)
    as (s' & k' & E & Hc' & Hw & Hn & Hh' & _ & Hcl & Hsub); try done; [lia|].
  exists s', k'. do 3 (split; [done|]). split; [|done].
  intros Hall Hd. by rewrite Hw, written_all.
Qed.

(** C19: what a client leaves that connects and disconnects at once.  On a fresh
    connection without subscriptions, an acceptable CONNECT with a clean session on a
    free id, followed by DISCONNECT: [inboundLoop] returns, and [outboundLoop] then
    returns within two turns; the whole state after them is known.  The connection is
    dead and closed, with an empty closed queue, and was sent its CONNACK and nothing
    else.  The client id is free again, and nobody gained or lost a subscription, a
    post or a retained message.  What stays behind is the store of the client id, empty
    but still in the registry; the counters, with two messages received, one sent and
    one client less; the two presence commands, when presence applies; and the
    heartbeat, when the client asked for one.  Everything else is as before. *)
Theorem short_session_effects `{GoRuntime} `{Extern} (c : conn_ptr) (m : Connect) (s : Server)
    (k : incomingConn) (a : table)
    (Hk : srv_conns s !! c = Some k) (Ha : alive k = true) (Hroom : has_room k)
    (Hempty : ch_buf (jobs k) = []) (Hh : heartbeatStop k = false)
    (Hfree : srv_clients s !! ClientId m = None) (Hclean : CleanSession m = true)
    (Hreg : registry_wf (srv_stores s)) (Hmu : mu (srv_subs s) = false)
    (Hwf : subs_wf (srv_subs s)) (Hra : refines (srv_subs s) a) (Habs : absent c a)
    (Hacc : connect_acceptable (Broker (srv_cf s)) (Clients (srv_stats s)) m) :
  exists s1 s2 sp st, exec (inboundLoop c [MConnect m; MDisconnect]) s = Returned s1 tt /\
    exec (outboundLoop c (fun _ => TakeJob true) 2) s1 = Returned s2 true /\
    srv_conns s2 = <[c := IncomingConn (Some m) false (srv_clock s) (srv_clock s) (stopChan k) true
                            (Chan [] (ch_cap (jobs k)) true) true (Some sp) (subN k) (leakyBucket k)
                            (wire k ++ [MConnAck RetCodeAccepted])]> (srv_conns s) /\
    srv_clients s2 = srv_clients s /\
    refines (srv_subs s2) a /\ posts (srv_subs s2) = posts (srv_subs s) /\
    retain (srv_subs s2) = retain (srv_subs s) /\ mu (srv_subs s2) = false /\
    clientStores (srv_stores s2) = <[ClientId m := sp]> (clientStores (srv_stores s)) /\
    store_heap (srv_stores s2) !! sp = Some st /\ ms_messages st = ∅ /\
    (forall p, p <> sp -> store_heap (srv_stores s2) !! p = store_heap (srv_stores s) !! p) /\
    srv_stats s2 =
      add_outBytes (wrap64 (msg_Bytes (MConnAck RetCodeAccepted))) (add_sent 1 (add_clients (-1)
        (add_inBytes (wrap64 (msg_Bytes MDisconnect)) (add_recv 1
          (add_inBytes (wrap64 (msg_Bytes (MConnect m))) (add_recv 1 (srv_stats s))))))) /\
    srv_redis s2 = srv_redis s ++
      (if EnablePresence (Broker (srv_cf s)) && negb (Username m =s "")
       then [RedisSet ("_pre:" +:+ Username m); RedisDel ("_pre:" +:+ Username m)] else []) /\
    srv_gos s2 = srv_gos s ++
      (if (0 <? KeepAliveTimer m)%Z then [GoHeartbeat c (KeepAliveTimer m)] else []) /\
    srv_cf s2 = srv_cf s /\ srv_heap s2 = srv_heap s /\ srv_nodes s2 = srv_nodes s /\
    srv_receipts s2 = srv_receipts s /\ srv_clock s2 = srv_clock s.
Proof.
  destruct (exec_short_inbound c m s k Hk Ha Hroom Hempty Hfree Hclean Hreg Hacc)
    as (s1 & st & E1 & Hc & Hcl & Hcs & Hst & Hms & Hoth & Hr & Hg & Hstat & Hsub & Hhp & Hcf & Hck & Hnd & Hrc).
  destruct (getClientStore_others (ClientId m) (srv_stores s)) as [Hids Hheap].
  set (sp := (getClientStore _ _ _).2) in *. set (k1 := gone_conn m sp (srv_clock s) k) in *.
  assert (srv_conns s1 !! c = Some k1) as Hk1.
  { rewrite Hc. apply list_lookup_insert_eq. by eapply lookup_lt_Some. }
  pose proof (exec_outbound_last c s1 k1 sp st m Hk1 eq_refl eq_refl eq_refl eq_refl Hst Hh) as E2.
  rewrite Hsub in E2. specialize (E2 Hmu). eexists s1, _, sp, st. split; [exact E1|]. split; [exact E2|].
  split; [simpl; rewrite Hc, list_insert_insert_eq, Hck; reflexivity|].
  split; [simpl; by rewrite Hcl, delete_insert_id|].
  split; [by apply unsubAll_refines_absent|]. do 3 (split; [done|]).
  split; [simpl; by rewrite Hcs, Hids|]. split; [done|]. split; [done|].
  split; [intros p Hne; simpl; by rewrite Hoth, Hheap|]. split; [simpl; by rewrite Hstat|].
  split; [exact Hr|]. split; [exact Hg|]. by split.
Qed.

#[local] Existing Instance doubling_runtime.
#[local] Existing Instance bytes_mqttmsg.
#[local] Existing Instance plain_extern.

Module DemoLoops.
(** The session of the small server after its inbound loop has ended. *)
Definition left : Server := Eval vm_compute in
  Demo.ok_state (exec (inbound_defer 0) Demo.session_block) Demo.session_block.
Definition left_conn : incomingConn := Eval vm_compute in
  default (new_conn (Broker (Demo.conf false "block")) 0) (srv_conns left !! 0).
Definition fresh_conn : incomingConn := Eval vm_compute in
  default (new_conn (Broker (Demo.conf true "block")) 0) (srv_conns Demo.accepted_conn !! 0).
End DemoLoops.

Lemma outbound_loop_terminates_witness :
  exists s' k', exec (outboundLoop 0 (fun _ => TakeJob true) 2) DemoLoops.left = Returned s' true /\
    srv_conns s' = <[0 := k']> (srv_conns DemoLoops.left) /\ wire k' = [MConnAck RetCodeAccepted].
Proof.
  destruct (outbound_loop_terminates 0 (fun _ => TakeJob true) [MConnAck RetCodeAccepted] DemoLoops.left
    DemoLoops.left_conn 0 (Demo.connect_msg "c0")) as (s' & k' & E & Hc & Hw & _); try reflexivity.
  - vm_compute. lia.
  - split; [by repeat constructor|]. split; by constructor.
  - discriminate.
  - exists s', k'. split; [exact E|]. split; [exact Hc|exact Hw].
Defined.

Lemma short_session_effects_witness :
  exists s1 s2 sp st, exec (inboundLoop 0 [MConnect (Demo.connect_msg "c0"); MDisconnect]) Demo.accepted_conn =
                Returned s1 tt /\
    exec (outboundLoop 0 (fun _ => TakeJob true) 2) s1 = Returned s2 true /\
    srv_clients s2 = ∅ /\ clientStores (srv_stores s2) = {["c0" := sp]} /\
    store_heap (srv_stores s2) !! sp = Some st /\ recv (srv_stats s2) = 2%Z.
Proof.
  destruct (short_session_effects 0 (Demo.connect_msg "c0") Demo.accepted_conn
    DemoLoops.fresh_conn table_empty) as (s1 & s2 & sp & st & E1 & E2 & _ & Hcl & _ & _ & _ & _ & Hid & Hst &
      _ & _ & Hstat & _); try reflexivity.
  - split; [reflexivity|vm_compute; lia].
  - apply registry_wf_empty.
  - change (srv_subs Demo.accepted_conn) with (newSubscriptions 3). apply newSubscriptions_wf.
  - change (srv_subs Demo.accepted_conn) with (newSubscriptions 3). apply newSubscriptions_refines.
  - split; [intros t Hin|intros Hin]; by apply elem_of_nil in Hin.
  - split; [done|vm_compute; lia|left; reflexivity|left; vm_compute; discriminate].
  - exists s1, s2, sp, st. rewrite Hstat. split; [exact E1|]. split; [exact E2|]. split; [exact Hcl|].
    split; [exact Hid|]. split; [exact Hst|reflexivity].
Defined.
