(* ===== verification/Presence.v ===== *)
(** * Presence, through the broker and redis (src/broker/presence.go, session.go, proto.go)

    The broker keeps the list of the presence commands it sends; here they are carried
    out on the redis store.  The theorem follows a refused CONNECT through the handler,
    the end of its session and redis. *)

From Stdlib Require Import ZArith Lia.
From stdpp Require Import base gmap list strings numbers sets.
From S2P Require Import Prelude GoString GoProc GoSlice Wild Config Proto Store Stats Redis Subs Broker.
From S2P Require Import Session SessionFacts Lifecycle Loops.

Local Open Scope string_scope.
Local Open Scope list_scope.

Section Replay.
Context `{RedisLib}.
(** The value [true] of presence.go. *)
Variable present : value.

(** [Presence.CheckIn] stores [true] under the key, [Presence.CheckOut] deletes it. *)
Definition presence_call (cmd : redis_cmd) : proc RedisStore (list rerror) :=
  match cmd with
  | RedisSet key => RedisStore_Store key present
  | RedisDel key => RedisStore_Del key
  end.

Definition presence_calls (cmds : list redis_cmd) : proc RedisStore unit :=
  for_each cmds (fun cmd => presence_call cmd;;; Ret tt).

Context `{!RedisLaws}.

Lemma exec_presence_call cmd s : rs_mu s = false ->
  exists s' errs, exec (presence_call cmd) s = Returned s' errs /\ rs_mu s' = false.
Proof.
  intros Hm. destruct cmd as [key|key]; cbn [presence_call].
  - destruct (exec_Store key present s Hm) as (s' & errs & E & Hm' & _). by exists s', errs.
  - destruct (exec_Del key s Hm) as (s' & E & Hm' & _). by exists s', [].
Qed.

Lemma exec_presence_calls_app cmds cmds' s : rs_mu s = false ->
  exists s', exec (presence_calls cmds) s = Returned s' tt /\ rs_mu s' = false /\
    exec (presence_calls (cmds ++ cmds')) s = exec (presence_calls cmds') s'.
Proof.
  revert s. induction cmds as [|cmd cmds IH]; intros s Hm; [by exists s|].
  unfold presence_calls. cbn [app for_each].
  destruct (exec_presence_call cmd s Hm) as (s1 & errs & E & Hm1).
  rewrite !exec_bind, E. cbn [exec]. apply (IH s1 Hm1).
Qed.

(** A key whose last command is a deletion is gone. *)
Lemma exec_presence_calls_del cmds key s : rs_mu s = false -> answers ->
  exists s', exec (presence_calls (cmds ++ [RedisDel key])) s = Returned s' tt /\ rs_mu s' = false /\
    contents (pool s') !! key = None.
Proof.
  intros Hm Hans. destruct (exec_presence_calls_app cmds [RedisDel key] s Hm) as (s1 & _ & Hm1 & ->).
  unfold presence_calls. cbn [for_each presence_call].
  destruct (exec_Del key s1 Hm1) as (s2 & E & Hm2 & Hc).
  rewrite !exec_bind, E. exists s2. split; [done|]. split; [done|].
  rewrite (Hc Hans). apply lookup_delete_eq.
Qed.
End Replay.

Section Refused.
Context `{GoRuntime} `{Extern}.
Implicit Types (s : Server) (k : incomingConn) (c : conn_ptr).

(** A refused CONNECT with a clean session on a free id, up to the end of [inboundLoop]. *)
Lemma exec_refused_inbound c m vs s k :
  srv_conns s !! c = Some k -> alive k = true -> has_room k -> ch_buf (jobs k) = [] ->
  srv_clients s !! ClientId m = None -> CleanSession m = true -> registry_wf (srv_stores s) ->
  let rc := connect_rc (Broker (srv_cf s)) (Clients (srv_stats s)) m in
  rc <> RetCodeAccepted ->
  exists s1 k1 sp st, exec (inboundLoop c (MConnect m :: vs)) s = Returned s1 tt /\
    srv_conns s1 = <[c := k1]> (srv_conns s) /\ alive k1 = false /\
    ch_closed (jobs k1) = true /\ ch_buf (jobs k1) = [Job (MConnAck rc) None] /\
    clientStores (srv_stores s1) !! ClientId m = Some sp /\
    store_heap (srv_stores s1) !! sp = Some st /\ ms_messages st = ∅ /\
    srv_redis s1 = srv_redis s ++
      (if EnablePresence (Broker (srv_cf s)) && negb (Username m =s "")
       then [RedisSet (PRESENCE_KEY_PREFIX +:+ Username m); RedisDel (PRESENCE_KEY_PREFIX +:+ Username m)]
       else []).
Proof.
  intros Hk Ha Hroom Hempty Hfree Hclean Hreg rc Hrc. unfold inboundLoop. cbn [inbound_turns].
  destruct (exec_connect_turn c m s k Hk Ha Hroom Hfree Hclean Hreg)
    as (s1 & sp & st & E1 & Hc1 & Hcl & Hcs & Hst & Hms & Hr & Hsub & Hstat & Hcf).
  fold rc in E1, Hc1. rewrite decide_False in E1 by done.
  set (k1 := connected_conn _ _ _ _ _) in Hc1.
  assert (srv_conns s1 !! c = Some k1) as Hk1.
  { rewrite Hc1. apply list_lookup_insert_eq. by eapply lookup_lt_Some. }
  rewrite exec_bind, exec_bind, E1. cbn [exec].
  rewrite (exec_inbound_defer c s1 k1 Hk1); [|by intros q [= <-]; exists st|done].
  rewrite (exec_onTerminate c _ _ m (inbound_ended_conn c k1 s1 Hk1)) by done.
  eexists _, _, sp, (Memory.Close st). split; [reflexivity|].
  split; [cbn [srv_conns set_redis inbound_ended put_conn set_conns set_stores set_stats]; by rewrite Hc1, list_insert_insert_eq|].
  split; [done|]. split; [done|]. split; [cbn; by rewrite Hempty|].
  cbn [srv_stores set_redis inbound_ended put_conn set_conns set_stores srv_redis set_stats srv_cf].
  assert (closed_stores k1 (srv_stores s1) =
          Registry (clientStores (srv_stores s1)) (<[sp := Memory.Close st]> (store_heap (srv_stores s1))))
    as -> by (unfold closed_stores; cbn; by rewrite Hst).
  split; [done|]. split; [cbn; apply list_lookup_insert_eq; by eapply lookup_lt_Some|]. split; [done|].
  rewrite Hr, Hcf, <- (assoc_L app). unfold checkout_cmds. by case_goal.
Qed.
End Refused.

(** ** Properties *)

(** C30: a refused CONNECT takes effect.  When the request is not acceptable (the
    credentials are missing, the protocol is unknown, the server is full), on a free
    client id with a clean session: the loop ends, and the client is sent only the
    refusal; but the messages kept for that client id have been erased, and, if
    presence is enabled and the request names a user, that user is offline in a redis
    that answers, although every other connection, that user's own included, is as
    it was. *)
Theorem refused_connect_takes_effect `{GoRuntime} `{Extern} `{RedisLaws} (present : value)
    (c : conn_ptr) (m : Connect) (vs : list (Message Publish)) (s : Server) (k : incomingConn)
    (Hk : srv_conns s !! c = Some k) (Ha : alive k = true) (Hroom : has_room k)
    (Hempty : ch_buf (jobs k) = []) (Hfree : srv_clients s !! ClientId m = None)
    (Hclean : CleanSession m = true) (Hreg : registry_wf (srv_stores s))
    (Hrefused : ~ connect_acceptable (Broker (srv_cf s)) (Clients (srv_stats s)) m) :
  exists s1 k1 rc, exec (inboundLoop c (MConnect m :: vs)) s = Returned s1 tt /\
    rc <> RetCodeAccepted /\ ch_buf (jobs k1) = [Job (MConnAck rc) None] /\ ch_closed (jobs k1) = true /\
    srv_conns s1 = <[c := k1]> (srv_conns s) /\
    (exists sp st, clientStores (srv_stores s1) !! ClientId m = Some sp /\
       store_heap (srv_stores s1) !! sp = Some st /\ ms_messages st = ∅) /\
    forall r : RedisStore, rs_mu r = false -> answers ->
    EnablePresence (Broker (srv_cf s)) = true -> Username m <> "" ->
    exists r', exec (presence_calls present (srv_redis s1)) r = Returned r' tt /\
      contents (pool r') !! (PRESENCE_KEY_PREFIX +:+ Username m) = None.
Proof.
  set (rc := connect_rc (Broker (srv_cf s)) (Clients (srv_stats s)) m).
  assert (rc <> RetCodeAccepted) as Hrc by (by rewrite <- connect_rc_accepted in Hrefused).
  destruct (exec_refused_inbound c m vs s k Hk Ha Hroom Hempty Hfree Hclean Hreg Hrc)
    as (s1 & k1 & sp & st & E & Hc & _ & Hcl & Hb & Hcs & Hst & Hms & Hr).
  exists s1, k1, rc. do 5 (split; [done|]). split; [by exists sp, st|].
  intros r Hm Hans Hp Hu. rewrite Hr, Hp. apply String.eqb_neq in Hu. rewrite Hu. cbn [andb negb].
  rewrite (assoc_L app (srv_redis s) [_] [_] : _ ++ [_; _] = _).
  destruct (exec_presence_calls_del present
    (srv_redis s ++ [RedisSet (PRESENCE_KEY_PREFIX +:+ Username m)])
    (PRESENCE_KEY_PREFIX +:+ Username m) r Hm Hans) as (r' & Er & _ & Hk'). by exists r'.
Qed.

#[local] Existing Instance doubling_runtime.
#[local] Existing Instance bytes_mqttmsg.
#[local] Existing Instance plain_extern.

Module DemoPresence.
Definition connect_as (id user : string) (version : N) : Connect :=
  Build_Connect protocolName version id true 0 true true user "secret" false.

(** Bob is connected; a second connection has been accepted. *)
Definition bob_online : Server := Eval vm_compute in
  let s := Demo.accepted_conn in
  Demo.ok_state (exec (inbound_msg 0 (MConnect (connect_as "c0" "bob" protocolVersion));;; accept) s) s.
Definition second : incomingConn := Eval vm_compute in
  default (new_conn (Broker (Demo.conf true "block")) 0) (srv_conns bob_online !! 1).

Lemma bob_online_registry : registry_wf (srv_stores bob_online).
Proof.
  assert (clientStores (srv_stores bob_online) = {["c0" := 0]}) as Hc by (vm_compute; reflexivity).
  split; rewrite Hc.
  - intros id p [_ <-]%lookup_singleton_Some. vm_compute. lia.
  - by intros id id' p [<- _]%lookup_singleton_Some [<- _]%lookup_singleton_Some.
Qed.
End DemoPresence.

Lemma refused_connect_takes_effect_witness :
  let s := DemoPresence.bob_online in
  exists s1 r', exec (inboundLoop 1 [MConnect (DemoPresence.connect_as "c1" "bob" 9)]) s = Returned s1 tt /\
    exec (@presence_calls DemoRedis.map_redis true (srv_redis s1)) DemoRedis.empty = Returned r' tt /\
    srv_conns s1 !! 0 = srv_conns s !! 0 /\
    @contents DemoRedis.map_redis DemoRedis.map_redis_laws (pool r') !! "_pre:bob" = None.
Proof.
  intros s. destruct (@refused_connect_takes_effect _ _ _ DemoRedis.map_redis DemoRedis.map_redis_laws
    true 1 (DemoPresence.connect_as "c1" "bob" 9) [] s DemoPresence.second)
    as (s1 & k1 & rc & E & _ & _ & _ & Hc & _ & Hr); try reflexivity.
  - split; [reflexivity|vm_compute; lia].
  - exact DemoPresence.bob_online_registry.
  - intros [[_ Hv] _ _ _]. discriminate Hv.
  - destruct (Hr DemoRedis.empty) as (r' & Er & Hk); [reflexivity|done|reflexivity|discriminate|].
    exists s1, r'. split; [exact E|]. split; [exact Er|]. split; [by rewrite Hc|exact Hk].
Defined.
