(* ===== verification/Peers.v ===== *)
(** * Replication between brokers (src/broker: peers.go, endpoint.go)

    The outbound side: endpoints, their sessions and the membership.  The inbound
    side: the replay of publications that another broker replicated. *)

From Stdlib Require Import ZArith Lia.
From stdpp Require Import base gmap list strings numbers sets.
From S2P Require Import Prelude GoString GoProc GoSlice Wild Config Proto Store Stats Subs Broker.
From S2P Require Import Session SessionFacts Delivery.

Local Open Scope string_scope.
Local Open Scope list_scope.

Definition errEndpointDupJoin : string := "endpoint dup join".

Section Peers.
Context `{GoRuntime} `{Extern}.

(** ** Endpoints (endpoint.go) *)

Definition set_ep_alive (v : bool) (e : endpoint) : endpoint :=
  Endpoint (ep_cf e) (ep_host e) (ep_connected e) (ep_jobs e) v (ep_running e) (ep_wire e).
Definition set_ep_connected (v : bool) (e : endpoint) : endpoint :=
  Endpoint (ep_cf e) (ep_host e) v (ep_jobs e) (ep_alive e) (ep_running e) (ep_wire e).
Definition set_ep_running (v : bool) (e : endpoint) : endpoint :=
  Endpoint (ep_cf e) (ep_host e) (ep_connected e) (ep_jobs e) (ep_alive e) v (ep_wire e).
Definition set_ep_wire (v : list (Message Publish)) (e : endpoint) : endpoint :=
  Endpoint (ep_cf e) (ep_host e) (ep_connected e) (ep_jobs e) (ep_alive e) (ep_running e) v.

Definition newEndpoint (host : string) (cf : PeersConfig) : endpoint + panic :=
  if (QueueLen cf <? 0)%Z then inr (UserPanic "makechan: size out of range")
  else inl (Endpoint cf host false (make_chan (Z.to_nat (QueueLen cf))) true true []).

(** [endpoint.stop()] *)
Definition ep_stop (host : string) : proc Server unit :=
  on_node host (fun e => Done (set_ep_running false e) tt).

(** [net.Dial] and the lines up to the loop: [dialed] says whether it connects. *)
Definition ep_dial (host : string) (dialed : bool) : proc Server unit :=
  on_node host (fun e => Done (set_ep_connected dialed e) tt);;;
  if dialed then on_node host (fun e => Done (set_ep_alive true e) tt) else Ret tt.

(** One turn of [for job := range this.jobs]; [sent] says whether [Encode] succeeds. *)
Definition ep_job (host : string) (sent : bool) : proc Server flow :=
  x <- on_node host (on_ep_jobs ch_recv);;
  match x with
  | None => Ret Return
  | Some j =>
      if negb sent then Ret Return
      else
        v <- read_msg (job_m j);;
        on_node host (fun e => Done (set_ep_wire (ep_wire e ++ [v]) e) tt);;;
        do_stats replicated;;;
        v <- read_msg (job_m j);;
        do_stats (addRepl v);;;
        Ret Continue
  end.

(** The loop, for at most [fuel] turns; [sent i] is the outcome of turn [i].  The
    result says whether the loop was left. *)
Fixpoint ep_loop (host : string) (sent : nat -> bool) (fuel i : nat) : proc Server bool :=
  match fuel with
  | 0 => Ret false
  | S fuel' =>
      fl <- ep_job host (sent i);;
      match fl with
      | Continue => ep_loop host sent fuel' (S i)
      | Return => Ret true
      end
  end.

(** The deferred function of [runSession]. *)
Definition ep_defer (host : string) : proc Server unit :=
  on_node host (fun e => Done (set_ep_connected false e) tt);;;
  on_node host (fun e => Done (set_ep_alive false e) tt);;;
  on_node host (on_ep_jobs ch_close).

(** [endpoint.runSession()]: the result is [false] when the fuel ran out. *)
Definition runSession (host : string) (dialed : bool) (sent : nat -> bool) (fuel : nat)
    : proc Server bool :=
  ep_dial host dialed;;;
  if negb dialed then ep_defer host;;; Ret true
  else
    left <- ep_loop host sent fuel 0;;
    if (left : bool) then ep_defer host;;; Ret true else Ret false.

(** [endpoint.start()] when the network and the queue make its sessions go as in the
    list: each has whether it connects, its writes and its fuel.  The result is [false]
    when a session ran out of fuel or the list ended with the endpoint running. *)
Fixpoint ep_start (host : string) (sessions : list (bool * (nat -> bool) * nat)) : proc Server bool :=
  running <- on_node host (fun e => Done e (ep_running e));;
  if negb running then Ret true
  else
    match sessions with
    | [] => Ret false
    | (dialed, sent, fuel) :: rest =>
        left <- runSession host dialed sent fuel;;
        if (left : bool) then ep_start host rest else Ret false
    end.

(** ** Membership and replay (peers.go) *)

(** [peers.join(host)]: the error is [None] for nil. *)
Definition join (host : string) : proc Server (option string) :=
  atomic (fun s =>
    match srv_nodes s !! host with
    | Some _ => Done s (Some errEndpointDupJoin)
    | None =>
        match newEndpoint host (Peers (srv_cf s)) with
        | inl e => Done (set_nodes (<[host := e]> (srv_nodes s)) s) None
        | inr w => Panicked w
        end
    end).

(** The accept loop of [peers.start], and the deferred function of [replay]. *)
Definition peer_accept : proc Server unit := do_stats peerConnect.
Definition replay_defer : proc Server unit := do_stats peerDisconnect.

(** One turn of [replay] with the decoded message [v]: only PUBLISH does anything. *)
Definition replay_msg (v : Message Publish) : proc Server unit :=
  m <- alloc_msg v;;
  match m with
  | MPublish p => subs_submit p
  | _ => Ret tt
  end.

(** [replay] when the decoder returns the messages [vs] and then an error. *)
Definition replay (vs : list (Message Publish)) : proc Server unit :=
  for_each vs replay_msg;;; replay_defer.

(** ** Lemmas *)

Lemma exec_node_set {A} host (f : endpoint -> endpoint) (a : A) s e :
  srv_nodes s !! host = Some e ->
  exec (on_node host (fun e => Done (f e) a)) s =
  Returned (set_nodes (<[host := f e]> (srv_nodes s)) s) a.
Proof. intros He. by apply exec_on_node with e. Qed.

Lemma exec_ep_defer_closed host s e :
  srv_nodes s !! host = Some e -> ch_closed (ep_jobs e) = true ->
  exists s', exec (ep_defer host) s = Crashed s' CloseOfClosed.
Proof.
  intros He Hc. unfold ep_defer.
  rewrite exec_bind, (exec_node_set _ _ _ _ e He).
  rewrite exec_bind, (exec_node_set _ _ _ _ (set_ep_connected false e)) by apply lookup_insert_eq.
  unfold on_node. rewrite exec_atomic. cbn [srv_nodes set_nodes].
  rewrite lookup_insert_eq. unfold on_ep_jobs, ch_close. cbn [ep_jobs set_ep_alive set_ep_connected].
  rewrite Hc. by eexists.
Qed.

(** A session on a closed queue drains it and leaves the loop. *)
Lemma exec_ep_loop_closed host sent fuel i s e :
  srv_nodes s !! host = Some e -> ch_closed (ep_jobs e) = true ->
  Forall (fun j => is_Some (view (srv_heap s) (job_m j))) (ch_buf (ep_jobs e)) ->
  length (ch_buf (ep_jobs e)) < fuel ->
  exists s' e', exec (ep_loop host sent fuel i) s = Returned s' true /\
    srv_nodes s' !! host = Some e' /\ ch_closed (ep_jobs e') = true.
Proof.
  revert fuel i s e. assert (forall buf fuel i s e, ch_buf (ep_jobs e) = buf ->
    srv_nodes s !! host = Some e -> ch_closed (ep_jobs e) = true ->
    Forall (fun j => is_Some (view (srv_heap s) (job_m j))) buf -> length buf < fuel ->
    exists s' e', exec (ep_loop host sent fuel i) s = Returned s' true /\
      srv_nodes s' !! host = Some e' /\ ch_closed (ep_jobs e') = true) as Hgen; [|eauto].
  induction buf as [|j buf IH]; intros [|fuel] i s e Hb He Hc Hv Hf; simpl in Hf; try lia.
  - cbn [ep_loop]. rewrite exec_bind. unfold ep_job. rewrite exec_bind.
    rewrite (exec_on_node _ _ s e e None He).
    2:{ unfold on_ep_jobs, ch_recv. rewrite Hb, Hc. by destruct e. }
    eexists _, e. split; [reflexivity|]. split; [apply lookup_insert_eq|done].
  - apply Forall_cons in Hv as [[v Hv] Hvs]. cbn [ep_loop]. rewrite exec_bind.
    set (e1 := set_ep_jobs (Chan buf (ch_cap (ep_jobs e)) true) e).
    unfold ep_job. rewrite exec_bind, (exec_on_node _ _ s e e1 (Some j) He).
    2:{ unfold on_ep_jobs, ch_recv. by rewrite Hb, Hc. }
    destruct (sent i); cbn [negb].
    + rewrite exec_bind, (exec_read_msg _ v) by done.
      rewrite exec_bind, (exec_node_set _ _ _ _ e1) by apply lookup_insert_eq.
      rewrite exec_bind, exec_do_stats, exec_bind, (exec_read_msg _ v) by done.
      rewrite exec_bind, exec_do_stats. cbn [exec].
      apply (IH _ _ _ (set_ep_wire (ep_wire e1 ++ [v]) e1)); [done|apply lookup_insert_eq|done|done|lia].
    + eexists _, e1. split; [reflexivity|]. split; [apply lookup_insert_eq|done].
Qed.

Lemma exec_ep_defer_returned host s s' :
  exec (ep_defer host) s = Returned s' tt ->
  exists e, srv_nodes s' !! host = Some e /\ ch_closed (ep_jobs e) = true.
Proof.
  unfold ep_defer. rewrite exec_bind. unfold on_node at 1. rewrite exec_atomic.
  destruct (srv_nodes s !! host) as [e|] eqn:He; [|done].
  rewrite exec_bind, (exec_node_set _ _ _ _ (set_ep_connected false e)) by apply lookup_insert_eq.
  unfold on_node. rewrite exec_atomic. cbn [srv_nodes set_nodes]. rewrite lookup_insert_eq.
  unfold on_ep_jobs, ch_close. destruct (ch_closed _); [done|]. intros [= <-].
  eexists. split; [apply lookup_insert_eq|done].
Qed.

(** A session that ended has closed its queue. *)
Lemma exec_runSession_returned host dialed sent fuel s s' :
  exec (runSession host dialed sent fuel) s = Returned s' true ->
  exists e, srv_nodes s' !! host = Some e /\ ch_closed (ep_jobs e) = true.
Proof.
  unfold runSession. rewrite exec_bind. destruct (exec (ep_dial host dialed) s) as [s1 []| |]; try done.
  assert (forall s2, exec (ep_defer host;;; Ret true) s2 = Returned s' true ->
    exists e, srv_nodes s' !! host = Some e /\ ch_closed (ep_jobs e) = true) as Hd.
  { intros s2. rewrite exec_bind. destruct (exec (ep_defer host) s2) as [s3 []| |] eqn:Ed; try done.
    simpl. intros [= <-]. by eapply exec_ep_defer_returned. }
  destruct dialed; cbn [negb]; [|apply Hd].
  rewrite exec_bind. destruct (exec (ep_loop _ _ _ _) s1) as [s2 []| |]; try done. apply Hd.
Qed.

Lemma exec_ep_dial host dialed s e :
  srv_nodes s !! host = Some e ->
  exists s' e', exec (ep_dial host dialed) s = Returned s' tt /\ srv_heap s' = srv_heap s /\
    srv_nodes s' !! host = Some e' /\ ep_jobs e' = ep_jobs e.
Proof.
  intros He. unfold ep_dial. rewrite exec_bind, (exec_node_set _ _ _ _ e He).
  destruct dialed.
  - rewrite (exec_node_set _ _ _ _ (set_ep_connected true e)) by apply lookup_insert_eq.
    eexists _, _. split; [reflexivity|]. split; [done|]. split; [apply lookup_insert_eq|done].
  - eexists _, _. split; [reflexivity|]. split; [done|]. split; [apply lookup_insert_eq|done].
Qed.

(** A session on a closed queue closes it again. *)
Lemma exec_runSession_closed host dialed sent fuel s e :
  srv_nodes s !! host = Some e -> ch_closed (ep_jobs e) = true ->
  Forall (fun j => is_Some (view (srv_heap s) (job_m j))) (ch_buf (ep_jobs e)) ->
  length (ch_buf (ep_jobs e)) < fuel ->
  exists s', exec (runSession host dialed sent fuel) s = Crashed s' CloseOfClosed.
Proof.
  intros He Hc Hview Hf. destruct (exec_ep_dial host dialed s e He) as (s2 & e2 & Ed & Hh & He2 & Hj).
  unfold runSession. rewrite exec_bind, Ed. destruct dialed; cbn [negb]; rewrite exec_bind.
  - destruct (exec_ep_loop_closed host sent fuel 0 s2 e2 He2) as (s3 & e3 & El & He3 & Hc3);
      [by rewrite Hj|by rewrite Hj, Hh|by rewrite Hj|].
    rewrite El, exec_bind. destruct (exec_ep_defer_closed host s3 e3 He3 Hc3) as [s4 ->]. by eexists.
  - destruct (exec_ep_defer_closed host s2 e2 He2) as [s4 ->]; [by rewrite Hj|]. by eexists.
Qed.

Lemma exec_node_running host s e : srv_nodes s !! host = Some e ->
  exec (on_node host (fun e => Done e (ep_running e))) s = Returned s (ep_running e).
Proof. intros He. erewrite exec_on_node; [|done|reflexivity]. by rewrite (set_nodes_id _ _ _ He). Qed.

(** [n] replications to the only peer, which has room for them. *)
Lemma exec_replicate_only host e ps s :
  srv_nodes s = {[host := e]} -> ep_alive e = true -> ch_closed (ep_jobs e) = false ->
  length (ch_buf (ep_jobs e)) + length ps <= ch_cap (ep_jobs e) ->
  exec (for_each ps replicate_pub) s =
  Returned (set_nodes {[host := set_ep_jobs
    (Chan (ch_buf (ep_jobs e) ++ ((fun p => Job (MPublish p) None) <$> ps)) (ch_cap (ep_jobs e)) false) e]}
    s) tt.
Proof.
  revert e s. induction ps as [|p ps IH]; intros e s Hn Ha Hc Hl; simpl in Hl.
  - simpl. rewrite app_nil_r. rewrite <- Hc.
    assert (set_ep_jobs (Chan (ch_buf (ep_jobs e)) (ch_cap (ep_jobs e)) (ch_closed (ep_jobs e))) e = e)
      as -> by (by destruct e as [? ? ? [] ? ? ?]).
    rewrite <- Hn. by destruct s.
  - cbn [for_each]. rewrite exec_bind, exec_replicate.
    2:{ intros h e'. rewrite Hn, lookup_singleton. case_decide; [|done]. intros [= <-] _.
        split; [done|]. intros _. lia. }
    rewrite Hn, map_fmap_singleton. unfold offer_ep at 1. rewrite Ha. cbn [andb].
    rewrite (proj2 (Nat.ltb_lt _ _)) by lia.
    rewrite (IH (set_ep_jobs (Chan (ch_buf (ep_jobs e) ++ [Job (MPublish p) None])
                               (ch_cap (ep_jobs e)) false) e)); [|done..|].
    + simpl. by rewrite <- (assoc_L app).
    + simpl. rewrite length_app. simpl. lia.
Qed.

(** A full peer with the block strategy blocks the replication. *)
Lemma exec_replicate_full host e p s :
  srv_nodes s = {[host := e]} -> ep_alive e = true -> ch_closed (ep_jobs e) = false ->
  ch_cap (ep_jobs e) <= length (ch_buf (ep_jobs e)) ->
  PeersBuffOverflowStrategy (ep_cf e) = BufferOverflowBlock ->
  exists rest, exec (replicate_pub p) s = Stuck s rest.
Proof.
  intros Hn Ha Hc Hl Hb. unfold replicate_pub. rewrite exec_bind, exec_reads, Hn, map_to_list_singleton.
  assert (range_order [(host, e)].*1 = [host]) as ->.
  { apply Permutation_singleton_r, range_order_perm. }
  assert (srv_nodes s !! host = Some e) as He by (by rewrite Hn, lookup_singleton_eq).
  cbn [for_each]. rewrite exec_bind. unfold ep_submit.
  rewrite exec_bind. erewrite exec_on_node; [|done|reflexivity]. rewrite (set_nodes_id _ _ _ He), Ha.
  cbn [negb]. rewrite exec_bind. erewrite exec_on_node; [|done|reflexivity].
  rewrite (set_nodes_id _ _ _ He), Hb. cbn -[exec].
  unfold on_node. rewrite exec_atomic, He. unfold on_ep_jobs, ch_send.
  rewrite Hc, (proj2 (Nat.ltb_ge _ _) Hl). by eexists.
Qed.
End Peers.

#[local] Existing Instance doubling_runtime.
#[local] Existing Instance bytes_mqttmsg.
#[local] Existing Instance plain_extern.

(** A broker whose configuration for peers has a queue of two and blocks, and the
    same broker after "peer" joined and one session with it ended. *)
Module DemoPeers.
Definition peers_cf : PeersConfig := Build_PeersConfig 1 ":9090" false false 0 false 2 "block".
Definition server : Server := Eval vm_compute in
  let s := Demo.session_block in
  MkServer (Build_Config (Broker (srv_cf s)) peers_cf zero_RedisConfig)
    [Demo.publish_msg "t" QosAtMostOnce false 0 "x"] (srv_conns s) (srv_clients s) (srv_stores s)
    (srv_subs s) ∅ (srv_stats s) [] [] [] 0.
Definition joined : Server := Eval vm_compute in
  Demo.ok_state (exec (join "peer";;; replicate_pub 0) server) server.
Definition ended : Server := Eval vm_compute in
  Demo.ok_state (exec (runSession "peer" true (fun _ => false) 1) joined) joined.
Definition peer_of (s : Server) : endpoint :=
  default (Endpoint peers_cf "" false (make_chan 0) false false []) (srv_nodes s !! "peer").
Definition joined_peer : endpoint := Eval vm_compute in peer_of joined.
Definition ended_peer : endpoint := Eval vm_compute in peer_of ended.
End DemoPeers.

(** ** Properties *)

(** An endpoint cannot restart.  [start] on a running endpoint, when its first
    session ends and nothing has stopped the endpoint, panics in the second session
    whatever happens to the network: the session may drain what is left in the queue,
    but it closes the queue a second time. *)
Theorem endpoint_restart_panics `{GoRuntime} `{Extern} (host : string) (s s1 : Server)
    (dialed dialed' : bool) (sent sent' : nat -> bool) (fuel fuel' : nat)
    (rest : list (bool * (nat -> bool) * nat)) (e e1 : endpoint)
    (He : srv_nodes s !! host = Some e) (Hr : ep_running e = true)
    (Hend : exec (runSession host dialed sent fuel) s = Returned s1 true)
    (He1 : srv_nodes s1 !! host = Some e1) (Hr1 : ep_running e1 = true)
    (Hv : Forall (fun j => is_Some (view (srv_heap s1) (job_m j))) (ch_buf (ep_jobs e1)))
    (Hf : length (ch_buf (ep_jobs e1)) < fuel') :
  exists s2, exec (ep_start host ((dialed, sent, fuel) :: (dialed', sent', fuel') :: rest)) s =
             Crashed s2 CloseOfClosed.
Proof.
  cbn [ep_start]. rewrite exec_bind, (exec_node_running _ _ e He), Hr. cbn [negb].
  rewrite exec_bind, Hend, exec_bind, (exec_node_running _ _ e1 He1), Hr1. cbn [negb].
  destruct (exec_runSession_returned _ _ _ _ _ _ Hend) as (e2 & He2 & Hc).
  rewrite He1 in He2. injection He2 as <-.
  rewrite exec_bind. destruct (exec_runSession_closed host dialed' sent' fuel' s1 e1) as [s2 ->]; try done.
  by exists s2.
Qed.

Lemma endpoint_restart_panics_witness :
  exec (runSession "peer" true (fun _ => false) 1) DemoPeers.joined = Returned DemoPeers.ended true /\
  exists s2, exec (ep_start "peer" [(true, fun _ => false, 1); (false, fun _ => true, 5)]) DemoPeers.joined =
             Crashed s2 CloseOfClosed.
Proof.
  assert (exec (runSession "peer" true (fun _ => false) 1) DemoPeers.joined =
          Returned DemoPeers.ended true) as Hend by (vm_compute; reflexivity).
  split; [exact Hend|].
  apply (endpoint_restart_panics "peer" DemoPeers.joined DemoPeers.ended true false (fun _ => false)
    (fun _ => true) 1 5 [] DemoPeers.joined_peer DemoPeers.ended_peer); try reflexivity.
  - constructor.
  - vm_compute. lia.
Defined.

(** The publications among the messages of a peer. *)
Definition publications `{Mqttmsg} (vs : list (Message Publish)) : list Publish :=
  omap (fun v => match v with MPublish m => Some m | _ => None end) vs.

Lemma exec_replay_msgs `{GoRuntime} `{Extern} (vs : list (Message Publish)) (s : Server) :
  let q := posts (srv_subs s) in
  ch_closed q = false -> length (ch_buf q) + length (publications vs) <= ch_cap q ->
  exec (for_each vs replay_msg) s =
  Returned (set_subs (set_posts (Chan (ch_buf q ++ seq (length (srv_heap s)) (length (publications vs)))
                                   (ch_cap q) false) (srv_subs s))
             (set_heap (srv_heap s ++ publications vs) s)) tt.
Proof.
  revert s. induction vs as [|v vs IH]; intros s q Hc Hl.
  - cbn. rewrite !app_nil_r. unfold q in *. destruct s as [? ? ? ? ? [[] ? ? ? ? ?]]. cbn in *. by rewrite Hc.
  - cbn [for_each]. rewrite exec_bind. unfold replay_msg at 1.
    destruct v as [m|rc|p|q0 mid|mid ts|mid qs|mid ts|mid| | | |]; try (by apply IH).
    change (publications (MPublish p :: vs)) with (p :: publications vs) in *. cbn [length] in Hl.
    rewrite exec_bind. cbn [alloc_msg]. unfold alloc. rewrite exec_bind, exec_atomic. cbn [exec].
    rewrite exec_subs_submit by (split; [done|cbn; fold q; lia]).
    rewrite IH; [|done|cbn; fold q; rewrite length_app; cbn; lia].
    cbn. by rewrite length_app, Nat.add_1_r, <- !(assoc_L app).
Qed.

(** A connection from another broker.  With room in the queue of the workers, every
    PUBLISH of the peer is put in memory and posted, in order, after the posts already
    there; every other message changes nothing; none is replicated again, no client is
    touched, and the count of peers ends where it began. *)
Theorem replay_posts_without_replicating `{GoRuntime} `{Extern} (vs : list (Message Publish)) (s : Server)
    (Hc : ch_closed (posts (srv_subs s)) = false)
    (Hl : length (ch_buf (posts (srv_subs s))) + length (publications vs) <= ch_cap (posts (srv_subs s)))
    (Hp : in_int64 (peers (srv_stats s))) :
  exists s', exec (peer_accept;;; replay vs) s = Returned s' tt /\
    srv_heap s' = srv_heap s ++ publications vs /\
    ch_buf (posts (srv_subs s')) =
      ch_buf (posts (srv_subs s)) ++ seq (length (srv_heap s)) (length (publications vs)) /\
    srv_conns s' = srv_conns s /\ srv_nodes s' = srv_nodes s /\
    peers (srv_stats s') = peers (srv_stats s).
Proof.
  unfold peer_accept, replay, replay_defer. rewrite exec_bind, exec_do_stats, exec_bind.
  rewrite exec_replay_msgs by done. rewrite exec_do_stats. eexists. split; [reflexivity|].
  do 4 (split; [done|]). cbn. rewrite wrap64_add_l. rewrite wrap64_id; [lia|]. unfold in_int64 in *. lia.
Qed.

Lemma replay_posts_without_replicating_witness :
  exists s', exec (peer_accept;;; replay [MPingReq; MPublish (Demo.publish_msg "t" QosAtMostOnce false 0 "x")])
               Demo.session_block = Returned s' tt /\
    ch_buf (posts (srv_subs s')) = [0] /\ srv_nodes s' = ∅.
Proof.
  destruct (replay_posts_without_replicating
    [MPingReq; MPublish (Demo.publish_msg "t" QosAtMostOnce false 0 "x")] Demo.session_block)
    as (s' & E & _ & Hb & _ & Hn & _).
  - reflexivity.
  - vm_compute. lia.
  - split; vm_compute; congruence.
  - exists s'. split; [exact E|]. split; [exact Hb|exact Hn].
Defined.

(** A peer that joined blocks the broker under the block strategy.  [join]
    registers an alive endpoint but nothing runs its session: after as many
    publications as its queue is long, the next replication blocks. *)
Theorem joined_peer_blocks_replication `{GoRuntime} `{Extern} (host : string) (ps : list ptr) (p : ptr)
    (s : Server)
    (Hnone : srv_nodes s = ∅) (Hq : (0 <= QueueLen (Peers (srv_cf s)))%Z)
    (Hb : PeersBuffOverflowStrategy (Peers (srv_cf s)) = BufferOverflowBlock)
    (Hn : Z.of_nat (length ps) = QueueLen (Peers (srv_cf s))) :
  exists s1 s2 rest, exec (join host) s = Returned s1 None /\
    exec (for_each ps replicate_pub) s1 = Returned s2 tt /\
    exec (replicate_pub p) s2 = Stuck s2 rest.
Proof.
  unfold join. rewrite exec_atomic, Hnone, lookup_empty. unfold newEndpoint.
  rewrite (proj2 (Z.ltb_ge _ _) Hq). eexists. cbn [insert_empty].
  set (e := Endpoint _ _ _ _ _ _ _). set (s1 := set_nodes _ s).
  assert (srv_nodes s1 = {[host := e]}) as Hs1 by (subst s1; simpl; by rewrite insert_empty).
  assert (ch_cap (ep_jobs e) = length ps) as Hcap by (subst e; simpl; lia).
  eexists. rewrite (exec_replicate_only host e ps s1 Hs1); [|done|done|simpl; lia].
  match goal with |- context [set_ep_jobs ?q e] => set (e2 := set_ep_jobs q e) end.
  destruct (exec_replicate_full host e2 p (set_nodes {[host := e2]} s1)) as [rest Er]; try done.
  - cbn [e2 ep_jobs set_ep_jobs ch_cap ch_buf e make_chan app]. rewrite length_fmap. lia.
  - exists rest. done.
Qed.

Lemma joined_peer_blocks_replication_witness :
  exists s1 s2 rest, exec (join "peer") DemoPeers.server = Returned s1 None /\
    exec (for_each [0; 0] replicate_pub) s1 = Returned s2 tt /\
    exec (replicate_pub 0) s2 = Stuck s2 rest.
Proof.
  apply (joined_peer_blocks_replication "peer" [0; 0] 0 DemoPeers.server); try reflexivity.
  vm_compute. discriminate.
Defined.
