(* ===== verification/Client.v ===== *)
(** * The client library (src/broker/api.go)

    The state of a [ClientConn] and the bodies of its methods and goroutines.  Its
    acknowledgement channels are unbuffered: a send offers a value and completes
    when a receiver has taken it. *)

From Stdlib Require Import ZArith Lia.
From stdpp Require Import base gmap list strings numbers sets.
From S2P Require Import Prelude GoString GoProc GoSlice Config Proto Store Stats Broker Session SessionFacts Lifecycle.

Local Open Scope string_scope.
Local Open Scope list_scope.

(** ** Unbuffered channels *)

Record rendezvous (A : Type) := Rendezvous { rv_offer : option A; rv_closed : bool }.
Arguments Rendezvous {A}.
Arguments rv_offer {A}.
Arguments rv_closed {A}.

Definition new_rendezvous {A} : rendezvous A := Rendezvous None false.

(** The two halves of [c <- x]: the offer, and its end when it was taken.  Every
    such channel of a client has one sender, so the offer it waits on is its own. *)
Definition rv_put {A} (x : A) (q : rendezvous A) : astep (rendezvous A) unit :=
  if rv_closed q then Panicked SendOnClosed
  else match rv_offer q with
       | Some _ => Blocked
       | None => Done (Rendezvous (Some x) false) tt
       end.
Definition rv_sent {A} (q : rendezvous A) : astep (rendezvous A) unit :=
  match rv_offer q with
  | Some _ => if rv_closed q then Panicked SendOnClosed else Blocked
  | None => Done q tt
  end.

(** [<-c]; [None] on a closed channel. *)
Definition rv_recv {A} (q : rendezvous A) : astep (rendezvous A) (option A) :=
  if rv_closed q then Done q None
  else match rv_offer q with
       | Some x => Done new_rendezvous (Some x)
       | None => Blocked
       end.

Definition rv_close {A} (q : rendezvous A) : astep (rendezvous A) unit :=
  if rv_closed q then Panicked CloseOfClosed else Done (Rendezvous (rv_offer q) true) tt.

Section Client.
Context `{Mqttmsg}.

(** ** State *)

Record cjob := CJob { cj_m : Message Publish; cj_r : option nat }.

Record ClientConn := MkClientConn {
  cc_ClientId : string;
  cc_KeepAlive : Z;                           (* uint16, seconds *)
  cc_Incoming : chan Publish;
  cc_lastOpTime : option Z;                   (* nanoseconds; [None] is the zero time *)
  cc_out : chan cjob;
  cc_done : bool;                             (* doneChan is closed *)
  cc_puback : rendezvous (QosLevel * N);
  cc_connack : rendezvous ReturnCode;
  cc_suback : rendezvous (N * list QosLevel);
  cc_receipts : list bool;
  cc_wire : list (Message Publish);
  cc_netClosed : bool;
  cc_keepalives : nat;                        (* keep-alive goroutines started *)
  cc_clock : Z                                (* nanoseconds *)
}.

Implicit Types s : ClientConn.

Definition set_ClientId v s := MkClientConn v (cc_KeepAlive s) (cc_Incoming s) (cc_lastOpTime s)
  (cc_out s) (cc_done s) (cc_puback s) (cc_connack s) (cc_suback s) (cc_receipts s) (cc_wire s)
  (cc_netClosed s) (cc_keepalives s) (cc_clock s).
Definition set_Incoming v s := MkClientConn (cc_ClientId s) (cc_KeepAlive s) v (cc_lastOpTime s)
  (cc_out s) (cc_done s) (cc_puback s) (cc_connack s) (cc_suback s) (cc_receipts s) (cc_wire s)
  (cc_netClosed s) (cc_keepalives s) (cc_clock s).
Definition set_opTime v s := MkClientConn (cc_ClientId s) (cc_KeepAlive s) (cc_Incoming s) v
  (cc_out s) (cc_done s) (cc_puback s) (cc_connack s) (cc_suback s) (cc_receipts s) (cc_wire s)
  (cc_netClosed s) (cc_keepalives s) (cc_clock s).
Definition set_out v s := MkClientConn (cc_ClientId s) (cc_KeepAlive s) (cc_Incoming s) (cc_lastOpTime s)
  v (cc_done s) (cc_puback s) (cc_connack s) (cc_suback s) (cc_receipts s) (cc_wire s)
  (cc_netClosed s) (cc_keepalives s) (cc_clock s).
Definition set_done v s := MkClientConn (cc_ClientId s) (cc_KeepAlive s) (cc_Incoming s) (cc_lastOpTime s)
  (cc_out s) v (cc_puback s) (cc_connack s) (cc_suback s) (cc_receipts s) (cc_wire s)
  (cc_netClosed s) (cc_keepalives s) (cc_clock s).
Definition set_puback v s := MkClientConn (cc_ClientId s) (cc_KeepAlive s) (cc_Incoming s) (cc_lastOpTime s)
  (cc_out s) (cc_done s) v (cc_connack s) (cc_suback s) (cc_receipts s) (cc_wire s)
  (cc_netClosed s) (cc_keepalives s) (cc_clock s).
Definition set_connack v s := MkClientConn (cc_ClientId s) (cc_KeepAlive s) (cc_Incoming s) (cc_lastOpTime s)
  (cc_out s) (cc_done s) (cc_puback s) v (cc_suback s) (cc_receipts s) (cc_wire s)
  (cc_netClosed s) (cc_keepalives s) (cc_clock s).
Definition set_suback v s := MkClientConn (cc_ClientId s) (cc_KeepAlive s) (cc_Incoming s) (cc_lastOpTime s)
  (cc_out s) (cc_done s) (cc_puback s) (cc_connack s) v (cc_receipts s) (cc_wire s)
  (cc_netClosed s) (cc_keepalives s) (cc_clock s).
Definition set_cc_receipts v s := MkClientConn (cc_ClientId s) (cc_KeepAlive s) (cc_Incoming s) (cc_lastOpTime s)
  (cc_out s) (cc_done s) (cc_puback s) (cc_connack s) (cc_suback s) v (cc_wire s)
  (cc_netClosed s) (cc_keepalives s) (cc_clock s).
Definition set_cc_wire v s := MkClientConn (cc_ClientId s) (cc_KeepAlive s) (cc_Incoming s) (cc_lastOpTime s)
  (cc_out s) (cc_done s) (cc_puback s) (cc_connack s) (cc_suback s) (cc_receipts s) v
  (cc_netClosed s) (cc_keepalives s) (cc_clock s).
Definition set_cc_netClosed v s := MkClientConn (cc_ClientId s) (cc_KeepAlive s) (cc_Incoming s) (cc_lastOpTime s)
  (cc_out s) (cc_done s) (cc_puback s) (cc_connack s) (cc_suback s) (cc_receipts s) (cc_wire s)
  v (cc_keepalives s) (cc_clock s).
Definition set_keepalives v s := MkClientConn (cc_ClientId s) (cc_KeepAlive s) (cc_Incoming s) (cc_lastOpTime s)
  (cc_out s) (cc_done s) (cc_puback s) (cc_connack s) (cc_suback s) (cc_receipts s) (cc_wire s)
  (cc_netClosed s) v (cc_clock s).

(** [NewClientConn(c, queueLength)] at time [now]; the caller sets [ClientId] and
    [KeepAlive]. *)
Definition NewClientConn (queueLength : nat) (clientId : string) (keepAlive now : Z) : ClientConn :=
  MkClientConn clientId keepAlive (make_chan queueLength) None (make_chan queueLength) false
    new_rendezvous new_rendezvous new_rendezvous [] [] false 0 now.

(** An operation on one of the channels. *)
Definition on_field {C A} (get : ClientConn -> C) (set : C -> ClientConn -> ClientConn)
    (op : C -> astep C A) : proc ClientConn A :=
  atomic (fun s => match op (get s) with
                   | Done q a => Done (set q s) a
                   | Blocked => Blocked
                   | Panicked w => Panicked w
                   end).

Notation on_out op := (on_field cc_out set_out op).

(** ** Methods *)

(** The send of a message that waits until it was sent. *)
Definition sync (m : Message Publish) : proc ClientConn unit :=
  r <- atomic (fun s => Done (set_cc_receipts (cc_receipts s ++ [false]) s) (length (cc_receipts s)));;
  on_out (ch_send (CJob m (Some r)));;;
  atomic (fun s => if decide (cc_receipts s !! r = Some true) then Done s tt else Blocked).

(** The CONNECT that [Connect] sends. *)
Definition connect_request (clientId : string) (keepAlive : Z) (user pass : string) : Connect := {|
  ProtocolName := protocolName;
  ProtocolVersion := protocolVersion;
  ClientId := clientId;
  CleanSession := true;
  KeepAliveTimer := keepAlive;
  UsernameFlag := negb (user =s "");
  PasswordFlag := negb (user =s "");
  Username := user;
  Password := if user =s "" then "" else pass;
  WillFlag := false
|}.

(** [Connect(user, pass)]; [rnd] is what [clientIdRand.Int63()] returns and [errors]
    is the table [proto.ConnectionErrors]. *)
Definition client_Connect {E} (errors : ReturnCode -> E) (user pass : string) (rnd : Z)
    : proc ClientConn E :=
  id <- reads cc_ClientId;;
  (if id =s "" then modify (set_ClientId (Itoa_Z rnd)) else Ret tt);;;
  req <- reads (fun s => connect_request (cc_ClientId s) (cc_KeepAlive s) user pass);;
  (if (0 <? KeepAliveTimer req)%Z then modify (fun s => set_keepalives (S (cc_keepalives s)) s)
   else Ret tt);;;
  sync (MConnect req);;;
  ack <- on_field cc_connack set_connack rv_recv;;
  match ack with
  | Some rc => Ret (errors rc)
  | None => panics NilDeref
  end.

Definition client_Disconnect : proc ClientConn unit :=
  sync MDisconnect;;;
  atomic (fun s => if cc_done s then Done s tt else Blocked).

(** The result is nil when the connection ended. *)
Definition client_Subscribe (topics : list (string * QosLevel))
    : proc ClientConn (option (N * list QosLevel)) :=
  sync (MSubscribe 0 topics);;;
  on_field cc_suback set_suback rv_recv.

Definition client_Unsubscribe (mid : N) (topics : list string) : proc ClientConn unit :=
  on_out (ch_send (CJob (MUnsubscribe mid topics) None)).

Definition client_Publish (m : Publish) : proc ClientConn unit :=
  on_out (ch_send (CJob (MPublish m) None));;;
  match Qos (PubHeader m) with
  | QosAtMostOnce => Ret tt
  | QosAtLeastOnce => on_field cc_puback set_puback rv_recv;;; Ret tt
  | QosExactlyOnce => panics (UserPanic "not supported QoS")
  | QosInvalid _ => Ret tt
  end.

Definition client_refreshOpTime : proc ClientConn unit :=
  modify (fun s => set_opTime (Some (cc_clock s)) s).

(** ** Keep-alive *)

(** The largest [time.Duration]. *)
Definition max_Duration : Z := 2 ^ 63 - 1.

(** [time.Since(last)], which saturates. *)
Definition Since (now : Z) (last : option Z) : Z :=
  match last with
  | Some t => Z.max (- 2 ^ 63) (Z.min max_Duration (now - t))
  | None => max_Duration
  end.

(** How long a turn of [runKeepAlive] sleeps. *)
Definition keepalive_sleep (now : Z) (last : option Z) (interval : Z) : Z :=
  let idle := Since now last in
  if (idle <? interval)%Z then interval else idle.

(** One turn of [runKeepAlive], with the interval computed when it started; [tick]
    says which case of the select is taken. *)
Definition keepalive_turn (interval : Z) (tick : bool) : proc ClientConn flow :=
  wake <- reads (fun s =>
    (cc_clock s + keepalive_sleep (cc_clock s) (cc_lastOpTime s) interval)%Z);;
  atomic (fun s => if (wake <=? cc_clock s)%Z then Done s tt else Blocked);;;
  if tick then on_out (ch_send (CJob MPingReq None));;; Ret Continue
  else atomic (fun s => if cc_done s then Done s Return else Blocked).

(** ** The loops *)

(** One turn of [inboundLoop] with the decoded message. *)
Definition client_inbound_msg (v : Message Publish) : proc ClientConn flow :=
  client_refreshOpTime;;;
  match v with
  | MPublish m => on_field cc_Incoming set_Incoming (ch_send m);;; Ret Continue
  | MPubAck q mid => on_field cc_puback set_puback (rv_put (q, mid));;;
                     on_field cc_puback set_puback rv_sent;;; Ret Continue
  | MConnAck rc => on_field cc_connack set_connack (rv_put rc);;;
                   on_field cc_connack set_connack rv_sent;;; Ret Continue
  | MSubAck mid qs => on_field cc_suback set_suback (rv_put (mid, qs));;;
                      on_field cc_suback set_suback rv_sent;;; Ret Continue
  | MDisconnect => Ret Return
  | _ => Ret Continue
  end.

(** The deferred function of [inboundLoop]. *)
Definition client_inbound_defer : proc ClientConn unit :=
  on_out ch_close;;;
  on_field cc_Incoming set_Incoming ch_close;;;
  on_field cc_connack set_connack rv_close;;;
  on_field cc_suback set_suback rv_close;;;
  on_field cc_puback set_puback rv_close.

(** One turn of [outboundLoop]; [sent] says whether [Encode] succeeds. *)
Definition client_outbound_job (sent : bool) : proc ClientConn flow :=
  x <- on_out ch_recv;;
  match x with
  | None => Ret Return
  | Some j =>
      (if sent then modify (fun s => set_cc_wire (cc_wire s ++ [cj_m j]) s) else Ret tt);;;
      match cj_r j with
      | Some r => atomic (fun s => if decide (cc_receipts s !! r = Some true) then Panicked CloseOfClosed
                                   else Done (set_cc_receipts (<[r := true]> (cc_receipts s)) s) tt)
      | None => Ret tt
      end;;;
      if negb sent then Ret Return
      else
        client_refreshOpTime;;;
        match cj_m j with
        | MDisconnect => Ret Return
        | _ => Ret Continue
        end
  end.

(** The deferred function of [outboundLoop]. *)
Definition client_outbound_defer : proc ClientConn unit :=
  modify (set_cc_netClosed true);;;
  atomic (fun s => if cc_done s then Panicked CloseOfClosed else Done (set_done true s) tt).

(** ** Lemmas *)

Definition room (q : chan cjob) : Prop := ch_closed q = false /\ length (ch_buf q) < ch_cap q.

(** The client after a message was queued. *)
Definition queued (j : cjob) s : ClientConn :=
  set_out (Chan (ch_buf (cc_out s) ++ [j]) (ch_cap (cc_out s)) false) s.

Lemma exec_on_field {C A} get set (op : C -> astep C A) s q a :
  op (get s) = Done q a -> exec (on_field get set op) s = Returned (set q s) a.
Proof. intros Hop. unfold on_field. rewrite exec_atomic. by rewrite Hop. Qed.

Lemma exec_queue j s : room (cc_out s) -> exec (on_out (ch_send j)) s = Returned (queued j s) tt.
Proof.
  intros [Hc Hl]. unfold queued. apply exec_on_field. unfold ch_send. rewrite Hc.
  by apply Nat.ltb_lt in Hl as ->.
Qed.

Lemma exec_queue_closed j s :
  ch_closed (cc_out s) = true -> exec (on_out (ch_send j)) s = Crashed s SendOnClosed.
Proof.
  intros Hc. unfold on_field. rewrite exec_atomic. unfold ch_send. by rewrite Hc.
Qed.

(** What is left of [sync] when its message is queued. *)
Definition sync_wait (r : nat) : proc ClientConn unit :=
  atomic (fun s => if decide (cc_receipts s !! r = Some true) then Done s tt else Blocked).

(** The client after [sync] queued its message. *)
Definition syncing (m : Message Publish) s : ClientConn :=
  queued (CJob m (Some (length (cc_receipts s)))) (set_cc_receipts (cc_receipts s ++ [false]) s).

Lemma exec_sync m s :
  room (cc_out s) ->
  exec (sync m) s = Stuck (syncing m s) (sync_wait (length (cc_receipts s))).
Proof.
  intros Hr. unfold sync. rewrite exec_bind, exec_atomic. cbn iota beta.
  rewrite exec_bind, exec_queue by exact Hr.
  rewrite exec_atomic. cbn [queued set_out cc_receipts set_cc_receipts].
  rewrite lookup_app_r, Nat.sub_diag by lia. by case_decide.
Qed.

Lemma exec_sync_closed m s :
  ch_closed (cc_out s) = true -> exists s', exec (sync m) s = Crashed s' SendOnClosed.
Proof.
  intros Hc. eexists. unfold sync. rewrite exec_bind, exec_atomic. cbn iota beta.
  by rewrite exec_bind, exec_queue_closed.
Qed.

Lemma exec_sync_wait r s : cc_receipts s !! r = Some true -> exec (sync_wait r) s = Returned s tt.
Proof. intros Hr. unfold sync_wait. rewrite exec_atomic. by rewrite decide_True. Qed.

(** A generated client id fits the limit of the broker. *)
Lemma generated_id_ok rnd :
  (0 <= rnd < 2 ^ 63)%Z -> 1 <= String.length (Itoa_Z rnd) <= maxClientIdLength.
Proof.
  intros Hr. rewrite Itoa_Z_nonneg by lia. split.
  - pose proof (Itoa_nonempty (Z.to_N rnd)) as Hne.
    destruct (Itoa (Z.to_N rnd)); [done|simpl; lia].
  - transitivity 19; [|unfold maxClientIdLength; lia].
    apply Itoa_length; [lia|].
    assert (10 ^ N.of_nat 19 = Z.to_N (10 ^ 19))%N as -> by done. lia.
Qed.

(** The id a client connects with, and the client once [Connect] chose it and
    started the keep-alive goroutine. *)
Definition chosen_id (rnd : Z) s : string :=
  if cc_ClientId s =s "" then Itoa_Z rnd else cc_ClientId s.
Definition prepared (rnd : Z) s : ClientConn :=
  let s := set_ClientId (chosen_id rnd s) s in
  if (0 <? cc_KeepAlive s)%Z then set_keepalives (S (cc_keepalives s)) s else s.

(** What is left of [Connect] when its message is queued. *)
Definition connect_wait {E} (errors : ReturnCode -> E) (r : nat) : proc ClientConn E :=
  sync_wait r;;;
  ack <- on_field cc_connack set_connack rv_recv;;
  match ack with
  | Some rc => Ret (errors rc)
  | None => panics NilDeref
  end.

Lemma exec_client_Connect {E} (errors : ReturnCode -> E) user pass rnd s :
  room (cc_out s) ->
  exec (client_Connect errors user pass rnd) s =
  Stuck (syncing (MConnect (connect_request (chosen_id rnd s) (cc_KeepAlive s) user pass))
           (prepared rnd s))
        (connect_wait errors (length (cc_receipts s))).
Proof.
  intros Hr. unfold client_Connect, prepared, chosen_id. destruct s as [id ka].
  cbn [cc_ClientId cc_KeepAlive cc_receipts cc_out] in *.
  rewrite exec_bind, exec_reads. cbn [cc_ClientId]. rewrite exec_bind.
  destruct (id =s ""); [rewrite exec_modify|cbn [exec]];
    rewrite exec_bind, exec_reads; cbn [cc_ClientId cc_KeepAlive set_ClientId KeepAliveTimer connect_request];
    rewrite exec_bind; (destruct (0 <? ka)%Z; [rewrite exec_modify|cbn [exec]]);
    rewrite exec_bind, exec_sync by exact Hr; reflexivity.
Qed.

Lemma exec_sync_bind_closed {A} m (k : unit -> proc ClientConn A) s :
  ch_closed (cc_out s) = true -> exists s', exec (bind (sync m) k) s = Crashed s' SendOnClosed.
Proof. intros Hc. destruct (exec_sync_closed m s Hc) as [s' E]. exists s'. by rewrite exec_bind, E. Qed.

Lemma exec_client_Connect_closed {E} (errors : ReturnCode -> E) user pass rnd s :
  ch_closed (cc_out s) = true ->
  exists s', exec (client_Connect errors user pass rnd) s = Crashed s' SendOnClosed.
Proof.
  intros Hc. unfold client_Connect. rewrite exec_bind, exec_reads, exec_bind.
  destruct (cc_ClientId s =s ""); [rewrite exec_modify|cbn [exec]];
    rewrite exec_bind, exec_reads, exec_bind;
    (destruct (0 <? _)%Z; [rewrite exec_modify|cbn [exec]]);
    by apply exec_sync_bind_closed.
Qed.

Lemma exec_connect_wait {E} (errors : ReturnCode -> E) r s :
  cc_receipts s !! r = Some true ->
  exec (connect_wait errors r) s =
  if rv_closed (cc_connack s) then Crashed (set_connack (cc_connack s) s) NilDeref
  else match rv_offer (cc_connack s) with
       | Some rc => Returned (set_connack new_rendezvous s) (errors rc)
       | None => Stuck s (ack <- on_field cc_connack set_connack rv_recv;;
                          match ack with Some rc => Ret (errors rc) | None => panics NilDeref end)
       end.
Proof.
  intros Hr. unfold connect_wait. rewrite exec_bind, exec_sync_wait by done.
  rewrite exec_bind. unfold on_field, rv_recv. rewrite exec_atomic.
  destruct (rv_closed _); [done|]. by destruct (rv_offer _).
Qed.

(** One turn of [outboundLoop] that sends a message another goroutine waits for. *)
Lemma exec_outbound_synced m r rest s :
  ch_buf (cc_out s) = CJob m (Some r) :: rest -> cc_receipts s !! r = Some false ->
  exec (client_outbound_job true) s =
  Returned (set_opTime (Some (cc_clock s)) (set_cc_receipts (<[r := true]> (cc_receipts s))
             (set_cc_wire (cc_wire s ++ [m])
               (set_out (Chan rest (ch_cap (cc_out s)) (ch_closed (cc_out s))) s))))
           (match m with MDisconnect => Return | _ => Continue end).
Proof.
  intros Hb Hr. unfold client_outbound_job. rewrite exec_bind.
  rewrite (exec_on_field _ _ _ _ (Chan rest (ch_cap (cc_out s)) (ch_closed (cc_out s)))
             (Some (CJob m (Some r)))) by (unfold ch_recv; by rewrite Hb).
  cbn [cj_m cj_r negb]. rewrite exec_bind, exec_modify, exec_bind, exec_atomic.
  rewrite decide_False by (intros Ht; change (cc_receipts s !! r = Some true) in Ht; congruence).
  rewrite exec_bind. unfold client_refreshOpTime. rewrite exec_modify. by destruct m.
Qed.

(** A message for a waiting goroutine: the turn of [inboundLoop] offers it. *)
Lemma exec_inbound_connack rc s :
  cc_connack s = new_rendezvous ->
  exec (client_inbound_msg (MConnAck rc)) s =
  Stuck (set_connack (Rendezvous (Some rc) false) (set_opTime (Some (cc_clock s)) s))
        (on_field cc_connack set_connack rv_sent;;; Ret Continue).
Proof.
  intros Hn. unfold client_inbound_msg, client_refreshOpTime. rewrite exec_bind, exec_modify.
  rewrite exec_bind, (exec_on_field _ _ _ _ (Rendezvous (Some rc) false) tt); [reflexivity|].
  cbn [set_opTime cc_connack]. by rewrite Hn.
Qed.

(** One turn of [outboundLoop] that sends a message nobody waits for. *)
Lemma exec_outbound_plain m rest s :
  ch_buf (cc_out s) = CJob m None :: rest -> m <> MDisconnect ->
  exec (client_outbound_job true) s =
  Returned (set_opTime (Some (cc_clock s)) (set_cc_wire (cc_wire s ++ [m])
             (set_out (Chan rest (ch_cap (cc_out s)) (ch_closed (cc_out s))) s))) Continue.
Proof.
  intros Hb Hm. unfold client_outbound_job. rewrite exec_bind.
  rewrite (exec_on_field _ _ _ _ (Chan rest (ch_cap (cc_out s)) (ch_closed (cc_out s)))
             (Some (CJob m None))) by (unfold ch_recv; by rewrite Hb).
  cbn [cj_m cj_r negb]. rewrite exec_bind, exec_modify, exec_bind. cbn [exec].
  rewrite exec_bind. unfold client_refreshOpTime. rewrite exec_modify. by destruct m.
Qed.

(** A publication for the client, with room in [Incoming]. *)
Lemma exec_inbound_incoming m s :
  ch_closed (cc_Incoming s) = false -> length (ch_buf (cc_Incoming s)) < ch_cap (cc_Incoming s) ->
  exec (client_inbound_msg (MPublish m)) s =
  Returned (set_Incoming (Chan (ch_buf (cc_Incoming s) ++ [m]) (ch_cap (cc_Incoming s)) false)
             (set_opTime (Some (cc_clock s)) s)) Continue.
Proof.
  intros Hc Hl. unfold client_inbound_msg, client_refreshOpTime. rewrite exec_bind, exec_modify.
  rewrite exec_bind, (exec_on_field _ _ _ _
    (Chan (ch_buf (cc_Incoming s) ++ [m]) (ch_cap (cc_Incoming s)) false) tt); [reflexivity|].
  cbn [set_opTime cc_Incoming]. by apply ch_send_room.
Qed.

(** An acknowledgement: the turn offers it. *)
Lemma exec_inbound_puback_offer q mid s :
  cc_puback s = new_rendezvous ->
  exec (client_inbound_msg (MPubAck q mid)) s =
  Stuck (set_puback (Rendezvous (Some (q, mid)) false) (set_opTime (Some (cc_clock s)) s))
        (on_field cc_puback set_puback rv_sent;;; Ret Continue).
Proof.
  intros Hn. unfold client_inbound_msg, client_refreshOpTime. rewrite exec_bind, exec_modify.
  rewrite exec_bind, (exec_on_field _ _ _ _ (Rendezvous (Some (q, mid)) false) tt); [reflexivity|].
  cbn [set_opTime cc_puback]. by rewrite Hn.
Qed.

(** [Publish] with QoS 1, up to the acknowledgement it waits for. *)
Definition publish_wait : proc ClientConn unit :=
  on_field cc_puback set_puback rv_recv;;; Ret tt.

Lemma exec_client_Publish_qos1 m s :
  room (cc_out s) -> cc_puback s = new_rendezvous -> Qos (PubHeader m) = QosAtLeastOnce ->
  exec (client_Publish m) s = Stuck (queued (CJob (MPublish m) None) s) publish_wait.
Proof.
  intros Hr Hp Hq. unfold client_Publish. rewrite exec_bind, exec_queue by done. rewrite Hq.
  rewrite exec_bind. unfold publish_wait, on_field. rewrite exec_atomic. unfold queued.
  cbn [cc_puback set_out]. by rewrite Hp.
Qed.

Lemma exec_publish_wait s ack :
  cc_puback s = Rendezvous (Some ack) false ->
  exec publish_wait s = Returned (set_puback new_rendezvous s) tt.
Proof.
  intros E. unfold publish_wait. rewrite exec_bind. unfold on_field, rv_recv.
  rewrite exec_atomic. by rewrite E.
Qed.

(** Every channel that [inboundLoop] closes is open. *)
Definition channels_open s : Prop :=
  ch_closed (cc_out s) = false /\ ch_closed (cc_Incoming s) = false /\
  rv_closed (cc_connack s) = false /\ rv_closed (cc_suback s) = false /\
  rv_closed (cc_puback s) = false.

Definition ch_shut {A} (q : chan A) : chan A := Chan (ch_buf q) (ch_cap q) true.
Definition rv_shut {A} (q : rendezvous A) : rendezvous A := Rendezvous (rv_offer q) true.

Lemma exec_client_inbound_defer s :
  channels_open s ->
  exec client_inbound_defer s =
  Returned (set_puback (rv_shut (cc_puback s)) (set_suback (rv_shut (cc_suback s))
             (set_connack (rv_shut (cc_connack s)) (set_Incoming (ch_shut (cc_Incoming s))
               (set_out (ch_shut (cc_out s)) s))))) tt.
Proof.
  intros (Ho & Hi & Hc & Hs & Hp). unfold client_inbound_defer, ch_shut, rv_shut.
  rewrite exec_bind. erewrite exec_on_field by (unfold ch_close; by rewrite Ho).
  rewrite exec_bind. erewrite exec_on_field
    by (unfold ch_close; cbn [set_out cc_Incoming]; by rewrite Hi).
  rewrite exec_bind. erewrite exec_on_field
    by (unfold rv_close; cbn [set_out set_Incoming cc_connack]; by rewrite Hc).
  rewrite exec_bind. erewrite exec_on_field
    by (unfold rv_close; cbn [set_out set_Incoming set_connack cc_suback]; by rewrite Hs).
  erewrite exec_on_field
    by (unfold rv_close; cbn [set_out set_Incoming set_connack set_suback cc_puback]; by rewrite Hp).
  reflexivity.
Qed.

(** A fresh client, or one whose earlier messages were all sent. *)
Record idle_client s : Prop := {
  ic_empty : ch_buf (cc_out s) = [];
  ic_cap : 0 < ch_cap (cc_out s);
  ic_open : channels_open s;
  ic_connack : rv_offer (cc_connack s) = None
}.

Lemma idle_client_room s : idle_client s -> room (cc_out s).
Proof. intros [He Hc (Ho & _) _]. split; [done|]. rewrite He. done. Qed.

(** The client once the CONNECT of [Connect] is on the wire. *)
Definition connect_sent (user pass : string) (rnd : Z) s : ClientConn :=
  let p := prepared rnd s in
  let req := connect_request (chosen_id rnd s) (cc_KeepAlive s) user pass in
  set_opTime (Some (cc_clock p)) (set_cc_receipts (cc_receipts p ++ [true])
    (set_cc_wire (cc_wire p ++ [MConnect req]) p)).

Lemma prepared_fields rnd s :
  cc_out (prepared rnd s) = cc_out s /\ cc_receipts (prepared rnd s) = cc_receipts s /\
  cc_wire (prepared rnd s) = cc_wire s /\ cc_connack (prepared rnd s) = cc_connack s /\
  (channels_open (prepared rnd s) <-> channels_open s).
Proof. unfold prepared. by destruct (0 <? _)%Z. Qed.

Lemma exec_send_connect user pass rnd s :
  idle_client s ->
  exec (client_outbound_job true)
    (syncing (MConnect (connect_request (chosen_id rnd s) (cc_KeepAlive s) user pass))
       (prepared rnd s)) =
  Returned (connect_sent user pass rnd s) Continue.
Proof.
  intros [He Hcap (Ho & _) _]. destruct (prepared_fields rnd s) as (Eo & Er & _).
  rewrite (exec_outbound_synced (MConnect (connect_request (chosen_id rnd s) (cc_KeepAlive s) user pass))
             (length (cc_receipts s)) []).
  - f_equal. unfold syncing, queued, connect_sent. rewrite <- Er at 1.
    destruct (prepared rnd s) as [? ? ? ? [buf cap cl]]. cbn in Eo, Er |- *.
    rewrite <- Eo in He, Ho. cbn in He, Ho. subst.
    by rewrite insert_app_r_alt, Nat.sub_diag by lia.
  - unfold syncing, queued. cbn [set_out set_cc_receipts cc_out ch_buf]. by rewrite Eo, Er, He.
  - unfold syncing, queued. cbn [set_out set_cc_receipts cc_receipts].
    rewrite Er, lookup_app_r, Nat.sub_diag by lia. done.
Qed.

Lemma connect_sent_receipt user pass rnd s :
  cc_receipts (connect_sent user pass rnd s) !! length (cc_receipts s) = Some true.
Proof.
  destruct (prepared_fields rnd s) as (_ & Er & _). unfold connect_sent.
  cbn [set_opTime set_cc_receipts cc_receipts]. rewrite Er, lookup_app_r, Nat.sub_diag by lia. done.
Qed.

(** The broker's verdict on the CONNECT of a client with a valid or generated id. *)
Lemma connect_request_verdict b n rnd user pass s :
  String.length (cc_ClientId s) <= maxClientIdLength -> (0 <= rnd < 2 ^ 63)%Z ->
  connect_rc b n (connect_request (chosen_id rnd s) (cc_KeepAlive s) user pass) = RetCodeAccepted <->
  (AllowAnonymousConnect b = true \/ (user <> "" /\ pass <> "")) /\
  ((MaxConnections b <= 0)%Z \/ (n <= MaxConnections b)%Z).
Proof.
  intros Hid Hr. rewrite connect_rc_accepted.
  assert (1 <= String.length (chosen_id rnd s) <= maxClientIdLength) as Hlen.
  { unfold chosen_id. destruct (cc_ClientId s =s "") eqn:E; breflect; [by apply generated_id_ok|].
    destruct (cc_ClientId s); [done|simpl in *; lia]. }
  split.
  - intros [_ _ Ha Hl]. split; [|done]. destruct Ha as [?|(Hf & Hu & _ & Hp)]; [by left|right].
    cbn in Hf, Hu, Hp. apply negb_true_iff in Hf. rewrite Hf in Hp. done.
  - intros [Ha Hl]. constructor; [done|done| |done].
    destruct Ha as [?|[Hu Hp]]; [by left|right]. cbn.
    destruct (user =s "") eqn:E; breflect; done.
Qed.

(** ** Keep-alive lemmas *)

(** A turn sleeps first, and goes on when its time has come. *)
Lemma exec_keepalive_sleeping interval tick s :
  (0 < interval)%Z ->
  exists rest, exec (keepalive_turn interval tick) s = Stuck s rest /\
  forall s',
    exec rest s' =
    if (cc_clock s + keepalive_sleep (cc_clock s) (cc_lastOpTime s) interval <=? cc_clock s')%Z
    then exec (if tick then on_out (ch_send (CJob MPingReq None));;; Ret Continue
               else atomic (fun s => if cc_done s then Done s Return else Blocked)) s'
    else Stuck s' rest.
Proof.
  intros Hi. unfold keepalive_turn. eexists. split.
  - rewrite exec_bind, exec_reads, exec_bind, exec_atomic.
    destruct (_ <=? _)%Z eqn:E in |- *; [exfalso|reflexivity].
    apply Z.leb_le in E. unfold keepalive_sleep in E.
    destruct (_ <? _)%Z eqn:E2 in E; breflect; lia.
  - intros s'. rewrite exec_bind, exec_atomic. by destruct (_ <=? _)%Z.
Qed.

(** The broker reckons in whole seconds. *)
Definition unix (t : Z) : Z := (t / Second)%Z.

Lemma keepalive_sleep_in_time now last ka :
  (0 <= now)%Z -> (0 <= ka)%Z -> (Since now last <= ka * Second)%Z ->
  over_idle (unix (now + keepalive_sleep now last (ka * Second))) (unix now) ka = false.
Proof.
  intros Hn Hk Hs. assert (keepalive_sleep now last (ka * Second) = ka * Second)%Z as ->
    by (unfold keepalive_sleep; destruct (_ <? _)%Z eqn:E; breflect; lia).
  assert (0 < Second)%Z by done. unfold over_idle, unix. rewrite Z.div_add by lia.
  rewrite idle_deadline_spec, Z.ltb_ge by (try apply Z.div_pos; lia).
  assert (ka <= 3 * ka / 2)%Z by (apply Z.div_le_lower_bound; lia). lia.
Qed.

Lemma keepalive_sleep_late now last ka :
  (0 <= now)%Z -> (0 <= ka)%Z -> ((3 * ka / 2 + 1) * Second <= Since now last)%Z ->
  over_idle (unix (now + keepalive_sleep now last (ka * Second))) (unix now) ka = true.
Proof.
  intros Hn Hk Hs. assert (0 < Second)%Z as HS by done. unfold over_idle, unix.
  rewrite idle_deadline_spec, Z.ltb_lt by (try apply Z.div_pos; lia).
  assert (Since now last <= keepalive_sleep now last (ka * Second))%Z as Hle
    by (unfold keepalive_sleep; destruct (_ <? _)%Z eqn:E; breflect; lia).
  assert ((now + (3 * ka / 2 + 1) * Second) / Second <=
          (now + keepalive_sleep now last (ka * Second)) / Second)%Z as Hd
    by (apply Z.div_le_mono; lia).
  rewrite Z.div_add in Hd by lia. lia.
Qed.

(** [Connect] on an idle client: it puts one CONNECT on the wire, and when a CONNACK
    arrives it returns the error of its code and [inboundLoop] goes on. *)
Lemma exec_handshake {E} (errors : ReturnCode -> E) user pass rnd s :
  idle_client s ->
  exists s1 s2 waiting,
    exec (client_Connect errors user pass rnd) s = Stuck s1 waiting /\
    exec (client_outbound_job true) s1 = Returned s2 Continue /\
    cc_wire s2 = cc_wire s ++ [MConnect (connect_request (chosen_id rnd s) (cc_KeepAlive s) user pass)] /\
    forall rc, exists s3 s4 inbound,
      exec (client_inbound_msg (MConnAck rc)) s2 = Stuck s3 inbound /\
      exec waiting s3 = Returned s4 (errors rc) /\
      exec inbound s4 = Returned s4 Continue.
Proof.
  intros Hs. destruct (prepared_fields rnd s) as (_ & _ & Ew & Ec & _).
  do 3 eexists. split; [by apply exec_client_Connect, idle_client_room|].
  split; [by apply exec_send_connect|].
  split; [unfold connect_sent; cbn [cc_wire set_opTime set_cc_receipts set_cc_wire]; by rewrite Ew|].
  intros rc. do 3 eexists. split.
  { apply exec_inbound_connack. destruct Hs as [_ _ (_ & _ & Hc & _) Hoff].
    unfold connect_sent. cbn [cc_connack set_opTime set_cc_receipts set_cc_wire]. rewrite Ec.
    destruct (cc_connack s). cbn in *. by subst. }
  split; [rewrite exec_connect_wait; [reflexivity|apply connect_sent_receipt]|reflexivity].
Qed.

(** ** Properties of the client library *)

(** When the connection ends before the CONNACK arrives, the deferred function
    of [inboundLoop] closes [connack], [Connect] receives nil and dereferences it. *)
Theorem client_connect_lost_panics {E} (errors : ReturnCode -> E) user pass rnd s :
  idle_client s ->
  exists s1 s2 s3 waiting,
    exec (client_Connect errors user pass rnd) s = Stuck s1 waiting /\
    exec (client_outbound_job true) s1 = Returned s2 Continue /\
    exec client_inbound_defer s2 = Returned s3 tt /\
    exists s4, exec waiting s3 = Crashed s4 NilDeref.
Proof.
  intros Hs. do 4 eexists. split; [by apply exec_client_Connect, idle_client_room|].
  split; [by apply exec_send_connect|].
  split.
  { apply exec_client_inbound_defer. destruct (prepared_fields rnd s) as (_ & _ & _ & _ & Ho).
    apply Ho, Hs. }
  eexists. rewrite exec_connect_wait; [reflexivity|apply connect_sent_receipt].
Qed.

(** [Publish] queues its message whatever its QoS.  QoS 0 then returns; QoS 1
    waits, and returns on the next PUBACK whatever its message id, or when the
    connection ends; QoS 2 panics, with the message already queued. *)
Theorem client_publish_by_qos m s :
  room (cc_out s) -> cc_puback s = new_rendezvous ->
  let s1 := queued (CJob (MPublish m) None) s in
  match Qos (PubHeader m) with
  | QosAtLeastOnce =>
      exists waiting, exec (client_Publish m) s = Stuck s1 waiting /\
      (forall s2 ack, cc_puback s2 = Rendezvous (Some ack) false ->
         exec waiting s2 = Returned (set_puback new_rendezvous s2) tt) /\
      (forall s2, rv_closed (cc_puback s2) = true ->
         exec waiting s2 = Returned (set_puback (cc_puback s2) s2) tt)
  | QosExactlyOnce => exec (client_Publish m) s = Crashed s1 (UserPanic "not supported QoS")
  | _ => exec (client_Publish m) s = Returned s1 tt
  end.
Proof.
  intros Hr Hp s1. destruct (Qos (PubHeader m)) eqn:Hq;
    try (unfold client_Publish; by rewrite exec_bind, exec_queue, Hq by done).
  exists publish_wait. split; [by apply exec_client_Publish_qos1|].
  split; [apply exec_publish_wait|]. intros s2 E. unfold publish_wait. rewrite exec_bind.
  unfold on_field, rv_recv. rewrite exec_atomic. by rewrite E.
Qed.

(** C33: a turn of [runKeepAlive] that takes the tick sends nothing before its sleep is
    over, then queues a PINGREQ, or panics if the client was closed meanwhile.  When
    the broker last heard of the client as the turn started, in whole seconds, the
    ping meets its deadline of one and a half periods if the client's own idle time
    is at most one period, and misses it if that time is a second above one and a
    half periods; so it does while [lastOpTime] is still the zero time. *)
Theorem client_keepalive_turn ka s :
  (0 <= cc_clock s)%Z -> (0 < ka < 2 ^ 16)%Z ->
  let interval := (ka * Second)%Z in
  let idle := Since (cc_clock s) (cc_lastOpTime s) in
  let wake := (cc_clock s + keepalive_sleep (cc_clock s) (cc_lastOpTime s) interval)%Z in
  let kicked := over_idle (unix wake) (unix (cc_clock s)) ka in
  exists rest,
    exec (keepalive_turn interval true) s = Stuck s rest /\
    (forall s', (cc_clock s' < wake)%Z -> exec rest s' = Stuck s' rest) /\
    (forall s', (wake <= cc_clock s')%Z -> room (cc_out s') ->
       exec rest s' = Returned (queued (CJob MPingReq None) s') Continue) /\
    (forall s', (wake <= cc_clock s')%Z -> ch_closed (cc_out s') = true ->
       exec rest s' = Crashed s' SendOnClosed) /\
    ((idle <= interval)%Z -> kicked = false) /\
    (((3 * ka / 2 + 1) * Second <= idle)%Z -> kicked = true) /\
    (cc_lastOpTime s = None -> kicked = true).
Proof.
  intros Hc Hka interval idle wake kicked.
  assert (0 < interval)%Z as Hi by (unfold interval, Second, Millisecond; lia).
  destruct (exec_keepalive_sleeping interval true s Hi) as (rest & Es & Er).
  exists rest. split; [done|]. fold wake in Er.
  split; [intros s' Hw; rewrite Er; by apply Z.leb_gt in Hw as ->|].
  split.
  { intros s' Hw Hr. rewrite Er. apply Z.leb_le in Hw as ->. by rewrite exec_bind, exec_queue. }
  split.
  { intros s' Hw Hr. rewrite Er. apply Z.leb_le in Hw as ->. by rewrite exec_bind, exec_queue_closed. }
  split; [intros Hs; apply keepalive_sleep_in_time; lia|].
  assert (((3 * ka / 2 + 1) * Second <= idle)%Z -> kicked = true) as Hlate
    by (intros Hs; apply keepalive_sleep_late; lia).
  split; [exact Hlate|]. intros Hn. apply Hlate. unfold idle. rewrite Hn. unfold Since, max_Duration.
  assert (3 * ka / 2 < 2 ^ 17)%Z by (apply Z.div_lt_upper_bound; lia).
  unfold Second, Millisecond. lia.
Qed.

(** The end of [inboundLoop] closes [out], so every later call of a method of the
    client that sends, [Disconnect] included, panics in the goroutine of the caller. *)
Theorem closed_client_methods_panic {E} (errors : ReturnCode -> E) user pass rnd mid topics filters m s :
  channels_open s ->
  exists s1,
    exec client_inbound_defer s = Returned s1 tt /\
    exec (client_Publish m) s1 = Crashed s1 SendOnClosed /\
    exec (client_Unsubscribe mid filters) s1 = Crashed s1 SendOnClosed /\
    (exists s2, exec (client_Subscribe topics) s1 = Crashed s2 SendOnClosed) /\
    (exists s2, exec client_Disconnect s1 = Crashed s2 SendOnClosed) /\
    (exists s2, exec (client_Connect errors user pass rnd) s1 = Crashed s2 SendOnClosed).
Proof.
  intros Ho. eexists. split; [by apply exec_client_inbound_defer|].
  split; [unfold client_Publish; by rewrite exec_bind, exec_queue_closed|].
  split; [unfold client_Unsubscribe; by rewrite exec_queue_closed|].
  split; [by apply exec_sync_bind_closed|]. split; [by apply exec_sync_bind_closed|].
  by apply exec_client_Connect_closed.
Qed.
End Client.

(** ** Concrete clients *)

#[local] Existing Instance bytes_mqttmsg.

Module DemoClient.
Definition fresh : ClientConn := NewClientConn 2 "" 60 1000.
Definition broker_cf : BrokerConfig := Broker (srv_cf Demo.session_block).
Definition qos1 : Publish := Demo.publish_msg "t" QosAtLeastOnce false 7 "x".
End DemoClient.

Lemma fresh_idle : idle_client DemoClient.fresh.
Proof. constructor; [done|simpl; lia|done|done]. Qed.

Lemma client_connect_lost_panics_witness :
  exists s1 s2 s3 waiting,
    exec (client_Connect id "u" "p" 42) DemoClient.fresh = Stuck s1 waiting /\
    exec (client_outbound_job true) s1 = Returned s2 Continue /\
    exec client_inbound_defer s2 = Returned s3 tt /\
    exists s4, exec waiting s3 = Crashed s4 NilDeref.
Proof. exact (client_connect_lost_panics id "u" "p" 42 DemoClient.fresh fresh_idle). Defined.

Lemma client_publish_by_qos_witness :
  exists waiting,
    exec (client_Publish DemoClient.qos1) DemoClient.fresh =
      Stuck (queued (CJob (MPublish DemoClient.qos1) None) DemoClient.fresh) waiting /\
    (forall s2 ack, cc_puback s2 = Rendezvous (Some ack) false ->
       exec waiting s2 = Returned (set_puback new_rendezvous s2) tt) /\
    (forall s2, rv_closed (cc_puback s2) = true ->
       exec waiting s2 = Returned (set_puback (cc_puback s2) s2) tt).
Proof.
  apply (client_publish_by_qos DemoClient.qos1 DemoClient.fresh
           (idle_client_room _ fresh_idle) eq_refl).
Defined.

Lemma client_keepalive_turn_witness :
  exists rest,
    exec (keepalive_turn (60 * Second) true) DemoClient.fresh = Stuck DemoClient.fresh rest /\
    over_idle (unix (1000 + max_Duration)) (unix 1000) 60 = true.
Proof.
  destruct (client_keepalive_turn 60 DemoClient.fresh) as (rest & E & _ & _ & _ & _ & _ & L);
    [simpl; lia|lia|].
  exists rest. split; [exact E|exact (L eq_refl)].
Defined.

Lemma closed_client_methods_panic_witness :
  exists s1,
    exec client_inbound_defer DemoClient.fresh = Returned s1 tt /\
    exec (client_Publish DemoClient.qos1) s1 = Crashed s1 SendOnClosed.
Proof.
  destruct (closed_client_methods_panic id "" "" 42 1 [] [] DemoClient.qos1 DemoClient.fresh
              (ic_open _ fresh_idle)) as (s1 & E1 & E2 & _).
  exists s1. split; [exact E1|exact E2].
Defined.
