(* ===== verification/Fchat.v ===== *)
(** * The chat client (src/cmd/fchat/main.go)

    [subLoop], [cliLoop] and the start of the program, over the client library of
    [Client].  The translation service and the printed colours are parameters; the time
    stamp of a line is left out.  The theorems: a typed line reaches the translation of
    every reader as it was typed and under the name of its author, and a message without
    a colon stops a reader. *)

From Stdlib Require Import ZArith Lia Ascii.
From stdpp Require Import base gmap list strings numbers sets.
From S2P Require Import Prelude GoString GoProc Proto Client.

Local Open Scope string_scope.
Local Open Scope list_scope.

(** [strings.SplitN(s, sep, n)] for a one-byte separator and [n > 0]: the last part has
    the rest. *)
Definition SplitN (s : string) (sep : ascii) (n : nat) : list string :=
  let ps := Split s sep in
  if (length ps <=? n)%nat then ps
  else firstn (n - 1) ps ++ [Join (skipn (n - 1) ps) sep].

Definition COLON : ascii := ":"%char.

(** What the chat uses of payloads: the bytes of a [proto.BytesPayload]. *)
Class Bytes `{Mqttmsg} := {
  BytesPayload : string -> Payload;
  as_bytes : Payload -> option string;
  as_bytes_law t : as_bytes (BytesPayload t) = Some t;
}.

Section Fchat.
Context `{Bytes}.
(** The translation of a text by the service, and the order of [range] over a map. *)
Context (translate : string -> string) (order : gset string -> list string).
Context (topic user netRtt : string).

(** The globals of the program, and the lines it printed. *)
Record chat := MkChat {
  cc : ClientConn;
  onlineUsers : gset string;
  printed : list string;
}.

Definition set_cc (c : ClientConn) (s : chat) : chat := MkChat c (onlineUsers s) (printed s).

(** A method of the client library. *)
Fixpoint on_cc {A} (p : proc ClientConn A) : proc chat A :=
  match p with
  | Ret a => Ret a
  | Step f => Step (fun s => match f (cc s) with
                             | Done c p' => Done (set_cc c s) (on_cc p')
                             | Blocked => Blocked
                             | Panicked w => Panicked w
                             end)
  end.

Definition print (line : string) : proc chat unit :=
  modify (fun s => MkChat (cc s) (onlineUsers s) (printed s ++ [line])).

Definition chat_publish (text : string) : proc chat unit :=
  on_cc (client_Publish (Build_Publish (Build_Header false QosAtMostOnce false) topic 0 (BytesPayload text))).

(** The broadcast of a new chat user in [setupChat]. *)
Definition announce : proc chat unit :=
  chat_publish (user +:+ ":" +:+ user +:+ " joined in chatroom[" +:+ topic +:+ "]").

(** One turn of [subLoop] with the publication it received.  The printed lines are
    without the time stamp and without the escape sequences of the colours. *)
Definition subLoop_turn (m : Publish) : proc chat unit :=
  match as_bytes (PubPayload m) with
  | None => panics (UserPanic "interface conversion")
  | Some text =>
      print ("[" +:+ TopicName m +:+ "] -> " +:+ text);;;
      match SplitN text COLON 2 with
      | name :: body =>
          modify (fun s => MkChat (cc s) ({[name]} ∪ onlineUsers s) (printed s));;;
          match body with
          | text1 :: _ => print ("[" +:+ TopicName m +:+ "] => " +:+ translate text1)
          | [] => panics IndexOutOfRange
          end
      | [] => panics IndexOutOfRange
      end
  end.

Definition handleCliCmd (txt : string) : proc chat bool :=
  if txt =s "help" then print "help w who whoami rtt";;; Ret true
  else if (txt =s "w") || (txt =s "who") then
    users <- reads onlineUsers;;
    print (String.concat "" (map (fun u => u +:+ " ") (order users)));;; Ret true
  else if txt =s "whoami" then print user;;; Ret true
  else if txt =s "rtt" then print netRtt;;; Ret true
  else Ret false.

(** A turn of [cliLoop] with the line [text], its end of line stripped. *)
Definition cliLoop_turn (text : string) : proc chat unit :=
  if text =s "" then Ret tt
  else
    internal <- handleCliCmd text;;
    if (internal : bool) then Ret tt else chat_publish (user +:+ ":" +:+ text).

(** [cliLoop] on the lines typed before the input ends. *)
Definition cliLoop (lines : list string) : proc chat unit := for_each lines cliLoop_turn.

(** ** Lemmas *)

Lemma exec_on_cc {A} (p : proc ClientConn A) s :
  exec (on_cc p) s = match exec p (cc s) with
                     | Returned c a => Returned (set_cc c s) a
                     | Stuck c q => Stuck (set_cc c s) (on_cc q)
                     | Crashed c w => Crashed (set_cc c s) w
                     end.
Proof.
  revert s. induction p as [a|f IH] using proc_induction; intros s; cbn [on_cc exec]; [by destruct s|].
  destruct (f (cc s)) as [c q| |w] eqn:E; [|by destruct s..].
  rewrite (IH _ _ _ E). cbn [cc set_cc]. by destruct (exec q c).
Qed.

Lemma SplitN_colon u t : COLON ∉ chars u -> SplitN (u +:+ ":" +:+ t) COLON 2 = [u; t].
Proof.
  intros Hu. unfold SplitN. change (":" +:+ t) with (String COLON t). rewrite Split_app_sep by done.
  pose proof (Join_Split t COLON) as HJ. pose proof (Split_nonempty t COLON) as Hn.
  destruct (Split t COLON) as [|p [|q ps]]; [done| |]; cbn [length Nat.leb firstn skipn Nat.sub app].
  - simpl in HJ. by rewrite HJ.
  - by rewrite HJ.
Qed.

Lemma SplitN_no_colon t : COLON ∉ chars t -> SplitN t COLON 2 = [t].
Proof. intros Ht. unfold SplitN. by rewrite Split_single. Qed.

(** The words [handleCliCmd] takes for itself. *)
Definition commands : list string := ["help"; "w"; "who"; "whoami"; "rtt"].

Lemma exec_handleCliCmd_text txt s : txt ∉ commands -> exec (handleCliCmd txt) s = Returned s false.
Proof.
  unfold commands. rewrite !not_elem_of_cons. intros (H1 & H2 & H3 & H4 & H5 & _).
  unfold handleCliCmd. apply String.eqb_neq in H1 as ->, H2 as ->, H3 as ->, H4 as ->, H5 as ->. done.
Qed.

Definition chat_msg (text : string) : Publish :=
  Build_Publish (Build_Header false QosAtMostOnce false) topic 0 (BytesPayload text).

Lemma exec_chat_publish text s : room (cc_out (cc s)) ->
  exec (chat_publish text) s = Returned (set_cc (queued (CJob (MPublish (chat_msg text)) None) (cc s)) s) tt.
Proof.
  intros Hr. unfold chat_publish. rewrite exec_on_cc. unfold client_Publish.
  by rewrite exec_bind, exec_queue by done.
Qed.

Lemma exec_subLoop_turn m name text s :
  as_bytes (PubPayload m) = Some (name +:+ ":" +:+ text) -> COLON ∉ chars name ->
  exec (subLoop_turn m) s =
  Returned (MkChat (cc s) ({[name]} ∪ onlineUsers s)
    (printed s ++ ["[" +:+ TopicName m +:+ "] -> " +:+ name +:+ ":" +:+ text;
                   "[" +:+ TopicName m +:+ "] => " +:+ translate text])) tt.
Proof.
  intros Hm Hn. unfold subLoop_turn, print. rewrite Hm, SplitN_colon by done.
  rewrite exec_bind, exec_modify, exec_bind, exec_modify, exec_modify. cbn [cc onlineUsers printed].
  by rewrite <- (assoc_L app).
Qed.
End Fchat.

(** C36: a chat line is read as it was typed.  A user without a colon in the name types a
    line that is neither empty nor a command, colons allowed; with room in the queue of
    the client, [cliLoop] queues one publication, and every chat that receives its
    payload adds the user to those online and prints the translation of exactly the
    typed text.  A payload without a colon, which any other client can publish, makes
    the turn of [subLoop] panic. *)
Theorem chat_line_roundtrip `{Bytes} (translate : string -> string) (order : gset string -> list string)
    (topic user netRtt text : string) (s reader : chat) (m : Publish)
    (Huser : COLON ∉ chars user) (Htext : text <> "") (Hcmd : text ∉ commands)
    (Hroom : room (cc_out (cc s)))
    (Hm : PubPayload m = PubPayload (chat_msg topic (user +:+ ":" +:+ text))) :
  exec (cliLoop_turn order topic user netRtt text) s =
    Returned (set_cc (queued (CJob (MPublish (chat_msg topic (user +:+ ":" +:+ text))) None) (cc s)) s) tt /\
  exec (subLoop_turn translate m) reader =
    Returned (MkChat (cc reader) ({[user]} ∪ onlineUsers reader)
      (printed reader ++ ["[" +:+ TopicName m +:+ "] -> " +:+ user +:+ ":" +:+ text;
                          "[" +:+ TopicName m +:+ "] => " +:+ translate text])) tt /\
  (forall m' t, as_bytes (PubPayload m') = Some t -> COLON ∉ chars t ->
     exists s', exec (subLoop_turn translate m') reader = Crashed s' IndexOutOfRange).
Proof.
  split; [|split].
  - unfold cliLoop_turn. apply String.eqb_neq in Htext as ->.
    rewrite exec_bind, exec_handleCliCmd_text by done. by apply exec_chat_publish.
  - apply exec_subLoop_turn; [|done]. rewrite Hm. apply as_bytes_law.
  - intros m' t Ht Hc. unfold subLoop_turn, print. rewrite Ht, SplitN_no_colon by done.
    rewrite exec_bind, exec_modify, exec_bind, exec_modify. by eexists.
Qed.

Module DemoChat.
#[export] Instance bytes_payload : @Bytes bytes_mqttmsg :=
  @Build_Bytes bytes_mqttmsg (fun t => t) (fun t => Some t) (fun t => eq_refl).
Definition start : @chat bytes_mqttmsg := @MkChat bytes_mqttmsg (NewClientConn 3 "ann" 600 0) ∅ [].
Definition line : @Publish bytes_mqttmsg :=
  @chat_msg bytes_mqttmsg bytes_payload "funplus" "ann:see you at 10:30".
End DemoChat.

Lemma chat_line_roundtrip_witness :
  exists s', exec (@subLoop_turn bytes_mqttmsg DemoChat.bytes_payload (fun t => t)
               DemoChat.line) DemoChat.start = Returned s' tt /\
    onlineUsers s' = {["ann"]} ∪ ∅ /\
    printed s' = ["[funplus] -> ann:see you at 10:30"; "[funplus] => see you at 10:30"].
Proof.
  destruct (@chat_line_roundtrip bytes_mqttmsg DemoChat.bytes_payload (fun t => t) elements "funplus" "ann"
    "1ms" "see you at 10:30" DemoChat.start DemoChat.start
    DemoChat.line) as (_ & E & _).
  - apply (bool_decide_unpack _). vm_compute. exact I.
  - discriminate.
  - apply (bool_decide_unpack _). vm_compute. exact I.
  - split; [reflexivity|vm_compute; lia].
  - reflexivity.
  - eexists. split; [exact E|]. split; reflexivity.
Defined.
