(* ===== verification/ChatStart.v ===== *)
(** * The start of the chat client and its translations (src/cmd/fchat/main.go)

    [init], [setupChat] and [main] over the client library, with the turns of the
    library's loops where the program waits for them, and [translate] with the URL it
    asks for.  Dialling and the translation service are parameters.  The theorems: how a
    start goes through CONNECT and SUBSCRIBE to the announcement, or exits; and the
    service is asked for exactly the typed text. *)

From Stdlib Require Import ZArith Lia Ascii.
From stdpp Require Import base gmap list strings numbers sets.
From S2P Require Import Prelude GoString GoFlag GoProc Proto Client Fchat.

Local Open Scope string_scope.
Local Open Scope list_scope.

(** ** url.QueryEscape *)

Definition upperhex (n : N) : ascii :=
  ascii_of_N (if (n <? 10)%N then 48 + n else 55 + n)%N.

Definition in_range (lo hi c : ascii) : bool := (N_of_ascii lo <=? N_of_ascii c)%N && (N_of_ascii c <=? N_of_ascii hi)%N.

(** The characters a query keeps. *)
Definition unreserved (c : ascii) : bool :=
  in_range "a" "z" c || in_range "A" "Z" c || in_range "0" "9" c ||
  existsb (Ascii.eqb c) ["-"%char; "_"%char; "."%char; "~"%char].

Definition escape_char (c : ascii) : string :=
  if unreserved c then String c ""
  else if Ascii.eqb c " " then "+"
  else String "%" (String (upperhex (N_of_ascii c / 16)) (String (upperhex (N_of_ascii c mod 16)) "")).

Fixpoint QueryEscape (s : string) : string :=
  match s with
  | "" => ""
  | String c s' => escape_char c +:+ QueryEscape s'
  end.

(** How the service reads a query parameter. *)
Definition unhex (c : ascii) : N :=
  let n := N_of_ascii c in if (n <? 58)%N then n - 48 else (n - 55)%N.

Fixpoint query_unescape (s : string) : string :=
  match s with
  | String "%" (String a (String b s')) => String (ascii_of_N (16 * unhex a + unhex b)) (query_unescape s')
  | String "+" s' => String " " (query_unescape s')
  | String c s' => String c (query_unescape s')
  | "" => ""
  end.

Lemma unescape_char c s : query_unescape (escape_char c +:+ s) = String c (query_unescape s).
Proof. by destruct c as [[] [] [] [] [] [] [] []]. Qed.

Lemma query_unescape_escape s : query_unescape (QueryEscape s) = s.
Proof. induction s as [|c s IH]; [done|]. cbn [QueryEscape]. by rewrite unescape_char, IH. Qed.

(** An escaped text has no character that ends a parameter. *)
Lemma escape_char_plain c x : x ∈ chars (escape_char c) -> x <> "&"%char /\ x <> "#"%char.
Proof.
  intros Hx. destruct c as [[] [] [] [] [] [] [] []]; cbn in Hx;
    repeat (apply elem_of_cons in Hx as [->|Hx]; [done|]); by apply not_elem_of_nil in Hx.
Qed.

Lemma QueryEscape_plain s x : x ∈ chars (QueryEscape s) -> x <> "&"%char /\ x <> "#"%char.
Proof.
  induction s as [|c s IH]; cbn [QueryEscape]; [by intros ?%not_elem_of_nil|].
  rewrite chars_app. intros [Hx|Hx]%elem_of_app; [by apply escape_char_plain with c|by apply IH].
Qed.

(** The parameter [q] of a query, up to the next ampersand. *)
Fixpoint until_amp (s : string) : string :=
  match s with
  | String c s' => if Ascii.eqb c "&" then "" else String c (until_amp s')
  | "" => ""
  end.

Lemma until_amp_app s t : (forall x, x ∈ chars s -> x <> "&"%char) ->
  until_amp (s +:+ String "&" t) = s.
Proof.
  induction s as [|c s IH]; intros Hs; [done|].
  change (String c s +:+ String "&" t) with (String c (s +:+ String "&" t)). cbn [until_amp].
  destruct (Ascii.eqb_spec c "&") as [->|]; [by destruct (Hs "&"%char); [left|]|].
  f_equal. apply IH. intros x Hx. apply Hs. by right.
Qed.

(** ** The translation *)

Definition translate_base : string := "http://translate.funplusgame.com/api/translate?q=".
Definition translate_rest : string := "&source=en&target=zh-CN&profanity=off".
Definition translate_url (q : string) : string := translate_base +:+ QueryEscape q +:+ translate_rest.

(** The answer to a GET: an error, or the status and the body or the error of reading it. *)
Record response := Response { StatusCode : Z; Status : string; body : string + string }.

(** [translate(q)]; [get] is [http.Get] and [elapsed] the time printed. *)
Definition translate (get : string -> response + string) (elapsed q : string) : string :=
  match get (translate_url q) with
  | inr err => err
  | inl res =>
      match body res with
      | inr err => err
      | inl payload =>
          if negb (StatusCode res =? 200)%Z then "unexpected translation status: " +:+ Status res
          else "'" +:+ q +:+ "' in " +:+ elapsed +:+ ": " +:+ payload
      end
  end.

(** ** The flags *)

Definition chat_flags : list flag_decl :=
  [FlagDecl "user" StringVar ""; FlagDecl "server" StringVar "dw-dev.socialgamenet.com:1883"].

(** [init]: the user and the server, or the status the program has exited with. *)
Definition chat_init (args : list string) : (string * string) + (flag_error + Z) :=
  match Parse chat_flags args with
  | inr err => inr (inl err)
  | inl (vals, _) =>
      let user := default "" (vals !! "user") in
      if user =s "" then inr (inr 0%Z) else inl (user, default "" (vals !! "server"))
  end.

(** ** The start *)

(** Run a body; whenever it waits, another goroutine changes the state. *)
Fixpoint interleave {S A} (others : list (S -> S)) (p : proc S A) (s : S) : outcome S A :=
  match others with
  | [] => exec p s
  | e :: others' =>
      match exec p s with
      | Stuck s' p' => interleave others' p' (e s')
      | o => o
      end
  end.

(** The state after a body ran as far as it can. *)
Definition after {S A} (p : proc S A) (s : S) : S :=
  match exec p s with Returned s' _ => s' | Stuck s' _ => s' | Crashed s' _ => s' end.

(** The body returns, and waits once for each of the changes. *)
Inductive cooperates {S A} : list (S -> S) -> proc S A -> S -> S -> A -> Prop :=
| coop_return p s s' a : exec p s = Returned s' a -> cooperates [] p s s' a
| coop_wait e others p s s1 p1 s' a :
    exec p s = Stuck s1 p1 -> cooperates others p1 (e s1) s' a -> cooperates (e :: others) p s s' a.

Lemma cooperates_interleave {S A} others (p : proc S A) s s' a :
  cooperates others p s s' a -> interleave others p s = Returned s' a.
Proof. induction 1 as [p s s' a E|e others p s s1 p1 s' a E _ IH]; cbn; by rewrite E. Qed.

Lemma cooperates_exec {S A} others (p q : proc S A) s t s' a :
  exec p s = exec q t -> cooperates others q t s' a -> cooperates others p s s' a.
Proof.
  intros E Hc. destruct Hc as [q t s' a E'|e others q t s1 p1 s' a E' Hc].
  - apply coop_return. by rewrite E.
  - eapply coop_wait; [by rewrite E|done].
Qed.

Lemma cooperates_bind {S A B} others others' (p : proc S A) (k : A -> proc S B) s s1 s' a b :
  cooperates others p s s1 a -> cooperates others' (k a) s1 s' b ->
  cooperates (others ++ others') (bind p k) s s' b.
Proof.
  induction 1 as [p s s1 a E|e others p s s2 p2 s1 a E _ IH]; intros Hk; cbn [app].
  - apply (cooperates_exec _ _ (k a) _ s1); [by rewrite exec_bind, E|done].
  - eapply coop_wait; [by rewrite exec_bind, E|by apply IH].
Qed.

(** The waits of a client method, within the chat. *)
Definition on_client `{Mqttmsg} (e : ClientConn -> ClientConn) (s : chat) : chat := set_cc (e (cc s)) s.

Lemma cooperates_on_cc `{Bytes} {A} others (p : proc ClientConn A) c c' a (s : chat) :
  cooperates others p c c' a -> cc s = c ->
  cooperates (map on_client others) (on_cc p) s (set_cc c' s) a.
Proof.
  intros Hc. revert s. induction Hc as [p c c' a E|e others p c c1 p1 c' a E _ IH]; intros s <-; cbn [map].
  - apply coop_return. by rewrite exec_on_cc, E.
  - eapply coop_wait; [by rewrite exec_on_cc, E|]. unfold on_client. cbn [cc set_cc].
    apply (IH (set_cc (e c1) s)). done.
Qed.

Section Setup.
Context `{Bytes}.
Context {E : Type} (errors : ReturnCode -> option E) (show : E -> string).
Context (topic user server netRtt : string).

(** [setupChat]; [dialed] is the error of the dial and [rnd] the number the library
    draws.  The result is the status of [os.Exit], or nothing and the readers start. *)
Definition setupChat (dialed : option string) (now rnd : Z) : proc chat (option Z) :=
  print ("Connecting to broker " +:+ server +:+ "...");;;
  match dialed with
  | Some err => print err;;; Ret (Some 1%Z)
  | None =>
      modify (fun s => set_cc (NewClientConn 100 "" 600 now) s);;;
      err <- on_cc (client_Connect errors "" "" rnd);;
      match err with
      | Some e => print ("connect: " +:+ show e);;; Ret (Some 1%Z)
      | None =>
          on_cc (client_Subscribe [(topic, QosAtMostOnce)]);;;
          print ("Broker connected, subscribed to topic: " +:+ topic);;;
          print ("Network latency: " +:+ netRtt);;;
          print "Translation engine connected: en -> zh-CN";;;
          announce topic user;;;
          Ret None
      end
  end.

(** A turn of the library's loops: a message of the queue is written, an answer comes. *)
Definition writes : ClientConn -> ClientConn := after (client_outbound_job true).
Definition hears (v : Message Publish) : ClientConn -> ClientConn := after (client_inbound_msg v).
Definition sends : chat -> chat := on_client writes.
Definition answers (v : Message Publish) : chat -> chat := on_client (hears v).

(** The client after a turn wrote the only message of its queue, a waited-for one. *)
Definition written_one (m : Message Publish) (c : ClientConn) : ClientConn :=
  set_opTime (Some (cc_clock c)) (set_cc_receipts (cc_receipts c ++ [true])
    (set_cc_wire (cc_wire c ++ [m]) (set_out (Chan [] (ch_cap (cc_out c)) false) c))).

Lemma writes_syncing m c : ch_buf (cc_out c) = [] -> ch_closed (cc_out c) = false ->
  writes (syncing m c) = written_one m c.
Proof.
  intros Hb Hc. unfold writes, after. rewrite (exec_outbound_synced m (length (cc_receipts c)) []).
  - unfold written_one, syncing, queued. destruct c. cbn.
    by rewrite insert_app_r_alt, Nat.sub_diag by done.
  - cbn. by rewrite Hb.
  - cbn. by rewrite lookup_app_r, Nat.sub_diag by lia.
Qed.

Lemma written_receipt m c : cc_receipts (written_one m c) !! length (cc_receipts c) = Some true.
Proof. cbn. by rewrite lookup_app_r, Nat.sub_diag by lia. Qed.

(** [Connect] returns the error of the code that comes back. *)
Lemma connect_cooperates {X} (errs : ReturnCode -> X) u w rnd rc c :
  room (cc_out c) -> ch_buf (cc_out c) = [] -> cc_connack c = new_rendezvous ->
  cooperates [writes; hears (MConnAck rc)] (client_Connect errs u w rnd) c
    (set_connack new_rendezvous (set_opTime (Some (cc_clock c))
      (written_one (MConnect (connect_request (chosen_id rnd c) (cc_KeepAlive c) u w)) (prepared rnd c))))
    (errs rc).
Proof.
  intros Hr Hb Hn. set (m := MConnect _). set (c0 := prepared rnd c).
  assert (cc_out c0 = cc_out c /\ cc_receipts c0 = cc_receipts c /\ cc_connack c0 = cc_connack c /\
          cc_clock c0 = cc_clock c) as (Ho & Hrc & Hca & Hk) by (unfold c0, prepared; by case_goal).
  eapply coop_wait; [by apply exec_client_Connect|]. fold m c0.
  rewrite writes_syncing by (rewrite Ho; first [done|apply Hr]). rewrite <- Hrc.
  eapply coop_wait.
  { rewrite exec_connect_wait by apply written_receipt. cbn. by rewrite Hca, Hn. }
  unfold hears, after. rewrite exec_inbound_connack by (cbn; by rewrite Hca, Hn).
  apply coop_return. cbn. by rewrite Hk.
Qed.

(** [Subscribe] returns the acknowledgement. *)
Lemma subscribe_cooperates ts mid qs c :
  room (cc_out c) -> ch_buf (cc_out c) = [] -> cc_suback c = new_rendezvous ->
  cooperates [writes; hears (MSubAck mid qs)] (client_Subscribe ts) c
    (set_suback new_rendezvous (set_opTime (Some (cc_clock c)) (written_one (MSubscribe 0 ts) c)))
    (Some (mid, qs)).
Proof.
  intros Hr Hb Hn. unfold client_Subscribe.
  eapply coop_wait; [rewrite exec_bind; by rewrite exec_sync|].
  rewrite writes_syncing by (done || apply Hr).
  eapply coop_wait.
  { rewrite exec_bind, exec_sync_wait by apply written_receipt. cbn. by rewrite Hn. }
  apply coop_return. unfold hears, after. cbn. by rewrite Hn.
Qed.
End Setup.

(** ** Properties *)

(** The start of a chat.  When the server answers CONNECT and SUBSCRIBE, the first
    messages on the wire are a CONNECT with a clean session, a keep-alive of ten minutes
    and the generated client id, without credentials, and a SUBSCRIBE to the topic; the
    announcement of the user waits in the queue, and the program goes on.  When the
    server refuses the CONNECT, nothing more is sent and the program exits with
    status 1; so it does when the server cannot be dialled. *)
Theorem chat_setup `{Bytes} {E} (errors : ReturnCode -> option E) (show : E -> string)
    (topic user server netRtt : string) (now rnd : Z) (mid : N) (qs : list QosLevel) (s0 : chat)
    (Hok : errors RetCodeAccepted = None) :
  let req := connect_request (Itoa_Z rnd) 600 "" "" in
  let setup d := setupChat errors show topic user server netRtt d now rnd in
  (exists s, interleave [sends; answers (MConnAck RetCodeAccepted); sends; answers (MSubAck mid qs)]
               (setup None) s0 = Returned s None /\
     cc_wire (cc s) = [MConnect req; MSubscribe 0 [(topic, QosAtMostOnce)]] /\
     ch_buf (cc_out (cc s)) =
       [CJob (MPublish (chat_msg topic (user +:+ ":" +:+ user +:+ " joined in chatroom[" +:+ topic +:+ "]"))) None] /\
     cc_keepalives (cc s) = 1 /\ length (printed s) = length (printed s0) + 4) /\
  (forall rc e, errors rc = Some e -> exists s,
     interleave [sends; answers (MConnAck rc)] (setup None) s0 = Returned s (Some 1%Z) /\
     cc_wire (cc s) = [MConnect req] /\ ch_buf (cc_out (cc s)) = [] /\
     last (printed s) = Some ("connect: " +:+ show e)) /\
  (forall err, exists s, interleave [] (setup (Some err)) s0 = Returned s (Some 1%Z) /\
     last (printed s) = Some err).
Proof.
  intros req setup. set (s1 := set_cc (NewClientConn 100 "" 600 now)
    (MkChat (cc s0) (onlineUsers s0) (printed s0 ++ ["Connecting to broker " +:+ server +:+ "..."]))).
  set (c1 := set_connack new_rendezvous (set_opTime (Some now) (written_one (MConnect req)
               (prepared rnd (cc s1))))).
  assert (forall rc, cooperates [sends; answers (MConnAck rc)] (on_cc (client_Connect errors "" "" rnd)) s1
            (set_cc c1 s1) (errors rc)) as Hconn.
  { intros rc. apply (cooperates_on_cc [writes; hears (MConnAck rc)] _ (cc s1)); [|done].
    apply connect_cooperates; [split; [done|cbn; lia]|done..]. }
  split; [|split].
  - eexists. split; [apply cooperates_interleave|].
    + eapply cooperates_exec; [unfold setup, setupChat; rewrite exec_bind; reflexivity|].
      eapply cooperates_exec; [rewrite exec_bind; reflexivity|]. fold s1.
      apply (cooperates_bind [_; _] _ _ _ _ _ _ _ _ (Hconn RetCodeAccepted)). rewrite Hok.
      eapply (cooperates_bind [_; _] []).
      { apply (cooperates_on_cc [writes; hears (MSubAck mid qs)] _ c1); [|done].
        apply subscribe_cooperates; [split; [done|cbn; lia]|done..]. }
      apply coop_return. unfold print, announce.
      rewrite !exec_bind, exec_modify, exec_bind, exec_modify, exec_bind, exec_modify, exec_bind.
      rewrite exec_chat_publish by (split; [done|cbn; lia]). reflexivity.
    + cbn. rewrite !length_app. cbn. split; [done|]. split; [done|]. split; [done|lia].
  - intros rc e He. eexists. split; [apply cooperates_interleave|].
    + eapply cooperates_exec; [unfold setup, setupChat; rewrite exec_bind; reflexivity|].
      eapply cooperates_exec; [rewrite exec_bind; reflexivity|]. fold s1.
      apply (cooperates_bind [_; _] [] _ _ _ _ _ _ _ (Hconn rc)). rewrite He. by apply coop_return.
    + split; [done|]. split; [done|]. cbn. apply last_snoc.
  - intros err. eexists. split; [reflexivity|]. cbn. apply last_snoc.
Qed.

Lemma chat_setup_witness :
  exists s, interleave [sends; answers (MConnAck RetCodeNotAuthorized)]
      (@setupChat bytes_mqttmsg DemoChat.bytes_payload string
         (fun rc => match rc with RetCodeAccepted => None | _ => Some "not authorized" end) (fun e => e)
         "funplus" "ann" "localhost:1883" "1ms" None 0 42) DemoChat.start = Returned s (Some 1%Z) /\
    last (printed s) = Some "connect: not authorized".
Proof.
  destruct (@chat_setup bytes_mqttmsg DemoChat.bytes_payload string
    (fun rc => match rc with RetCodeAccepted => None | _ => Some "not authorized" end) (fun e => e)
    "funplus" "ann" "localhost:1883" "1ms" 0 42 0 [] DemoChat.start eq_refl) as (_ & Hr & _).
  destruct (Hr RetCodeNotAuthorized "not authorized" eq_refl) as (s & E & _ & _ & Hp).
  exists s. split; [exact E|exact Hp].
Defined.

(** The translation service is asked for exactly the text.  For every text, whatever
    its characters, the URL is the address of the service, a parameter [q] that the
    service reads as the text, and the other parameters; the answer is printed with the
    text only when its status is 200, and otherwise the status or the error is. *)
Theorem translation_request_roundtrip (get : string -> response + string) (elapsed q : string) :
  (exists param, translate_url q = translate_base +:+ param /\ query_unescape (until_amp param) = q /\
     "#"%char ∉ chars (until_amp param)) /\
  (forall payload, get (translate_url q) = inl (Response 200 "200 OK" (inl payload)) ->
     translate get elapsed q = "'" +:+ q +:+ "' in " +:+ elapsed +:+ ": " +:+ payload) /\
  (forall code status payload, code <> 200%Z -> get (translate_url q) = inl (Response code status (inl payload)) ->
     translate get elapsed q = "unexpected translation status: " +:+ status) /\
  (forall err, get (translate_url q) = inr err -> translate get elapsed q = err).
Proof.
  split; [|split; [|split]].
  - exists (QueryEscape q +:+ translate_rest). split; [done|].
    unfold translate_rest. rewrite (until_amp_app (QueryEscape q)) by (intros x Hx; by apply QueryEscape_plain in Hx as [? _]).
    split; [apply query_unescape_escape|]. intros Hx. by apply QueryEscape_plain in Hx as [_ Hx].
  - intros payload E. unfold translate. by rewrite E.
  - intros code status payload Hc E. unfold translate. rewrite E. cbn.
    by apply Z.eqb_neq in Hc as ->.
  - intros err E. unfold translate. by rewrite E.
Qed.
