(* ===== verification/EndToEnd.v ===== *)
(** * A client and a broker together (src/broker: api.go, session.go, proto.go, subs.go)

    The client library on one side of a connection and the session of the broker on
    the other: what one writes to the wire is what the other decodes. *)

From Stdlib Require Import ZArith Lia.
From stdpp Require Import base gmap list strings numbers sets.
From S2P Require Import Prelude GoString GoProc GoSlice Wild Config Proto Store Stats Subs Broker.
From S2P Require Import Session SessionFacts Delivery Client.

Local Open Scope string_scope.
Local Open Scope list_scope.

Section EndToEnd.
Context `{GoRuntime} `{Extern}.
Implicit Types (s : Server) (k : incomingConn) (c : conn_ptr).

Lemma exec_inbound_connect c m k s :
  srv_conns s !! c = Some k ->
  exec (inbound_msg c (MConnect m)) s =
  exec (rc <- doConnect c m;; if decide (rc = RetCodeAccepted) then Ret Continue else Ret Return)
    (received c (MConnect m) k s).
Proof.
  intros Hk. unfold inbound_msg. cbn [alloc_msg bind]. by rewrite (exec_prologue _ _ k).
Qed.

(** A CONNECT with a clean session on a free id, and the turn of [outboundLoop] that
    sends its CONNACK. *)
Lemma exec_connect_answered c m s k :
  srv_conns s !! c = Some k -> alive k = true -> has_room k -> ch_buf (jobs k) = [] ->
  srv_clients s !! ClientId m = None -> CleanSession m = true -> registry_wf (srv_stores s) ->
  let rc := connect_rc (Broker (srv_cf s)) (Clients (srv_stats s)) m in
  exists s1 s2 k2,
    exec (inbound_msg c (MConnect m)) s =
      Returned s1 (if decide (rc = RetCodeAccepted) then Continue else Return) /\
    srv_clients s1 !! ClientId m = Some c /\
    exec (outbound_job c true) s1 = Returned s2 Continue /\
    srv_conns s2 !! c = Some k2 /\ flag k2 = Some m /\ ch_buf (jobs k2) = [] /\
    wire k2 = wire k ++ [MConnAck rc].
Proof.
  intros Hk Ha Hroom Hempty Hfree Hclean Hreg rc.
  rewrite (exec_inbound_connect _ _ _ _ Hk).
  pose proof (received_conn c (MConnect m) k s Hk) as Hk1.
  destruct (exec_doConnect_fresh c m (received c (MConnect m) k s) _ Hk1 Ha Hroom Hfree Hclean Hreg)
    as (s1 & E & Hc & Hcl & _ & (st & Hst & _) & _).
  change (Clients (srv_stats (received c (MConnect m) k s))) with (Clients (srv_stats s)) in *.
  change (Broker (srv_cf (received c (MConnect m) k s))) with (Broker (srv_cf s)) in *. fold rc in E, Hc.
  rewrite exec_bind, E. exists s1. set (sp := (getClientStore _ _ _).2) in *.
  set (k1 := connected_conn _ _ _ _ _) in Hc.
  assert (srv_conns s1 !! c = Some k1) as Hk1'.
  { rewrite Hc. apply list_lookup_insert_eq. by eapply lookup_lt_Some. }
  rewrite (exec_outbound_sent c (Job (MConnAck rc) None) [] (MConnAck rc) s1 k1 sp st Hk1');
    [|cbn; by rewrite Hempty|done|reflexivity|exact Hst|done].
  do 2 eexists. split; [by case_decide|]. split; [rewrite Hcl; by rewrite lookup_insert_eq|].
  split; [reflexivity|]. split; [by apply put_conn_eq with k1|]. done.
Qed.

(** ** A publication *)

(** A connected session with an empty queue and its store. *)
Record session c k (sp : nat) s : Prop := {
  ss_conn : srv_conns s !! c = Some k;
  ss_flag : flag k <> None;
  ss_alive : alive k = true;
  ss_room : has_room k;
  ss_empty : ch_buf (jobs k) = [];
  ss_store : store k = Some sp;
  ss_stores : sp < length (store_heap (srv_stores s));
  ss_running : stopChan k = false
}.

(** PUBLISH with QoS 1 on a session of a broker without peers. *)
Lemma exec_publish_posted c v s k sp :
  session c k sp s -> post_room s -> srv_nodes s = ∅ -> Qos (PubHeader v) = QosAtLeastOnce ->
  exists s1 k1,
    exec (inbound_msg c (MPublish v)) s = Returned s1 Continue /\
    srv_conns s1 = <[c := k1]> (srv_conns s) /\ alive k1 = true /\ wire k1 = wire k /\
    store k1 = Some sp /\ ch_closed (jobs k1) = false /\
    ch_buf (jobs k1) = [Job (MPubAck QosAtMostOnce (MessageId v)) None] /\
    srv_heap s1 = srv_heap s ++ [v] /\ srv_subs s1 = push_post (length (srv_heap s)) (srv_subs s) /\
    srv_cf s1 = srv_cf s /\ length (store_heap (srv_stores s1)) = length (store_heap (srv_stores s)).
Proof.
  intros [Hk Hf Ha Hroom Hempty Hsp Hlt Hstop] Hpost Hn Hq.
  destruct (lookup_lt_is_Some_2 _ _ Hlt) as [st Hst].
  rewrite (exec_inbound_publish _ _ _ _ Hk).
  pose proof (received_conn c (MPublish v) k s Hk) as Hk1.
  set (k1 := set_lastOpTime (srv_clock s) k) in *. set (s1 := received c (MPublish v) k s) in *.
  assert (srv_heap s1 !! length (srv_heap s) = Some v) as Hp by apply last_snoc_lookup.
  rewrite exec_bind, (exec_publish_body c (length (srv_heap s)) v s1 k1 sp st); [|done..| |done].
  2:{ intros h e He. change (srv_nodes s1) with (srv_nodes s) in He. by rewrite Hn, lookup_empty in He. }
  rewrite decide_True by done. cbv zeta.
  destruct (limited_conn_fields (srv_clock s1) k1) as (Ha2 & Hj & Hs2).
  set (k2 := limited_conn (srv_clock s1) k1) in *.
  assert (wire k2 = wire k) as Hw by (unfold k2, limited_conn; by case_goal).
  assert (srv_heap (limited c k1 s1) = srv_heap s ++ [v] /\ srv_subs (limited c k1 s1) = srv_subs s /\
          srv_cf (limited c k1 s1) = srv_cf s /\ srv_stores (limited c k1 s1) = srv_stores s /\
          srv_conns (limited c k1 s1) = <[c := k2]> (srv_conns s1)) as (Hh & Hsub & Hcf & Hsto & Hcs)
    by (unfold limited; by case_goal).
  eexists _, _. split; [reflexivity|]. cbn [put_conn set_conns srv_conns set_nodes set_subs set_stores
    srv_heap srv_subs srv_cf srv_stores store_heap].
  rewrite Hcs, Hh, Hsub, Hcf, Hsto, length_insert. unfold s1, received. cbn [put_conn set_conns srv_conns
    set_heap set_stats]. rewrite !list_insert_insert_eq. split; [reflexivity|].
  cbn [push_job set_jobs alive wire store jobs ch_closed ch_buf].
  rewrite Hj, Ha2, Hs2, Hw. change (jobs k1) with (jobs k). by rewrite Hempty.
Qed.

Lemma subs_wf_posts q (t : subscriptions) : subs_wf t -> subs_wf (set_posts q t).
Proof. by intros []. Qed.

Lemma refines_posts q (t : subscriptions) a : refines t a -> refines (set_posts q t) a.
Proof. by intros [? ?]. Qed.

Lemma exec_run_body p rest s :
  ch_buf (posts (srv_subs s)) = p :: rest ->
  exec run_body s =
  exec (run_post p) (set_subs (set_posts (Chan rest (ch_cap (posts (srv_subs s)))
                                            (ch_closed (posts (srv_subs s)))) (srv_subs s)) s).
Proof.
  intros Hp. unfold run_body, run_next. rewrite exec_bind, exec_atomic. unfold ch_recv. by rewrite Hp.
Qed.

(** A broker that can deliver: it discards on overflow, its table is free and
    well-formed, and only dead connections have closed queues. *)
Record delivering (a : table) s : Prop := {
  de_discards : discards s;
  de_mu : mu (srv_subs s) = false;
  de_open : Forall open_if_alive (srv_conns s);
  de_wf : subs_wf (srv_subs s);
  de_refines : refines (srv_subs s) a
}.

(** A worker takes the only post: one copy goes to the subscriber [cs], none to [cp]. *)
Lemma exec_worker_delivers p v a s cs ks cp kp :
  delivering a s -> ch_buf (posts (srv_subs s)) = [p] -> srv_heap s !! p = Some v ->
  deletes_retained v = false ->
  Forall (fun c => c < length (srv_conns s)) (table_receivers (TopicName v) a) ->
  count cs (table_receivers (TopicName v) a) = 1 -> count cp (table_receivers (TopicName v) a) = 0 ->
  srv_conns s !! cs = Some ks -> alive ks = true -> has_room ks ->
  srv_conns s !! cp = Some kp ->
  exists s', exec run_body s = Returned s' Continue /\
    srv_conns s' !! cs = Some (push_job (Job (MPublish p) None) ks) /\
    srv_conns s' !! cp = Some kp /\
    srv_heap s' !! p = Some (set_Retain false v) /\ srv_stores s' = srv_stores s /\
    length (srv_conns s') = length (srv_conns s).
Proof.
  intros [Hd Hm Hop Hwf Href] Hp Hv Hdel Hval Hcs Hcp Hks Ha [Hcl Hl] Hkp.
  rewrite (exec_run_body p [] s Hp).
  rewrite (exec_run_post p v _ a); [|done..| | |done];
    [|by apply subs_wf_posts|by apply refines_posts].
  eexists. split; [reflexivity|]. cbn [set_subs set_conns srv_conns set_heap srv_heap srv_stores].
  rewrite !offer_all_lookup, Hcs, Hcp, Hks, Hkp.
  split; [|split; [done|split; [by apply heap_alter|split; [done|]]]].
  - simpl. unfold offer. apply Nat.ltb_lt in Hl as ->. by rewrite Ha.
  - unfold offer_all. clear. generalize (srv_conns s).
    induction (table_receivers (TopicName v) a) as [|c cs IH]; intros ks; simpl; [done|].
    by rewrite IH, length_alter.
Qed.
(** A turn of [outboundLoop] that sends the only queued message. *)
Lemma exec_outbound_one c m v s k sp :
  srv_conns s !! c = Some k -> ch_buf (jobs k) = [Job m None] -> view (srv_heap s) m = Some v ->
  m <> MDisconnect -> store k = Some sp -> sp < length (store_heap (srv_stores s)) ->
  exists s' k', exec (outbound_job c true) s = Returned s' Continue /\
    srv_conns s' = <[c := k']> (srv_conns s) /\ wire k' = wire k ++ [v] /\
    length (store_heap (srv_stores s')) = length (store_heap (srv_stores s)) /\
    srv_heap s' = srv_heap s.
Proof.
  intros Hk Hb Hv Hm Hsp Hlt. destruct (lookup_lt_is_Some_2 _ _ Hlt) as [st Hst].
  rewrite (exec_outbound_sent c (Job m None) [] v s k sp st) by done.
  eexists _, _. split; [by destruct m|]. split; [reflexivity|]. split; [done|].
  split; [|done]. apply length_insert.
Qed.
(** The broker's part of a QoS 1 publication from [cp] to the subscriber [cs]. *)
Lemma exec_publication_relayed m a cp cs kp ks sp ss s :
  cp <> cs -> session cp kp sp s -> session cs ks ss s -> delivering a s ->
  ch_buf (posts (srv_subs s)) = [] -> post_room s -> srv_nodes s = ∅ ->
  Qos (PubHeader m) = QosAtLeastOnce -> deletes_retained m = false ->
  Forall (fun c => c < length (srv_conns s)) (table_receivers (TopicName m) a) ->
  count cs (table_receivers (TopicName m) a) = 1 -> count cp (table_receivers (TopicName m) a) = 0 ->
  exists s1 s2 s3 s4 ks3 kp4,
    exec (inbound_msg cp (MPublish m)) s = Returned s1 Continue /\
    exec run_body s1 = Returned s2 Continue /\
    exec (outbound_job cs true) s2 = Returned s3 Continue /\
    srv_conns s3 !! cs = Some ks3 /\ wire ks3 = wire ks ++ [MPublish (set_Retain false m)] /\
    exec (outbound_job cp true) s3 = Returned s4 Continue /\
    srv_conns s4 !! cp = Some kp4 /\ wire kp4 = wire kp ++ [MPubAck QosAtMostOnce (MessageId m)].
Proof.
  intros Hne Hpub Hsub [Hd Hm Hop Hwf Href] Hposts Hpost Hnodes Hqos Hkeep Hval Hone Hnone.
  destruct (exec_publish_posted cp m s kp sp Hpub Hpost Hnodes Hqos)
    as (s1 & kp1 & E1 & Hc1 & Ha1 & Hw1 & Hs1 & Hcl1 & Hb1 & Hh1 & Hsub1 & Hcf1 & Hlen1).
  set (p := length (srv_heap s)) in *.
  assert (cp < length (srv_conns s)) as Hlt by (eapply lookup_lt_Some; apply Hpub).
  assert (srv_conns s1 !! cp = Some kp1) as Hkp1 by (rewrite Hc1; by apply list_lookup_insert_eq).
  assert (srv_conns s1 !! cs = Some ks) as Hks1
    by (rewrite Hc1, list_lookup_insert_ne by done; apply Hsub).
  destruct (exec_worker_delivers p m a s1 cs ks cp kp1) as (s2 & E2 & Hks2 & Hkp2 & Hh2 & Hst2 & _); try done.
  { split; rewrite ?Hsub1.
    - unfold discards. by rewrite Hcf1.
    - done.
    - rewrite Hc1. apply Forall_insert; [done|]. by intros _.
    - by apply subs_wf_posts.
    - by apply refines_posts. }
  { rewrite Hsub1. cbn [push_post set_posts posts ch_buf]. by rewrite Hposts. }
  { rewrite Hh1. apply last_snoc_lookup. }
  { by rewrite Hc1, length_insert. }
  { apply Hsub. }
  { apply Hsub. }
  destruct (exec_outbound_one cs (MPublish p) (MPublish (set_Retain false m)) s2 _ ss Hks2)
    as (s3 & ks3 & E3 & Hc3 & Hw3 & Hlen3 & Hh3); try done.
  { cbn [jobs push_job set_jobs ch_buf]. by rewrite (ss_empty _ _ _ _ Hsub). }
  { cbn [view]. by rewrite Hh2. }
  { apply Hsub. }
  { rewrite Hst2, Hlen1. apply Hsub. }
  assert (srv_conns s3 !! cp = Some kp1) as Hkp3 by (by rewrite Hc3, list_lookup_insert_ne).
  destruct (exec_outbound_one cp (MPubAck QosAtMostOnce (MessageId m)) (MPubAck QosAtMostOnce (MessageId m))
              s3 kp1 sp Hkp3) as (s4 & kp4 & E4 & Hc4 & Hw4 & _); try done.
  { rewrite Hlen3, Hst2, Hlen1. apply Hpub. }
  exists s1, s2, s3, s4, ks3, kp4. do 3 (split; [done|]).
  split; [rewrite Hc3; apply list_lookup_insert_eq; by eapply lookup_lt_Some|]. do 2 (split; [done|]).
  split; [rewrite Hc4; apply list_lookup_insert_eq; by eapply lookup_lt_Some|]. by rewrite Hw4, Hw1.
Qed.
End EndToEnd.

(** ** Properties *)

(** C14: [Connect] of the client library against a broker.  An idle client, with an
    empty id or one that is not too long, connects to a fresh session whose client id
    is free: the CONNECT it puts on the wire is decoded, the broker registers the
    connection under the client's id and answers with one CONNACK, [Connect] returns
    the error of its code, and both inbound loops go on; the code says accepted, and
    the broker's loop goes on, exactly when anonymous connections are allowed or both
    a user and a password are given, and the limit on connections is respected. *)
Theorem connect_end_to_end `{GoRuntime} `{Extern} {E} (errors : ReturnCode -> E) (user pass : string)
    (rnd : Z) (cc : ClientConn) (c : conn_ptr) (k : incomingConn) (s : Server)
    (Hcc : idle_client cc) (Hid : String.length (cc_ClientId cc) <= maxClientIdLength)
    (Hrnd : (0 <= rnd < 2 ^ 63)%Z)
    (Hk : srv_conns s !! c = Some k) (Ha : alive k = true) (Hroom : has_room k)
    (Hempty : ch_buf (jobs k) = []) (Hreg : registry_wf (srv_stores s))
    (Hfree : srv_clients s !! chosen_id rnd cc = None) :
  let b := Broker (srv_cf s) in
  exists cc1 cc2 cc3 cc4 waiting inbound req s1 s2 k2 rc fl,
    exec (client_Connect errors user pass rnd) cc = Stuck cc1 waiting /\
    exec (client_outbound_job true) cc1 = Returned cc2 Continue /\
    cc_wire cc2 = cc_wire cc ++ [MConnect req] /\
    exec (inbound_msg c (MConnect req)) s = Returned s1 fl /\
    srv_clients s1 !! chosen_id rnd cc = Some c /\
    exec (outbound_job c true) s1 = Returned s2 Continue /\
    srv_conns s2 !! c = Some k2 /\ wire k2 = wire k ++ [MConnAck rc] /\
    exec (client_inbound_msg (MConnAck rc)) cc2 = Stuck cc3 inbound /\
    exec waiting cc3 = Returned cc4 (errors rc) /\
    exec inbound cc4 = Returned cc4 Continue /\
    (fl = Continue <-> rc = RetCodeAccepted) /\
    (rc = RetCodeAccepted <->
      (AllowAnonymousConnect b = true \/ (user <> "" /\ pass <> "")) /\
      ((MaxConnections b <= 0)%Z \/ (Clients (srv_stats s) <= MaxConnections b)%Z)).
Proof.
  intros b. destruct (exec_handshake errors user pass rnd cc Hcc) as (cc1 & cc2 & waiting & E1 & E2 & Hw & Hack).
  set (req := connect_request (chosen_id rnd cc) (cc_KeepAlive cc) user pass) in *.
  destruct (exec_connect_answered c req s k Hk Ha Hroom Hempty Hfree eq_refl Hreg)
    as (s1 & s2 & k2 & E3 & Hcl & E4 & Hk2 & _ & _ & Hw2).
  set (rc := connect_rc _ _ req) in *. destruct (Hack rc) as (cc3 & cc4 & inbound & E5 & E6 & E7).
  exists cc1, cc2, cc3, cc4, waiting, inbound, req, s1, s2, k2, rc.
  eexists. repeat (split; [eassumption|]). split; [by case_decide|].
  by apply connect_request_verdict.
Qed.

(** C5: a QoS 1 publication from client to client.  One client publishes; its message
    goes over its wire to the broker, which posts it; a worker delivers it to the
    session of another client that has one matching subscription; the broker sends it
    on, with the retain flag cleared, and the other client finds it last in
    [Incoming]; the broker acknowledges with the id of the message, and [Publish]
    returns. *)
Theorem publication_end_to_end `{GoRuntime} `{Extern} (m : Publish) (pub sub : ClientConn) (a : table)
    (cp cs : conn_ptr) (kp ks : incomingConn) (sp ss : nat) (s : Server)
    (Hout : room (cc_out pub)) (Hidle : ch_buf (cc_out pub) = []) (Hack : cc_puback pub = new_rendezvous)
    (Hic : ch_closed (cc_Incoming sub) = false)
    (Hin : length (ch_buf (cc_Incoming sub)) < ch_cap (cc_Incoming sub))
    (Hne : cp <> cs) (Hpub : session cp kp sp s) (Hsub : session cs ks ss s)
    (Hdel : delivering a s) (Hposts : ch_buf (posts (srv_subs s)) = []) (Hpost : post_room s)
    (Hnodes : srv_nodes s = ∅) (Hqos : Qos (PubHeader m) = QosAtLeastOnce)
    (Hkeep : deletes_retained m = false)
    (Hval : Forall (fun c => c < length (srv_conns s)) (table_receivers (TopicName m) a))
    (Hone : count cs (table_receivers (TopicName m) a) = 1)
    (Hnone : count cp (table_receivers (TopicName m) a) = 0) :
  let m' := set_Retain false m in
  exists pub1 pub2 pub3 pub4 waiting inbound sub1 s1 s2 s3 s4 ks3 kp4,
    exec (client_Publish m) pub = Stuck pub1 waiting /\
    exec (client_outbound_job true) pub1 = Returned pub2 Continue /\
    cc_wire pub2 = cc_wire pub ++ [MPublish m] /\
    exec (inbound_msg cp (MPublish m)) s = Returned s1 Continue /\
    exec run_body s1 = Returned s2 Continue /\
    exec (outbound_job cs true) s2 = Returned s3 Continue /\
    srv_conns s3 !! cs = Some ks3 /\ wire ks3 = wire ks ++ [MPublish m'] /\
    exec (client_inbound_msg (MPublish m')) sub = Returned sub1 Continue /\
    ch_buf (cc_Incoming sub1) = ch_buf (cc_Incoming sub) ++ [m'] /\
    exec (outbound_job cp true) s3 = Returned s4 Continue /\
    srv_conns s4 !! cp = Some kp4 /\ wire kp4 = wire kp ++ [MPubAck QosAtMostOnce (MessageId m)] /\
    exec (client_inbound_msg (MPubAck QosAtMostOnce (MessageId m))) pub2 = Stuck pub3 inbound /\
    exec waiting pub3 = Returned pub4 tt /\
    exec inbound pub4 = Returned pub4 Continue.
Proof.
  intros m'.
  destruct (exec_publication_relayed m a cp cs kp ks sp ss s)
    as (s1 & s2 & s3 & s4 & ks3 & kp4 & E1 & E2 & E3 & Hk3 & Hw3 & E4 & Hk4 & Hw4); try done.
  exists (queued (CJob (MPublish m) None) pub). do 3 eexists. exists publish_wait. do 2 eexists.
  exists s1, s2, s3, s4, ks3, kp4.
  split; [by apply exec_client_Publish_qos1|].
  split; [apply exec_outbound_plain with (m := MPublish m) (rest := []); [cbn; by rewrite Hidle|done]|].
  do 6 (split; [done|]). split; [by apply exec_inbound_incoming|]. do 4 (split; [done|]).
  split; [by apply exec_inbound_puback_offer|]. split; [by eapply exec_publish_wait|]. done.
Qed.

(** ** Concrete ends *)

#[local] Existing Instance doubling_runtime.
#[local] Existing Instance bytes_mqttmsg.
#[local] Existing Instance plain_extern.

Module DemoEnds.
Definition then_run {A} (p : proc Server A) (s : Server) : Server := Demo.ok_state (exec p s) s.

(** Two clients are connected, the second is subscribed to "t", all queues are empty. *)
Definition two_sessions : Server := Eval vm_compute in
  then_run (outbound_job 1 true) (then_run (doSubscribe 1 1 [("t", QosAtMostOnce)])
    (then_run (outbound_job 1 true) (then_run (inbound_msg 1 (MConnect (Demo.connect_msg "c1")))
      (then_run accept (then_run (outbound_job 0 true) Demo.session_discard))))).
Definition one_subscription : table := table_add "t" 1 table_empty.
Definition conn (c : conn_ptr) : incomingConn := Eval vm_compute in
  default (new_conn (Broker (Demo.conf false "discard")) 0) (srv_conns two_sessions !! c).
Definition accepted : incomingConn := Eval vm_compute in
  default (conn 0) (srv_conns Demo.accepted_conn !! 0).

Lemma two_sessions_delivering : delivering one_subscription two_sessions.
Proof.
  split; [done|reflexivity|by repeat constructor|..];
    change (srv_subs two_sessions) with (add "t" 1 (newSubscriptions 3)).
  - apply add_wf, newSubscriptions_wf.
  - apply add_refines; [apply newSubscriptions_wf|apply newSubscriptions_refines].
Qed.

Lemma conn_session c : c < 2 -> session c (conn c) c two_sessions.
Proof.
  intros Hc. destruct c as [|[|c]]; [..|lia];
    (split; [reflexivity|done|reflexivity|split; [reflexivity|vm_compute; lia]|reflexivity..
            |vm_compute; lia|reflexivity]).
Qed.
End DemoEnds.

Lemma connect_end_to_end_witness :
  exists cc1 cc2 waiting req s1 s2 rc,
    exec (client_Connect id "" "" 42) DemoClient.fresh = Stuck cc1 waiting /\
    exec (client_outbound_job true) cc1 = Returned cc2 Continue /\
    cc_wire cc2 = [MConnect req] /\
    exec (inbound_msg 0 (MConnect req)) Demo.accepted_conn = Returned s1 Continue /\
    srv_clients s1 !! "42" = Some 0 /\
    exec (outbound_job 0 true) s1 = Returned s2 Continue /\ rc = RetCodeAccepted.
Proof.
  destruct (connect_end_to_end id "" "" 42 DemoClient.fresh 0 DemoEnds.accepted Demo.accepted_conn fresh_idle)
    as (cc1 & cc2 & cc3 & cc4 & waiting & inbound & req & s1 & s2 & k2 & rc & fl & E1 & E2 & Hw & E3 & Hcl
        & E4 & _ & _ & _ & _ & _ & Hfl & Hrc).
  - simpl. lia.
  - lia.
  - reflexivity.
  - reflexivity.
  - split; [reflexivity|vm_compute; lia].
  - reflexivity.
  - apply registry_wf_empty.
  - reflexivity.
  - assert (rc = RetCodeAccepted) as Hok
      by (apply Hrc; split; [left; reflexivity|left; vm_compute; discriminate]).
    rewrite (proj2 Hfl Hok) in E3. exists cc1, cc2, waiting, req, s1, s2, rc.
    split; [exact E1|]. split; [exact E2|]. split; [exact Hw|]. split; [exact E3|].
    split; [exact Hcl|]. split; [exact E4|exact Hok].
Defined.

Lemma publication_end_to_end_witness :
  exists pub1 pub2 pub3 pub4 waiting s1 sub1,
    exec (client_Publish DemoClient.qos1) DemoClient.fresh = Stuck pub1 waiting /\
    exec (client_outbound_job true) pub1 = Returned pub2 Continue /\
    exec (inbound_msg 0 (MPublish DemoClient.qos1)) DemoEnds.two_sessions = Returned s1 Continue /\
    exec (client_inbound_msg (MPublish DemoClient.qos1)) DemoClient.fresh = Returned sub1 Continue /\
    ch_buf (cc_Incoming sub1) = [DemoClient.qos1] /\
    exec waiting pub3 = Returned pub4 tt.
Proof.
  destruct (publication_end_to_end DemoClient.qos1 DemoClient.fresh DemoClient.fresh
    DemoEnds.one_subscription 0 1 (DemoEnds.conn 0) (DemoEnds.conn 1) 0 1 DemoEnds.two_sessions)
    as (pub1 & pub2 & pub3 & pub4 & waiting & inbound & sub1 & s1 & s2 & s3 & s4 & ks3 & kp4 & E1 & E2 & _
        & E3 & _ & _ & _ & _ & E4 & Hin & _ & _ & _ & _ & E5 & _); try reflexivity.
  - exact (idle_client_room _ fresh_idle).
  - simpl. lia.
  - discriminate.
  - apply DemoEnds.conn_session. lia.
  - apply DemoEnds.conn_session. lia.
  - exact DemoEnds.two_sessions_delivering.
  - split; [reflexivity|vm_compute; lia].
  - constructor; [vm_compute; lia|constructor].
  - exists pub1, pub2, pub3, pub4, waiting, s1, sub1. split; [exact E1|]. split; [exact E2|].
    split; [exact E3|]. split; [exact E4|]. split; [exact Hin|exact E5].
Defined.
