(* ===== verification/Replication.v ===== *)
(** * A publication on its way to another broker

    The endpoint of one broker composed with the peer connection and a worker of
    another: what the subscribers of the second get, and what becomes of the retain
    flag, which depends on whether a worker of the first was faster. *)

From Stdlib Require Import ZArith Lia.
From stdpp Require Import base gmap list strings numbers sets.
From S2P Require Import Prelude GoString GoProc GoSlice Wild Config Proto Store Stats Subs Broker.
From S2P Require Import Session SessionFacts Delivery Peers EndToEnd.

Local Open Scope string_scope.
Local Open Scope list_scope.

Section Replication.
Context `{GoRuntime} `{Extern}.
Implicit Types (s : Server) (p : ptr) (v : Publish) (a : table) (e : endpoint).

(** A broker that can deliver, with subscribers that exist. *)
Record serving s a : Prop := {
  sv_delivering : delivering a s;
  sv_receivers t : Forall (fun c => c < length (srv_conns s)) (table_receivers t a)
}.

(** Only these parts matter. *)
Lemma serving_parts s s' a q :
  srv_cf s' = srv_cf s -> srv_conns s' = srv_conns s -> srv_subs s' = set_posts q (srv_subs s) ->
  serving s a -> serving s' a.
Proof.
  intros Ef Ec Es [[Hd Hm Ho Hwf Hr] Hv]. split; [split|]; rewrite ?Ec, ?Es; try done.
  - unfold discards. by rewrite Ef.
  - by apply subs_wf_posts.
  - by apply refines_posts.
Qed.

Lemma exec_serve p v s a :
  serving s a -> srv_heap s !! p = Some v -> deletes_retained v = false ->
  exists s', exec (run_post p) s = Returned s' Continue /\
    srv_conns s' = offer_all (MPublish p) (table_receivers (TopicName v) a) (srv_conns s) /\
    srv_heap s' = alter (set_Retain false) p (srv_heap s) /\ srv_nodes s' = srv_nodes s /\
    retain (srv_subs s') = (if Retain (PubHeader v)
      then <[TopicName v := set_Retain true v]> (retain (srv_subs s)) else retain (srv_subs s)).
Proof.
  intros [[] Hv] Hp Hdel. rewrite (exec_run_post p v s a) by done. eexists. split; [reflexivity|].
  do 3 (split; [done|]). cbn [srv_subs set_subs]. destruct (Retain (PubHeader v)); [|done].
  by destruct v as [[]].
Qed.

(** One turn of the session of an endpoint. *)
Lemma exec_ep_job host m rest (v : Message Publish) s e :
  srv_nodes s !! host = Some e -> ch_buf (ep_jobs e) = Job m None :: rest ->
  view (srv_heap s) m = Some v ->
  exists s' e', exec (ep_job host true) s = Returned s' Continue /\
    srv_nodes s' !! host = Some e' /\ ep_wire e' = ep_wire e ++ [v] /\ ch_buf (ep_jobs e') = rest.
Proof.
  intros He Hb Hv. unfold ep_job. rewrite exec_bind.
  rewrite (exec_on_node host _ s e (set_ep_jobs (Chan rest (ch_cap (ep_jobs e)) (ch_closed (ep_jobs e))) e)
             (Some (Job m None)) He).
  2:{ unfold on_ep_jobs, ch_recv. by rewrite Hb. }
  cbn [negb job_m]. rewrite exec_bind, (exec_read_msg m v) by done. rewrite exec_bind.
  erewrite exec_on_node; [|apply lookup_insert_eq|reflexivity].
  rewrite exec_bind, exec_do_stats, exec_bind, (exec_read_msg m v) by done. rewrite exec_bind, exec_do_stats.
  eexists _, _. split; [reflexivity|]. split; [apply lookup_insert_eq|]. done.
Qed.

(** The other broker takes the publication from the wire and a worker serves it. *)
Lemma exec_replay_serve v s a :
  serving s a -> deletes_retained v = false ->
  ch_closed (posts (srv_subs s)) = false -> ch_buf (posts (srv_subs s)) = [] ->
  0 < ch_cap (posts (srv_subs s)) ->
  let q := length (srv_heap s) in
  exists s1 s2, exec (replay_msg (MPublish v)) s = Returned s1 tt /\
    exec run_body s1 = Returned s2 Continue /\
    srv_conns s2 = offer_all (MPublish q) (table_receivers (TopicName v) a) (srv_conns s) /\
    srv_heap s2 !! q = Some (set_Retain false v) /\ srv_nodes s2 = srv_nodes s /\
    retain (srv_subs s2) = (if Retain (PubHeader v)
      then <[TopicName v := set_Retain true v]> (retain (srv_subs s)) else retain (srv_subs s)).
Proof.
  intros Hs Hdel Hc Hb Hcap q. unfold replay_msg. cbn [alloc_msg]. unfold alloc.
  rewrite !exec_bind, exec_atomic. cbn [exec]. fold q.
  rewrite exec_subs_submit by (split; [done|cbn; rewrite Hb; cbn; lia]).
  match goal with |- exists _ _, Returned ?s1 _ = _ /\ _ => exists s1 end.
  rewrite (exec_run_body q []) by (cbn; by rewrite Hb).
  match goal with |- context [exec (run_post q) ?s1] => set (s1' := s1) end.
  destruct (exec_serve q v s1' a) as (s2 & E & Hcn & Hh & Hn & Hr).
  - by eapply (serving_parts s).
  - apply last_snoc_lookup.
  - done.
  - exists s2. split; [reflexivity|]. split; [exact E|]. split; [exact Hcn|].
    split; [rewrite Hh; apply heap_alter, last_snoc_lookup|]. split; [exact Hn|exact Hr].
Qed.
End Replication.

(** ** Properties *)

(** C12: replication between two brokers.  A publication is handed to the only
    endpoint of one broker, whose session writes it; the other broker decodes it, and
    one of its workers serves it.  Every live subscriber of the topic at the second
    broker gets it as often as it is subscribed, up to the room in its queue, without
    the retain flag, and it is replicated no further.  Both goroutines of the first
    broker hold the same pointer: a publication with the retain flag becomes the
    retained message of the second broker exactly when the endpoint writes it before a
    worker of the first broker serves it, and is not retained there otherwise. *)
Theorem replicated_publication_reaches_peer `{GoRuntime} `{Extern} (host : string) (e : endpoint)
    (p : ptr) (v : Publish) (sA sB : Server) (aA aB : table) (worker_first : bool)
    (HA : serving sA aA) (HB : serving sB aB) (Hp : srv_heap sA !! p = Some v)
    (Hdel : deletes_retained v = false) (He : srv_nodes sA = {[host := e]})
    (Halive : ep_alive e = true) (Hopen : ch_closed (ep_jobs e) = false) (Hbuf : ch_buf (ep_jobs e) = [])
    (Hcap : 0 < ch_cap (ep_jobs e)) (HopenB : ch_closed (posts (srv_subs sB)) = false)
    (HbufB : ch_buf (posts (srv_subs sB)) = []) (HcapB : 0 < ch_cap (posts (srv_subs sB))) :
  let u := if worker_first then set_Retain false v else v in
  let q := length (srv_heap sB) in
  exists sA1 sA2 sA3 e' sB1 sB2,
    exec (replicate_pub p) sA = Returned sA1 tt /\
    (if worker_first then exec (run_post p) sA1 = Returned sA2 Continue else sA2 = sA1) /\
    exec (ep_job host true) sA2 = Returned sA3 Continue /\
    srv_nodes sA3 !! host = Some e' /\ ep_wire e' = ep_wire e ++ [MPublish u] /\
    exec (replay_msg (MPublish u)) sB = Returned sB1 tt /\ exec run_body sB1 = Returned sB2 Continue /\
    (forall c k, srv_conns sB !! c = Some k -> chan_wf (jobs k) ->
       exists k', srv_conns sB2 !! c = Some k' /\
         ch_buf (jobs k') = ch_buf (jobs k) ++
           replicate (if alive k
                      then Nat.min (count c (table_receivers (TopicName v) aB))
                             (ch_cap (jobs k) - length (ch_buf (jobs k)))
                      else 0) (Job (MPublish q) None)) /\
    srv_heap sB2 !! q = Some (set_Retain false v) /\ srv_nodes sB2 = srv_nodes sB /\
    retain (srv_subs sB2) =
      (if Retain (PubHeader v) && negb worker_first
       then <[TopicName v := set_Retain true v]> (retain (srv_subs sB)) else retain (srv_subs sB)).
Proof.
  intros u q. pose proof (exec_replicate p sA) as Er. rewrite He, map_fmap_singleton in Er.
  set (e1 := offer_ep (MPublish p) e) in Er. set (sA1 := set_nodes {[host := e1]} sA) in Er.
  assert (ep_wire e1 = ep_wire e /\ ch_buf (ep_jobs e1) = [Job (MPublish p) None]) as [Hw1 Hb1].
  { unfold e1, offer_ep. rewrite Halive, Hbuf. cbn [length]. by rewrite (proj2 (Nat.ltb_lt _ _) Hcap). }
  specialize (Er ltac:(intros h e0 [<- <-]%lookup_singleton_Some _; split; [done|by rewrite Hbuf])).
  assert (serving sA1 aA) as HA1 by (eapply (serving_parts sA _ _ (posts (srv_subs sA))); [done..| |done]; cbn; by destruct (srv_subs sA)).
  assert (exists sA2, (if worker_first then exec (run_post p) sA1 = Returned sA2 Continue else sA2 = sA1) /\
    srv_nodes sA2 = {[host := e1]} /\ srv_heap sA2 !! p = Some u) as (sA2 & E2 & Hn2 & Hp2).
  { destruct worker_first; [|by exists sA1]. destruct (exec_serve p v sA1 aA) as (s2 & E & _ & Hh & Hn & _); [done..|].
    exists s2. split; [exact E|]. split; [exact Hn|]. rewrite Hh. by apply heap_alter. }
  destruct (exec_ep_job host (MPublish p) [] (MPublish u) sA2 e1) as (sA3 & e' & E3 & He' & Hw & _).
  { rewrite Hn2. apply lookup_singleton_eq. }
  { exact Hb1. }
  { cbn. by rewrite Hp2. }
  rewrite Hw1 in Hw.
  destruct (exec_replay_serve u sB aB) as (sB1 & sB2 & E4 & E5 & Hc & Hh & Hn & Hr); [done|by destruct worker_first|done..|].
  exists sA1, sA2, sA3, e', sB1, sB2. do 7 (split; [done|]). split; [|split; [|split; [done|]]].
  - intros c k Hk Hch. rewrite Hc, offer_all_lookup, Hk. eexists. split; [reflexivity|].
    destruct (iter_offer (MPublish q) (count c (table_receivers (TopicName u) aB)) k Hch) as (_ & _ & Hb).
    unfold u in *. by destruct worker_first.
  - unfold u in Hh. by destruct worker_first.
  - rewrite Hr. unfold u. destruct worker_first; cbn; [by rewrite andb_false_r|by rewrite andb_true_r].
Qed.

#[local] Existing Instance doubling_runtime.
#[local] Existing Instance bytes_mqttmsg.
#[local] Existing Instance plain_extern.

Module DemoReplication.
Definition cf : PeersConfig := Build_PeersConfig 0 "" false false 0 false 2 "discard".
Definition peer : endpoint := Endpoint cf "b:9090" true (make_chan 2) true true [].

(** The small server with a subscriber and a retained publication; one copy has a peer. *)
Definition sender : Server := Eval vm_compute in set_nodes {["b:9090" := peer]} Demo2.subscribed.
Definition receiver : Server := Demo2.subscribed.
Definition pub : Publish := Demo.publish_msg "t/x" QosAtLeastOnce true 7 "hello".

Lemma subscribed_serving : serving receiver Demo2.subscribed_table.
Proof.
  destruct Demo2.subscribed_wf as [Hwf Href]. split; [split|]; try done.
  - by repeat constructor.
  - intros t. unfold table_receivers. apply Forall_app. split.
    + cbn. repeat case_decide; repeat constructor.
    + apply Forall_fmap, Forall_filter_sub. repeat constructor.
Qed.
End DemoReplication.

Lemma replicated_publication_reaches_peer_witness :
  let sA := DemoReplication.sender in
  let sB := DemoReplication.receiver in
  exists sA1 sA2 sA3 e' sB1 sB2,
    exec (replicate_pub 0) sA = Returned sA1 tt /\ exec (run_post 0) sA1 = Returned sA2 Continue /\
    exec (ep_job "b:9090" true) sA2 = Returned sA3 Continue /\
    srv_nodes sA3 !! "b:9090" = Some e' /\ ep_wire e' = [MPublish (set_Retain false DemoReplication.pub)] /\
    exec (replay_msg (MPublish (set_Retain false DemoReplication.pub))) sB = Returned sB1 tt /\
    exec run_body sB1 = Returned sB2 Continue /\ retain (srv_subs sB2) = retain (srv_subs sB).
Proof.
  intros sA sB.
  destruct (replicated_publication_reaches_peer "b:9090" DemoReplication.peer 0 DemoReplication.pub sA sB
    Demo2.subscribed_table Demo2.subscribed_table true)
    as (sA1 & sA2 & sA3 & e' & sB1 & sB2 & E1 & E2 & E3 & He & Hw & E4 & E5 & _ & _ & _ & Hr).
  - eapply (serving_parts sB sA _ (posts (srv_subs sB))); try reflexivity.
    exact DemoReplication.subscribed_serving.
  - exact DemoReplication.subscribed_serving.
  - reflexivity.
  - reflexivity.
  - reflexivity.
  - reflexivity.
  - reflexivity.
  - reflexivity.
  - vm_compute. lia.
  - reflexivity.
  - reflexivity.
  - vm_compute. lia.
  - exists sA1, sA2, sA3, e', sB1, sB2. repeat (split; [eassumption|]). exact Hr.
Defined.
