(* ===== verification/Invariant.v ===== *)
(** * The invariant of the shared state

    What holds of the broker's shared state between any two actions of any
    goroutines, how the state may grow, and that every action of every goroutine
    body keeps both ([ok]), whatever the other goroutines do meanwhile. *)

From Stdlib Require Import ZArith Lia.
From stdpp Require Import base gmap list strings numbers sets.
From S2P Require Import Prelude GoString GoProc GoSlice Wild Config Proto Store Stats Subs Broker.
From S2P Require Import Session SessionFacts Delivery Peers.

Local Open Scope string_scope.
Local Open Scope list_scope.

(** ** Entries of slice arrays *)

Section Entries.
Context `{GoRuntime} {A : Type}.
Implicit Types h : list (list (option A)).

Definition entry_in (P : A -> Prop) (x : option A) : Prop :=
  match x with Some c => P c | None => True end.

(** Every pointer in the arrays, also beyond the length of a slice, satisfies [P]. *)
Definition entries_in (P : A -> Prop) h : Prop := Forall (Forall (entry_in P)) h.

Lemma entries_in_impl (P Q : A -> Prop) h :
  (forall c, P c -> Q c) -> entries_in P h -> entries_in Q h.
Proof.
  intros HPQ Hh. unfold entries_in. eapply Forall_impl; [exact Hh|]. intros arr Ha.
  eapply Forall_impl; [exact Ha|]. intros [c|]; simpl; auto.
Qed.

Lemma entries_in_array (P : A -> Prop) h a :
  entries_in P h -> Forall (entry_in P) (array_at h a).
Proof.
  intros Hh. unfold array_at. destruct (h !! a) as [arr|] eqn:E; simpl; [|constructor].
  exact (Forall_lookup_1 _ _ _ _ Hh E).
Qed.

Lemma entries_in_set (P : A -> Prop) h a arr :
  entries_in P h -> Forall (entry_in P) arr -> entries_in P (set_array h a arr).
Proof. intros Hh Ha. unfold set_array. by apply Forall_insert. Qed.

Lemma entries_in_index (P : A -> Prop) h s i c :
  entries_in P h -> index h s i = Some c -> P c.
Proof.
  intros Hh. unfold index. destruct (_ <? _)%nat; [|done].
  destruct (array_at h (sl_arr s) !! i) as [x|] eqn:E; simpl; [|done]. intros ->.
  exact (Forall_lookup_1 _ _ _ _ (entries_in_array P h (sl_arr s) Hh) E).
Qed.

Lemma entries_in_append (P : A -> Prop) h s x :
  entries_in P h -> entry_in P x -> entries_in P (append h s x).1.
Proof.
  intros Hh Hx. pose proof (entries_in_array P h (sl_arr s) Hh) as Ha.
  unfold append. case_goal; cbn [fst].
  - apply entries_in_set; [done|]. by apply Forall_insert.
  - apply Forall_app. split; [done|]. constructor; [|constructor].
    apply Forall_app. split; [by apply Forall_take|]. constructor; [done|].
    by apply Forall_replicate.
Qed.

Lemma entries_in_sweep (P : A -> Prop) test h s : entries_in P h -> entries_in P (sweep test h s).
Proof.
  intros Hh. pose proof (entries_in_array P h (sl_arr s) Hh) as Ha.
  unfold sweep. apply entries_in_set; [done|].
  apply Forall_app. split; [|by apply Forall_drop].
  apply Forall_fmap. eapply Forall_impl; [by apply Forall_take|].
  intros [c|]; simpl; by case_goal.
Qed.
End Entries.

(** ** The invariant *)

Section Invariant.
Context `{GoRuntime} `{Extern}.
Implicit Types (s : Server) (k : incomingConn) (c : conn_ptr).

(** A message points into a memory of [nh] publications. *)
Definition msg_ok (nh : nat) (m : Message ptr) : Prop :=
  match m with MPublish p => p < nh | _ => True end.

(** The outbound loop uses the store of the connection for this message. *)
Definition needs_store (m : Message ptr) : bool :=
  match m with MPublish _ | MPubAck _ _ => true | _ => false end.

Definition has_store k : Prop := store k <> None.

Record conn_wf (nh ns : nat) k : Prop := {
  cw_chan : chan_wf (jobs k);
  cw_jobs : Forall (fun j => msg_ok nh (job_m j) /\
                             (needs_store (job_m j) = true -> has_store k)) (ch_buf (jobs k));
  cw_store q : store k = Some q -> q < ns
}.

(** A connection that can be subscribed: it has a store. *)
Definition ready (ks : list incomingConn) (c : conn_ptr) : Prop :=
  exists k, ks !! c = Some k /\ has_store k.

Definition posts_wf (nh : nat) (q : chan ptr) : Prop :=
  chan_wf q /\ Forall (fun p => p < nh) (ch_buf q).

Record srv_wf s : Prop := {
  wf_subs : subs_wf (srv_subs s);
  wf_posts : posts_wf (length (srv_heap s)) (posts (srv_subs s));
  wf_arrays : entries_in (ready (srv_conns s)) (arrays (srv_subs s));
  wf_wild : Forall (fun w => ready (srv_conns s) (wild_c w)) (wildcards (srv_subs s));
  wf_conns : Forall (conn_wf (length (srv_heap s)) (length (store_heap (srv_stores s)))) (srv_conns s);
  wf_clients : map_Forall (fun _ c => c < length (srv_conns s)) (srv_clients s);
  wf_reg : registry_wf (srv_stores s);
  wf_stores : Forall (store_valid (srv_heap s)) (store_heap (srv_stores s));
  wf_nodes : map_Forall (fun _ e => chan_wf (ep_jobs e)) (srv_nodes s);
  wf_cf : (0 <= ClientOutboundQueueLen (Broker (srv_cf s)))%Z;
  wf_gos : Forall (fun g => match g with GoHeartbeat c _ => c < length (srv_conns s) end) (srv_gos s)
}.

(** ** How the state grows *)

Definition conn_grows k k' : Prop :=
  (flag k <> None -> flag k' <> None) /\ (has_store k -> has_store k').

Record grows s s' : Prop := {
  gr_cf : srv_cf s' = srv_cf s;
  gr_heap : length (srv_heap s) <= length (srv_heap s');
  gr_stores : length (store_heap (srv_stores s)) <= length (store_heap (srv_stores s'));
  gr_conns c k : srv_conns s !! c = Some k ->
    exists k', srv_conns s' !! c = Some k' /\ conn_grows k k';
  gr_nodes h : is_Some (srv_nodes s !! h) -> is_Some (srv_nodes s' !! h)
}.

#[export] Instance grows_preorder : PreOrder grows.
Proof.
  split.
  - intros s. split; try done. intros c k Hk. exists k. by split; [|split].
  - intros s1 s2 s3 H12 H23. split.
    + rewrite (gr_cf _ _ H23). apply H12.
    + pose proof (gr_heap _ _ H12). pose proof (gr_heap _ _ H23). lia.
    + pose proof (gr_stores _ _ H12). pose proof (gr_stores _ _ H23). lia.
    + intros c k Hk. destruct (gr_conns _ _ H12 c k Hk) as (k2 & Hk2 & Hf2 & Hs2).
      destruct (gr_conns _ _ H23 c k2 Hk2) as (k3 & Hk3 & Hf3 & Hs3).
      exists k3. split; [done|]. split; auto.
    + intros h Hh. by apply (gr_nodes _ _ H23), (gr_nodes _ _ H12).
Qed.

(** The flag of [c], while it is nil, is set by the goroutine of its inbound loop only. *)
Definition keeps (c : conn_ptr) s s' : Prop :=
  forall k k', srv_conns s !! c = Some k -> srv_conns s' !! c = Some k' ->
    flag k = None -> flag k' = None.

(** What every goroutine guarantees outside [doConnect]. *)
Definition quiet s s' : Prop := grows s s' /\ forall c, keeps c s s'.

Lemma quiet_refl : Reflexive quiet.
Proof.
  intros s. split; [reflexivity|]. intros c k k' Hk Hk'. congruence.
Qed.

(** Facts that growth keeps. *)
Definition conn_valid c s : Prop := is_Some (srv_conns s !! c).
Definition conn_ready c s : Prop := ready (srv_conns s) c.
Definition conn_flagged c s : Prop := exists k, srv_conns s !! c = Some k /\ flag k <> None.

Lemma conn_valid_grows c s s' : grows s s' -> conn_valid c s -> conn_valid c s'.
Proof. intros Hg [k Hk]. destruct (gr_conns _ _ Hg c k Hk) as (k' & Hk' & _). by exists k'. Qed.

Lemma conn_ready_grows c s s' : grows s s' -> conn_ready c s -> conn_ready c s'.
Proof.
  intros Hg (k & Hk & Hs). destruct (gr_conns _ _ Hg c k Hk) as (k' & Hk' & _ & Hs').
  exists k'. split; [done|]. by apply Hs'.
Qed.

Lemma conn_flagged_grows c s s' : grows s s' -> conn_flagged c s -> conn_flagged c s'.
Proof.
  intros Hg (k & Hk & Hf). destruct (gr_conns _ _ Hg c k Hk) as (k' & Hk' & Hf' & _).
  exists k'. split; [done|]. by apply Hf'.
Qed.

Lemma conn_ready_valid c s : conn_ready c s -> conn_valid c s.
Proof. intros (k & Hk & _). by exists k. Qed.

Lemma msg_ok_mono nh nh' m : nh <= nh' -> msg_ok nh m -> msg_ok nh' m.
Proof. destruct m; simpl; try done. intros ??. lia. Qed.

Lemma conn_wf_mono nh nh' ns ns' k : nh <= nh' -> ns <= ns' -> conn_wf nh ns k -> conn_wf nh' ns' k.
Proof.
  intros Hh Hs [Hc Hj Hst]. split; [done| |].
  - eapply Forall_impl; [exact Hj|]. intros j [Hm Hn]. split; [by eapply msg_ok_mono|done].
  - intros q Hq. specialize (Hst q Hq). lia.
Qed.

(** A connection whose queue and store did not change. *)
Lemma conn_wf_same nh ns k k' :
  jobs k' = jobs k -> store k' = store k -> conn_wf nh ns k -> conn_wf nh ns k'.
Proof.
  intros Hj Hs [Hc Hjobs Hst]. split; rewrite ?Hj, ?Hs; [done| |done].
  unfold has_store. rewrite Hs. exact Hjobs.
Qed.

Lemma store_valid_mono (h h' : list Publish) st :
  length h <= length h' -> store_valid h st -> store_valid h' st.
Proof.
  intros Hl Hst key m Hm. destruct (Hst key m Hm) as [Hk Hp]. split; [done|].
  intros p Hmp. specialize (Hp p Hmp). lia.
Qed.

(** ** Updates that keep the invariant *)

Definition kept s s' : Prop := srv_wf s' /\ quiet s s'.

(** A state with the same connections: only growth is left to show. *)
Lemma quiet_same_conns s s' :
  srv_conns s' = srv_conns s -> srv_cf s' = srv_cf s ->
  length (srv_heap s) <= length (srv_heap s') ->
  length (store_heap (srv_stores s)) <= length (store_heap (srv_stores s')) ->
  (forall h, is_Some (srv_nodes s !! h) -> is_Some (srv_nodes s' !! h)) ->
  quiet s s'.
Proof.
  intros Hc Hcf Hh Hs Hn. split.
  - split; try done. intros c k Hk. exists k. rewrite Hc. by split; [|split].
  - intros c k k'. rewrite Hc. congruence.
Qed.

Lemma kept_refl s : srv_wf s -> kept s s.
Proof. intros Hwf. split; [done|apply quiet_refl]. Qed.

Lemma kept_stats x s : srv_wf s -> kept s (set_stats x s).
Proof. intros []. split; [by split|by apply quiet_same_conns]. Qed.
Lemma kept_receipts x s : srv_wf s -> kept s (set_receipts x s).
Proof. intros []. split; [by split|by apply quiet_same_conns]. Qed.
Lemma kept_redis x s : srv_wf s -> kept s (set_redis x s).
Proof. intros []. split; [by split|by apply quiet_same_conns]. Qed.
Lemma kept_gos x s :
  Forall (fun g => match g with GoHeartbeat c _ => c < length (srv_conns s) end) x ->
  srv_wf s -> kept s (set_gos x s).
Proof. intros Hx []. split; [by split|by apply quiet_same_conns]. Qed.
Lemma kept_clock x s : srv_wf s -> kept s (set_clock x s).
Proof. intros []. split; [by split|by apply quiet_same_conns]. Qed.

Lemma kept_heap h s :
  length (srv_heap s) <= length h -> srv_wf s -> kept s (set_heap h s).
Proof.
  intros Hl [Hs Hp Ha Hw Hc Hcl Hr Hst Hn Hcf Hgo].
  split; [|by apply quiet_same_conns]. split; try done; simpl.
  - destruct Hp as [Hq Hb]. split; [done|]. eapply Forall_impl; [exact Hb|].
    intros p Hp. simpl in *. lia.
  - eapply Forall_impl; [exact Hc|]. intros k. by apply conn_wf_mono.
  - eapply Forall_impl; [exact Hst|]. intros st. by apply store_valid_mono.
Qed.

Lemma kept_clients x s :
  map_Forall (fun _ c => c < length (srv_conns s)) x -> srv_wf s -> kept s (set_clients x s).
Proof. intros Hx []. split; [by split|by apply quiet_same_conns]. Qed.

Lemma kept_stores r s :
  registry_wf r -> Forall (store_valid (srv_heap s)) (store_heap r) ->
  length (store_heap (srv_stores s)) <= length (store_heap r) ->
  srv_wf s -> kept s (set_stores r s).
Proof.
  intros Hr Hst Hl [Hs Hp Ha Hw Hc Hcl _ _ Hn Hcf Hgo]. split; [|by apply quiet_same_conns].
  split; try done. simpl. eapply Forall_impl; [exact Hc|]. intros k. by apply conn_wf_mono.
Qed.

Lemma kept_nodes x s :
  map_Forall (fun _ e => chan_wf (ep_jobs e)) x ->
  (forall h, is_Some (srv_nodes s !! h) -> is_Some (x !! h)) ->
  srv_wf s -> kept s (set_nodes x s).
Proof. intros Hx Hd []. split; [by split|by apply quiet_same_conns]. Qed.

Lemma kept_subs t s :
  subs_wf t -> posts_wf (length (srv_heap s)) (posts t) ->
  entries_in (ready (srv_conns s)) (arrays t) ->
  Forall (fun w => ready (srv_conns s) (wild_c w)) (wildcards t) ->
  srv_wf s -> kept s (set_subs t s).
Proof. intros ? ? ? ? []. split; [by split|by apply quiet_same_conns]. Qed.

(** An update of one connection that sets no flag. *)
Definition conn_upd k k' : Prop := flag k' = flag k /\ (has_store k -> has_store k').

Lemma ready_mono (ks ks' : list incomingConn) c :
  (forall k, ks !! c = Some k -> exists k', ks' !! c = Some k' /\ (has_store k -> has_store k')) ->
  ready ks c -> ready ks' c.
Proof.
  intros Hks (k & Hk & Hs). destruct (Hks k Hk) as (k' & Hk' & Hs'). exists k'. auto.
Qed.

Lemma wf_new_conns ks s :
  length (srv_conns s) <= length ks ->
  (forall c k, srv_conns s !! c = Some k -> exists k', ks !! c = Some k' /\ (has_store k -> has_store k')) ->
  Forall (conn_wf (length (srv_heap s)) (length (store_heap (srv_stores s)))) ks ->
  srv_wf s -> srv_wf (set_conns ks s).
Proof.
  intros Hl Hks Hwf [Hs Hp Ha Hw Hc Hcl Hr Hst Hn Hcf Hgo].
  assert (forall c, ready (srv_conns s) c -> ready ks c) as Hready
    by (intros c; apply ready_mono, Hks).
  split; try done; simpl.
  - by eapply entries_in_impl.
  - eapply Forall_impl; [exact Hw|]. intros w. apply Hready.
  - intros id c Hid. specialize (Hcl id c Hid). simpl in *. lia.
  - eapply Forall_impl; [exact Hgo|]. intros [c ka]. lia.
Qed.

Lemma put_conn_spec c k k' s d kd :
  srv_conns s !! c = Some k -> srv_conns s !! d = Some kd ->
  srv_conns (put_conn c k' s) !! d = Some (if decide (c = d) then k' else kd) /\
  (c = d -> kd = k).
Proof.
  intros Hk Hd. destruct (decide (c = d)) as [<-|Hne].
  - split; [by apply put_conn_eq with k|congruence].
  - split; [by rewrite put_conn_ne|done].
Qed.

Lemma wf_put_conn c k k' s :
  srv_conns s !! c = Some k ->
  conn_wf (length (srv_heap s)) (length (store_heap (srv_stores s))) k' ->
  (has_store k -> has_store k') -> srv_wf s -> srv_wf (put_conn c k' s).
Proof.
  intros Hk Hwf' Hst Hwf. apply wf_new_conns; [by rewrite length_insert| | |done].
  - intros d kd Hd. destruct (put_conn_spec c k k' s d kd Hk Hd) as [Hl Heq].
    eexists. split; [exact Hl|]. case_decide; [|done]. rewrite Heq by done. done.
  - apply Forall_insert; [apply Hwf|done].
Qed.

Lemma grows_put_conn c k k' s :
  srv_conns s !! c = Some k -> conn_grows k k' -> grows s (put_conn c k' s).
Proof.
  intros Hk Hg. split; try done. intros d kd Hd.
  destruct (put_conn_spec c k k' s d kd Hk Hd) as [Hl Heq].
  eexists. split; [exact Hl|]. case_decide; [|by split]. rewrite Heq by done. done.
Qed.

Lemma kept_conn c k k' s :
  srv_conns s !! c = Some k -> conn_upd k k' ->
  conn_wf (length (srv_heap s)) (length (store_heap (srv_stores s))) k' ->
  srv_wf s -> kept s (put_conn c k' s).
Proof.
  intros Hk [Hf Hst] Hwf' Hwf. split; [by apply wf_put_conn with k|]. split.
  - apply grows_put_conn with k; [done|]. split; [by rewrite Hf|done].
  - intros d kd kd' Hd Hd'. destruct (put_conn_spec c k k' s d kd Hk Hd) as [Hl Heq].
    rewrite Hl in Hd'. injection Hd' as <-. case_decide as Hcd; [|done].
    rewrite (Heq Hcd). congruence.
Qed.

Lemma wf_conn c k s :
  srv_wf s -> srv_conns s !! c = Some k ->
  conn_wf (length (srv_heap s)) (length (store_heap (srv_stores s))) k.
Proof. intros Hwf Hk. by eapply Forall_lookup_1; [apply Hwf|]. Qed.

(** An update of the flow fields of one connection: the queue and the store stay. *)
Lemma kept_conn_same c k k' s :
  srv_conns s !! c = Some k -> flag k' = flag k -> store k' = store k -> jobs k' = jobs k ->
  srv_wf s -> kept s (put_conn c k' s).
Proof.
  intros Hk Hf Hs Hj Hwf. apply kept_conn with k; [done| | |done].
  - split; [done|]. unfold has_store. by rewrite Hs.
  - eapply conn_wf_same; [exact Hj|exact Hs|]. by apply wf_conn with c.
Qed.

(** ** Rules for actions *)

(** The panics that are not excluded.  A nil pointer is dereferenced only when the
    clients are not careful: when one may talk before its CONNECT. *)
Definition allowed (careful : Prop) (w : panic) : Prop :=
  w = SendOnClosed \/ w = CloseOfClosed \/ (w = NilDeref /\ ~ careful).

Context (careful : Prop).
Notation okq := (ok srv_wf grows quiet (allowed careful)).

Lemma quiet_grows s s' : quiet s s' -> grows s s'.
Proof. by intros []. Qed.

Lemma okq_bind {A B} (Q : A -> Server -> Prop) (Q' : B -> Server -> Prop) p kont s :
  okq Q p s -> (forall a s', grows s s' -> Q a s' -> okq Q' (kont a) s') -> okq Q' (bind p kont) s.
Proof. apply ok_bind with (T := grows); [apply _|done|apply quiet_grows]. Qed.

Lemma okq_weaken {A} (Q Q' : A -> Server -> Prop) p s :
  okq Q p s -> (forall a s', Q a s' -> Q' a s') -> okq Q' p s.
Proof. apply ok_weaken. Qed.

Lemma okq_reads {A} (Q : A -> Server -> Prop) (f : Server -> A) s :
  (forall s', grows s s' -> srv_wf s' -> Q (f s') s') -> okq Q (reads f) s.
Proof. apply ok_reads. apply quiet_refl. Qed.

Lemma okq_atomic {A} (Q : A -> Server -> Prop) f s :
  (forall s', grows s s' -> srv_wf s' ->
     match f s' with
     | Done s'' a => kept s' s'' /\ Q a s''
     | Blocked => True
     | Panicked w => allowed careful w
     end) -> okq Q (atomic f) s.
Proof.
  intros Hf. apply ok_atomic. intros s' Hg Hwf. specialize (Hf s' Hg Hwf).
  destruct (f s'); [|done|done]. destruct Hf as [[? ?] ?]. done.
Qed.

Lemma okq_modify (f : Server -> Server) s :
  (forall s', grows s s' -> srv_wf s' -> kept s' (f s')) -> okq (fun _ _ => True) (modify f) s.
Proof. intros Hf. apply okq_atomic. auto. Qed.

Lemma okq_for_each {B} (l : list B) (body : B -> proc Server unit) s :
  (forall x s', x ∈ l -> grows s s' -> okq (fun _ _ => True) (body x) s') ->
  okq (fun _ _ => True) (for_each l body) s.
Proof. apply ok_for_each with (T := grows); [apply _|done|apply quiet_grows]. Qed.

Lemma okq_for_range n i (body : nat -> proc Server unit) s :
  (forall j s', grows s s' -> okq (fun _ _ => True) (body j) s') ->
  okq (fun _ _ => True) (for_range n i body) s.
Proof. apply ok_for_range with (T := grows); [apply _|done|apply quiet_grows]. Qed.

Lemma okq_on_conn {A} (Q : A -> Server -> Prop) c f s :
  conn_valid c s ->
  (forall s' k, grows s s' -> srv_wf s' -> srv_conns s' !! c = Some k ->
     match f k with
     | Done k' a => kept s' (put_conn c k' s') /\ Q a (put_conn c k' s')
     | Blocked => True
     | Panicked w => allowed careful w
     end) -> okq Q (on_conn c f) s.
Proof.
  intros Hc Hf. apply okq_atomic. intros s' Hg Hwf.
  destruct (conn_valid_grows _ _ _ Hg Hc) as [k Hk]. rewrite Hk.
  specialize (Hf s' k Hg Hwf Hk). by destruct (f k).
Qed.

Lemma okq_read_conn {A} (Q : A -> Server -> Prop) c (f : incomingConn -> A) s :
  conn_valid c s ->
  (forall s' k, grows s s' -> srv_wf s' -> srv_conns s' !! c = Some k -> Q (f k) s') ->
  okq Q (read_conn c f) s.
Proof.
  intros Hc Hf. apply okq_atomic. intros s' Hg Hwf.
  destruct (conn_valid_grows _ _ _ Hg Hc) as [k Hk]. rewrite Hk.
  split; [by apply kept_refl|by apply Hf].
Qed.

(** A write that leaves the flag, the store and the queue alone. *)
Lemma okq_write_conn c f s :
  conn_valid c s -> (forall k, flag (f k) = flag k /\ store (f k) = store k /\ jobs (f k) = jobs k) ->
  okq (fun _ _ => True) (write_conn c f) s.
Proof.
  intros Hc Hf. apply okq_on_conn; [done|]. intros s' k Hg Hwf Hk. destruct (Hf k) as (? & ? & ?).
  split; [|done]. by apply kept_conn_same with k.
Qed.

Lemma okq_do_stats f s : okq (fun _ _ => True) (do_stats f) s.
Proof. apply okq_modify. intros s' _. apply kept_stats. Qed.

Lemma okq_refreshOpTime c s : conn_valid c s -> okq (fun _ _ => True) (refreshOpTime c) s.
Proof.
  intros Hc. eapply okq_bind; [by apply okq_reads with (Q := fun _ _ => True)|].
  intros now s' Hg _. apply okq_write_conn; [by eapply conn_valid_grows|done].
Qed.

Lemma okq_stop c s : conn_valid c s -> okq (fun _ _ => True) (stop c) s.
Proof.
  intros Hc. eapply okq_bind; [apply okq_do_stats|]. intros [] s' Hg _.
  apply okq_on_conn; [by eapply conn_valid_grows|]. intros s1 k Hg1 Hwf Hk.
  destruct (stopChan k); [right; left; done|]. split; [|done]. by apply kept_conn_same with k.
Qed.

(** ** Queues *)

Lemma conn_wf_jobs nh ns k q :
  conn_wf nh ns k -> chan_wf q ->
  Forall (fun j => msg_ok nh (job_m j) /\ (needs_store (job_m j) = true -> has_store k)) (ch_buf q) ->
  conn_wf nh ns (set_jobs q k).
Proof. intros [_ _ Hs] Hq Hj. by split. Qed.

(** What may be queued for [c]. *)
Definition sendable c (m : Message ptr) s : Prop :=
  conn_valid c s /\ msg_ok (length (srv_heap s)) m /\ (needs_store m = true -> conn_ready c s).

Lemma sendable_grows c m s s' : grows s s' -> sendable c m s -> sendable c m s'.
Proof.
  intros Hg (Hc & Hm & Hn). split; [by eapply conn_valid_grows|]. split.
  - eapply msg_ok_mono; [apply Hg|done].
  - intros Hns. eapply conn_ready_grows; [done|]. auto.
Qed.

Lemma kept_push c m r k s :
  srv_wf s -> srv_conns s !! c = Some k -> sendable c m s ->
  length (ch_buf (jobs k)) < ch_cap (jobs k) ->
  kept s (put_conn c (set_jobs (Chan (ch_buf (jobs k) ++ [Job m r]) (ch_cap (jobs k)) false) k) s).
Proof.
  intros Hwf Hk (_ & Hm & Hn) Hl. pose proof (wf_conn _ _ _ Hwf Hk) as Hkw.
  apply kept_conn with k; [done|by split| |done]. apply conn_wf_jobs; [done| |].
  - unfold chan_wf. simpl. rewrite length_app. simpl. lia.
  - simpl. apply Forall_app. split; [apply Hkw|]. constructor; [|done]. split; [done|].
    intros Hns. destruct (Hn Hns) as (k' & Hk' & Hst). congruence.
Qed.

Lemma okq_send c m r s :
  sendable c m s -> okq (fun _ _ => True) (on_conn c (on_jobs (ch_send (Job m r)))) s.
Proof.
  intros Hsend. apply okq_on_conn; [apply Hsend|]. intros s' k Hg Hwf Hk.
  pose proof (sendable_grows _ _ _ _ Hg Hsend) as Hsend'.
  unfold on_jobs, ch_send. destruct (ch_closed (jobs k)); [by left|].
  destruct (_ <? _)%nat eqn:El; [|done]. breflect. split; [|done]. by apply kept_push.
Qed.

Lemma okq_try_send c m s :
  sendable c m s -> okq (fun _ _ => True) (on_conn c (on_jobs (ch_try_send (Job m None)))) s.
Proof.
  intros Hsend. apply okq_on_conn; [apply Hsend|]. intros s' k Hg Hwf Hk.
  pose proof (sendable_grows _ _ _ _ Hg Hsend) as Hsend'.
  unfold on_jobs, ch_try_send. destruct (ch_closed (jobs k)); [by left|].
  destruct (_ <? _)%nat eqn:El; breflect; (split; [|done]).
  - by apply kept_push.
  - by apply kept_conn_same with k.
Qed.

Lemma okq_submit c m s : sendable c m s -> okq (fun _ _ => True) (submit c m) s.
Proof.
  intros Hsend. unfold submit.
  eapply okq_bind; [apply okq_read_conn with (Q := fun _ _ => True); [apply Hsend|done]|].
  intros [] s1 Hg1 _; [|done]. cbn [negb].
  eapply okq_bind; [by apply okq_reads with (Q := fun _ _ => True)|]. intros block s2 Hg2 _.
  assert (sendable c m s2) as Hs2 by (do 2 (eapply sendable_grows; [done|]); done).
  destruct block; [by apply okq_send|].
  eapply okq_bind; [by apply okq_try_send|]. done.
Qed.

Lemma okq_submitSync c s :
  conn_valid c s -> okq (fun _ _ => True) (submitSync c MDisconnect) s.
Proof.
  intros Hc. unfold submitSync. eapply okq_bind.
  - apply okq_atomic with (Q := fun _ _ => True). intros s' _ Hwf. split; [|done]. by apply kept_receipts.
  - intros r s1 Hg1 _. eapply okq_bind; [|done]. apply okq_send. split; [by eapply conn_valid_grows|].
    by split.
Qed.

Lemma okq_wait r s : okq (fun _ _ => True) (wait r) s.
Proof. apply okq_atomic. intros s' _ Hwf. case_decide; [|done]. split; [by apply kept_refl|done]. Qed.

Lemma okq_close_receipt r s : okq (fun _ _ => True) (close_receipt r) s.
Proof.
  apply okq_atomic. intros s' _ Hwf. case_decide; [right; left; done|].
  split; [by apply kept_receipts|done].
Qed.

(** ** Memory and stores *)

Lemma okq_alloc v s :
  okq (fun p s' => p < length (srv_heap s')) (alloc v) s.
Proof.
  apply okq_atomic. intros s' _ Hwf. split.
  - apply kept_heap; [|done]. rewrite length_app. lia.
  - simpl. rewrite length_app. simpl. lia.
Qed.

Lemma okq_alloc_msg v s :
  okq (fun m s' => msg_ok (length (srv_heap s')) m /\
                   (forall m', m = MConnect m' <-> v = MConnect m') /\
                   (forall p, m = MPublish p -> exists v', v = MPublish v') /\
                   (forall mid ts, m = MSubscribe mid ts -> v = MSubscribe mid ts)) (alloc_msg v) s.
Proof.
  destruct v; try (by simpl; repeat split; intros; simplify_eq).
  cbn [alloc_msg]. eapply okq_bind; [apply okq_alloc|]. intros q s' _ Hq. simpl.
  split; [done|]. repeat split; intros; simplify_eq; eauto.
Qed.

Lemma okq_read_pub q s :
  q < length (srv_heap s) ->
  okq (fun v s' => exists v', srv_heap s' !! q = Some v') (read_pub q) s.
Proof.
  intros Hq. apply okq_atomic. intros s' Hg Hwf.
  assert (q < length (srv_heap s')) as Hq' by (pose proof (gr_heap _ _ Hg); lia).
  apply lookup_lt_is_Some in Hq' as [v Hv]. rewrite Hv. split; [by apply kept_refl|]. by exists v.
Qed.

Lemma msg_ok_view (h : list Publish) m : msg_ok (length h) m -> is_Some (view h m).
Proof.
  destruct m; simpl; eauto. intros Hp. apply lookup_lt_is_Some in Hp as [v Hv]. rewrite Hv. by eexists.
Qed.

Lemma okq_read_msg m s :
  msg_ok (length (srv_heap s)) m ->
  okq (fun v s' => view (srv_heap s') m = Some v) (read_msg m) s.
Proof.
  intros Hm. apply okq_atomic. intros s' Hg Hwf.
  destruct (msg_ok_view (srv_heap s') m) as [v Hv]; [eapply msg_ok_mono; [apply Hg|done]|].
  rewrite Hv. split; [by apply kept_refl|done].
Qed.

(** A method call on the store of a connection that has one. *)
Lemma okq_on_store {A} (Q : A -> Server -> Prop) c f s :
  conn_ready c s ->
  (forall s' st, grows s s' -> srv_wf s' -> store_valid (srv_heap s') st ->
     store_valid (srv_heap s') (f st).1 /\
     forall s'', srv_heap s'' = srv_heap s' -> Q (f st).2 s'') ->
  okq Q (on_store c f) s.
Proof.
  intros Hc Hf. apply okq_atomic. intros s' Hg Hwf.
  destruct (conn_ready_grows _ _ _ Hg Hc) as (k & Hk & Hst). rewrite Hk.
  unfold has_store in Hst. destruct (store k) as [q|] eqn:Hq; [|done].
  pose proof (cw_store _ _ _ (wf_conn _ _ _ Hwf Hk) q Hq) as Hlt.
  apply lookup_lt_is_Some in Hlt as [st Hst']. rewrite Hst'. cbv zeta.
  pose proof (Forall_lookup_1 _ _ _ _ (wf_stores _ Hwf) Hst') as Hval.
  destruct (Hf s' st Hg Hwf Hval) as [Hval' HQ]. split; [|by apply HQ].
  apply kept_stores; simpl.
  - destruct (wf_reg _ Hwf) as [Hin Hinj]. split; simpl; [|done].
    intros id p Hid. rewrite length_insert. by eapply Hin.
  - apply Forall_insert; [apply Hwf|done].
  - by rewrite length_insert.
  - done.
Qed.

Lemma persist_inbound_valid (h : list Publish) v m st :
  (forall p, m = MPublish p -> p < length h) -> store_valid h st ->
  store_valid h (run_call (persist_inbound_call v m) st).
Proof.
  intros Hm Hst. unfold persist_inbound_call. destruct v; try done; simpl.
  - case_decide; [|done]. intros key x. simpl. rewrite lookup_insert. case_decide; [|apply Hst].
    intros [= <-]. split; [by subst|done].
  - intros key x. simpl. rewrite lookup_delete_Some. intros [_ Hx]. by apply (Hst key).
Qed.

Lemma persist_outbound_valid (h : list Publish) v m st :
  (forall p, m = MPublish p -> p < length h) -> store_valid h st ->
  store_valid h (run_call (persist_outbound_call v m) st).
Proof.
  intros Hm Hst. unfold persist_outbound_call. destruct v; try done; simpl.
  - case_decide; [|done]. intros key x. simpl. rewrite lookup_insert. case_decide; [|apply Hst].
    intros [= <-]. split; [by subst|done].
  - intros key x. simpl. rewrite lookup_delete_Some. intros [_ Hx]. by apply (Hst key).
Qed.

(** A persistence call, which needs a store only if there is something to do. *)
Lemma okq_call_store c call m s :
  (call <> None -> conn_ready c s) -> msg_ok (length (srv_heap s)) m ->
  (forall h st, (forall p, m = MPublish p -> p < length h) -> store_valid h st ->
     store_valid h (run_call call st)) ->
  okq (fun _ _ => True) (call_store c call) s.
Proof.
  intros Hc Hm Hcall. unfold call_store. destruct call as [x|]; [|done].
  apply okq_on_store; [by apply Hc|]. intros s' st Hg Hwf Hst. split; [|done]. simpl.
  apply Hcall; [|done]. intros p ->. simpl in Hm. pose proof (gr_heap _ _ Hg).
  lia.
Qed.

(** ** The subscription table *)

Lemma okq_critical {A} (Q : A -> Server -> Prop) (f : subscriptions -> subscriptions * A) s :
  (forall s', grows s s' -> srv_wf s' ->
     kept s' (set_subs (f (srv_subs s')).1 s') /\
     Q (f (srv_subs s')).2 (set_subs (f (srv_subs s')).1 s')) ->
  okq Q (critical f) s.
Proof.
  intros Hf. apply okq_atomic. intros s' Hg Hwf. destruct (mu (srv_subs s')); [done|].
  by apply Hf.
Qed.

Lemma okq_critical_ (f : subscriptions -> subscriptions) s :
  (forall s', grows s s' -> srv_wf s' -> kept s' (set_subs (f (srv_subs s')) s')) ->
  okq (fun _ _ => True) (critical_ f) s.
Proof. intros Hf. apply okq_critical. intros s' Hg Hwf. split; [by apply Hf|done]. Qed.

Lemma kept_add topic c s : conn_ready c s -> srv_wf s -> kept s (set_subs (add topic c (srv_subs s)) s).
Proof.
  intros Hc Hwf. apply kept_subs; [by apply add_wf; apply Hwf|..|done]; unfold add.
  - destruct (isWildcard topic); [case_goal|]; apply Hwf.
  - destruct (isWildcard topic); [case_goal; apply Hwf|].
    apply entries_in_append; [apply Hwf|done].
  - destruct (isWildcard topic); [|apply Hwf]. case_goal; [|apply Hwf].
    simpl. apply Forall_app. split; [apply Hwf|]. by constructor.
Qed.

Lemma kept_unsub topic c s : srv_wf s -> kept s (set_subs (unsub topic c (srv_subs s)) s).
Proof.
  intros Hwf. apply kept_subs; [by apply unsub_wf; apply Hwf|..|done]; unfold unsub.
  - case_goal; apply Hwf.
  - case_goal; [|apply Hwf]. apply entries_in_sweep, Hwf.
  - case_goal; apply Hwf.
Qed.

Lemma kept_unsubAll c s : srv_wf s -> kept s (set_subs (unsubAll c (srv_subs s)) s).
Proof.
  intros Hwf. apply kept_subs; [by apply unsubAll_wf; apply Hwf|..|done]; unfold unsubAll; simpl.
  - apply Hwf.
  - generalize (range_order (map_to_list (subs (srv_subs s)))) as l. intros l.
    pose proof (wf_arrays _ Hwf) as Ha. revert Ha. generalize (arrays (srv_subs s)) as h.
    induction l as [|kv l IH]; intros h Hh; simpl; [done|]. by apply IH, entries_in_sweep.
  - apply Forall_filter_sub, Hwf.
Qed.

Lemma entries_in_matching (P : conn_ptr -> Prop) parts ws h res :
  Forall (fun w => P (wild_c w)) ws -> entries_in P h -> entries_in P (add_matching parts ws h res).1.
Proof.
  intros Hws. unfold add_matching. revert h res.
  induction Hws as [|w ws Hw _ IH]; intros h res Hh; simpl; [done|].
  destruct (matches w parts); [|by apply IH].
  destruct (append h res (Some (wild_c w))) as [h' res'] eqn:Ea. apply IH.
  change h' with (h', res').1. rewrite <- Ea. by apply entries_in_append.
Qed.

Lemma kept_subscribers topic s :
  srv_wf s -> kept s (set_subs (subscribers topic (srv_subs s)).1 s).
Proof.
  intros Hwf. apply kept_subs; [|apply Hwf| |apply Hwf|done].
  - pose proof (wf_subs _ Hwf) as Hs.
    exact (proj1 (subscribers_spec topic _ _ Hs (refines_self _))).
  - apply entries_in_matching; apply Hwf.
Qed.

Lemma kept_delete_retain topic s :
  srv_wf s -> kept s (set_subs (delete_retain topic (srv_subs s)) s).
Proof.
  intros Hwf. apply kept_subs; [|apply Hwf..|done].
  destruct (wf_subs _ Hwf) as [Hsl Hd Hl Hv Hr]. split; try done.
  intros t m. simpl. rewrite lookup_delete_Some. intros [_ Hm]. by apply Hr.
Qed.

Lemma kept_set_retain m s :
  srv_wf s -> kept s (set_subs (set_retain m (srv_subs s)) s).
Proof.
  intros Hwf. apply kept_subs; [|apply Hwf..|done]. by apply subs_wf_set_retain, wf_subs.
Qed.

Lemma kept_set_mu b s : srv_wf s -> kept s (set_subs (set_mu b (srv_subs s)) s).
Proof.
  intros Hwf. apply kept_subs; [|apply Hwf..|done]. by destruct (wf_subs _ Hwf); split.
Qed.

Lemma kept_set_posts q s :
  posts_wf (length (srv_heap s)) q -> srv_wf s -> kept s (set_subs (set_posts q (srv_subs s)) s).
Proof.
  intros Hq Hwf. apply kept_subs; [|done|apply Hwf..|done]. by destruct (wf_subs _ Hwf); split.
Qed.

Lemma okq_subs_submit q s :
  q < length (srv_heap s) -> okq (fun _ _ => True) (subs_submit q) s.
Proof.
  intros Hq. apply okq_atomic. intros s' Hg Hwf. destruct (wf_posts _ Hwf) as [Hc Hb].
  unfold ch_send. destruct (ch_closed _); [by left|].
  destruct (_ <? _)%nat eqn:El; [|done]. breflect. split; [|done]. apply kept_set_posts; [|done].
  split.
  - unfold chan_wf. simpl. rewrite length_app. simpl. lia.
  - simpl. apply Forall_app. split; [done|]. constructor; [|done]. pose proof (gr_heap _ _ Hg). lia.
Qed.

(** ** The workers *)

Lemma okq_run_next s :
  okq (fun x s' => forall p, x = Some p -> p < length (srv_heap s')) run_next s.
Proof.
  apply okq_atomic. intros s' Hg Hwf. destruct (wf_posts _ Hwf) as [Hc Hb].
  unfold ch_recv. destruct (ch_buf (posts (srv_subs s'))) as [|p rest] eqn:E.
  - destruct (ch_closed _); [|done]. split; [|done]. apply kept_set_posts; [|done]. by apply Hwf.
  - apply Forall_cons in Hb as [Hp Hrest]. split; [|by intros ? [= <-]].
    apply kept_set_posts; [|done]. split; [|done]. unfold chan_wf in *. rewrite E in Hc. simpl in *. lia.
Qed.

Lemma okq_save_retain q s : q < length (srv_heap s) -> okq (fun _ _ => True) (save_retain q) s.
Proof.
  intros Hq. apply okq_atomic. intros s' Hg Hwf. destruct (mu (srv_subs s')); [done|].
  assert (q < length (srv_heap s')) as Hq' by (pose proof (gr_heap _ _ Hg); lia).
  apply lookup_lt_is_Some in Hq' as [v Hv]. rewrite Hv. split; [by apply kept_set_retain|done].
Qed.

(** The length of the heap as the state grows. *)
Lemma heap_grows q s s' : grows s s' -> q < length (srv_heap s) -> q < length (srv_heap s').
Proof. intros Hg Hq. pose proof (gr_heap _ _ Hg). lia. Qed.

Lemma okq_deliver_entry sl i q s :
  q < length (srv_heap s) ->
  okq (fun _ _ => True) (x <- read_entry sl i;;
    match x with Some c => submit c (MPublish q) | None => Ret tt end) s.
Proof.
  intros Hq. eapply okq_bind.
  - apply okq_reads with (Q := fun x s' => forall c, x = Some c -> conn_ready c s').
    intros s' Hg Hwf c Hc. exact (entries_in_index _ _ _ _ _ (wf_arrays _ Hwf) Hc).
  - intros [c|] s' Hg Hc; [|done]. specialize (Hc c eq_refl). apply okq_submit.
    split; [by apply conn_ready_valid|]. split; [|done]. by eapply heap_grows.
Qed.

Lemma okq_run_post q s : q < length (srv_heap s) -> okq (fun _ _ => True) (run_post q) s.
Proof.
  intros Hq. unfold run_post. eapply okq_bind; [by apply okq_read_pub|]. intros v s1 Hg1 _.
  eapply okq_bind.
  { apply okq_modify. intros s' _ Hwf. apply kept_heap; [|done]. by rewrite length_alter. }
  intros [] s2 Hg2 _. assert (q < length (srv_heap s2)) as Hq2 by (eauto using heap_grows).
  destruct (_ && _).
  { eapply okq_bind; [|done]. apply okq_critical_. intros s' _ Hwf. by apply kept_delete_retain. }
  eapply okq_bind.
  { apply okq_critical with (Q := fun _ _ => True). intros s' _ Hwf.
    split; [by apply kept_subscribers|done]. }
  intros sl s3 Hg3 _. eapply okq_bind.
  { apply okq_for_range. intros j s' Hg. apply okq_deliver_entry. eauto using heap_grows. }
  intros [] s4 Hg4 _. destruct (Retain _); [|done].
  eapply okq_bind; [|done]. apply okq_save_retain. eauto using heap_grows.
Qed.

Lemma okq_run_body s : okq (fun _ _ => True) run_body s.
Proof.
  unfold run_body. eapply okq_bind; [apply okq_run_next|]. intros [q|] s1 _ Hq; [|done].
  apply okq_run_post. by apply Hq.
Qed.

Lemma okq_sendRetain topic c s : conn_ready c s -> okq (fun _ _ => True) (sendRetain topic c) s.
Proof.
  intros Hc. unfold sendRetain. eapply okq_bind.
  { apply okq_atomic with (Q := fun _ _ => True). intros s' _ Hwf. destruct (mu _); [done|].
    split; [by apply kept_set_mu|done]. }
  intros [] s1 Hg1 _. eapply okq_bind; [by apply okq_reads with (Q := fun _ _ => True)|].
  intros r s2 Hg2 _. eapply okq_bind with (Q := fun _ _ => True).
  - destruct r as [m|]; [|done]. eapply okq_bind; [apply okq_alloc|]. intros q s3 Hg3 Hq.
    apply okq_submit. assert (conn_ready c s3) as Hr
      by (do 3 (eapply conn_ready_grows; [done|]); done).
    split; [by apply conn_ready_valid|]. by split.
  - intros [] s3 Hg3 _. apply okq_modify. intros s' _. apply kept_set_mu.
Qed.

(** ** Replication *)

Lemma okq_on_node {A} (Q : A -> Server -> Prop) host f s :
  is_Some (srv_nodes s !! host) ->
  (forall e, chan_wf (ep_jobs e) ->
     match f e with
     | Done e' a => chan_wf (ep_jobs e') /\ forall s', Q a s'
     | Blocked => True
     | Panicked w => allowed careful w
     end) -> okq Q (on_node host f) s.
Proof.
  intros Hh Hf. apply okq_atomic. intros s' Hg Hwf.
  destruct (gr_nodes _ _ Hg host Hh) as [e He]. rewrite He.
  specialize (Hf e (wf_nodes _ Hwf host e He)). destruct (f e) as [e' a| |w]; [|done|done].
  destruct Hf as [He' HQ]. split; [|apply HQ]. apply kept_nodes; [|..|done].
  - apply map_Forall_insert_2; [done|]. apply Hwf.
  - intros h Hs. destruct (decide (host = h)) as [<-|Hne].
    + rewrite lookup_insert_eq. by eexists.
    + by rewrite lookup_insert_ne.
Qed.

Lemma okq_ep_submit host m s :
  is_Some (srv_nodes s !! host) -> okq (fun _ _ => True) (ep_submit host m) s.
Proof.
  intros Hh. unfold ep_submit.
  eapply okq_bind; [by apply okq_on_node with (Q := fun _ _ => True)|].
  intros [] s1 Hg1 _; [|done]. cbn [negb]. pose proof (gr_nodes _ _ Hg1 host Hh) as Hh1.
  eapply okq_bind; [by apply okq_on_node with (Q := fun _ _ => True)|].
  intros block s2 Hg2 _. pose proof (gr_nodes _ _ Hg2 host Hh1) as Hh2.
  destruct block; [|eapply okq_bind; [|done]]; apply okq_on_node; try done; intros e He;
    unfold on_ep_jobs.
  - destruct (ch_send _ _) as [q []| |w] eqn:E; [|done|].
    + split; [|done]. by eapply ch_send_wf.
    + unfold ch_send in E. repeat case_hyp E; simplify_eq; by left.
  - destruct (ch_try_send _ _) as [q b| |w] eqn:E; [|done|].
    + split; [by eapply ch_try_send_wf|]. intros s'. exact Logic.I.
    + unfold ch_try_send in E. repeat case_hyp E; simplify_eq; by left.
Qed.

Lemma okq_replicate q s : okq (fun _ _ => True) (replicate_pub q) s.
Proof.
  unfold replicate_pub. eapply okq_bind.
  - apply okq_reads with (Q := fun hosts s' => forall h, h ∈ hosts -> is_Some (srv_nodes s' !! h)).
    intros s' _ _ h. rewrite elem_of_range_order, list_elem_of_fmap.
    intros ([h' e] & -> & Hin). apply elem_of_map_to_list in Hin. by exists e.
  - intros hosts s1 _ Hh. apply okq_for_each. intros h s2 Hin Hg. apply okq_ep_submit.
    by apply (gr_nodes _ _ Hg), Hh.
Qed.

(** ** The client map, presence *)

Lemma okq_add_client c s :
  conn_flagged c s ->
  okq (fun r s' => forall e, r = Some e -> conn_valid e s') (add_client c) s.
Proof.
  intros Hf. apply okq_atomic. intros s' Hg Hwf.
  destruct (conn_flagged_grows _ _ _ Hg Hf) as (k & Hk & Hfk). rewrite Hk.
  destruct (flag k) as [m|]; [|done].
  destruct (srv_clients s' !! ClientId m) as [e|] eqn:E.
  - split; [by apply kept_refl|]. intros ? [= <-].
    apply lookup_lt_is_Some. exact (wf_clients _ Hwf _ _ E).
  - split; [|done]. apply kept_clients; [|done]. apply map_Forall_insert_2; [|apply Hwf].
    by eapply lookup_lt_Some.
Qed.

Lemma okq_del_client c s : conn_valid c s -> okq (fun _ _ => True) (del_client c) s.
Proof.
  intros Hc. apply okq_atomic. intros s' Hg Hwf.
  destruct (conn_valid_grows _ _ _ Hg Hc) as [k Hk]. rewrite Hk.
  destruct (flag k) as [m|]; (split; [|done]); [|by apply kept_refl].
  apply kept_clients; [|done]. apply map_Forall_delete, Hwf.
Qed.

Lemma okq_CheckIn u s : okq (fun _ _ => True) (CheckIn u) s.
Proof. apply okq_modify. intros s' _. apply kept_redis. Qed.
Lemma okq_CheckOut u s : okq (fun _ _ => True) (CheckOut u) s.
Proof. apply okq_modify. intros s' _. apply kept_redis. Qed.

(** A nil flag is read only when clients are not careful. *)
Lemma okq_flag_username c s :
  conn_valid c s -> (careful -> conn_flagged c s) ->
  okq (fun _ s' => conn_flagged c s') (flag_username c) s.
Proof.
  intros Hc Hf. unfold flag_username. eapply okq_bind.
  - apply okq_read_conn with
      (Q := fun f s' => (f <> None -> conn_flagged c s') /\ (f = None -> ~ careful)); [done|].
    intros s' k Hg Hwf Hk. split; [by exists k|]. intros Hn Hcar.
    destruct (conn_flagged_grows _ _ _ Hg (Hf Hcar)) as (k' & Hk' & Hf'). congruence.
  - intros [m|] s' Hg [Hs Hn].
    + simpl. by apply Hs.
    + apply okq_atomic. intros s1 _ _. right. right. split; [done|]. by apply Hn.
Qed.

(** ** CONNECT *)

Lemma okq_redeliver c key s :
  conn_ready c s -> key <> "" -> okq (fun _ _ => True) (redeliver c key) s.
Proof.
  intros Hc Hkey. unfold redeliver. destruct (key =s "") eqn:E; breflect; [done|].
  eapply okq_bind with (Q := fun r s' => forall m, r = Some m -> msg_ok (length (srv_heap s')) m).
  - apply okq_on_store; [done|]. intros s' st Hg Hwf Hst. split; [done|].
    intros s'' Hh m Hm. destruct m; simpl; try done. rewrite Hh. by eapply (Hst key).
  - intros r s1 Hg1 Hm. assert (conn_ready c s1) as Hc1 by (by eapply conn_ready_grows).
    destruct r as [m|]; [|done]. specialize (Hm m eq_refl).
    assert (forall s', grows s1 s' -> okq (fun _ _ => True) (submit c m) s') as Hsub.
    { intros s' Hg. apply okq_submit, (sendable_grows _ _ _ _ Hg).
      split; [by apply conn_ready_valid|]. by split. }
    destruct m; try done.
    + eapply okq_bind; [by apply okq_read_pub|]. intros v s2 Hg2 _. case_decide; [by apply Hsub|done].
    + case_decide; [by apply Hsub|done].
Qed.

Lemma okq_getClientStore id s :
  okq (fun q s' => q < length (store_heap (srv_stores s')))
    (atomic (fun s => let r := getClientStore Memory.NewMemoryStore id (srv_stores s) in
                      Done (set_stores r.1 s) r.2)) s.
Proof.
  apply okq_atomic. intros s' _ Hwf. cbv zeta.
  pose proof (getClientStore_wf Memory.NewMemoryStore id _ (wf_reg _ Hwf)) as Hr.
  pose proof (getClientStore_lookup Memory.NewMemoryStore id (srv_stores s')) as Hl.
  split; [|exact (proj1 Hr _ _ Hl)]. apply kept_stores; [done|..|done]; unfold getClientStore.
  - case_goal; [apply Hwf|]. simpl. apply Forall_app. split; [apply Hwf|]. constructor; [|done].
    intros key m. simpl. by rewrite lookup_empty.
  - case_goal; simpl; [done|]. rewrite length_app. lia.
Qed.

Lemma okq_set_store c q s :
  conn_valid c s -> q < length (store_heap (srv_stores s)) ->
  okq (fun _ s' => conn_ready c s') (write_conn c (set_store (Some q))) s.
Proof.
  intros Hc Hq. apply okq_on_conn; [done|]. intros s' k Hg Hwf Hk. split.
  - apply kept_conn with k; [done|by split| |done].
    destruct (wf_conn _ _ _ Hwf Hk) as [Hch Hj Hst]. split; [done| |].
    + eapply Forall_impl; [exact Hj|]. intros j [Hm _]. by split.
    + intros q' [= <-]. pose proof (gr_stores _ _ Hg). lia.
  - exists (set_store (Some q) k). split; [by apply put_conn_eq with k|done].
Qed.

Lemma okq_connect_session c m b rc s :
  conn_flagged c s ->
  okq (fun _ s' => conn_ready c s' /\ conn_flagged c s') (connect_session c m b rc) s.
Proof.
  intros Hf. assert (conn_valid c s) as Hc by (destruct Hf as (k & Hk & _); by exists k).
  unfold connect_session. eapply okq_bind with (Q := fun _ _ => True).
  { case_goal; [|done]. apply okq_modify. intros s' Hg Hwf. apply kept_gos; [|done].
    apply Forall_app. split; [apply Hwf|]. constructor; [|done].
    destruct (conn_valid_grows _ _ _ Hg Hc) as [k Hk]. by eapply lookup_lt_Some. }
  intros [] s1 Hg1 _. eapply okq_bind; [apply okq_getClientStore|]. intros q s2 Hg2 Hq.
  eapply okq_bind; [apply okq_set_store; [by do 2 (eapply conn_valid_grows; [done|])|done]|].
  intros [] s3 Hg3 Hc3. eapply okq_bind with (Q := fun _ _ => True).
  { destruct (CleanSession m); cbn [negb].
    - apply okq_on_store; [done|]. intros s' st Hg Hwf Hst. split; [|done].
      intros key x. simpl. by rewrite lookup_empty.
    - eapply okq_bind with (Q := fun keys _ => Forall (fun key => key <> "") keys).
      + apply okq_on_store; [done|]. intros s' st Hg Hwf Hst. split; [done|]. intros _ _.
        apply Forall_forall. intros key Hin. apply MemoryStore_All_elem in Hin as [x Hx].
        by apply (Hst key x).
      + intros keys s4 Hg4 Hkeys. apply okq_for_each. intros key s' Hin Hg.
        apply okq_redeliver; [by do 2 (eapply conn_ready_grows; [done|])|].
        rewrite Forall_forall in Hkeys. by apply Hkeys. }
  intros [] s4 Hg4 _. eapply okq_bind; [by apply okq_reads with (Q := fun _ _ => True)|].
  intros now s5 Hg5 _. assert (conn_ready c s5) as Hc5 by (by do 2 (eapply conn_ready_grows; [done|])).
  eapply okq_bind; [apply okq_write_conn; [by apply conn_ready_valid|done]|].
  intros [] s6 Hg6 _. eapply okq_bind with (Q := fun _ _ => True).
  { case_goal; [apply okq_CheckIn|done]. }
  intros [] s7 Hg7 _. assert (conn_ready c s7) as Hc7 by (by do 2 (eapply conn_ready_grows; [done|])).
  eapply okq_bind; [apply okq_submit; split; [by apply conn_ready_valid|]; by split|].
  intros [] s8 Hg8 _. simpl. split; [by eapply conn_ready_grows|].
  do 8 (eapply conn_flagged_grows; [done|]). done.
Qed.

(** ** The inbound loop *)

(** Between two messages of a connection, its flag is set only with its store. *)
Definition settled c s : Prop :=
  exists k, srv_conns s !! c = Some k /\ (flag k <> None -> has_store k).

(** What the inbound loop of [c] relies on and guarantees: only it sets its flag. *)
Definition rely_in c s s' : Prop := grows s s' /\ keeps c s s'.
Definition guar_in c s s' : Prop := grows s s' /\ forall d, d <> c -> keeps d s s'.
Notation oki c := (ok srv_wf (rely_in c) (guar_in c) (allowed careful)).

Lemma keeps_trans c s1 s2 s3 : grows s1 s2 -> keeps c s1 s2 -> keeps c s2 s3 -> keeps c s1 s3.
Proof.
  intros Hg H12 H23 k1 k3 Hk1 Hk3 Hf. destruct (gr_conns _ _ Hg c k1 Hk1) as (k2 & Hk2 & _).
  by eapply H23, H12.
Qed.

#[export] Instance rely_in_trans c : Transitive (rely_in c).
Proof.
  intros s1 s2 s3 [Hg1 Hk1] [Hg2 Hk2]. split; [by etrans|]. by apply keeps_trans with s2.
Qed.

Lemma settled_rely c s s' : rely_in c s s' -> settled c s -> settled c s'.
Proof.
  intros [Hg Hkeep] (k & Hk & Hs). destruct (gr_conns _ _ Hg c k Hk) as (k' & Hk' & _ & Hst).
  exists k'. split; [done|]. intros Hf. apply Hst, Hs. intros Hn. by apply Hf, (Hkeep k k').
Qed.

Lemma settled_ready c s : settled c s -> conn_flagged c s -> conn_ready c s.
Proof. intros (k & Hk & Hs) (k' & Hk' & Hf). simplify_eq. exists k. auto. Qed.

Lemma ready_settled c s : conn_ready c s -> settled c s.
Proof. intros (k & Hk & Hs). by exists k. Qed.

Lemma settled_valid c s : settled c s -> conn_valid c s.
Proof. intros (k & Hk & _). by exists k. Qed.

(** A quiet body run by the inbound loop of [c] leaves it settled. *)
Lemma oki_quiet {A} c (Q : A -> Server -> Prop) p s :
  settled c s -> okq Q p s -> oki c (fun a s' => Q a s' /\ settled c s') p s.
Proof.
  intros Hs. apply ok_frame with (F := settled c); try done.
  - by intros s1 s2 [].
  - intros s1 s2 [Hg Hk]. by split.
  - intros s1 s2. apply settled_rely.
  - intros s1 s2 [Hg Hk]. apply settled_rely. by split.
Qed.

Lemma oki_bind {A B} c (Q : A -> Server -> Prop) (Q' : B -> Server -> Prop) p kont s :
  oki c Q p s -> (forall a s', grows s s' -> Q a s' -> oki c Q' (kont a) s') ->
  oki c Q' (bind p kont) s.
Proof. apply ok_bind with (T := grows); [apply _|by intros s1 s2 []|by intros s1 s2 []]. Qed.

(** Sequencing after a quiet body. *)
Lemma oki_bind_quiet {A B} c (Q : A -> Server -> Prop) (Q' : B -> Server -> Prop) p kont s :
  settled c s -> okq Q p s ->
  (forall a s', grows s s' -> Q a s' -> settled c s' -> oki c Q' (kont a) s') ->
  oki c Q' (bind p kont) s.
Proof.
  intros Hs Hp Hk. eapply oki_bind; [by apply oki_quiet|]. intros a s' Hg []. by apply Hk.
Qed.

(** What holds when a turn of the loop is over: settled, and a careful client
    has sent its CONNECT unless presence is off. *)
Definition turn_done c (s : Server) : Prop :=
  settled c s /\ (careful -> conn_flagged c s \/ EnablePresence (Broker (srv_cf s)) = false).

Lemma turn_done_rely c s s' : rely_in c s s' -> turn_done c s -> turn_done c s'.
Proof.
  intros Hr [Hs Hc]. split; [by eapply settled_rely|]. intros Hcar.
  destruct Hr as [Hg _]. destruct (Hc Hcar) as [Hf|Hp].
  - left. by eapply conn_flagged_grows.
  - right. by rewrite (gr_cf _ _ Hg).
Qed.

Lemma turn_done_flagged c s : settled c s -> (careful -> conn_flagged c s) -> turn_done c s.
Proof. intros Hs Hf. split; auto. Qed.

Lemma oki_doConnect c m s :
  conn_valid c s ->
  oki c (fun _ s' => conn_ready c s' /\ conn_flagged c s') (doConnect c m) s.
Proof.
  intros Hc. unfold doConnect. cbv zeta. eapply oki_bind with (Q := fun _ s' => conn_flagged c s').
  { apply ok_atomic. intros s' [Hg _] Hwf. destruct (conn_valid_grows _ _ _ Hg Hc) as [k Hk].
    rewrite Hk. split; [|split].
    - apply wf_put_conn with k; [done|by eapply conn_wf_same; [..|by apply wf_conn with c]|done|done].
    - split.
      + apply grows_put_conn with k; [done|]. by split.
      + intros d Hne kd kd' Hd. rewrite put_conn_ne by done. congruence.
    - exists (set_flag (Some m) k). split; [by apply put_conn_eq with k|done]. }
  intros [] s1 Hg1 Hf1.
  apply ok_frame with (R := grows) (G := quiet) (F := fun _ => True)
    (Q := fun _ s' => conn_ready c s' /\ conn_flagged c s'); try done.
  { by intros ?? []. } { by intros ?? []. }
  eapply okq_bind; [by apply okq_reads with (Q := fun _ _ => True)|]. intros b s2 Hg2 _.
  eapply okq_bind; [by apply okq_reads with (Q := fun _ _ => True)|]. intros n s3 Hg3 _.
  assert (conn_flagged c s3) as Hf3 by (do 2 (eapply conn_flagged_grows; [done|]); done).
  eapply okq_bind; [by apply okq_add_client|]. intros existing s4 Hg4 Hex.
  eapply okq_bind with (Q := fun _ _ => True).
  { destruct existing as [e|]; [|done]. specialize (Hex e eq_refl).
    eapply okq_bind; [by apply okq_submitSync|]. intros r s5 Hg5 _.
    eapply okq_bind; [apply okq_wait|]. intros [] s6 Hg6 _. apply okq_del_client.
    do 2 (eapply conn_valid_grows; [done|]). done. }
  intros [] s5 Hg5 _.
  assert (conn_flagged c s5) as Hf5 by (do 2 (eapply conn_flagged_grows; [done|]); done).
  eapply okq_bind; [by apply okq_add_client|]. intros _ s6 Hg6 _.
  apply okq_connect_session. by eapply conn_flagged_grows.
Qed.

Lemma okq_publish_limit c s : conn_valid c s -> okq (fun _ _ => True) (publish_limit c) s.
Proof.
  intros Hc. unfold publish_limit. eapply okq_bind; [by apply okq_reads with (Q := fun _ _ => True)|].
  intros now s1 Hg1 _. assert (conn_valid c s1) as Hc1 by (by eapply conn_valid_grows).
  eapply okq_bind with (Q := fun _ _ => True).
  - apply okq_on_conn; [done|]. intros s' k Hg Hwf Hk. split; [|done]. by apply kept_conn_same with k.
  - intros [] s2 Hg2 _; [done|]. apply okq_stop. by eapply conn_valid_grows.
Qed.

Lemma oki_doPublish c q s :
  settled c s -> q < length (srv_heap s) -> (careful -> conn_flagged c s) ->
  oki c (fun _ s' => turn_done c s') (doPublish c q) s.
Proof.
  intros Hs Hq Hf. unfold doPublish.
  eapply oki_bind_quiet; [done|by apply okq_publish_limit, settled_valid|]. intros [] s1 Hg1 _ Hs1.
  eapply oki_bind_quiet; [done|apply okq_flag_username|].
  { by apply settled_valid. } { intros Hcar. eapply conn_flagged_grows; [done|]. auto. }
  intros u s2 Hg2 Hf2 Hs2. cbn [negb authorized].
  pose proof (settled_ready _ _ Hs2 Hf2) as Hr2.
  assert (q < length (srv_heap s2)) as Hq2 by eauto using heap_grows.
  eapply oki_bind_quiet; [done|by apply okq_read_pub|]. intros v s3 Hg3 _ Hs3.
  eapply oki_bind_quiet; [done|apply okq_call_store with (m := MPublish q)|].
  { intros _. by eapply conn_ready_grows. } { simpl. eauto using heap_grows. }
  { intros h st. apply persist_inbound_valid. }
  intros [] s4 Hg4 _ Hs4. eapply oki_bind_quiet; [done|apply okq_subs_submit; eauto using heap_grows|].
  intros [] s5 Hg5 _ Hs5. eapply oki_bind_quiet; [done|apply okq_replicate|].
  intros [] s6 Hg6 _ Hs6.
  assert (conn_flagged c s6) as Hf6 by (do 4 (eapply conn_flagged_grows; [done|]); done).
  apply ok_weaken with (Q := fun (_ : unit) s' => conn_flagged c s' /\ settled c s').
  - apply oki_quiet; [done|].
    apply ok_frame with (R := grows) (G := quiet) (F := conn_flagged c) (Q := fun _ _ => True); try done.
    { intros ??. apply conn_flagged_grows. } { intros ?? [? _]. by apply conn_flagged_grows. }
    case_decide; [|done]. apply okq_submit. split; [by apply settled_valid|].
    split; [done|]. intros _. by apply settled_ready.
  - intros _ s' [? ?]. by apply turn_done_flagged.
Qed.

Lemma okq_subscribe_topic c topic s :
  conn_ready c s -> okq (fun _ _ => True) (subscribe_topic c topic) s.
Proof.
  intros Hr. pose proof (conn_ready_valid _ _ Hr) as Hc. unfold subscribe_topic.
  eapply okq_bind; [by apply okq_write_conn|]. intros [] s1 Hg1 _.
  eapply okq_bind; [apply okq_read_conn with (Q := fun _ _ => True); [by eapply conn_valid_grows|done]|].
  intros n s2 Hg2 _. eapply okq_bind; [by apply okq_reads with (Q := fun _ _ => True)|].
  intros limit s3 Hg3 _.
  assert (conn_ready c s3) as Hr3 by (do 3 (eapply conn_ready_grows; [done|]); done).
  eapply okq_bind with (Q := fun _ _ => True).
  - case_goal; [|done]. by apply okq_stop, conn_ready_valid.
  - intros [] s4 Hg4 _. apply okq_critical_. intros s' Hg Hwf. apply kept_add; [|done].
    do 2 (eapply conn_ready_grows; [done|]). done.
Qed.

Lemma oki_doSubscribe c mid ts s :
  settled c s -> (careful -> conn_flagged c s) ->
  oki c (fun _ s' => turn_done c s') (doSubscribe c mid ts) s.
Proof.
  intros Hs Hf. unfold doSubscribe.
  eapply oki_bind_quiet; [done|by apply okq_flag_username; [apply settled_valid|]|].
  intros u s2 Hg2 Hf2 Hs2. cbn [negb authorized].
  pose proof (settled_ready _ _ Hs2 Hf2) as Hr2.
  apply ok_weaken with (Q := fun (_ : unit) s' => conn_flagged c s' /\ settled c s').
  - apply oki_quiet; [done|].
    apply ok_frame with (R := grows) (G := quiet) (F := conn_flagged c) (Q := fun _ _ => True); try done.
    { intros ??. apply conn_flagged_grows. } { intros ?? [? _]. by apply conn_flagged_grows. }
    eapply okq_bind.
    { apply okq_for_each. intros tq s' _ Hg. apply okq_subscribe_topic. by eapply conn_ready_grows. }
    intros [] s3 Hg3 _. assert (conn_ready c s3) as Hr3 by (by eapply conn_ready_grows).
    eapply okq_bind; [apply okq_submit; split; [by apply conn_ready_valid|by split]|].
    intros [] s4 Hg4 _. apply okq_for_each. intros tq s' _ Hg. apply okq_sendRetain.
    do 2 (eapply conn_ready_grows; [done|]). done.
  - intros _ s' [? ?]. by apply turn_done_flagged.
Qed.

Lemma okq_doUnsubscribe c mid ts s :
  conn_valid c s -> okq (fun _ _ => True) (doUnsubscribe c mid ts) s.
Proof.
  intros Hc. unfold doUnsubscribe. eapply okq_bind.
  - apply okq_for_each. intros topic s' _ Hg. unfold unsubscribe_topic.
    eapply okq_bind; [apply okq_write_conn; [by eapply conn_valid_grows|done]|].
    intros [] s1 Hg1 _. apply okq_critical_. intros s2 _ Hwf. by apply kept_unsub.
  - intros [] s1 Hg1 _. apply okq_submit. split; [by eapply conn_valid_grows|]. by split.
Qed.

(** A quiet body run once the client is known to be connected, if it is careful. *)
Lemma oki_quiet_turn {A} c p s :
  settled c s -> (careful -> conn_flagged c s) -> okq (fun (_ : A) _ => True) p s ->
  oki c (fun (_ : A) s' => turn_done c s') p s.
Proof.
  intros Hs Hf Hp. apply ok_weaken with (Q := fun (_ : A) s' => (careful -> conn_flagged c s') /\ settled c s').
  - apply oki_quiet; [done|].
    apply ok_frame with (R := grows) (G := quiet) (F := fun s => careful -> conn_flagged c s)
      (Q := fun _ _ => True); try done.
    + intros ?? Hg Hc Hcar. eapply conn_flagged_grows; [done|]. auto.
    + intros ?? [Hg _] Hc Hcar. eapply conn_flagged_grows; [done|]. auto.
  - intros _ s' [? ?]. by apply turn_done_flagged.
Qed.

Lemma oki_then {A B} c (p : proc Server A) (b : B) s :
  oki c (fun _ s' => turn_done c s') p s ->
  oki c (fun _ s' => turn_done c s') (p;;; Ret b) s.
Proof. intros Hp. eapply oki_bind; [done|]. done. Qed.

Lemma oki_inbound_msg c v s :
  settled c s -> (careful -> (exists m, v = MConnect m) \/ conn_flagged c s) ->
  oki c (fun _ s' => turn_done c s') (inbound_msg c v) s.
Proof.
  intros Hs Hpol. unfold inbound_msg.
  eapply oki_bind_quiet; [done|apply okq_alloc_msg|]. intros m s1 Hg1 (Hm & Hmc & _ & _) Hs1.
  eapply oki_bind_quiet; [done|apply okq_do_stats|]. intros [] s2 Hg2 _ Hs2.
  eapply oki_bind_quiet; [done|apply okq_do_stats|]. intros [] s3 Hg3 _ Hs3.
  eapply oki_bind_quiet; [done|by apply okq_refreshOpTime, settled_valid|]. intros [] s4 Hg4 _ Hs4.
  assert ((forall m', m <> MConnect m') -> careful -> conn_flagged c s4) as Hf.
  { intros Hne Hcar. destruct (Hpol Hcar) as [[m' Hm']|Hf].
    - exfalso. by apply (Hne m'), Hmc.
    - do 4 (eapply conn_flagged_grows; [done|]). done. }
  assert (msg_ok (length (srv_heap s4)) m) as Hm4
    by (do 3 (eapply msg_ok_mono; [by apply gr_heap|]); done).
  pose proof (settled_valid _ _ Hs4) as Hv4.
  destruct m; try (by apply oki_then, oki_quiet_turn; [done|by apply Hf|]);
    try (by apply oki_quiet_turn; [done|by apply Hf|]).
  - eapply oki_bind; [by apply oki_doConnect|]. intros rc s5 Hg5 [Hr Hfl].
    assert (turn_done c s5) by (split; [by apply ready_settled|auto]).
    by case_decide.
  - apply oki_then, oki_doPublish; [done|done|by apply Hf].
  - apply oki_then, oki_doSubscribe; [done|by apply Hf].
  - apply oki_then, oki_quiet_turn; [done|by apply Hf|]. by apply okq_doUnsubscribe.
  - apply oki_then, oki_quiet_turn; [done|by apply Hf|]. apply okq_submit. split; [done|]. by split.
Qed.

Lemma oki_inbound_err c s :
  turn_done c s -> oki c (fun _ s' => turn_done c s') (inbound_err c) s.
Proof.
  intros Ht. unfold inbound_err.
  apply ok_frame with (R := grows) (G := quiet) (F := turn_done c) (Q := fun _ _ => True); try done.
  - by intros ?? [].
  - intros ?? [Hg Hk]. by split.
  - intros ??. apply turn_done_rely.
  - intros ?? [Hg Hk]. apply turn_done_rely. by split.
  - eapply okq_bind; [apply okq_do_stats|]. done.
Qed.

(** ** The deferred functions *)

Lemma okq_onTerminate c s :
  conn_valid c s ->
  (careful -> conn_flagged c s \/ EnablePresence (Broker (srv_cf s)) = false) ->
  okq (fun _ _ => True) (onTerminate c) s.
Proof.
  intros Hc Hcar. unfold onTerminate. eapply okq_bind.
  - apply okq_reads with (Q := fun pr s' => pr = EnablePresence (Broker (srv_cf s))).
    intros s' Hg _. by rewrite (gr_cf _ _ Hg).
  - intros pr s1 Hg1 Hpr. destruct pr; cbn [negb]; [|done].
    assert (conn_valid c s1) as Hc1 by (by eapply conn_valid_grows).
    eapply okq_bind; [apply okq_flag_username; [done|]|].
    { intros H2. destruct (Hcar H2) as [Hf|Hp]; [by eapply conn_flagged_grows|congruence]. }
    intros u s2 Hg2 _. case_goal; [done|].
    eapply okq_bind; [apply okq_read_conn with (Q := fun _ _ => True); [by eapply conn_valid_grows|done]|].
    intros [] s3 Hg3 _; [apply okq_CheckOut|done].
Qed.

Lemma okq_close_jobs c s : conn_valid c s -> okq (fun _ _ => True) (on_conn c (on_jobs ch_close)) s.
Proof.
  intros Hc. apply okq_on_conn; [done|]. intros s' k Hg Hwf Hk. unfold on_jobs, ch_close.
  destruct (ch_closed (jobs k)); [right; by left|]. split; [|done].
  pose proof (wf_conn _ _ _ Hwf Hk) as Hkw.
  apply kept_conn with k; [done|by split| |done]. apply conn_wf_jobs; [done|apply Hkw..].
Qed.

Lemma okq_inbound_defer c s :
  turn_done c s -> okq (fun _ _ => True) (inbound_defer c) s.
Proof.
  intros [Hs Hcar]. pose proof (settled_valid _ _ Hs) as Hc. unfold inbound_defer.
  eapply okq_bind; [apply okq_do_stats|]. intros [] s1 Hg1 _.
  assert (conn_valid c s1) as Hc1 by (by eapply conn_valid_grows).
  eapply okq_bind.
  { apply okq_read_conn with (Q := fun st s' => st <> None -> conn_ready c s'); [done|].
    intros s' k Hg Hwf Hk Hst. by exists k. }
  intros st s2 Hg2 Hst. eapply okq_bind with (Q := fun _ _ => True).
  { destruct st as [q|]; [|done]. apply okq_on_store; [by apply Hst|].
    intros s' st Hg Hwf Hval. by split. }
  intros [] s3 Hg3 _.
  assert (conn_valid c s3) as Hc3 by (do 2 (eapply conn_valid_grows; [done|]); done).
  eapply okq_bind; [by apply okq_write_conn|]. intros [] s4 Hg4 _.
  eapply okq_bind; [apply okq_close_jobs; by eapply conn_valid_grows|]. intros [] s5 Hg5 _.
  assert (grows s s5) as Hg by (do 4 (etrans; [done|]); done).
  apply okq_onTerminate; [by eapply conn_valid_grows|].
  intros H2. destruct (Hcar H2) as [Hf|Hp]; [left; by eapply conn_flagged_grows|].
  right. by rewrite (gr_cf _ _ Hg).
Qed.

Lemma okq_outbound_defer c s : conn_valid c s -> okq (fun _ _ => True) (outbound_defer c) s.
Proof.
  intros Hc. unfold outbound_defer. eapply okq_bind with (Q := fun _ _ => True).
  { apply okq_on_conn; [done|]. intros s' k Hg Hwf Hk. destruct (heartbeatStop k); [right; by left|].
    split; [|done]. by apply kept_conn_same with k. }
  intros [] s1 Hg1 _. assert (conn_valid c s1) as Hc1 by (by eapply conn_valid_grows).
  eapply okq_bind; [by apply okq_write_conn|]. intros [] s2 Hg2 _.
  eapply okq_bind; [apply okq_del_client; by eapply conn_valid_grows|]. intros [] s3 Hg3 _.
  apply okq_critical_. intros s' _ Hwf. by apply kept_unsubAll.
Qed.

(** ** The outbound loop, the heartbeat, the accept loop, the peers *)

(** What the outbound loop takes from its queue. *)
Lemma okq_recv_job c s :
  conn_valid c s ->
  okq (fun x s' => forall j, x = Some j -> msg_ok (length (srv_heap s')) (job_m j) /\
                   (needs_store (job_m j) = true -> conn_ready c s'))
    (on_conn c (on_jobs ch_recv)) s.
Proof.
  intros Hc. apply okq_on_conn; [done|]. intros s' k Hg Hwf Hk. unfold on_jobs, ch_recv.
  pose proof (wf_conn _ _ _ Hwf Hk) as Hkw. destruct (ch_buf (jobs k)) as [|j rest] eqn:E.
  - destruct (ch_closed (jobs k)); [|done]. split; [|done]. by apply kept_conn_same with k.
  - pose proof (cw_jobs _ _ _ Hkw) as Hj. pose proof (cw_chan _ _ _ Hkw) as Hch.
    unfold chan_wf in Hch. rewrite E in Hj, Hch. apply Forall_cons in Hj as [[Hm Hn] Hrest].
    simpl in Hch. split.
    + apply kept_conn with k; [done|by split| |done]. apply conn_wf_jobs; [done| |done].
      unfold chan_wf. simpl. lia.
    + intros ? [= <-]. split; [done|]. intros Hns. eexists. split; [by apply put_conn_eq with k|].
      by apply Hn.
Qed.

Lemma persist_outbound_needs (m : Message ptr) (h : list Publish) v (x : Message ptr) :
  view h m = Some v -> persist_outbound_call v x <> None -> needs_store m = true.
Proof.
  destruct m; simpl; try done; intros Hv; try (by injection Hv as <-).
Qed.

Lemma okq_outbound_job c sent s :
  conn_valid c s -> okq (fun _ _ => True) (outbound_job c sent) s.
Proof.
  intros Hc. unfold outbound_job. eapply okq_bind; [by apply okq_recv_job|].
  intros [j|] s1 Hg1 Hj; [|done]. destruct (Hj j eq_refl) as [Hm Hn].
  assert (forall s', grows s1 s' -> msg_ok (length (srv_heap s')) (job_m j)) as Hm'
    by (intros s' Hg; eapply msg_ok_mono; [apply Hg|done]).
  assert (forall s', grows s1 s' -> conn_valid c s') as Hc'
    by (intros s' Hg; do 2 (eapply conn_valid_grows; [done|]); done).
  eapply okq_bind; [by apply okq_read_msg|]. intros v s2 Hg2 Hv.
  eapply okq_bind; [apply okq_call_store with (m := job_m j)|].
  { intros Hcall. eapply conn_ready_grows; [exact Hg2|]. apply Hn.
    exact (persist_outbound_needs _ _ _ _ Hv Hcall). }
  { by apply Hm'. } { intros h st. apply persist_outbound_valid. }
  intros [] s3 Hg3 _. assert (grows s1 s3) as Hg13 by (by etrans).
  eapply okq_bind; [apply okq_read_msg; by apply Hm'|]. intros v2 s4 Hg4 _.
  assert (grows s1 s4) as Hg14 by (by etrans).
  eapply okq_bind with (Q := fun _ _ => True).
  { destruct sent; [|done]. apply okq_write_conn; [by apply Hc'|done]. }
  intros [] s5 Hg5 _. assert (grows s1 s5) as Hg15 by (by etrans).
  eapply okq_bind with (Q := fun _ _ => True).
  { destruct (job_r j); [apply okq_close_receipt|done]. }
  intros [] s6 Hg6 _. assert (grows s1 s6) as Hg16 by (by etrans). destruct sent; cbn [negb]; [|done].
  eapply okq_bind; [apply okq_do_stats|]. intros [] s7 Hg7 _. assert (grows s1 s7) as Hg17 by (by etrans).
  eapply okq_bind; [apply okq_read_msg; by apply Hm'|]. intros v3 s8 Hg8 _.
  eapply okq_bind; [apply okq_do_stats|]. intros [] s9 Hg9 _.
  assert (grows s1 s9) as Hg19 by (etrans; [done|]; by etrans).
  eapply okq_bind; [apply okq_refreshOpTime; by apply Hc'|]. intros [] s10 _ _. by destruct (job_m j).
Qed.

Lemma okq_outbound_stop c s : conn_valid c s -> okq (fun _ _ => True) (outbound_stop c) s.
Proof.
  intros Hc. apply okq_on_conn; [done|]. intros s' k Hg Hwf Hk. destruct (stopChan k); [|done].
  split; [|done]. by apply kept_conn_same with k.
Qed.

Lemma okq_heartbeat_tick c ka s : conn_valid c s -> okq (fun _ _ => True) (heartbeat_tick c ka) s.
Proof.
  intros Hc. unfold heartbeat_tick.
  eapply okq_bind; [by apply okq_read_conn with (Q := fun _ _ => True)|]. intros last s1 Hg1 _.
  eapply okq_bind; [by apply okq_reads with (Q := fun _ _ => True)|]. intros now s2 Hg2 _.
  assert (conn_valid c s2) as Hc2 by (do 2 (eapply conn_valid_grows; [done|]); done).
  eapply okq_bind; [by apply okq_read_conn with (Q := fun _ _ => True)|]. intros al s3 Hg3 _.
  case_goal; [|done].
  eapply okq_bind; [apply okq_submitSync; by eapply conn_valid_grows|]. intros r s4 Hg4 _.
  eapply okq_bind; [apply okq_wait|]. intros [] s5 Hg5 _.
  eapply okq_bind; [apply okq_do_stats|]. done.
Qed.

Lemma okq_heartbeat_stop c s : conn_valid c s -> okq (fun _ _ => True) (heartbeat_stop c) s.
Proof.
  intros Hc. apply okq_on_conn; [done|]. intros s' k Hg Hwf Hk. destruct (heartbeatStop k); [|done].
  split; [|done]. by apply kept_conn_same with k.
Qed.

(** A new connection has neither flag nor store. *)
Lemma kept_new_conn k s :
  chan_wf (jobs k) -> ch_buf (jobs k) = [] -> store k = None ->
  srv_wf s -> kept s (set_conns (srv_conns s ++ [k]) s).
Proof.
  intros Hc Hb Hst Hwf.
  assert (forall c kc, srv_conns s !! c = Some kc -> (srv_conns s ++ [k]) !! c = Some kc) as Hold
    by (intros c kc Hk; by apply lookup_app_l_Some).
  split; [|split].
  - apply wf_new_conns; [rewrite length_app; lia| | |done].
    + intros c kc Hk. exists kc. split; [by apply Hold|done].
    + apply Forall_app. split; [apply Hwf|]. constructor; [|done]. split; [done|by rewrite Hb|].
      by rewrite Hst.
  - split; try done. intros c kc Hk. exists kc. split; [by apply Hold|]. by split.
  - intros c k1 k2 Hk1 Hk2. simpl in Hk2. rewrite (Hold c k1 Hk1) in Hk2. congruence.
Qed.

(** The accept loop registers a connection that nothing refers to yet. *)
Lemma accept_conn_ok s :
  srv_wf s ->
  exists s', accept_conn s = Done s' (length (srv_conns s)) /\ kept s s' /\
    settled (length (srv_conns s)) s'.
Proof.
  intros Hwf. unfold accept_conn. cbv zeta. rewrite (proj2 (Z.ltb_ge _ _) (wf_cf _ Hwf)).
  eexists. split; [reflexivity|]. split.
  - apply kept_new_conn; try done. apply make_chan_wf.
  - eexists. split; [apply last_snoc_lookup|done].
Qed.

Lemma okq_replay_msg v s : okq (fun _ _ => True) (replay_msg v) s.
Proof.
  unfold replay_msg. eapply okq_bind; [apply okq_alloc_msg|]. intros m s1 _ (Hm & _).
  destruct m; try done. by apply okq_subs_submit.
Qed.

(** A fresh broker. *)
Lemma NewServer_wf conf now s :
  (0 <= ClientOutboundQueueLen (Broker conf))%Z -> NewServer conf now = inl s -> srv_wf s.
Proof.
  intros Hq. unfold NewServer. case_goal; [done|]. intros [= <-].
  split.
  - apply newSubscriptions_wf.
  - split; [apply make_chan_wf|constructor].
  - constructor.
  - constructor.
  - constructor.
  - apply map_Forall_empty.
  - apply registry_wf_empty.
  - constructor.
  - apply map_Forall_empty.
  - done.
  - constructor.
Qed.
End Invariant.
