(* ===== verification/Sched.v ===== *)
(** * All the goroutines of a broker (src/broker: server.go, session.go, subs.go, peers.go)

    The broker as a transition system: its shared state and its goroutines, which
    interleave action by action.  A goroutine is in the middle of a body, or idle:
    in front of the decoder, of a select statement, or of the accept call.  What
    the clients send is a parameter.  A panic of any goroutine takes the process
    down.  The invariant of [Invariant] holds in every reachable state, and an
    executable scheduler gives concrete executions. *)

From Stdlib Require Import ZArith Lia.
From stdpp Require Import base gmap list strings numbers sets relations.
From S2P Require Import Prelude GoString GoProc GoSlice Wild Config Proto Store Stats Subs Broker.
From S2P Require Import Session SessionFacts Delivery Peers Invariant.

Local Open Scope string_scope.
Local Open Scope list_scope.

Section Sched.
Context `{GoRuntime} `{Extern}.
Implicit Types (s : Server) (c : conn_ptr).

(** ** Goroutines *)

Inductive task :=
| InIdle (c : conn_ptr)                                      (* inboundLoop, in DecodeOneMessage *)
| InRun (c : conn_ptr) (p : proc Server flow)
| InDefer (c : conn_ptr) (p : proc Server unit)
| OutIdle (c : conn_ptr)                                     (* outboundLoop, in its select *)
| OutRun (c : conn_ptr) (p : proc Server flow)
| OutDefer (c : conn_ptr) (p : proc Server unit)
| HbIdle (c : conn_ptr) (keepAlive : Z)                      (* heartbeat, in its select *)
| HbRun (c : conn_ptr) (keepAlive : Z) (p : proc Server flow)
| Worker (p : proc Server flow)                              (* a subscription worker *)
| Acceptor (accepted : bool)                                 (* the accept loop of the server *)
| PeerIdle                                                   (* replay, in DecodeOneMessage *)
| PeerRun (p : proc Server unit)
| PeerDefer (p : proc Server unit)
| Finished.

(** One action of a body, or the end of the body. *)
Definition run_proc {A} (wrap : proc Server A -> task) (fin : A -> task) (p : proc Server A) s
    : astep Server task :=
  match p with
  | Ret a => Done s (fin a)
  | Step f => match f s with
              | Done s' p' => Done s' (wrap p')
              | Blocked => Blocked
              | Panicked w => Panicked w
              end
  end.

(** What a goroutine that is not idle does next. *)
Definition tact (t : task) s : astep Server task :=
  match t with
  | InRun c p => run_proc (InRun c) (fun fl => match fl with
                   | Continue => InIdle c | Return => InDefer c (inbound_defer c) end) p s
  | InDefer c p => run_proc (InDefer c) (fun _ => Finished) p s
  | OutRun c p => run_proc (OutRun c) (fun fl => match fl with
                    | Continue => OutIdle c | Return => OutDefer c (outbound_defer c) end) p s
  | OutDefer c p => run_proc (OutDefer c) (fun _ => Finished) p s
  | HbRun c ka p => run_proc (HbRun c ka) (fun fl => match fl with
                      | Continue => HbIdle c ka | Return => Finished end) p s
  | Worker p => run_proc Worker (fun fl => match fl with
                  | Continue => Worker run_body | Return => Finished end) p s
  | Acceptor false => Done (set_stats (clientConnect (srv_stats s)) s) (Acceptor true)
  | PeerRun p => run_proc PeerRun (fun _ => PeerIdle) p s
  | PeerDefer p => run_proc PeerDefer (fun _ => Finished) p s
  | _ => Blocked
  end.

(** The bodies that a select statement can choose: the first action must be ready. *)
Inductive pick := PickSent | PickFailed | PickStop | PickTick.

Definition select (t : task) (x : pick) : option task :=
  match t, x with
  | OutIdle c, PickSent => Some (OutRun c (outbound_job c true))
  | OutIdle c, PickFailed => Some (OutRun c (outbound_job c false))
  | OutIdle c, PickStop => Some (OutRun c (outbound_stop c))
  | HbIdle c ka, PickTick => Some (HbRun c ka (heartbeat_tick c ka))
  | HbIdle c ka, PickStop => Some (HbRun c ka (heartbeat_stop c))
  | _, _ => None
  end.

(** ** The transition system *)

(** What the clients and peers may do: the messages the decoder may return for a
    connection, whether it may fail, and the messages of the peers. *)
Record policy := {
  sends : Server -> conn_ptr -> Message Publish -> bool;
  fails : Server -> conn_ptr -> bool;
  replays : Server -> Message Publish -> bool
}.

(** What comes out of the network for an idle goroutine. *)
Definition receive (pol : policy) s (t : task) (v : option (Message Publish)) : option task :=
  match t, v with
  | InIdle c, Some v => if sends pol s c v then Some (InRun c (inbound_msg c v)) else None
  | InIdle c, None => if fails pol s c then Some (InRun c (inbound_err c)) else None
  | PeerIdle, Some v => if replays pol s v then Some (PeerRun (replay_msg v)) else None
  | PeerIdle, None => Some (PeerDefer replay_defer)
  | _, _ => None
  end.

Record sys := Sys { sy_srv : Server; sy_tasks : list task }.

Inductive world := Up (y : sys) | Down (why : panic).

Definition with_task (i : nat) (t : task) s (ts : list task) : world := Up (Sys s (<[i := t]> ts)).

Inductive step (pol : policy) : world -> world -> Prop :=
| step_run s ts i t s' t' :
    ts !! i = Some t -> tact t s = Done s' t' ->
    step pol (Up (Sys s ts)) (with_task i t' s' ts)
| step_panic s ts i t w :
    ts !! i = Some t -> tact t s = Panicked w ->
    step pol (Up (Sys s ts)) (Down w)
| step_select s ts i t x t1 s' t' :
    ts !! i = Some t -> select t x = Some t1 -> tact t1 s = Done s' t' ->
    step pol (Up (Sys s ts)) (with_task i t' s' ts)
| step_select_panic s ts i t x t1 w :
    ts !! i = Some t -> select t x = Some t1 -> tact t1 s = Panicked w ->
    step pol (Up (Sys s ts)) (Down w)
| step_receive s ts i t v t' :
    ts !! i = Some t -> receive pol s t v = Some t' ->
    step pol (Up (Sys s ts)) (with_task i t' s ts)
| step_accept s ts i s' c :
    ts !! i = Some (Acceptor true) -> accept_conn s = Done s' c ->
    step pol (Up (Sys s ts)) (Up (Sys s' (<[i := Acceptor false]> ts ++ [InIdle c; OutIdle c])))
| step_accept_panic s ts i w :
    ts !! i = Some (Acceptor true) -> accept_conn s = Panicked w ->
    step pol (Up (Sys s ts)) (Down w)
| step_go s ts c ka gs :
    srv_gos s = GoHeartbeat c ka :: gs ->
    step pol (Up (Sys s ts)) (Up (Sys (set_gos gs s) (ts ++ [HbIdle c ka])))
| step_peer s ts :
    step pol (Up (Sys s ts)) (Up (Sys (set_stats (peerConnect (srv_stats s)) s) (ts ++ [PeerIdle])))
| step_clock s ts now :
    (srv_clock s <= now)%Z -> step pol (Up (Sys s ts)) (Up (Sys (set_clock now s) ts)).

(** The goroutines that run when the server has started.  The reporting goroutine of
    [stats.start] reads counters and changes nothing here; that it can end the process is
    the subject of [Daemon]. *)
Definition start_tasks (conf : Config) : list task :=
  replicate (Z.to_nat (SubscriptionsWorkers (Broker conf))) (Worker run_body) ++ [Acceptor false].

Definition started (conf : Config) (now : Z) (w : world) : Prop :=
  exists s, NewServer conf now = inl s /\ w = Up (Sys s (start_tasks conf)).

(** ** Every goroutine respects the invariant *)

(** The connection whose inbound loop a goroutine is. *)
Definition owner (t : task) : option conn_ptr :=
  match t with InIdle c | InRun c _ => Some c | _ => None end.

(** No client talks, or leaves while presence is enabled, before its CONNECT. *)
Definition careful (pol : policy) : Prop :=
  (forall s c v, sends pol s c v = true -> (exists m, v = MConnect m) \/ conn_flagged c s) /\
  (forall s c, fails pol s c = true ->
     conn_flagged c s \/ EnablePresence (Broker (srv_cf s)) = false).

Context (pol : policy).
Notation okq := (ok srv_wf grows quiet (allowed (careful pol))).

Definition task_ok (t : task) s : Prop :=
  match t with
  | InIdle c => settled c s
  | InRun c p => conn_valid c s /\
                 ok srv_wf (rely_in c) (guar_in c) (allowed (careful pol))
                   (fun _ s' => turn_done (careful pol) c s') p s
  | OutIdle c | HbIdle c _ => conn_valid c s
  | OutRun c p | HbRun c _ p => conn_valid c s /\ okq (fun _ _ => True) p s
  | InDefer _ p | OutDefer _ p | PeerRun p | PeerDefer p => okq (fun _ _ => True) p s
  | Worker p => okq (fun _ _ => True) p s
  | Acceptor _ | PeerIdle | Finished => True
  end.

Definition rely_of (t : task) s s' : Prop :=
  grows s s' /\ forall c, owner t = Some c -> keeps c s s'.
Definition guar_of (t : task) s s' : Prop :=
  grows s s' /\ forall c, owner t <> Some c -> keeps c s s'.

Lemma okq_rely {A} (p : proc Server A) s s' :
  grows s s' -> okq (fun _ _ => True) p s -> okq (fun _ _ => True) p s'.
Proof. intros Hg. by apply ok_rely; [apply _|done|]. Qed.

Lemma task_ok_rely t s s' : rely_of t s s' -> task_ok t s -> task_ok t s'.
Proof.
  intros [Hg Hk]. destruct t; simpl; try done; try (by apply okq_rely);
    try (by apply conn_valid_grows); try (by intros [Hc Hp]; split;
      [by eapply conn_valid_grows|by eapply okq_rely]).
  - apply settled_rely. split; [done|]. by apply Hk.
  - intros [Hc Hp]. split; [by eapply conn_valid_grows|]. revert Hp.
    apply ok_rely; [apply _| |split; [done|by apply Hk]].
    intros _ s1 s2. apply turn_done_rely.
Qed.

(** The state after one goroutine moved, for the others. *)
Lemma guar_rely t u s s' :
  guar_of t s s' -> (forall c, owner t = Some c -> owner u <> Some c) -> rely_of u s s'.
Proof.
  intros [Hg Hk] Hne. split; [done|]. intros c Hc. apply Hk. intros Ht. by apply (Hne c).
Qed.

Lemma run_proc_ok {A} R G (Q : A -> Server -> Prop) wrap fin p s :
  Reflexive R -> Reflexive G -> srv_wf s ->
  ok srv_wf R G (allowed (careful pol)) Q p s ->
  match run_proc wrap fin p s with
  | Done s' t' => srv_wf s' /\ G s s' /\
      ((exists a, t' = fin a /\ Q a s') \/
       (exists p', t' = wrap p' /\ ok srv_wf R G (allowed (careful pol)) Q p' s'))
  | Blocked => True
  | Panicked w => allowed (careful pol) w
  end.
Proof.
  intros HR HG Hwf. destruct p as [a|f]; simpl.
  - intros Ha. split; [done|]. split; [done|]. left. by exists a.
  - intros Hf. specialize (Hf s (HR s) Hwf). destruct (f s) as [s' p'| |w]; [|done|done].
    destruct Hf as (Hwf' & HG' & Hp'). split; [done|]. split; [done|]. right. by exists p'.
Qed.

Lemma quiet_guar t s s' : quiet s s' -> guar_of t s s'.
Proof. intros [Hg Hk]. by split. Qed.

#[local] Instance grows_reflexive : Reflexive grows.
Proof. apply _. Qed.
#[local] Instance quiet_reflexive : Reflexive quiet.
Proof. apply quiet_refl. Qed.
#[local] Instance rely_in_reflexive c : Reflexive (rely_in c).
Proof. intros s. split; [reflexivity|]. by apply quiet_refl. Qed.
#[local] Instance guar_in_reflexive c : Reflexive (guar_in c).
Proof. intros s. split; [reflexivity|]. intros d _. by apply quiet_refl. Qed.

(** What one action of a goroutine leaves. *)
Definition moved (t : task) s (r : astep Server task) : Prop :=
  match r with
  | Done s' t' => srv_wf s' /\ guar_of t s s' /\ task_ok t' s' /\
                  (owner t' = owner t \/ owner t' = None)
  | Blocked => True
  | Panicked w => allowed (careful pol) w
  end.

(** A quiet body, whatever goroutine runs it. *)
Lemma run_quiet_ok {A} t wrap (fin : A -> task) p s :
  srv_wf s -> okq (fun _ _ => True) p s ->
  (forall s' a, grows s s' -> task_ok (fin a) s' /\ owner (fin a) = None) ->
  (forall s' p', grows s s' -> okq (fun _ _ => True) p' s' -> task_ok (wrap p') s' /\ owner (wrap p') = None) ->
  moved t s (run_proc wrap fin p s).
Proof.
  intros Hwf Hp Hfin Hwrap.
  pose proof (run_proc_ok grows quiet _ wrap fin p s _ _ Hwf Hp) as Hr.
  unfold moved. destruct (run_proc wrap fin p s) as [s' t'| |w]; [|done|done].
  destruct Hr as (Hwf' & Hq & Ht). split; [done|]. split; [by apply quiet_guar|].
  destruct Ht as [(a & -> & _)|(p' & -> & Hp')].
  - destruct (Hfin s' a) as [? ?]; [apply Hq|]. auto.
  - destruct (Hwrap s' p') as [? ?]; [apply Hq|done|]. auto.
Qed.

Lemma tact_ok t s : srv_wf s -> task_ok t s -> moved t s (tact t s).
Proof.
  intros Hwf. destruct t as [c|c p|c p|c|c p|c p|c ka|c ka p|p|a| |p|p|]; simpl; try done.
  - intros [Hc Hp]. pose proof (run_proc_ok (rely_in c) (guar_in c) _ (InRun c) (fun fl => match fl with
      Continue => InIdle c | Return => InDefer c (inbound_defer c) end) p s _ _ Hwf Hp) as Hr.
    unfold moved. destruct (run_proc _ _ p s) as [s' t'| |w]; [|done|done].
    destruct Hr as (Hwf' & [Hg Hk] & Ht). split; [done|]. split.
    { split; [done|]. simpl. intros d Hne. apply Hk. congruence. }
    destruct Ht as [(fl & -> & Hturn)|(p' & -> & Hp')].
    2:{ split; [|by left]. split; [by eapply conn_valid_grows|done]. }
    destruct fl; simpl; [by split; [apply Hturn|left]|]. split; [|by right].
    by apply okq_inbound_defer.
  - intros Hp. by apply run_quiet_ok.
  - intros [Hc Hp]. apply run_quiet_ok; [done|done| |].
    + intros s' fl Hg. assert (conn_valid c s') by (by eapply conn_valid_grows).
      destruct fl; simpl; [done|]. split; [by apply okq_outbound_defer|done].
    + intros s' p' Hg Hp'. simpl. split; [|done]. split; [by eapply conn_valid_grows|done].
  - intros Hp. by apply run_quiet_ok.
  - intros [Hc Hp]. apply run_quiet_ok; [done|done| |].
    + intros s' fl Hg. assert (conn_valid c s') by (by eapply conn_valid_grows). by destruct fl.
    + intros s' p' Hg Hp'. simpl. split; [|done]. split; [by eapply conn_valid_grows|done].
  - intros Hp. apply run_quiet_ok; [done|done| |done].
    intros s' fl Hg. destruct fl; simpl; [|done]. split; [apply okq_run_body|done].
  - intros _. destruct a; [done|]. destruct (kept_stats (clientConnect (srv_stats s)) s Hwf) as [Hwf' Hq].
    split; [done|]. split; [by apply quiet_guar|]. split; [done|by left].
  - intros Hp. by apply run_quiet_ok.
  - intros Hp. by apply run_quiet_ok.
Qed.

Lemma select_ok t x t1 s :
  select t x = Some t1 -> task_ok t s -> task_ok t1 s /\ owner t = None /\ owner t1 = None.
Proof.
  destruct t, x; simpl; try done; intros [= <-] Hc; (split; [|done]); (split; [done|]).
  - by apply okq_outbound_job.
  - by apply okq_outbound_job.
  - by apply okq_outbound_stop.
  - by apply okq_heartbeat_stop.
  - by apply okq_heartbeat_tick.
Qed.

Lemma receive_ok t v t1 s :
  receive pol s t v = Some t1 -> task_ok t s -> task_ok t1 s /\ owner t1 = owner t.
Proof.
  destruct t, v as [v|]; simpl; try done.
  - destruct (sends pol s c v) eqn:Es; [|done]. intros [= <-] Hs. split; [|done].
    split; [by apply settled_valid|]. apply oki_inbound_msg; [done|]. intros [Hc _]. by apply Hc.
  - destruct (fails pol s c) eqn:Es; [|done]. intros [= <-] Hs. split; [|done].
    split; [by apply settled_valid|]. apply oki_inbound_err. split; [done|]. intros [_ Hc]. by apply Hc.
  - destruct (replays pol s v); [|done]. intros [= <-] _. split; [|done]. apply okq_replay_msg.
  - intros [= <-] _. split; [|done]. apply okq_do_stats.
Qed.

(** ** The invariant of the whole system *)

(** At most one goroutine owns a connection, for the notion of ownership [own]. *)
Definition unique_by (own : task -> option conn_ptr) (ts : list task) : Prop :=
  forall i j t u c, ts !! i = Some t -> ts !! j = Some u -> own t = Some c -> own u = Some c -> i = j.


Lemma unique_by_insert own ts i t t' :
  unique_by own ts -> ts !! i = Some t -> (own t' = own t \/ own t' = None) ->
  unique_by own (<[i := t']> ts).
Proof.
  intros Hu Hi Ho j1 j2 u1 u2 c Hj1 Hj2 Ho1 Ho2. pose proof (lookup_lt_Some _ _ _ Hi) as Hlt.
  assert (forall j u, <[i := t']> ts !! j = Some u -> own u = Some c ->
            exists u', ts !! j = Some u' /\ own u' = Some c) as Hback.
  { intros j u Hj Hou. destruct (decide (i = j)) as [<-|Hne].
    - rewrite list_lookup_insert_eq in Hj by done. injection Hj as <-. exists t.
      split; [done|]. destruct Ho; congruence.
    - rewrite list_lookup_insert_ne in Hj by done. eauto. }
  destruct (Hback j1 u1 Hj1 Ho1) as (u1' & ? & ?). destruct (Hback j2 u2 Hj2 Ho2) as (u2' & ? & ?).
  by eapply Hu.
Qed.

Lemma unique_by_app own ts us :
  unique_by own ts -> Forall (fun u => own u = None) us -> unique_by own (ts ++ us).
Proof.
  intros Hu Hus i j t u c Hi Hj Ht Hou.
  assert (forall i t, (ts ++ us) !! i = Some t -> own t = Some c -> ts !! i = Some t) as Hin.
  { intros i' t' Hi' Ho'. apply lookup_app_Some in Hi' as [Hi'|[_ Hi']]; [done|].
    pose proof (Forall_lookup_1 _ _ _ _ Hus Hi') as Hn. simpl in Hn. congruence. }
  eapply Hu; [by apply Hin|by apply Hin|done|done].
Qed.

(** The loops of a new connection, whose number no goroutine has. *)
Lemma unique_by_accept own ts c :
  unique_by own ts -> (forall i t, ts !! i = Some t -> own t <> Some c) ->
  (own (InIdle c) = Some c /\ own (OutIdle c) = None) \/ (own (InIdle c) = None /\ own (OutIdle c) = Some c) ->
  unique_by own (ts ++ [InIdle c; OutIdle c]).
Proof.
  intros Hu Hfresh Hc. assert (exists n, forall j t d, (ts ++ [InIdle c; OutIdle c]) !! j = Some t ->
    own t = Some d -> (ts !! j = Some t /\ d <> c) \/ (j = n /\ d = c)) as [n Hin].
  { assert (forall n, n = length ts + (if decide (own (InIdle c) = Some c) then 0 else 1) ->
      forall j t d, (ts ++ [InIdle c; OutIdle c]) !! j = Some t -> own t = Some d ->
      (ts !! j = Some t /\ d <> c) \/ (j = n /\ d = c)) as Hn; [|by eauto].
    intros n -> j t d Hj Ho. apply lookup_app_Some in Hj as [Hj|[Hle Hj]].
    - left. split; [done|]. intros ->. by apply (Hfresh j t).
    - right. destruct (j - length ts) as [|[|m]] eqn:Em; simpl in Hj; simplify_eq;
        destruct Hc as [[E1 E2]|[E1 E2]], (decide _); simplify_eq; (split; [lia|congruence]). }
  intros j1 j2 t u d Hj1 Hj2 Ho1 Ho2. destruct (Hin j1 t d Hj1 Ho1) as [[Hl1 Hd]|[-> ->]],
    (Hin j2 u _ Hj2 Ho2) as [[Hl2 Hd2]|[-> Hd2]]; try done. by eapply Hu.
Qed.

Record sys_ok (y : sys) : Prop := {
  so_wf : srv_wf (sy_srv y);
  so_tasks i t : sy_tasks y !! i = Some t -> task_ok t (sy_srv y);
  so_owners : unique_by owner (sy_tasks y)
}.

Definition world_ok (w : world) : Prop :=
  match w with
  | Up y => sys_ok y
  | Down p => allowed (careful pol) p
  end.

(** A goroutine moves and the others stay. *)
Lemma sys_ok_move s ts i t s' t' :
  sys_ok (Sys s ts) -> ts !! i = Some t -> srv_wf s' -> guar_of t s s' -> task_ok t' s' ->
  (owner t' = owner t \/ owner t' = None) -> sys_ok (Sys s' (<[i := t']> ts)).
Proof.
  intros [Hwf Hts Hu] Hi Hwf' Hg Ht' Ho. simpl in *.
  assert (i < length ts) as Hlt by (by eapply lookup_lt_Some).
  split; simpl; [done| |].
  - intros j u. destruct (decide (i = j)) as [<-|Hne].
    + rewrite list_lookup_insert_eq by done. by intros [= <-].
    + rewrite list_lookup_insert_ne by done. intros Hj.
      eapply task_ok_rely; [|by apply (Hts j)]. eapply guar_rely; [done|].
      intros c Hc Huc. apply Hne. by apply (Hu i j t u c).
  - by eapply unique_by_insert.
Qed.

(** The state moves along with no goroutine, and goroutines without owner start. *)
Lemma sys_ok_grow s ts s' us :
  sys_ok (Sys s ts) -> kept s s' -> Forall (fun u => task_ok u s' /\ owner u = None) us ->
  sys_ok (Sys s' (ts ++ us)).
Proof.
  intros [Hwf Hts Hu] [Hwf' [Hg Hk]] Hus. simpl in *.
  assert (forall i t, (ts ++ us) !! i = Some t ->
            ts !! i = Some t \/ (task_ok t s' /\ owner t = None)) as Hin.
  { intros i t Hi. apply lookup_app_Some in Hi as [Hi|[_ Hi]]; [by left|right].
    exact (Forall_lookup_1 _ _ _ _ Hus Hi). }
  split; simpl; [done| |].
  - intros i t Hi. destruct (Hin i t Hi) as [Ht|[Ht _]]; [|done].
    eapply task_ok_rely; [|by apply (Hts i)]. by split.
  - apply unique_by_app; [done|]. eapply Forall_impl; [exact Hus|]. by intros u [].
Qed.

(** The owners of the tasks are connections of the state. *)
Lemma owner_valid t c s : task_ok t s -> owner t = Some c -> conn_valid c s.
Proof.
  destruct t; simpl; try done; intros Ht [= ->]; [by apply settled_valid|by apply Ht].
Qed.

Lemma sys_ok_accept s ts i s' :
  sys_ok (Sys s ts) -> ts !! i = Some (Acceptor true) ->
  accept_conn s = Done s' (length (srv_conns s)) -> kept s s' -> settled (length (srv_conns s)) s' ->
  sys_ok (Sys s' (<[i := Acceptor false]> ts ++ [InIdle (length (srv_conns s)); OutIdle (length (srv_conns s))])).
Proof.
  intros Hok Hi _ Hkept Hset. set (c := length (srv_conns s)) in *.
  assert (sys_ok (Sys s (<[i := Acceptor false]> ts))) as Hok1.
  { apply sys_ok_move with s (Acceptor true); try done; [apply Hok| |by left].
    apply quiet_guar, quiet_refl. }
  assert (sys_ok (Sys s' (<[i := Acceptor false]> ts))) as Hok2.
  { rewrite <- (app_nil_r (<[i := Acceptor false]> ts)). by eapply sys_ok_grow. }
  assert (forall j t, <[i := Acceptor false]> ts !! j = Some t -> owner t <> Some c) as Hfresh.
  { intros j t Hj Ho. destruct (owner_valid t c s (so_tasks _ Hok1 j t Hj) Ho) as [k Hk].
    apply lookup_lt_Some in Hk. unfold c in Hk. lia. }
  destruct Hok2 as [Hwf Hts Hu]. simpl in *.
  split; simpl; [done| |].
  2: { apply unique_by_accept; auto. }
  intros j t Hj. apply lookup_app_Some in Hj as [Hj|[_ Hj]]; [by eapply Hts|].
  destruct (j - _) as [|[|n]]; simpl in Hj; simplify_eq; [done|by apply settled_valid].
Qed.

Lemma step_ok w w' : step pol w w' -> world_ok w -> world_ok w'.
Proof.
  intros Hstep Hok. destruct Hstep as
    [s ts i t s' t' Hi Ht|s ts i t w Hi Ht|s ts i t x t1 s' t' Hi Hx Ht|s ts i t x t1 w Hi Hx Ht
    |s ts i t v t' Hi Hr|s ts i s' c Hi Ha|s ts i w Hi Ha|s ts c ka gs Hgo|s ts|s ts now Hn];
    simpl in Hok |- *; pose proof (so_wf _ Hok) as Hwf; simpl in Hwf.
  - pose proof (tact_ok t s Hwf (so_tasks _ Hok i t Hi)) as Hm. rewrite Ht in Hm.
    destruct Hm as (? & ? & ? & ?). by eapply sys_ok_move.
  - pose proof (tact_ok t s Hwf (so_tasks _ Hok i t Hi)) as Hm. by rewrite Ht in Hm.
  - destruct (select_ok _ _ _ _ Hx (so_tasks _ Hok i t Hi)) as (Ht1 & Ho & Ho1).
    pose proof (tact_ok t1 s Hwf Ht1) as Hm. rewrite Ht in Hm. destruct Hm as (? & [Hg Hk] & ? & Ho').
    eapply sys_ok_move; [done|done|done| |done|].
    + split; [done|]. intros d _. apply Hk. by rewrite Ho1.
    + right. rewrite Ho1 in Ho'. by destruct Ho'.
  - destruct (select_ok _ _ _ _ Hx (so_tasks _ Hok i t Hi)) as (Ht1 & _).
    pose proof (tact_ok t1 s Hwf Ht1) as Hm. by rewrite Ht in Hm.
  - destruct (receive_ok _ _ _ _ Hr (so_tasks _ Hok i t Hi)) as [Ht' Ho].
    eapply sys_ok_move; [done|done|done|apply quiet_guar, quiet_refl|done|by left].
  - destruct (accept_conn_ok s Hwf) as (s1 & E & Hk & Hset). rewrite E in Ha. simplify_eq.
    by apply sys_ok_accept.
  - destruct (accept_conn_ok s Hwf) as (s1 & E & _). congruence.
  - pose proof (wf_gos _ Hwf) as Hg. rewrite Hgo in Hg. apply Forall_cons in Hg as [Hc Hgs].
    eapply sys_ok_grow; [done|by apply kept_gos|]. constructor; [|done]. split; [|done].
    simpl. by apply lookup_lt_is_Some.
  - eapply sys_ok_grow; [done|by apply kept_stats|]. by constructor.
  - rewrite <- (app_nil_r ts). eapply sys_ok_grow; [done|by apply kept_clock|done].
Qed.

Lemma start_ok conf now w :
  (0 <= ClientOutboundQueueLen (Broker conf))%Z -> started conf now w -> world_ok w.
Proof.
  intros Hq (s & Hs & ->). simpl.
  assert (forall i t, start_tasks conf !! i = Some t -> task_ok t s /\ owner t = None) as Hin.
  { intros i t Hi. apply lookup_app_Some in Hi as [Hi|[_ Hi]].
    - apply lookup_replicate in Hi as [-> _]. split; [apply okq_run_body|done].
    - apply list_lookup_singleton_Some in Hi as [_ <-]. done. }
  split; simpl.
  - by eapply NewServer_wf.
  - intros i t Hi. by apply (Hin i t).
  - intros i j t u c Hi _ Ho. destruct (Hin i t Hi). congruence.
Qed.

Lemma reachable_ok conf now w0 w :
  (0 <= ClientOutboundQueueLen (Broker conf))%Z -> started conf now w0 ->
  rtc (step pol) w0 w -> world_ok w.
Proof.
  intros Hq Hst Hr. pose proof (start_ok conf now w0 Hq Hst) as Hok. clear Hst.
  induction Hr as [|w0 w1 w2 Hs _ IH]; [done|]. by eapply IH, step_ok.
Qed.

(** ** An executable scheduler *)

(** The next transition; [i] is the number of the goroutine that takes it. *)
Inductive move :=
| GoRun (i : nat)
| GoSelect (i : nat) (x : pick)
| GoReceive (i : nat) (v : option (Message Publish))
| GoAccept (i : nat)
| GoSpawn
| GoClock (now : Z).

Definition land (i : nat) (ts : list task) (r : astep Server task) : option world :=
  match r with
  | Done s' t' => Some (with_task i t' s' ts)
  | Blocked => None
  | Panicked w => Some (Down w)
  end.

Definition do_move (m : move) (w : world) : option world :=
  match w with
  | Down _ => None
  | Up (Sys s ts) =>
      match m with
      | GoRun i => t ← ts !! i; land i ts (tact t s)
      | GoSelect i x => t ← ts !! i; t1 ← select t x; land i ts (tact t1 s)
      | GoReceive i v => t ← ts !! i; t' ← receive pol s t v; Some (with_task i t' s ts)
      | GoAccept i =>
          match ts !! i, accept_conn s with
          | Some (Acceptor true), Done s' c =>
              Some (Up (Sys s' (<[i := Acceptor false]> ts ++ [InIdle c; OutIdle c])))
          | _, _ => None
          end
      | GoSpawn =>
          match srv_gos s with
          | GoHeartbeat c ka :: gs => Some (Up (Sys (set_gos gs s) (ts ++ [HbIdle c ka])))
          | [] => None
          end
      | GoClock now => if (srv_clock s <=? now)%Z then Some (Up (Sys (set_clock now s) ts)) else None
      end
  end.

(** A sequence of moves, each taken up to the given number of times, as long as it
    is possible. *)
Fixpoint do_moves (ms : list (nat * move)) (w : world) : world :=
  match ms with
  | [] => w
  | (n, m) :: ms' => do_moves ms' (Nat.iter n (fun w => default w (do_move m w)) w)
  end.

Lemma do_move_sound m w w' : do_move m w = Some w' -> step pol w w'.
Proof.
  assert (forall s ts i t t1 r, ts !! i = Some t -> land i ts r = Some w' ->
    (t1 = t \/ exists x, select t x = Some t1) -> r = tact t1 s ->
    step pol (Up (Sys s ts)) w') as Hland.
  { intros s ts i t t1 r Hi Hl Ht1 ->. destruct (tact t1 s) as [s' t'| |w1] eqn:E; simplify_eq/=;
      destruct Ht1 as [->|[x Hx]]; by econstructor. }
  destruct w as [[s ts]|]; [|done]. destruct m as [i|i x|i v|i| |now]; simpl.
  - intros (t & Hi & Hl)%bind_Some. eauto.
  - intros (t & Hi & (t1 & Hx & Hl)%bind_Some)%bind_Some. eauto.
  - intros (t & Hi & (t1 & Hx & [= <-])%bind_Some)%bind_Some. by econstructor.
  - destruct (ts !! i) as [t|] eqn:Hi; [|done]. destruct t as [| | | | | | | | |b| | | |]; try done.
    destruct b; [|done]. destruct (accept_conn s) eqn:Ea; [|done|done]. intros [= <-]. by econstructor.
  - destruct (srv_gos s) as [|[c ka] gs] eqn:Eg; [done|]. intros [= <-]. by constructor.
  - destruct (_ <=? _)%Z eqn:E; [|done]. intros [= <-]. apply step_clock.
    by apply Z.leb_le.
Qed.

Lemma do_moves_sound ms w : rtc (step pol) w (do_moves ms w).
Proof.
  revert w. induction ms as [|[n m] ms IH]; intros w; cbn [do_moves]; [done|].
  transitivity (Nat.iter n (fun w => default w (do_move m w)) w); [|apply IH].
  clear IH. induction n as [|n IHn]; cbn [Nat.iter nat_rect]; [done|].
  destruct (do_move m _) as [w'|] eqn:E; simpl; [|done].
  eapply rtc_r; [done|]. by eapply do_move_sound.
Qed.
End Sched.
