(* ===== verification/Frame.v ===== *)
(** * Invariants of every goroutine

    A predicate on the shared state that each kind of update keeps is kept by each
    body of each goroutine, and so by every execution of the broker.  [framed]
    lists the updates; [framed_reachable] is the result.  It also allows for
    goroutines that can never move again as long as the predicate holds. *)

From Stdlib Require Import ZArith Lia.
From stdpp Require Import base gmap list strings numbers sets relations.
From S2P Require Import Prelude GoString GoProc GoSlice Wild Config Proto Store Stats Subs Broker.
From S2P Require Import Session SessionFacts Delivery Peers Invariant Sched.

Local Open Scope string_scope.
Local Open Scope list_scope.

(** ** Bodies that keep a predicate *)

Section Keeping.
Context {S : Type} (I : S -> Prop).

(** Every action of [p] that is done keeps [I], and the result satisfies [Q]. *)
Fixpoint keeping {A} (Q : A -> Prop) (p : proc S A) : Prop :=
  match p with
  | Ret a => Q a
  | Step f => forall s, I s ->
      match f s with
      | Done s' p' => I s' /\ keeping Q p'
      | _ => True
      end
  end.

Lemma keeping_bind {A B} (Q : A -> Prop) (Q' : B -> Prop) p (k : A -> proc S B) :
  keeping Q p -> (forall a, Q a -> keeping Q' (k a)) -> keeping Q' (bind p k).
Proof.
  intros Hp Hk. induction p as [a|f IH] using proc_induction; simpl in *; [by apply Hk|].
  intros s Hs. specialize (Hp s Hs). destruct (f s) as [s' p'| |w] eqn:E; [|done|done].
  destruct Hp as [Hs' Hp]. split; [done|]. by eapply IH.
Qed.

Lemma keeping_atomic {A} (Q : A -> Prop) (f : S -> astep S A) :
  (forall s, I s -> match f s with Done s' a => I s' /\ Q a | _ => True end) ->
  keeping Q (atomic f).
Proof. intros Hf s Hs. specialize (Hf s Hs). by destruct (f s). Qed.

Lemma keeping_reads {A} (f : S -> A) : keeping (fun _ => True) (reads f).
Proof. by apply keeping_atomic. Qed.

Lemma keeping_modify (f : S -> S) : (forall s, I s -> I (f s)) -> keeping (fun _ => True) (modify f).
Proof. intros Hf. apply keeping_atomic. auto. Qed.

Lemma keeping_weaken {A} (Q : A -> Prop) p : keeping Q p -> keeping (fun _ => True) p.
Proof.
  induction p as [a|f IH] using proc_induction; simpl; [done|]. intros Hp s Hs.
  specialize (Hp s Hs). destruct (f s) as [s' p'| |w] eqn:E; [|done|done].
  destruct Hp as [Hs' Hp]. split; [done|]. by eapply IH.
Qed.

(** Sequencing when the result does not matter. *)
Lemma keeping_seq {A B} p (k : A -> proc S B) :
  keeping (fun _ => True) p -> (forall a, keeping (fun _ => True) (k a)) ->
  keeping (fun _ => True) (bind p k).
Proof. intros Hp Hk. eapply keeping_bind; [exact Hp|auto]. Qed.

Lemma keeping_ret {A} (a : A) : keeping (fun _ => True) (Ret a).
Proof. done. Qed.

Lemma keeping_panics {A} (Q : A -> Prop) w : keeping Q (panics w).
Proof. by intros s. Qed.

Lemma keeping_for_each {B} (l : list B) (body : B -> proc S unit) :
  (forall x, keeping (fun _ => True) (body x)) -> keeping (fun _ => True) (for_each l body).
Proof. intros Hb. induction l as [|x l IH]; simpl; [done|]. by apply keeping_seq. Qed.

Lemma keeping_for_range n i (body : nat -> proc S unit) :
  (forall j, keeping (fun _ => True) (body j)) -> keeping (fun _ => True) (for_range n i body).
Proof.
  intros Hb. revert i. induction n as [|n IH]; intros i; simpl; [done|]. by apply keeping_seq.
Qed.
End Keeping.

Create HintDb frame.
#[export] Hint Resolve keeping_reads keeping_ret keeping_panics : frame.

(** Walks through a body: sequences, reads, case analyses, and the registered bodies. *)
Ltac frame_walk :=
  repeat first
    [ progress intros
    | solve [eauto 2 with frame]
    | match goal with
      | |- keeping _ _ (Ret _) => apply keeping_ret
      | |- keeping _ _ (bind _ _) => apply keeping_seq
      | |- keeping _ _ (for_each _ _) => apply keeping_for_each
      | |- keeping _ _ (for_range _ _ _) => apply keeping_for_range
      | |- keeping _ _ (match ?x with _ => _ end) => destruct x
      end ].

(** ** What the broker's predicate must allow *)

Section Frame.
Context `{GoRuntime} `{Extern}.
Implicit Types (s : Server) (k : incomingConn) (c : conn_ptr).

(** [I] is kept by the updates of the shared state.  [own c] says that the loops of
    the connection [c] may run, [msg] which messages may be queued, and [unlocks]
    that the mutex of the table may be released. *)
Record framed (I : Server -> Prop) (own : conn_ptr -> Prop) (msg : Message ptr -> Prop)
    (unlocks : Prop) : Prop := {
  fr_stats s x : I s -> I (set_stats x s);
  fr_receipts s x : I s -> I (set_receipts x s);
  fr_redis s x : I s -> I (set_redis x s);
  fr_gos s x : I s -> I (set_gos x s);
  fr_clock s x : I s -> I (set_clock x s);
  fr_clients s x : I s -> I (set_clients x s);
  fr_heap s x : I s -> I (set_heap x s);
  fr_stores s x : I s -> I (set_stores x s);
  fr_posts s q : I s -> ch_closed q = ch_closed (posts (srv_subs s)) ->
    I (set_subs (set_posts q (srv_subs s)) s);
  fr_table s t : I s -> mu (srv_subs s) = false -> posts t = posts (srv_subs s) -> I (set_subs t s);
  fr_lock s : I s -> mu (srv_subs s) = false -> unlocks;
  fr_unlock s : unlocks -> I s -> I (set_subs (set_mu false (srv_subs s)) s);
  fr_node s host e e' : I s -> srv_nodes s !! host = Some e ->
    I (set_nodes (<[host := e']> (srv_nodes s)) s);
  fr_conn s c k k' : I s -> srv_conns s !! c = Some k -> jobs k' = jobs k -> wire k' = wire k ->
    alive k' = alive k -> I (put_conn c k' s);
  fr_push s c k j : I s -> srv_conns s !! c = Some k -> ch_closed (jobs k) = false ->
    length (ch_buf (jobs k)) < ch_cap (jobs k) -> msg (job_m j) ->
    I (put_conn c (set_jobs (Chan (ch_buf (jobs k) ++ [j]) (ch_cap (jobs k)) false) k) s);
  fr_pop s c k q j : own c -> I s -> srv_conns s !! c = Some k ->
    ch_recv (jobs k) = Done q (Some j) -> I (put_conn c (set_jobs q k) s) /\ msg (job_m j);
  fr_drained s c k q : own c -> I s -> srv_conns s !! c = Some k ->
    ch_recv (jobs k) = Done q None -> I (put_conn c (set_jobs q k) s);
  fr_close s c k q : own c -> I s -> srv_conns s !! c = Some k ->
    ch_close (jobs k) = Done q tt -> I (put_conn c (set_jobs q k) s);
  fr_dead s c k : own c -> I s -> srv_conns s !! c = Some k -> I (put_conn c (set_alive false k) s);
  fr_wire s c k m h v : own c -> I s -> srv_conns s !! c = Some k -> msg m ->
    view h m = Some v -> I (put_conn c (set_wire (wire k ++ [v]) k) s);
  fr_accept s s' c : I s -> accept_conn s = Done s' c -> I s' /\ own c;
  (* the messages that the broker makes *)
  fr_made m : match m with
    | MConnAck _ | MPublish _ | MPubAck _ _ | MUnsubAck _ | MPingResp | MDisconnect => True
    | MSubAck _ qs => Forall (fun q => q = QosAtMostOnce) qs
    | _ => False
    end -> msg m
}.

Context (I : Server -> Prop) (own : conn_ptr -> Prop) (msg : Message ptr -> Prop) (unlocks : Prop).
Context (F : framed I own msg unlocks).
Notation keeps_I := (keeping I (fun _ => True)).

(** ** Actions *)

Lemma frame_on_conn {A} (Q : A -> Prop) c (f : incomingConn -> astep incomingConn A) :
  (forall s k, I s -> srv_conns s !! c = Some k ->
     match f k with Done k' a => I (put_conn c k' s) /\ Q a | _ => True end) ->
  keeping I Q (on_conn c f).
Proof.
  intros Hf. apply keeping_atomic. intros s Hs. destruct (srv_conns s !! c) as [k|] eqn:Hk; [|done].
  specialize (Hf s k Hs Hk). by destruct (f k).
Qed.

Lemma frame_read_conn {A} c (f : incomingConn -> A) : keeps_I (read_conn c f).
Proof. apply keeping_atomic. intros s Hs. by destruct (srv_conns s !! c). Qed.

(** A write that leaves the queue, the wire and [alive] alone. *)
Lemma frame_write_conn c f :
  (forall k, jobs (f k) = jobs k /\ wire (f k) = wire k /\ alive (f k) = alive k) ->
  keeps_I (write_conn c f).
Proof.
  intros Hf. apply frame_on_conn. intros s k Hs Hk. destruct (Hf k) as (? & ? & ?).
  split; [by apply (fr_conn _ _ _ _ F s c k)|done].
Qed.

Lemma frame_do_stats f : keeps_I (do_stats f).
Proof. apply keeping_modify. intros s. apply F. Qed.

(** A critical section that leaves the queue of posts alone. *)
Lemma frame_critical {A} (f : subscriptions -> subscriptions * A) :
  (forall t, posts (f t).1 = posts t) -> keeps_I (critical f).
Proof.
  intros Hf. apply keeping_atomic. intros s Hs. destruct (mu (srv_subs s)) eqn:Hm; [done|].
  split; [by apply (fr_table _ _ _ _ F)|done].
Qed.

Lemma posts_unsub topic c t : posts (unsub topic c t) = posts t.
Proof. unfold unsub. by case_match. Qed.

Lemma frame_mu_Lock : keeping I (fun _ => unlocks) mu_Lock.
Proof.
  apply keeping_atomic. intros s Hs. destruct (mu (srv_subs s)) eqn:Hm; [done|].
  split; [by apply (fr_table _ _ _ _ F)|by eapply (fr_lock _ _ _ _ F)].
Qed.

Lemma frame_mu_Unlock : unlocks -> keeps_I mu_Unlock.
Proof. intros Hu. apply keeping_modify. intros s. by apply (fr_unlock _ _ _ _ F). Qed.

Lemma frame_send c m r : msg m -> keeps_I (on_conn c (on_jobs (ch_send (Job m r)))).
Proof.
  intros Hm. apply frame_on_conn. intros s k Hs Hk. unfold on_jobs, ch_send.
  destruct (ch_closed (jobs k)) eqn:Hc; [done|]. destruct (_ <? _)%nat eqn:Hl; [|done].
  apply Nat.ltb_lt in Hl. split; [by apply (fr_push _ _ _ _ F)|done].
Qed.

Lemma frame_try_send c m r : msg m -> keeps_I (on_conn c (on_jobs (ch_try_send (Job m r)))).
Proof.
  intros Hm. apply frame_on_conn. intros s k Hs Hk. unfold on_jobs, ch_try_send.
  destruct (ch_closed (jobs k)) eqn:Hc; [done|]. destruct (_ <? _)%nat eqn:Hl.
  - apply Nat.ltb_lt in Hl. split; [by apply (fr_push _ _ _ _ F)|done].
  - split; [by apply (fr_conn _ _ _ _ F s c k)|done].
Qed.

Lemma frame_recv c :
  own c -> keeping I (fun x => match x with Some j => msg (job_m j) | None => True end)
             (on_conn c (on_jobs ch_recv)).
Proof.
  intros Ho. apply frame_on_conn. intros s k Hs Hk. unfold on_jobs.
  destruct (ch_recv (jobs k)) as [q [j|]| |w] eqn:E; [| |done|done].
  - by apply (fr_pop _ _ _ _ F).
  - split; [by apply (fr_drained _ _ _ _ F)|done].
Qed.

Lemma frame_close c : own c -> keeps_I (on_conn c (on_jobs ch_close)).
Proof.
  intros Ho. apply frame_on_conn. intros s k Hs Hk. unfold on_jobs.
  destruct (ch_close (jobs k)) as [q []| |w] eqn:E; [|done|done].
  split; [by apply (fr_close _ _ _ _ F)|done].
Qed.

Lemma frame_read_msg m : keeping I (fun v => exists h, view h m = Some v) (read_msg m).
Proof.
  apply keeping_atomic. intros s Hs. destruct (view (srv_heap s) m) as [v|] eqn:Hv; [|done].
  split; [done|]. by exists (srv_heap s).
Qed.

Lemma frame_read_pub p : keeps_I (read_pub p).
Proof. apply keeping_atomic. intros s Hs. by destruct (srv_heap s !! p). Qed.

Lemma frame_alloc v : keeps_I (alloc v).
Proof. apply keeping_atomic. intros s Hs. split; [by apply F|done]. Qed.

Lemma frame_on_store {A} c (f : MemoryStore (Message ptr) -> MemoryStore (Message ptr) * A) :
  keeps_I (on_store c f).
Proof.
  apply keeping_atomic. intros s Hs. destruct (srv_conns s !! c) as [k|]; [|done].
  destruct (store k) as [p|]; [|done]. destruct (store_heap (srv_stores s) !! p) as [st|]; [|done].
  split; [by apply F|done].
Qed.

Lemma frame_call_store c call : keeps_I (call_store c call).
Proof. unfold call_store. destruct call; [apply frame_on_store|done]. Qed.

Lemma frame_subs_submit p : keeps_I (subs_submit p).
Proof.
  apply keeping_atomic. intros s Hs. unfold ch_send. destruct (ch_closed _) eqn:Hc; [done|].
  destruct (_ <? _)%nat; [|done]. split; [by apply (fr_posts _ _ _ _ F)|done].
Qed.

Lemma frame_run_next : keeps_I run_next.
Proof.
  apply keeping_atomic. intros s Hs. unfold ch_recv. destruct (ch_buf _) as [|x b] eqn:Hb.
  - destruct (ch_closed _) eqn:Hc; [|done]. split; [by apply (fr_posts _ _ _ _ F)|done].
  - split; [by apply (fr_posts _ _ _ _ F)|done].
Qed.

Lemma frame_save_retain p : keeps_I (save_retain p).
Proof.
  apply keeping_atomic. intros s Hs. destruct (mu (srv_subs s)) eqn:Hm; [done|].
  destruct (srv_heap s !! p); [|done]. split; [by apply (fr_table _ _ _ _ F)|done].
Qed.

Lemma frame_on_node {A} host (f : endpoint -> astep endpoint A) : keeps_I (on_node host f).
Proof.
  apply keeping_atomic. intros s Hs. destruct (srv_nodes s !! host) as [e|] eqn:He; [|done].
  destruct (f e); [|done|done]. split; [by eapply (fr_node _ _ _ _ F)|done].
Qed.

Lemma frame_add_client c : keeps_I (add_client c).
Proof.
  apply keeping_atomic. intros s Hs. destruct (srv_conns s !! c) as [k|]; [|done].
  destruct (flag k) as [m|]; [|done]. destruct (srv_clients s !! ClientId m); [done|].
  split; [by apply F|done].
Qed.

Lemma frame_del_client c : keeps_I (del_client c).
Proof.
  apply keeping_atomic. intros s Hs. destruct (srv_conns s !! c) as [k|]; [|done].
  destruct (flag k); [|done]. split; [by apply F|done].
Qed.

Lemma frame_close_receipt r : keeps_I (close_receipt r).
Proof. apply keeping_atomic. intros s Hs. case_decide; [done|]. split; [by apply F|done]. Qed.

Lemma frame_wait r : keeps_I (wait r).
Proof. apply keeping_atomic. intros s Hs. by case_decide. Qed.

#[local] Hint Extern 2 (keeping _ _ (critical _)) =>
  (apply frame_critical; intros; first [reflexivity|apply add_posts|apply posts_unsub]) : frame.
#[local] Hint Resolve frame_read_conn frame_do_stats frame_read_pub frame_alloc
  frame_on_store frame_call_store frame_subs_submit frame_run_next frame_save_retain frame_on_node
  frame_add_client frame_del_client frame_close_receipt frame_wait : frame.

(** ** Bodies *)

Lemma frame_submit c m : msg m -> keeps_I (submit c m).
Proof.
  intros Hm. unfold submit. frame_walk; [by apply frame_send|by apply frame_try_send].
Qed.

Lemma frame_submitSync c m : msg m -> keeps_I (submitSync c m).
Proof.
  intros Hm. unfold submitSync. apply keeping_seq.
  - apply keeping_atomic. intros s Hs. split; [by apply F|done].
  - intros r. apply keeping_seq; [by apply frame_send|done].
Qed.

Lemma frame_refreshOpTime c : keeps_I (refreshOpTime c).
Proof. unfold refreshOpTime. frame_walk. by apply frame_write_conn. Qed.

Lemma frame_stop c : keeps_I (stop c).
Proof.
  unfold stop. frame_walk. apply frame_on_conn. intros s k Hs Hk.
  destruct (stopChan k); [done|]. split; [by apply (fr_conn _ _ _ _ F s c k)|done].
Qed.

Lemma frame_made m :
  match m with
  | MConnAck _ | MPublish _ | MPubAck _ _ | MUnsubAck _ | MPingResp | MDisconnect => True
  | MSubAck _ qs => Forall (fun q => q = QosAtMostOnce) qs
  | _ => False
  end -> msg m.
Proof. apply F. Qed.

#[local] Hint Resolve frame_submit frame_submitSync frame_refreshOpTime frame_stop : frame.
#[local] Hint Extern 2 (msg _) => (apply frame_made; exact Logic.I) : frame.

Lemma frame_CheckIn u : keeps_I (CheckIn u).
Proof. apply keeping_modify. intros s. apply F. Qed.
Lemma frame_CheckOut u : keeps_I (CheckOut u).
Proof. apply keeping_modify. intros s. apply F. Qed.

Lemma frame_run_post p : keeps_I (run_post p).
Proof.
  unfold run_post, critical_, read_entry. frame_walk. apply keeping_modify. intros s. apply F.
Qed.

Lemma frame_run_body : keeps_I run_body.
Proof. unfold run_body. frame_walk. apply frame_run_post. Qed.

Lemma frame_sendRetain topic c : keeps_I (sendRetain topic c).
Proof.
  unfold sendRetain. eapply keeping_bind; [apply frame_mu_Lock|]. intros [] Hu.
  frame_walk. by apply frame_mu_Unlock.
Qed.

Lemma frame_replicate_pub p : keeps_I (replicate_pub p).
Proof. unfold replicate_pub, ep_submit. frame_walk. Qed.

#[local] Hint Resolve frame_CheckIn frame_CheckOut frame_sendRetain frame_replicate_pub : frame.

Lemma frame_flag_username c : keeps_I (flag_username c).
Proof. unfold flag_username. frame_walk. Qed.
#[local] Hint Resolve frame_flag_username : frame.

Lemma frame_redeliver c key : keeps_I (redeliver c key).
Proof. unfold redeliver. frame_walk. Qed.
#[local] Hint Resolve frame_redeliver : frame.

Lemma frame_connect_session c m b rc : keeps_I (connect_session c m b rc).
Proof.
  unfold connect_session. frame_walk; try (by apply frame_write_conn).
  - apply keeping_modify. intros s. apply F.
  - apply keeping_atomic. intros s Hs. split; [by apply F|done].
Qed.

Lemma frame_doConnect c m : keeps_I (doConnect c m).
Proof.
  unfold doConnect. frame_walk; [by apply frame_write_conn|apply frame_connect_session].
Qed.

Lemma frame_publish_limit c : keeps_I (publish_limit c).
Proof.
  unfold publish_limit. frame_walk. apply frame_on_conn. intros s k Hs Hk.
  split; [by apply (fr_conn _ _ _ _ F s c k)|done].
Qed.

Lemma frame_doPublish c p : keeps_I (doPublish c p).
Proof. unfold doPublish. frame_walk. apply frame_publish_limit. Qed.

Lemma frame_doSubscribe c mid ts : keeps_I (doSubscribe c mid ts).
Proof.
  unfold doSubscribe, subscribe_topic, critical_. frame_walk; [by apply frame_write_conn|].
  apply frame_submit, frame_made. by apply Forall_replicate.
Qed.

Lemma frame_doUnsubscribe c mid ts : keeps_I (doUnsubscribe c mid ts).
Proof.
  unfold doUnsubscribe, unsubscribe_topic, critical_. frame_walk. by apply frame_write_conn.
Qed.

Lemma frame_alloc_msg v : keeps_I (alloc_msg v).
Proof. unfold alloc_msg. frame_walk. Qed.

#[local] Hint Resolve frame_doConnect frame_doPublish frame_doSubscribe frame_doUnsubscribe
  frame_alloc_msg : frame.

Lemma frame_inbound_msg c v : keeps_I (inbound_msg c v).
Proof. unfold inbound_msg, doPublishAck. frame_walk. Qed.

Lemma frame_inbound_err c : keeps_I (inbound_err c).
Proof. unfold inbound_err. frame_walk. Qed.

Lemma frame_inbound_defer c : own c -> keeps_I (inbound_defer c).
Proof.
  intros Ho. unfold inbound_defer, onTerminate. frame_walk; [|by apply frame_close].
  apply frame_on_conn. intros s k Hs Hk. split; [by apply (fr_dead _ _ _ _ F)|done].
Qed.

Lemma frame_outbound_job c sent : own c -> keeps_I (outbound_job c sent).
Proof.
  intros Ho. unfold outbound_job. eapply keeping_bind; [by apply frame_recv|].
  intros [j|] Hj; [|done].
  apply keeping_bind with (fun _ => True); [eapply keeping_weaken, frame_read_msg|]. intros v _.
  apply keeping_seq; [auto with frame|]. intros _.
  eapply keeping_bind; [apply frame_read_msg|]. intros v' [h Hv].
  apply keeping_seq.
  - destruct sent; [|done]. apply frame_on_conn. intros s k Hs Hk.
    split; [by eapply (fr_wire _ _ _ _ F)|done].
  - frame_walk. eapply keeping_weaken, frame_read_msg.
Qed.

Lemma frame_outbound_stop c : keeps_I (outbound_stop c).
Proof.
  apply frame_on_conn. intros s k Hs Hk. destruct (stopChan k); [|done].
  split; [by apply (fr_conn _ _ _ _ F s c k)|done].
Qed.

Lemma frame_outbound_defer c : keeps_I (outbound_defer c).
Proof.
  unfold outbound_defer, critical_. frame_walk; [|by apply frame_write_conn].
  apply frame_on_conn. intros s k Hs Hk. destruct (heartbeatStop k); [done|].
  split; [by apply (fr_conn _ _ _ _ F s c k)|done].
Qed.

Lemma frame_heartbeat_tick c ka : keeps_I (heartbeat_tick c ka).
Proof. unfold heartbeat_tick. frame_walk. Qed.

Lemma frame_heartbeat_stop c : keeps_I (heartbeat_stop c).
Proof.
  apply frame_on_conn. intros s k Hs Hk. destruct (heartbeatStop k); [|done].
  split; [by apply (fr_conn _ _ _ _ F s c k)|done].
Qed.

Lemma frame_replay_msg v : keeps_I (replay_msg v).
Proof. unfold replay_msg. frame_walk. Qed.

(** ** The whole system *)

(** The goroutine runs bodies that keep [I], now and later. *)
Definition task_framed (t : task) : Prop :=
  match t with
  | InIdle c | OutIdle c => own c
  | InRun c p | OutRun c p => own c /\ keeps_I p
  | HbRun _ _ p | Worker p => keeps_I p
  | InDefer _ p | OutDefer _ p | PeerRun p | PeerDefer p => keeps_I p
  | HbIdle _ _ | Acceptor _ | PeerIdle | Finished => True
  end.

(** The body, or the goroutine, is in front of an action that blocks as long as [I]
    holds. *)
Definition proc_held {A} (p : proc Server A) : Prop :=
  match p with Step f => forall s, I s -> f s = Blocked | Ret _ => False end.

Definition task_held (t : task) : Prop :=
  match t with
  | InRun _ p | OutRun _ p | HbRun _ _ p | Worker p => proc_held p
  | InDefer _ p | OutDefer _ p => proc_held p
  | _ => False
  end.

Lemma proc_held_bind {A B} (p : proc Server A) (k : A -> proc Server B) :
  proc_held p -> proc_held (bind p k).
Proof. destruct p as [a|f]; [done|]. intros Hp s Hs. by rewrite (Hp s Hs). Qed.

Lemma held_blocked t s : task_held t -> I s -> tact t s = Blocked.
Proof.
  intros Ht Hs. destruct t as [c|c p|c p|c|c p|c p|c ka|c ka p|p|a| |p|p|]; try done;
    destruct p as [a|f]; try done; simpl in *; by rewrite (Ht s Hs).
Qed.

Lemma held_select t x : task_held t -> select t x = None.
Proof. by destruct t, x. Qed.

Lemma held_receive pol s t v : task_held t -> receive pol s t v = None.
Proof. by destruct t, v. Qed.

Lemma run_proc_framed {A} (wrap : proc Server A -> task) fin p s :
  I s -> keeps_I p -> (forall p', keeps_I p' -> task_framed (wrap p')) -> (forall a, task_framed (fin a)) ->
  match run_proc wrap fin p s with Done s' t' => I s' /\ task_framed t' | _ => True end.
Proof.
  intros Hs Hp Hw Hf. destruct p as [a|f]; simpl in *; [by split|].
  specialize (Hp s Hs). destruct (f s) as [s' p'| |w]; [|done|done].
  destruct Hp as [Hs' Hp']. split; [done|by apply Hw].
Qed.

Lemma tact_framed t s :
  I s -> task_framed t -> match tact t s with Done s' t' => I s' /\ task_framed t' | _ => True end.
Proof.
  intros Hs. destruct t as [c|c p|c p|c|c p|c p|c ka|c ka p|p|a| |p|p|]; simpl; try done.
  - intros [Ho Hp]. apply run_proc_framed; [done|done|by split|].
    intros []; cbn [task_framed]; [done|by apply frame_inbound_defer].
  - intros Hp. by apply run_proc_framed.
  - intros [Ho Hp]. apply run_proc_framed; [done|done|by split|].
    intros []; cbn [task_framed]; [done|apply frame_outbound_defer].
  - intros Hp. by apply run_proc_framed.
  - intros Hp. apply run_proc_framed; [done..|]. by intros [].
  - intros Hp. apply run_proc_framed; [done..|]. intros []; cbn [task_framed]; [apply frame_run_body|done].
  - intros _. destruct a; [done|]. split; [by apply F|done].
  - intros Hp. by apply run_proc_framed.
  - intros Hp. by apply run_proc_framed.
Qed.

Lemma select_framed t x t1 : select t x = Some t1 -> task_framed t -> task_framed t1.
Proof.
  destruct t, x; simpl; try done; intros [= <-] Ho; cbn [task_framed].
  - split; [done|by apply frame_outbound_job].
  - split; [done|by apply frame_outbound_job].
  - split; [done|apply frame_outbound_stop].
  - apply frame_heartbeat_stop.
  - apply frame_heartbeat_tick.
Qed.

Lemma receive_framed pol s t v t1 : receive pol s t v = Some t1 -> task_framed t -> task_framed t1.
Proof.
  destruct t, v as [v|]; simpl; try done.
  - destruct (sends pol s c v); [|done]. intros [= <-] Ho. split; [done|apply frame_inbound_msg].
  - destruct (fails pol s c); [|done]. intros [= <-] Ho. split; [done|apply frame_inbound_err].
  - destruct (replays pol s v); [|done]. intros [= <-] _. apply frame_replay_msg.
  - intros [= <-] _. apply frame_do_stats.
Qed.

(** The predicate holds and every goroutine keeps it or is held for ever; the held
    ones of [hs] have not moved. *)
Record sys_framed (hs : list (nat * task)) (y : sys) : Prop := {
  sf_inv : I (sy_srv y);
  sf_held i t : (i, t) ∈ hs -> sy_tasks y !! i = Some t /\ task_held t;
  sf_rest i t : sy_tasks y !! i = Some t -> (i, t) ∈ hs \/ task_framed t
}.

(** A goroutine that is not held moves. *)
Lemma sys_framed_move hs s ts i t s' t' :
  sys_framed hs (Sys s ts) -> ts !! i = Some t -> ~ task_held t -> I s' -> task_framed t' ->
  sys_framed hs (Sys s' (<[i := t']> ts)).
Proof.
  intros [Hs Hh Hr] Hi Hn Hs' Ht'. simpl in *. split; simpl; [done| |].
  - intros j u Hin. destruct (Hh j u Hin) as [Hj Hu]. split; [|done].
    rewrite list_lookup_insert_ne; [done|]. intros ->. congruence.
  - intros j u Hj. apply list_lookup_insert_Some in Hj as [(-> & -> & _)|[_ Hj]]; [by right|].
    by apply Hr.
Qed.

(** New goroutines start. *)
Lemma sys_framed_grow hs s ts s' us :
  sys_framed hs (Sys s ts) -> I s' -> Forall task_framed us -> sys_framed hs (Sys s' (ts ++ us)).
Proof.
  intros [Hs Hh Hr] Hs' Hus. simpl in *. split; simpl; [done| |].
  - intros j u Hin. destruct (Hh j u Hin) as [Hj Hu]. split; [|done]. by apply lookup_app_l_Some.
  - intros j u Hj. apply lookup_app_Some in Hj as [Hj|[_ Hj]]; [by apply Hr|right].
    exact (Forall_lookup_1 _ _ _ _ Hus Hj).
Qed.

Lemma framed_step hs pol y w :
  sys_framed hs y -> step pol (Up y) w -> match w with Up y' => sys_framed hs y' | Down _ => True end.
Proof.
  intros Hy Hstep. assert (forall i t, sy_tasks y !! i = Some t -> task_held t \/ task_framed t) as Hin.
  { intros i t Hi. destruct (sf_rest _ _ Hy i t Hi) as [Hh|Hf]; [left|by right]. by apply (sf_held _ _ Hy i t). }
  pose proof (sf_inv _ _ Hy) as Hs.
  inversion Hstep as [s ts i t s' t' Hi Ht|s ts i t w' Hi Ht|s ts i t x t1 s' t' Hi Hx Ht
    |s ts i t x t1 w' Hi Hx Ht|s ts i t v t' Hi Hr|s ts i s' c Hi Ha|s ts i w' Hi Ha|s ts c ka gs Hgo
    |s ts|s ts now Hn]; subst; simpl in *; try done.
  - destruct (Hin i t Hi) as [Hh|Hf]; [by rewrite (held_blocked t s Hh Hs) in Ht|].
    pose proof (tact_framed t s Hs Hf) as Hm. rewrite Ht in Hm. destruct Hm.
    eapply sys_framed_move; [done|done| |done|done].
    intros Hh. by rewrite (held_blocked t s Hh Hs) in Ht.
  - destruct (Hin i t Hi) as [Hh|Hf]; [by rewrite (held_select t x Hh) in Hx|].
    pose proof (tact_framed t1 s Hs (select_framed t x t1 Hx Hf)) as Hm. rewrite Ht in Hm. destruct Hm.
    eapply sys_framed_move; [done|done| |done|done]. intros Hh. by rewrite (held_select t x Hh) in Hx.
  - destruct (Hin i t Hi) as [Hh|Hf]; [by rewrite (held_receive pol s t v Hh) in Hr|].
    eapply sys_framed_move; [done|done| |done|by eapply receive_framed].
    intros Hh. by rewrite (held_receive pol s t v Hh) in Hr.
  - destruct (fr_accept _ _ _ _ F s s' c Hs Ha) as [Hs' Ho]. apply sys_framed_grow with s; [|done|].
    + apply sys_framed_move with s (Acceptor true); try done. by intros [].
    + by repeat constructor.
  - eapply sys_framed_grow; [done|by apply F|]. by repeat constructor.
  - eapply sys_framed_grow; [done|by apply F|]. by repeat constructor.
  - rewrite <- (app_nil_r ts). eapply sys_framed_grow; [done|by apply F|done].
Qed.

Theorem framed_reachable hs pol y y' :
  sys_framed hs y -> rtc (step pol) (Up y) (Up y') -> sys_framed hs y'.
Proof.
  intros Hy Hr. remember (Up y) as w eqn:Ew. remember (Up y') as w' eqn:Ew'.
  revert y Hy Ew. induction Hr as [w|w w1 w2 Hs Hr IH]; intros y Hy ->; [by simplify_eq|].
  pose proof (framed_step hs pol y w1 Hy Hs) as H1'. destruct w1 as [y1|].
  - by apply (IH Ew' y1).
  - subst. inversion Hr as [|w w' w3 Hs']; subst. inversion Hs'.
Qed.

(** From the start of the broker. *)
Lemma framed_started conf now w y pol :
  (forall s, NewServer conf now = inl s -> I s) ->
  started conf now w -> rtc (step pol) w (Up y) -> I (sy_srv y).
Proof.
  intros HI (s & Hs & ->) Hr. apply (sf_inv [] y). eapply framed_reachable; [|exact Hr].
  split; simpl; [by apply HI|by intros i t ?%elem_of_nil|].
  intros i t Hi. right. apply lookup_app_Some in Hi as [Hi|[_ Hi]].
  - apply lookup_replicate in Hi as [-> _]. apply frame_run_body.
  - by apply list_lookup_singleton_Some in Hi as [_ <-].
Qed.
End Frame.
