(* ===== verification/Executions.v ===== *)
(** * Executions of the whole broker

    What holds in every execution of the broker, whatever the clients send and
    however the goroutines interleave, the executions of polite clients that other
    files build on, and one in which the broker loses its workers. *)

From Stdlib Require Import ZArith Lia.
From stdpp Require Import base gmap list strings numbers sets relations.
From S2P Require Import Prelude GoString GoProc GoSlice Wild Config Proto Store Stats Subs Broker.
From S2P Require Import Session SessionFacts Delivery Peers Invariant Sched.

Local Open Scope string_scope.
Local Open Scope list_scope.

Section Policies.
Context `{GoRuntime} `{Extern}.

(** Clients that may send anything and leave at any time. *)
Definition any_client : policy := {| sends _ _ _ := true; fails _ _ := true; replays _ _ := true |}.

Definition is_flagged (s : Server) (c : conn_ptr) : bool :=
  match srv_conns s !! c with
  | Some k => connected k
  | None => false
  end.

(** Clients that send CONNECT first and do not leave before it. *)
Definition polite_client : policy := {|
  sends s c v := match v with MConnect _ => true | _ => is_flagged s c end;
  fails s c := is_flagged s c;
  replays _ _ := true
|}.

Lemma is_flagged_spec s c : is_flagged s c = true -> conn_flagged c s.
Proof.
  unfold is_flagged, connected. destruct (srv_conns s !! c) as [k|] eqn:Hk; [|done].
  destruct (flag k) eqn:Hf; [|done]. intros _. exists k. split; [done|]. by rewrite Hf.
Qed.

Lemma polite_careful : careful polite_client.
Proof.
  split.
  - intros s c v. simpl. destruct v; try (intros Hf; right; by apply is_flagged_spec). eauto.
  - intros s c Hf. left. by apply is_flagged_spec.
Qed.

(** No subscription worker is left. *)
Definition no_worker (ts : list task) : Prop := forall p, Worker p ∉ ts.

Definition is_worker (t : task) : bool := match t with Worker _ => true | _ => false end.

Lemma no_worker_test ts : forallb (fun t => negb (is_worker t)) ts = true -> no_worker ts.
Proof.
  intros Hb p Hin. rewrite forallb_forall in Hb.
  specialize (Hb (Worker p) (proj1 (list_elem_of_In _ _) Hin)). done.
Qed.

Lemma no_worker_insert i t ts : (forall p, t <> Worker p) -> no_worker ts -> no_worker (<[i := t]> ts).
Proof.
  intros Ht Hts p Hin. apply list_elem_of_lookup in Hin as [j Hj].
  apply list_lookup_insert_Some in Hj as [(_ & Heq & _)|(_ & Hj)]; [by apply (Ht p)|].
  apply (Hts p). by eapply list_elem_of_lookup_2.
Qed.

Lemma no_worker_app ts us : no_worker ts -> no_worker us -> no_worker (ts ++ us).
Proof. intros Hts Hus p [Hin|Hin]%elem_of_app; [by eapply Hts|by eapply Hus]. Qed.

(** A goroutine that is no worker does not become one. *)
Lemma tact_no_worker t s s' t' :
  (forall p, t <> Worker p) -> tact t s = Done s' t' -> forall p, t' <> Worker p.
Proof.
  intros Ht E p. assert (forall A (wrap : proc Server A -> task) fin q,
    run_proc wrap fin q s = Done s' t' -> (forall x, wrap x <> Worker p) -> (forall x, fin x <> Worker p) ->
    t' <> Worker p) as Hrun.
  { intros A wrap fin [a|f] Hq Hw Hf; simpl in Hq; [by simplify_eq|]. destruct (f s); by simplify_eq. }
  destruct t; simpl in E; try done; try (eapply Hrun; [exact E|done|by intros []]).
  - by destruct (Ht p0).
  - by destruct accepted; simplify_eq.
Qed.

Lemma step_no_worker pol s ts s' ts' :
  step pol (Up (Sys s ts)) (Up (Sys s' ts')) -> no_worker ts -> no_worker ts'.
Proof.
  intros Hstep Hts. assert (forall i t, ts !! i = Some t -> forall p, t <> Worker p) as Hin.
  { intros i t Hi p ->. apply (Hts p). by eapply list_elem_of_lookup_2. }
  inversion Hstep; subst.
  - apply no_worker_insert; [|done]. eapply tact_no_worker; [by eapply Hin|done].
  - apply no_worker_insert; [|done]. eapply tact_no_worker; [|done].
    intros p ->. destruct t, x; simplify_eq/=.
  - apply no_worker_insert; [|done]. intros p ->. destruct t, v; simplify_eq/=; by case_match.
  - apply no_worker_app; [by apply no_worker_insert|]. intros p. set_solver.
  - apply no_worker_app; [done|]. intros p. set_solver.
  - apply no_worker_app; [done|]. intros p. set_solver.
  - done.
Qed.

Lemma reachable_no_worker pol w w' :
  rtc (step pol) w w' ->
  match w with Up y => no_worker (sy_tasks y) | Down _ => True end ->
  match w' with Up y => no_worker (sy_tasks y) | Down _ => True end.
Proof.
  induction 1 as [|w w1 w2 Hs _ IH]; [done|]. intros Hw. apply IH.
  destruct w1 as [[s1 ts1]|]; [|done]. destruct w as [[s ts]|]; [|inversion Hs].
  by eapply step_no_worker.
Qed.
End Policies.

#[local] Existing Instance doubling_runtime.
#[local] Existing Instance bytes_mqttmsg.
#[local] Existing Instance plain_extern.

(** ** Concrete executions *)

Module Run.
Definition conf : Config := Demo.conf false "block".
Definition server : Server := Eval vm_compute in
  match NewServer conf 1000 with inl s => s | inr _ => Demo.session_block end.
Definition start : world := Up (Sys server (start_tasks conf)).

Lemma start_started : started conf 1000 start.
Proof. exists server. split; reflexivity. Qed.

(** More than the number of actions of any body below. *)
Definition all : nat := 60.

(** Goroutines 0 and 1 are the workers, 2 accepts; the loops of the n-th accepted
    connection are 3 + 2n and 4 + 2n. *)
Definition accept_one : list (nat * move) := [(1, GoRun 2); (1, GoAccept 2)].
Definition handle (i : nat) (v : Message Publish) : list (nat * move) :=
  [(1, GoReceive i (Some v)); (all, GoRun i)].

(** Two clients; the first is subscribed to "t". *)
Definition two_clients : list (nat * move) :=
  accept_one ++ accept_one ++
  handle 3 (MConnect (Demo.connect_msg "c0")) ++ handle 5 (MConnect (Demo.connect_msg "c1")) ++
  handle 3 (MSubscribe 1 [("t", QosAtMostOnce)]).

(** The second publishes; a worker has seen that the first is alive when the first
    disconnects. *)
Definition disconnect_race : list (nat * move) :=
  two_clients ++ handle 5 (MPublish (Demo.publish_msg "t" QosAtMostOnce false 0 "x")) ++
  [(7, GoRun 0)] ++ handle 3 MDisconnect ++ [(1, GoRun 0)].

(** The state an execution ends in, if the broker is up. *)
Definition final (w : world) : sys :=
  match w with Up y => y | Down _ => Sys server [] end.
Definition is_up (w : world) : bool := match w with Up _ => true | Down _ => false end.
Definition conn_of (y : sys) (c : conn_ptr) : incomingConn :=
  default (new_conn (Broker conf) 0) (srv_conns (sy_srv y) !! c).

Lemma final_reached pol ms :
  is_up (do_moves pol ms start) = true -> rtc (step pol) start (Up (final (do_moves pol ms start))).
Proof.
  intros Hup. pose proof (do_moves_sound pol ms start) as Hr.
  by destruct (do_moves pol ms start).
Qed.

(** One client deletes two retained messages. *)
Definition delete_twice : list (nat * move) :=
  accept_one ++ handle 3 (MConnect (Demo.connect_msg "c0")) ++
  handle 3 (MPublish (Demo.publish_msg "a" QosAtMostOnce true 0 "")) ++ [(all, GoRun 0)] ++
  handle 3 (MPublish (Demo.publish_msg "b" QosAtMostOnce true 0 "")) ++ [(all, GoRun 1)].
End Run.

(** ** Properties *)

(** C1: in every execution, whatever the clients and peers send and however the
    goroutines interleave, the shared state stays consistent: no queue holds more
    than its capacity, every queued or posted publication is in memory, a queued
    publication or acknowledgement is for a connection that has a store, every
    registered client is a connection, every subscriber is a connection with a
    store, client ids do not share stores, and every retained message is kept under
    its own topic with its retain flag set. *)
Theorem broker_state_consistent `{GoRuntime} `{Extern} (pol : policy) (conf : Config) (now : Z)
    (w0 : world) (y : sys)
    (Hq : (0 <= ClientOutboundQueueLen (Broker conf))%Z) (Hstart : started conf now w0)
    (Hr : rtc (step pol) w0 (Up y)) :
  let s := sy_srv y in
  (forall c k, srv_conns s !! c = Some k ->
     length (ch_buf (jobs k)) <= ch_cap (jobs k) /\
     forall j, j ∈ ch_buf (jobs k) -> is_Some (view (srv_heap s) (job_m j)) /\
       (needs_store (job_m j) = true -> store k <> None)) /\
  length (ch_buf (posts (srv_subs s))) <= ch_cap (posts (srv_subs s)) /\
  (forall p, p ∈ ch_buf (posts (srv_subs s)) -> is_Some (srv_heap s !! p)) /\
  (forall id c, srv_clients s !! id = Some c -> is_Some (srv_conns s !! c)) /\
  (forall topic c, c ∈ live (arrays (srv_subs s)) (subs_at (srv_subs s) topic) -> conn_ready c s) /\
  (forall id id' p, clientStores (srv_stores s) !! id = Some p ->
     clientStores (srv_stores s) !! id' = Some p -> id = id') /\
  (forall t m, retain (srv_subs s) !! t = Some m -> TopicName m = t /\ Retain (PubHeader m) = true).
Proof.
  intros s. pose proof (so_wf _ _ (reachable_ok pol conf now w0 _ Hq Hstart Hr)) as Hwf. fold s in Hwf.
  split; [|split; [|split; [|split; [|split; [|split]]]]].
  - intros c k Hk. destruct (wf_conn _ _ _ Hwf Hk) as [Hc Hj _]. split; [done|].
    intros j Hin. rewrite Forall_forall in Hj. destruct (Hj j Hin) as [Hm Hn].
    split; [by apply msg_ok_view|done].
  - apply (wf_posts _ Hwf).
  - intros p Hin. destruct (wf_posts _ Hwf) as [_ Hp]. rewrite Forall_forall in Hp.
    by apply lookup_lt_is_Some, Hp.
  - intros id c Hid. by apply lookup_lt_is_Some, (wf_clients _ Hwf id).
  - intros topic c Hin. apply list_elem_of_omap in Hin as ([d|] & Hin & [= ->]).
    apply list_elem_of_lookup in Hin as [i Hi].
    apply (entries_in_index (ready (srv_conns s)) _ (subs_at (srv_subs s) topic) i c (wf_arrays _ Hwf)).
    by rewrite index_elems, Hi.
  - apply (wf_reg _ Hwf).
  - apply (swf_retain _ (wf_subs _ Hwf)).
Qed.

Lemma broker_state_consistent_witness :
  let y := Run.final (do_moves any_client Run.two_clients Run.start) in
  exists k, srv_conns (sy_srv y) !! 0 = Some k /\ length (ch_buf (jobs k)) = 2 /\
    length (ch_buf (jobs k)) <= ch_cap (jobs k).
Proof.
  intros y. exists (Run.conn_of y 0).
  assert (srv_conns (sy_srv y) !! 0 = Some (Run.conn_of y 0)) as Hk by (vm_compute; reflexivity).
  split; [exact Hk|]. split; [vm_compute; reflexivity|].
  apply (broker_state_consistent any_client Run.conf 1000 Run.start y) with 0.
  - vm_compute. discriminate.
  - exact Run.start_started.
  - apply Run.final_reached. vm_compute. reflexivity.
  - exact Hk.
Defined.

(** C2: careful clients cannot make the broker dereference a nil pointer.  If no
    client sends anything before its CONNECT, or leaves before it while presence is
    enabled, then the broker goes down only by a channel that is closed twice or
    sent on after it was closed. *)
Theorem careful_clients_no_nil_dereference `{GoRuntime} `{Extern} (pol : policy) (conf : Config)
    (now : Z) (w0 : world) (why : panic)
    (Hcareful : careful pol)
    (Hq : (0 <= ClientOutboundQueueLen (Broker conf))%Z) (Hstart : started conf now w0)
    (Hr : rtc (step pol) w0 (Down why)) :
  why = SendOnClosed \/ why = CloseOfClosed.
Proof.
  destruct (reachable_ok pol conf now w0 _ Hq Hstart Hr) as [?|[?|[_ Hn]]];
    [by left|by right|by destruct Hn].
Qed.

Lemma careful_clients_no_nil_dereference_witness :
  careful polite_client /\ (SendOnClosed = SendOnClosed \/ SendOnClosed = CloseOfClosed).
Proof.
  split; [exact polite_careful|].
  apply (careful_clients_no_nil_dereference polite_client Run.conf 1000 Run.start SendOnClosed polite_careful).
  - vm_compute. discriminate.
  - exact Run.start_started.
  - replace (Down SendOnClosed) with (do_moves polite_client Run.disconnect_race Run.start)
      by (vm_compute; reflexivity).
    apply do_moves_sound.
Defined.

(** C32: empty retained publications use up the workers.  With one polite client and
    two workers, two publications that delete retained messages leave the broker
    without workers, and no later execution, whatever the clients do, has a worker
    again: nothing is delivered any more. *)
Theorem deletions_end_all_workers :
  exists y, rtc (step polite_client) Run.start (Up y) /\
    SubscriptionsWorkers (Broker Run.conf) = 2%Z /\
    forall pol y', rtc (step pol) (Up y) (Up y') -> no_worker (sy_tasks y').
Proof.
  set (w := do_moves polite_client Run.delete_twice Run.start). exists (Run.final w).
  split; [apply Run.final_reached; vm_compute; reflexivity|]. split; [reflexivity|].
  intros pol y' Hr'. apply (reachable_no_worker pol _ _ Hr'). apply no_worker_test.
  vm_compute. reflexivity.
Qed.
