(* ===== verification/Ordering.v ===== *)
(** * The order of deliveries (src/broker/subs.go, [run])

    One worker hands the posts on in the order they were posted. *)

From Stdlib Require Import ZArith Lia.
From stdpp Require Import base gmap list strings numbers sets relations.
From S2P Require Import Prelude GoString GoProc GoSlice Wild Config Proto Store Stats Subs Broker.
From S2P Require Import Session SessionFacts Delivery Client EndToEnd Invariant Sched Executions.

Local Open Scope string_scope.
Local Open Scope list_scope.

Section Ordering.
Context `{GoRuntime} `{Extern}.
Implicit Types (s : Server) (k : incomingConn) (c : conn_ptr) (a : table).

(** [run], for at most [fuel] posts; the result says whether the worker still runs. *)
Fixpoint run (fuel : nat) : proc Server bool :=
  match fuel with
  | 0 => Ret true
  | S fuel' =>
      fl <- run_body;;
      match fl with Continue => run fuel' | Return => Ret false end
  end.

(** The jobs that the publications [vs], at [ps], make for the connection [c]. *)
Fixpoint deliveries c a (ps : list ptr) (vs : list Publish) : list job :=
  match ps, vs with
  | p :: ps', v :: vs' =>
      replicate (count c (table_receivers (TopicName v) a)) (Job (MPublish p) None) ++
      deliveries c a ps' vs'
  | _, _ => []
  end.

(** What is put on the queue of [k]: as much as fits, if the client is alive. *)
Definition taken k (js : list job) : list job :=
  if alive k then take (ch_cap (jobs k) - length (ch_buf (jobs k))) js else [].

Lemma offers_taken p n k : chan_wf (jobs k) ->
  let k' := Nat.iter n (offer (MPublish p)) k in
  alive k' = alive k /\ ch_cap (jobs k') = ch_cap (jobs k) /\ chan_wf (jobs k') /\
  ch_buf (jobs k') = ch_buf (jobs k) ++ taken k (replicate n (Job (MPublish p) None)).
Proof.
  intros Hw k'. destruct (iter_offer (MPublish p) n k Hw) as (Ha & Hc & Hb). fold k' in Ha, Hc, Hb.
  assert (ch_buf (jobs k') = ch_buf (jobs k) ++ taken k (replicate n (Job (MPublish p) None))) as Hb'.
  { rewrite Hb. f_equal. unfold taken. destruct (alive k); [|done]. rewrite take_replicate.
    f_equal. lia. }
  do 2 (split; [done|]). split; [|done]. unfold chan_wf in *. rewrite Hb', Hc, length_app.
  unfold taken. destruct (alive k); simpl; [rewrite length_take|]; lia.
Qed.

(** First the jobs [js], then [js']. *)
Lemma taken_app k k' js js' : alive k' = alive k -> ch_cap (jobs k') = ch_cap (jobs k) ->
  ch_buf (jobs k') = ch_buf (jobs k) ++ taken k js ->
  ch_buf (jobs k') ++ taken k' js' = ch_buf (jobs k) ++ taken k (js ++ js').
Proof.
  intros Ha Hc Hb. rewrite Hb, <- (assoc_L app). f_equal. unfold taken. rewrite Ha, Hc, Hb.
  unfold taken. destruct (alive k); [|done]. rewrite length_app, take_app, length_take. f_equal.
  set (r := ch_cap (jobs k) - length (ch_buf (jobs k))).
  replace (ch_cap (jobs k) - (length (ch_buf (jobs k)) + r `min` length js)) with (r - r `min` length js)
    by (unfold r; lia).
  destruct (decide (r <= length js)).
  - replace (r `min` length js) with r by lia. by replace (r - r) with (r - length js) by lia.
  - by replace (r `min` length js) with (length js) by lia.
Qed.

Lemma offer_all_length m cs ks : length (offer_all m cs ks) = length ks.
Proof. revert ks. induction cs as [|c cs IH]; intros ks; simpl; [done|]. by rewrite IH, length_alter. Qed.

Lemma offer_all_open m cs ks :
  Forall open_if_alive ks -> Forall open_if_alive (offer_all m cs ks).
Proof.
  revert ks. induction cs as [|c cs IH]; intros ks Hks; simpl; [done|].
  apply IH, Forall_alter; [done|]. intros k _. apply offer_open.
Qed.

(** The publication at [p] is [v], it is not an empty retained one, and its receivers
    are connections. *)
Definition postable a s (p : ptr) (v : Publish) : Prop :=
  srv_heap s !! p = Some v /\ deletes_retained v = false /\
  Forall (fun c => c < length (srv_conns s)) (table_receivers (TopicName v) a).

(** One turn: the broker can deliver again, every queue has taken its copies, and
    the other publications are as they were. *)
Lemma exec_run_turn p rest v a s :
  delivering a s -> ch_buf (posts (srv_subs s)) = p :: rest -> postable a s p v ->
  exists s', exec run_body s = Returned s' Continue /\ delivering a s' /\
    ch_buf (posts (srv_subs s')) = rest /\
    srv_conns s' = offer_all (MPublish p) (table_receivers (TopicName v) a) (srv_conns s) /\
    length (srv_conns s') = length (srv_conns s) /\
    srv_heap s' = alter (set_Retain false) p (srv_heap s).
Proof.
  intros [Hd Hm Hop Hwf Href] Hp (Hv & Hdel & Hval). rewrite (exec_run_body p rest s Hp).
  rewrite (exec_run_post p v _ a); [|done..| | |done];
    [|by apply subs_wf_posts|by apply refines_posts].
  eexists. split; [reflexivity|]. cbn [set_subs set_conns srv_conns set_heap srv_heap srv_subs].
  set (t := set_posts _ (srv_subs s)).
  destruct (subscribers_spec (TopicName v) t a) as (Hwf' & Href' & _);
    [by apply subs_wf_posts|by apply refines_posts|].
  split; [|split; [by case_goal|split; [done|split; [apply offer_all_length|done]]]].
  split; [done|by cbn; case_goal|by apply offer_all_open|cbn [set_subs srv_subs]..].
  - case_goal; auto using subs_wf_set_retain.
  - case_goal; auto using refines_set_retain.
Qed.

Lemma postable_later p a s s' ps vs :
  p ∉ ps -> Forall2 (postable a s) ps vs -> srv_heap s' = alter (set_Retain false) p (srv_heap s) ->
  length (srv_conns s') = length (srv_conns s) -> Forall2 (postable a s') ps vs.
Proof.
  intros Hp Hps Hh Hl. revert Hp. induction Hps as [|q w ps vs (Hv & Hd & Hr) _ IH]; [by constructor|].
  intros [Hne Hp]%not_elem_of_cons. constructor; [|by apply IH].
  split; [by rewrite Hh, list_lookup_alter_ne|]. by rewrite Hl.
Qed.

Lemma exec_run_posts ps vs rest a s :
  delivering a s -> ch_buf (posts (srv_subs s)) = ps ++ rest -> NoDup ps ->
  Forall2 (postable a s) ps vs ->
  exists s', exec (run (length ps)) s = Returned s' true /\ delivering a s' /\
    ch_buf (posts (srv_subs s')) = rest /\
    forall c k, srv_conns s !! c = Some k -> chan_wf (jobs k) ->
    exists k', srv_conns s' !! c = Some k' /\ chan_wf (jobs k') /\ alive k' = alive k /\
      ch_buf (jobs k') = ch_buf (jobs k) ++ taken k (deliveries c a ps vs).
Proof.
  intros Hd Hb Hnd Hps. revert s Hd Hb Hps. revert vs.
  induction Hnd as [|p ps Hp Hnd IH]; intros vs s Hd Hb Hps.
  - exists s. do 3 (split; [done|]). intros c k Hk Hw. exists k. do 3 (split; [done|]).
    unfold taken. simpl. destruct (alive k); by rewrite ?take_nil, app_nil_r.
  - apply Forall2_cons_inv_l in Hps as (v & vs' & Hv & Hps & ->).
    destruct (exec_run_turn p (ps ++ rest) v a s Hd Hb Hv) as (s1 & He & Hd1 & Hb1 & Hc1 & Hl1 & Hh1).
    destruct (IH vs' s1 Hd1 Hb1) as (s' & He' & Hd' & Hb' & Hks); [by eapply postable_later|].
    exists s'. split; [cbn [run length]; by rewrite exec_bind, He|]. do 2 (split; [done|]).
    intros c k Hk Hw. set (n := count c (table_receivers (TopicName v) a)).
    destruct (offers_taken p n k Hw) as (Ha1 & Hcap1 & Hw1 & Hbuf1).
    destruct (Hks c (Nat.iter n (offer (MPublish p)) k)) as (k' & Hk' & Hw' & Ha' & Hbuf); [|done|].
    { by rewrite Hc1, offer_all_lookup, Hk. }
    exists k'. do 2 (split; [done|]). split; [congruence|]. rewrite Hbuf. simpl. by apply taken_app.
Qed.
End Ordering.

#[local] Existing Instance doubling_runtime.
#[local] Existing Instance bytes_mqttmsg.
#[local] Existing Instance plain_extern.

(** ** Properties *)

(** C9: a worker keeps the order.  When the posts begin with [ps], whose publications
    are [vs], [length ps] turns of one worker take exactly these posts, the worker
    still runs, and the queue of every connection is extended by the copies that its
    subscriptions ask for, in the order of [ps]; copies that do not fit are dropped
    from the end, and the queue of a dead connection stays as it is. *)
Theorem one_worker_keeps_order `{GoRuntime} `{Extern} (ps : list ptr) (vs : list Publish)
    (rest : list ptr) (a : table) (s : Server)
    (Hd : delivering a s) (Hb : ch_buf (posts (srv_subs s)) = ps ++ rest) (Hnd : NoDup ps)
    (Hps : Forall2 (postable a s) ps vs) :
  exists s', exec (run (length ps)) s = Returned s' true /\
    ch_buf (posts (srv_subs s')) = rest /\
    forall c k, srv_conns s !! c = Some k -> length (ch_buf (jobs k)) <= ch_cap (jobs k) ->
    exists k', srv_conns s' !! c = Some k' /\
      ch_buf (jobs k') = ch_buf (jobs k) ++
        (if alive k
         then take (ch_cap (jobs k) - length (ch_buf (jobs k))) (deliveries c a ps vs) else []).
Proof.
  destruct (exec_run_posts ps vs rest a s Hd Hb Hnd Hps) as (s' & He & _ & Hb' & Hks).
  exists s'. do 2 (split; [done|]). intros c k Hk Hw.
  destruct (Hks c k Hk Hw) as (k' & Hk' & _ & _ & Hbuf). by exists k'.
Qed.

Module DemoOrdering.
(** Two posts for a client that gets two copies of each. *)
Definition two_posts : Server :=
  let s := Demo2.subscribed in
  set_subs (set_posts (Chan [0; 1] 3 false) (srv_subs s))
    (set_heap [Demo.publish_msg "t/x" QosAtMostOnce false 0 "x";
               Demo.publish_msg "t/x" QosAtMostOnce false 0 "y"] s).
End DemoOrdering.

Lemma one_worker_keeps_order_witness :
  let s := DemoOrdering.two_posts in
  exists s' k', exec (run 2) s = Returned s' true /\ srv_conns s' !! 0 = Some k' /\
    ch_buf (jobs k') = [Job (MConnAck RetCodeAccepted) None; Job (MPublish 0) None;
                        Job (MPublish 0) None; Job (MPublish 1) None].
Proof.
  intros s. destruct (one_worker_keeps_order [0; 1] (srv_heap s) [] Demo2.subscribed_table s)
    as (s' & He & _ & Hks).
  - destruct Demo2.subscribed_wf as [Hwf Href].
    split; [done|done|by repeat constructor|by apply subs_wf_posts|by apply refines_posts].
  - reflexivity.
  - apply (bool_decide_unpack _). vm_compute. exact I.
  - repeat constructor.
  - destruct (Hks 0 _ eq_refl) as (k' & Hk' & Hb); [vm_compute; lia|].
    exists s', k'. split; [exact He|]. split; [exact Hk'|exact Hb].
Defined.
