(* ===== verification/Protocol.v ===== *)
(** * What the clients and peers of a broker can see

    Invariants of every execution, by the frame theorem: the kinds of messages on
    the wires, and that a broker has no peers. *)

From Stdlib Require Import ZArith Lia.
From stdpp Require Import base gmap list strings numbers sets relations.
From S2P Require Import Prelude GoString GoProc GoSlice Wild Config Proto Store Stats Subs Broker.
From S2P Require Import Session SessionFacts Delivery Peers Invariant Sched Frame Executions.

Local Open Scope string_scope.
Local Open Scope list_scope.

(** ** The messages of a server *)

(** A message that an MQTT server may send; a SUBACK of this broker grants QoS 0. *)
Definition from_server {P} (m : Message P) : Prop :=
  match m with
  | MConnAck _ | MPublish _ | MPubAck _ _ | MUnsubAck _ | MPingResp | MDisconnect => True
  | MSubAck _ qs => Forall (fun q => q = QosAtMostOnce) qs
  | _ => False
  end.

Section Protocol.
Context `{GoRuntime} `{Extern}.
Implicit Types (s : Server) (k : incomingConn) (c : conn_ptr).

Lemma from_server_view h (m : Message ptr) (v : Message Publish) :
  view h m = Some v -> from_server m -> from_server v.
Proof.
  destruct m; simpl; try (by intros [= <-]). intros Hv _.
  destruct (h !! p); simplify_eq/=. done.
Qed.

Definition conn_typed k : Prop :=
  Forall (fun j => from_server (job_m j)) (ch_buf (jobs k)) /\ Forall from_server (wire k).

Definition typed s : Prop := Forall conn_typed (srv_conns s).

Lemma typed_conn s c k : typed s -> srv_conns s !! c = Some k -> conn_typed k.
Proof. intros Hs Hk. exact (Forall_lookup_1 _ _ _ _ Hs Hk). Qed.

Lemma typed_put s c k : typed s -> conn_typed k -> typed (put_conn c k s).
Proof. intros Hs Hk. by apply Forall_insert. Qed.

Lemma typed_framed : framed typed (fun _ => True) from_server True.
Proof.
  split; try done.
  - intros s c k k' Hs Hk Hj Hw _. apply typed_put; [done|]. unfold conn_typed. rewrite Hj, Hw.
    by eapply typed_conn.
  - intros s c k j Hs Hk _ _ Hm. destruct (typed_conn _ _ _ Hs Hk) as [Hj Hw].
    apply typed_put; [done|]. split; [|done]. simpl. apply Forall_app. by split; [|constructor].
  - intros s c k q j _ Hs Hk Hr. destruct (typed_conn _ _ _ Hs Hk) as [Hj Hw].
    unfold ch_recv in Hr. destruct (ch_buf (jobs k)) as [|x b] eqn:Hb; [by case_match|].
    simplify_eq. apply Forall_cons in Hj as [Hx Hj]. split; [|done]. apply typed_put; [done|]. by split.
  - intros s c k q _ Hs Hk Hr. destruct (typed_conn _ _ _ Hs Hk) as [Hj Hw].
    unfold ch_recv in Hr. destruct (ch_buf (jobs k)) as [|x b] eqn:Hb; [|done].
    destruct (ch_closed (jobs k)); simplify_eq. apply typed_put; [done|]. split; [simpl|done].
    by rewrite Hb.
  - intros s c k q _ Hs Hk Hr. destruct (typed_conn _ _ _ Hs Hk) as [Hj Hw].
    unfold ch_close in Hr. destruct (ch_closed (jobs k)); simplify_eq. apply typed_put; [done|]. by split.
  - intros s c k _ Hs Hk. apply typed_put; [done|]. exact (typed_conn _ _ _ Hs Hk).
  - intros s c k m h v _ Hs Hk Hm Hv. destruct (typed_conn _ _ _ Hs Hk) as [Hj Hw].
    apply typed_put; [done|]. split; [done|]. simpl. apply Forall_app. split; [done|].
    constructor; [|done]. by eapply from_server_view.
  - intros s s' c Hs Ha. unfold accept_conn in Ha. case_match; simplify_eq. split; [|done].
    apply Forall_app. split; [done|]. constructor; [by split|done].
Qed.

(** ** The peers *)

(** The code never calls [join]: the set of endpoints stays empty. *)
Definition no_peers s : Prop := srv_nodes s = ∅.

Lemma no_peers_framed : framed no_peers (fun _ => True) (fun _ => True) True.
Proof.
  split; try done.
  - unfold no_peers. intros s host e e' Hs He. rewrite Hs in He. by rewrite lookup_empty in He.
  - intros s s' c Hs Ha. unfold accept_conn in Ha. by case_match; simplify_eq.
Qed.
End Protocol.

(** ** Properties *)

#[local] Existing Instance doubling_runtime.
#[local] Existing Instance bytes_mqttmsg.
#[local] Existing Instance plain_extern.

Module DemoProtocol.
(** One client, subscribed; its CONNACK and SUBACK are sent. *)
Definition one_client : list (nat * move) :=
  Run.two_clients ++ [(1, GoSelect 4 PickSent); (Run.all, GoRun 4);
                      (1, GoSelect 4 PickSent); (Run.all, GoRun 4)].
End DemoProtocol.

(** The messages on the wires are those of a server.  In every execution,
    whatever the clients and peers send, the broker writes to a client only CONNACK,
    PUBLISH, PUBACK, SUBACK, UNSUBACK, PINGRESP and DISCONNECT, and only such
    messages wait in its queue; every SUBACK grants QoS 0 only. *)
Theorem wires_carry_server_messages `{GoRuntime} `{Extern} (pol : policy) (conf : Config) (now : Z)
    (w0 : world) (y : sys) (c : conn_ptr) (k : incomingConn)
    (Hstart : started conf now w0) (Hr : rtc (step pol) w0 (Up y))
    (Hk : srv_conns (sy_srv y) !! c = Some k) :
  Forall from_server (wire k) /\ Forall (fun j => from_server (job_m j)) (ch_buf (jobs k)).
Proof.
  assert (typed (sy_srv y)) as Hy.
  { eapply framed_started; [apply typed_framed| |exact Hstart|exact Hr].
    intros s Hs. unfold NewServer in Hs. case_match; simplify_eq. constructor. }
  destruct (typed_conn _ _ _ Hy Hk). done.
Qed.

Lemma wires_carry_server_messages_witness :
  let y := Run.final (do_moves any_client DemoProtocol.one_client Run.start) in
  wire (Run.conn_of y 0) = [MConnAck RetCodeAccepted; MSubAck 1 [QosAtMostOnce]] /\
  Forall from_server (wire (Run.conn_of y 0)).
Proof.
  intros y. split; [vm_compute; reflexivity|].
  apply (wires_carry_server_messages any_client Run.conf 1000 Run.start y 0).
  - exact Run.start_started.
  - apply Run.final_reached. vm_compute. reflexivity.
  - vm_compute. reflexivity.
Defined.
