(* ===== verification/Isolation.v ===== *)
(** * Arrays that serve a topic

    The subscription table shares arrays with the workers, which read them outside the
    mutex.  Whoever is in an array of a topic may receive its publications, an array
    never changes its topic, and the operations of the table keep this. *)

From Stdlib Require Import ZArith Lia.
From stdpp Require Import base gmap list strings numbers sets.
From S2P Require Import Prelude GoString GoProc GoSlice Wild Config Proto Store Stats Subs Broker.
From S2P Require Import Session Invariant.

Local Open Scope string_scope.
Local Open Scope list_scope.

(** ** Arrays that serve a topic *)

Section Serves.
Context `{GoRuntime}.
(** [E c t]: the connection [c] may receive publications of the topic [t]. *)
Context (E : conn_ptr -> string -> Prop).
Implicit Types (h : list (list (option conn_ptr))) (sl : slice) (t : string).

(** Whoever is in the array, also beyond the length of a slice, may receive [t]. *)
Definition serves h (a : nat) t : Prop := Forall (entry_in (fun c => E c t)) (array_at h a).

Lemma serves_index h sl t i c : serves h (sl_arr sl) t -> index h sl i = Some c -> E c t.
Proof.
  intros Hs. unfold index. destruct (_ <? _)%nat; [|done].
  destruct (array_at h (sl_arr sl) !! i) as [x|] eqn:Ex; simpl; [|done]. intros ->.
  exact (Forall_lookup_1 _ _ _ _ Hs Ex).
Qed.

Lemma serves_set h a arr b t :
  serves h b t -> (a = b -> Forall (entry_in (fun c => E c t)) arr) -> serves (set_array h a arr) b t.
Proof.
  intros Hb Ha. unfold serves, array_at, set_array in *.
  destruct (decide (a = b)) as [->|Hne]; [|by rewrite list_lookup_insert_ne].
  destruct (decide (b < length h)).
  - rewrite list_lookup_insert_eq by done. by apply Ha.
  - by rewrite list_insert_ge by lia.
Qed.

Lemma serves_sweep test h sl a t : serves h a t -> serves (sweep test h sl) a t.
Proof.
  intros Hs. unfold sweep. apply serves_set; [done|]. intros ->. apply Forall_app.
  split; [|by apply Forall_drop]. apply Forall_fmap. eapply Forall_impl; [by apply Forall_take|].
  intros [c|]; simpl; by case_goal.
Qed.

(** [append] leaves an array alone, or writes an entry that may receive its topic. *)
Lemma serves_append h sl x a t :
  a < length h -> serves h a t ->
  (a = sl_arr sl -> sl_cap sl <> 0 -> entry_in (fun c => E c t) x) ->
  serves (append h sl x).1 a t.
Proof.
  intros Ha Hs Hx. unfold append. destruct (_ <? _)%nat eqn:El; breflect; cbn [fst].
  - apply serves_set; [done|]. intros <-. apply Forall_insert; [done|]. apply Hx; [done|lia].
  - unfold serves, array_at in *. by rewrite lookup_app_l.
Qed.

Lemma serves_append_new h sl x t :
  slice_wf h sl -> (sl_cap sl <> 0 -> serves h (sl_arr sl) t) -> entry_in (fun c => E c t) x ->
  serves (append h sl x).1 (sl_arr (append h sl x).2) t.
Proof.
  intros [Hle _] Hs Hx. unfold append. destruct (_ <? _)%nat eqn:El; breflect; cbn [fst snd sl_arr].
  - assert (serves h (sl_arr sl) t) as Hs' by (apply Hs; lia).
    apply serves_set; [done|]. intros _. by apply Forall_insert.
  - unfold serves, array_at. rewrite last_snoc_lookup. simpl. apply Forall_app. split.
    + destruct (decide (sl_cap sl = 0)) as [E0|E0]; [|by apply Forall_take, Hs].
      unfold elems. replace (sl_len sl) with 0 by lia. constructor.
    + constructor; [done|]. by apply Forall_replicate.
Qed.

(** The array of the result of [append]: that of the slice, or a new one. *)
Lemma append_fresh h sl x :
  (sl_arr (append h sl x).2 = sl_arr sl /\ sl_cap sl <> 0) \/ sl_arr (append h sl x).2 = length h.
Proof. unfold append. destruct (_ <? _)%nat eqn:El; breflect; simpl; [left; lia|by right]. Qed.

Lemma append_cap h sl x : sl_cap (append h sl x).2 <> 0.
Proof.
  unfold append. destruct (_ <? _)%nat eqn:El; breflect; simpl; [lia|].
  pose proof (grow_cap_enough (sl_cap sl) (S (sl_len sl))). lia.
Qed.

Lemma append_length h sl x : length h <= length (append h sl x).1.
Proof. destruct (append h sl x) as [h' sl'] eqn:Ea. by eapply append_heap. Qed.

(** The wildcard loop of [subscribers] for the topic [t]. *)
Lemma serves_matching parts ws h res t :
  slice_wf h res -> (sl_cap res <> 0 -> sl_arr res < length h /\ serves h (sl_arr res) t) ->
  Forall (fun w => matches w parts = true -> E (wild_c w) t) ws ->
  let r := add_matching parts ws h res in
  length h <= length r.1 /\
  (sl_cap r.2 <> 0 -> sl_arr r.2 < length r.1 /\ serves r.1 (sl_arr r.2) t /\
     ((sl_arr r.2 = sl_arr res /\ sl_cap res <> 0) \/ length h <= sl_arr r.2)) /\
  forall a u, a < length h -> serves h a u -> (a = sl_arr res -> sl_cap res <> 0 -> u = t) ->
    serves r.1 a u.
Proof.
  intros Hwf Hres Hws. revert h res Hwf Hres.
  induction Hws as [|w ws Hw _ IH]; intros h res Hwf Hres; cbn zeta.
  { simpl. split; [done|]. split; [|done]. intros Hc. destruct (Hres Hc). auto. }
  unfold add_matching. cbn [foldl fst snd]. destruct (matches w parts) eqn:Em; [|by apply IH].
  specialize (Hw eq_refl).
  pose proof (append_fresh h res (Some (wild_c w))) as Hfr.
  pose proof (append_length h res (Some (wild_c w))) as Hlen.
  assert (serves (append h res (Some (wild_c w))).1 (sl_arr (append h res (Some (wild_c w))).2) t) as Hnew.
  { apply serves_append_new; [done| |done]. intros Hc. by apply Hres. }
  assert (forall a u, a < length h -> serves h a u -> (a = sl_arr res -> sl_cap res <> 0 -> u = t) ->
    serves (append h res (Some (wild_c w))).1 a u) as Hold.
  { intros a u Ha Hu Hut. apply serves_append; [done..|]. intros He Hc. by rewrite (Hut He Hc). }
  destruct (append h res (Some (wild_c w))) as [h1 res1] eqn:Ea. cbn [fst snd] in *.
  assert (slice_wf h1 res1) as Hwf1 by (by eapply append_wf).
  assert (sl_cap res1 <> 0) as Hc1.
  { replace res1 with (append h res (Some (wild_c w))).2 by (by rewrite Ea). apply append_cap. }
  destruct (IH h1 res1) as (Hl & Hr & Ho); [done| |].
  { intros _. split; [|done]. by apply slice_wf_arr; [|lia]. }
  split; [etrans; [exact Hlen|exact Hl]|]. split.
  - intros Hc. destruct (Hr Hc) as (Ha & Hs & [[He _]|Hge]); (split; [done|]; split; [done|]);
      [|right; etrans; [exact Hlen|exact Hge]].
    destruct Hfr as [[Hf Hc0]|Hf]; [left; by rewrite <- Hf|right; by rewrite <- Hf, <- He].
  - intros a u Ha Hu Hut. apply Ho; [lia|by apply Hold|]. intros -> _.
    destruct Hfr as [[He Hc]|He]; [by apply Hut|lia].
Qed.
End Serves.

(** ** The subscription table *)

Section Table.
Context `{GoRuntime} `{Mqttmsg} (E : conn_ptr -> string -> Prop).
Implicit Types (tb : subscriptions) (t : string) (c : conn_ptr).

(** The array [a] serves [t] and is the array of no other topic. *)
Record owned tb (a : nat) t : Prop := {
  ow_valid : a < length (arrays tb);
  ow_serves : serves E (arrays tb) a t;
  ow_alone u sl : subs tb !! u = Some sl -> sl_arr sl = a -> u = t
}.

(** The invariant of the table, and what an operation leaves as it was. *)
Record table_sealed tb : Prop := {
  ts_wf : subs_wf tb;
  ts_slots t sl : subs tb !! t = Some sl -> serves E (arrays tb) (sl_arr sl) t;
  ts_wild : Forall (fun w => forall t, matches w (Split t SLASH) = true -> E (wild_c w) t) (wildcards tb)
}.

Definition table_extends tb tb' : Prop := forall a t, owned tb a t -> owned tb' a t.
Definition table_kept tb tb' : Prop := table_sealed tb' /\ table_extends tb tb'.

#[export] Instance table_extends_preorder : PreOrder table_extends.
Proof. split; [by intros tb a t|]. intros x y z Hxy Hyz a t Ha. by apply Hyz, Hxy. Qed.

Lemma slot_owned tb t sl : table_sealed tb -> subs tb !! t = Some sl -> owned tb (sl_arr sl) t.
Proof.
  intros Hs Hsl. pose proof (ts_wf _ Hs) as Hwf. destruct (swf_slice _ Hwf _ _ Hsl) as [Hw Hc]. split.
  - by apply slice_wf_arr.
  - by apply ts_slots.
  - intros u sl' Hu He. destruct (decide (u = t)) as [|Hne]; [done|].
    by destruct (swf_disjoint _ Hwf _ _ _ _ Hu Hsl Hne).
Qed.

(** The slice of a topic: nil, or over an array of the topic. *)
Lemma subs_at_owned tb t : table_sealed tb -> sl_cap (subs_at tb t) <> 0 -> owned tb (sl_arr (subs_at tb t)) t.
Proof.
  intros Hs. unfold subs_at. destruct (subs tb !! t) as [sl|] eqn:Hsl; [|done].
  intros _. by apply slot_owned.
Qed.

Lemma subs_at_arr tb t u sl :
  table_sealed tb -> sl_cap (subs_at tb t) <> 0 -> subs tb !! u = Some sl ->
  sl_arr sl = sl_arr (subs_at tb t) -> u = t.
Proof. intros Hs Hc. by apply (ow_alone _ _ _ (subs_at_owned _ _ Hs Hc)). Qed.

(** The table with other queues or retained messages. *)
Lemma table_kept_same tb tb' :
  table_sealed tb -> subs_wf tb' -> subs tb' = subs tb -> wildcards tb' = wildcards tb ->
  arrays tb' = arrays tb -> table_kept tb tb'.
Proof.
  intros [Hwf Hsl Hw] Hwf' Es Ew Ea. split.
  - split; [done| |by rewrite Ew]. intros t sl. rewrite Es, Ea. apply Hsl.
  - intros a t [Hv Hs Hal]. split; [by rewrite Ea..|]. rewrite Es. apply Hal.
Qed.

(** The arrays swept: entries only become nil. *)
Lemma table_kept_swept tb tb' :
  table_sealed tb -> subs_wf tb' -> subs tb' ⊆ subs tb ->
  wildcards tb' ⊆ wildcards tb -> length (arrays tb') = length (arrays tb) ->
  (forall a t, serves E (arrays tb) a t -> serves E (arrays tb') a t) -> table_kept tb tb'.
Proof.
  intros [Hwf Hsl Hw] Hwf' Es Ew El Ha. split.
  - split; [done| |].
    + intros t sl Ht. apply Ha, Hsl. by eapply lookup_weaken.
    + apply Forall_forall. intros w Hin. rewrite Forall_forall in Hw. by apply Hw, Ew.
  - intros a t [Hv Hs Hal]. split; [by rewrite El|by apply Ha|].
    intros u sl Hu. apply Hal. by eapply lookup_weaken.
Qed.

Lemma kept_table_unsub topic c tb : table_sealed tb -> table_kept tb (unsub topic c tb).
Proof.
  intros Hs. pose proof (unsub_wf topic c tb (ts_wf _ Hs)) as Hwf. unfold unsub in *.
  destruct (subs tb !! topic) as [sl|]; [|done]. apply table_kept_swept; try done.
  - simpl. case_match; [apply delete_subseteq|done].
  - apply sweep_heap.
  - intros a t. apply serves_sweep.
Qed.

Lemma kept_table_unsubAll c tb : table_sealed tb -> table_kept tb (unsubAll c tb).
Proof.
  intros Hs. pose proof (unsubAll_wf c tb (ts_wf _ Hs)) as Hwf. apply table_kept_swept; try done.
  - simpl. intros w Hin. by apply list_elem_of_filter in Hin as [_ ?].
  - simpl. generalize (range_order (map_to_list (subs tb))). intros l. generalize (arrays tb).
    induction l as [|kv l IH]; intros h; simpl; [done|]. by rewrite IH, sweep_heap.
  - intros a t. simpl. generalize (range_order (map_to_list (subs tb))). intros l.
    generalize (arrays tb). induction l as [|kv l IH]; intros h Hh; simpl; [done|].
    by apply IH, serves_sweep.
Qed.

(** [add], when the connection may receive what the filter stands for. *)
Lemma kept_table_add topic c tb :
  (valid (newWild topic c) = true -> forall t, matches (newWild topic c) (Split t SLASH) = true -> E c t) ->
  (isWildcard topic = false -> E c topic) ->
  table_sealed tb -> table_kept tb (add topic c tb).
Proof.
  intros Hwild Hlit Hs. pose proof (add_wf topic c tb (ts_wf _ Hs)) as Hwf. unfold add in *.
  destruct (isWildcard topic).
  { destruct (valid (newWild topic c)) eqn:Hv; [|done]. specialize (Hwild eq_refl). destruct Hs as [Hwf0 Hsl Hw]. split; [|by intros a t []].
    split; [done..|]. simpl. apply Forall_app. split; [done|]. by constructor. }
  specialize (Hlit eq_refl). set (sl := subs_at tb topic) in *. set (r := append (arrays tb) sl (Some c)) in *.
  assert (forall u sl', subs tb !! u = Some sl' -> sl_arr sl' < length (arrays tb)) as Hin.
  { intros u sl' Hu. apply (slot_owned _ _ _ Hs Hu). }
  assert (forall a t, a < length (arrays tb) -> serves E (arrays tb) a t ->
    (a = sl_arr sl -> sl_cap sl <> 0 -> topic = t) -> serves E r.1 a t) as Hold.
  { intros a t Ha Hat He. apply serves_append; [done..|]. intros H1 H2. simpl. by rewrite <- (He H1 H2). }
  split; [split; [done| |apply Hs]|].
  - simpl. intros t sl' Ht. apply lookup_insert_Some in Ht as [[<- <-]|[Hne Ht]].
    + apply serves_append_new; [apply subs_at_wf, Hs| |done]. intros Hc. by apply subs_at_owned.
    + apply Hold; [by eapply Hin|by apply ts_slots|]. intros He Hc. symmetry.
      by eapply (subs_at_arr tb topic t).
  - intros a t [Hv Ht Hal]. split; simpl.
    + pose proof (append_length (arrays tb) sl (Some c)). unfold r. lia.
    + apply Hold; [done..|]. intros -> Hc. unfold sl, subs_at in *.
      destruct (subs tb !! topic) as [sl'|] eqn:E1; [|done]. by eapply Hal.
    + intros u sl' Hu He. apply lookup_insert_Some in Hu as [[<- <-]|[Hne Hu]]; [|by eapply Hal].
      destruct (append_fresh (arrays tb) sl (Some c)) as [[Hf Hc]|Hf]; fold r in Hf; [|lia].
      unfold sl, subs_at in *. destruct (subs tb !! topic) as [sl'|] eqn:E1; [|done].
      eapply Hal; [exact E1|]. simpl in Hf. congruence.
Qed.

(** [subscribers]: the slice it returns is over an array of the topic. *)
Lemma kept_table_subscribers topic tb :
  table_sealed tb ->
  table_kept tb (subscribers topic tb).1 /\
  (sl_len (subscribers topic tb).2 <> 0 ->
   owned (subscribers topic tb).1 (sl_arr (subscribers topic tb).2) topic).
Proof.
  intros Hs. pose proof (ts_wf _ Hs) as Hwf.
  destruct (subscribers_spec topic _ _ Hwf (refines_self _)) as (Hwf' & _ & [Hcap _] & _).
  destruct (serves_matching E (Split topic SLASH) (wildcards tb) (arrays tb) (subs_at tb topic) topic)
    as (Hlen & Hres & Hold).
  { by apply subs_at_wf. }
  { intros Hc. by destruct (subs_at_owned tb topic Hs Hc). }
  { eapply Forall_impl; [apply (ts_wild _ Hs)|]. intros w Hw. apply Hw. }
  unfold subscribers in *. cbn [fst snd] in *.
  set (r := add_matching _ _ _ _) in *.
  assert (forall u sl, subs tb !! u = Some sl -> sl_arr sl < length (arrays tb)) as Hin.
  { intros u sl Hu. apply (slot_owned _ _ _ Hs Hu). }
  split; [split|].
  - split; [done| |apply Hs]. simpl. intros t sl Ht. apply Hold; [by eapply Hin|by apply ts_slots|].
    intros He Hc. by eapply subs_at_arr.
  - intros a t [Hv Ht Hal]. split; simpl; [lia| |done]. apply Hold; [done..|]. intros -> Hc.
    unfold subs_at in *. destruct (subs tb !! topic) as [sl|] eqn:E1; [|done]. symmetry. by eapply Hal.
  - intros Hc. destruct Hres as (Ha & Hsv & Hw); [lia|]. split; [done..|]. simpl. intros u sl Hu He.
    destruct Hw as [[Hw Hc']|Hw]; [eapply subs_at_arr; [done..|congruence]|].
    pose proof (Hin u sl Hu). lia.
Qed.
End Table.
