(* ===== verification/Warrant.v ===== *)
(** * What the broker may send

    Every message that the broker queues for a client, keeps in a store or writes to
    a wire has a reason among the messages that came in: an answer to a request of
    the client, or a publication that somebody published and that the client is
    entitled to.  This file has the invariant of the shared state, for any notion of
    entitlement ([grants]), and shows that every goroutine keeps it whatever the
    others do. *)

From Stdlib Require Import ZArith Lia.
From stdpp Require Import base gmap list strings numbers sets relations.
From S2P Require Import Prelude GoString GoProc GoSlice Wild Config Proto Store Stats Subs Broker.
From S2P Require Import Session SessionFacts Delivery Peers Invariant Sched Isolation.

Local Open Scope string_scope.
Local Open Scope list_scope.

(** ** Copies of a publication *)

Section Copies.
Context `{Mqttmsg}.
Implicit Types u v : Publish.

(** The same publication up to its retain flag, which the broker changes. *)
Definition copy_of u v : Prop := set_Retain false u = set_Retain false v.

#[export] Instance copy_of_equivalence : Equivalence copy_of.
Proof. split; unfold copy_of; [by intros u|by intros u v|]. intros u v w. congruence. Qed.

Lemma copy_set_Retain r v : copy_of v (set_Retain r v).
Proof. done. Qed.

Lemma copy_TopicName u v : copy_of u v -> TopicName v = TopicName u.
Proof. destruct u, v. unfold copy_of, set_Retain. simpl. congruence. Qed.

Lemma copy_MessageId u v : copy_of u v -> MessageId v = MessageId u.
Proof. destruct u, v. unfold copy_of, set_Retain. simpl. congruence. Qed.

Lemma copy_Qos u v : copy_of u v -> Qos (PubHeader v) = Qos (PubHeader u).
Proof. destruct u as [[]], v as [[]]. unfold copy_of, set_Retain. simpl. congruence. Qed.
End Copies.

(** ** What comes in *)

Section Events.
Context `{Mqttmsg}.

Inductive event :=
| FromClient (c : conn_ptr) (v : Message Publish)
| FromPeer (v : Message Publish).
End Events.

(** The message that an idle goroutine takes from the network. *)
Definition hears `{GoRuntime} `{Extern} (t : task) (v : option (Message Publish)) : list event :=
  match t, v with
  | InIdle c, Some v => [FromClient c v]
  | PeerIdle, Some v => [FromPeer v]
  | _, _ => []
  end.

(** ** The shared state *)

Section Warrant.
Context `{GoRuntime} `{Extern}.
(** The configuration, what each connection has sent, and what the peers have sent. *)
Context (b : BrokerConfig).
Context (heard : conn_ptr -> Message Publish -> Prop) (replayed : Message Publish -> Prop).
(** The places of the CONNECTs among all that was sent: the [i]-th is one of [c]. *)
Context (calls : nat -> conn_ptr -> Connect -> Prop).
Implicit Types (s : Server) (k : incomingConn) (c : conn_ptr) (u v : Publish).

Record numbered : Prop := {
  nb_heard i c m : calls i c m -> heard c (MConnect m);
  nb_place c m : heard c (MConnect m) -> exists i, calls i c m;
  nb_conn i c d m m' : calls i c m -> calls i d m' -> c = d
}.
Context (N : numbered).

(** Some client or peer sent the publication. *)
Definition origin v : Prop :=
  exists u, ((exists c, heard c (MPublish u)) \/ replayed (MPublish u)) /\ copy_of u v.

Definition asked c (f : string) : Prop :=
  exists mid ts q, heard c (MSubscribe mid ts) /\ (f, q) ∈ ts.

(** The topic belongs to a filter that the client asks for. *)
Definition entitled c (t : string) : Prop :=
  exists f, asked c f /\ filter_denotes (Split f SLASH) (Split t SLASH).

(** The connection has asked for the session of the client id. *)
Definition uses c (id : string) : Prop := exists m, heard c (MConnect m) /\ ClientId m = id.

(** The code that a CONNECT deserves, with some number of clients. *)
Definition connect_code (m : Connect) (rc : ReturnCode) : Prop :=
  exists n, rc = connect_rc_limit b n (connect_rc_auth b m (connect_rc_syntax m)).

(** Two CONNECTs ask for one client id, and the first of them is the connection's. *)
Definition displaced c : Prop :=
  exists i j d r r', i <> j /\ calls i c r /\ calls j d r' /\ ClientId r' = ClientId r.

(** The connection asked to be watched with this keep-alive period. *)
Definition timed c (ka : Z) : Prop :=
  exists r, heard c (MConnect r) /\ KeepAliveTimer r = ka /\ (0 < ka)%Z.

(** A message for [c]: an answer to a request, a publication of [pub], or the notice
    of a client that is kicked out, by another session or by its heartbeat. *)
Definition answers {P} (pub : P -> Prop) c (m : Message P) : Prop :=
  match m with
  | MConnAck rc => exists r, heard c (MConnect r) /\ connect_code r rc
  | MPublish p => pub p
  | MPubAck q mid => q = QosAtMostOnce /\
      exists u, heard c (MPublish u) /\ Qos (PubHeader u) = QosAtLeastOnce /\ MessageId u = mid
  | MSubAck mid qs => exists ts, heard c (MSubscribe mid ts) /\ qs = replicate (length ts) QosAtMostOnce
  | MUnsubAck mid => exists ts, heard c (MUnsubscribe mid ts)
  | MPingResp => heard c MPingReq
  | MDisconnect => displaced c \/ exists ka, timed c ka
  | _ => False
  end.

(** Which publications a connection may be sent, and which may be kept for a client
    id: what a connection asked for may be sent to it, what may be sent to it and its
    own QoS 1 publications may be kept for its client id, and what is kept may be
    sent to a connection that resumes the session. *)
Record grants (fits : conn_ptr -> Publish -> Prop) (kept_for : string -> Publish -> Prop) : Prop := {
  gt_asked c v : entitled c (TopicName v) -> fits c v;
  gt_copy c u v : copy_of u v -> fits c u -> fits c v;
  gt_kept_copy id u v : copy_of u v -> kept_for id u -> kept_for id v;
  gt_keep c id v : uses c id -> fits c v -> kept_for id v;
  gt_own c id u : uses c id -> heard c (MPublish u) -> Qos (PubHeader u) = QosAtLeastOnce -> kept_for id u;
  gt_resume c m id v : heard c (MConnect m) -> CleanSession m = false -> uses c id -> kept_for id v ->
    Qos (PubHeader v) = QosAtLeastOnce -> fits c v
}.

Context (fits : conn_ptr -> Publish -> Prop) (kept_for : string -> Publish -> Prop).
Context (G : grants fits kept_for).

Lemma filter_denotes_self (t : string) :
  isWildcard t = false -> filter_denotes (Split t SLASH) (Split t SLASH).
Proof.
  intros Ht. apply literal_denotes; [|done]. apply Forall_forall. intros w Hw.
  by destruct (not_wildcard_levels _ _ Ht Hw).
Qed.

Lemma asked_matches c f (t : string) :
  asked c f -> valid (newWild f c) = true -> matches (newWild f c) (Split t SLASH) = true -> entitled c t.
Proof.
  intros Ha Hv Hm. exists f. split; [done|]. unfold matches in Hm.
  rewrite matches_from_spec in Hm; [by rewrite drop_0 in Hm|by apply valid_spec|lia].
Qed.

Lemma asked_literal c f : asked c f -> isWildcard f = false -> entitled c f.
Proof. intros Ha Hf. exists f. split; [done|by apply filter_denotes_self]. Qed.

Lemma origin_copy u v : copy_of u v -> origin u -> origin v.
Proof. intros Hc (u0 & Hu & Hc0). exists u0. split; [done|]. by etrans. Qed.

(** A message that may wait in the queue of [c], one that may be sent to it, and one
    that may be kept for a client id. *)
Definition job_fits (h : list Publish) c (m : Message ptr) : Prop :=
  answers (fun p => exists v, h !! p = Some v /\ fits c v) c m.
(** Only a DISCONNECT is queued with a receipt. *)
Definition entry_fits (h : list Publish) c (j : job) : Prop :=
  job_fits h c (job_m j) /\ (job_r j = None \/ job_m j = MDisconnect).
Definition sent_fits c (m : Message Publish) : Prop := answers (fun v => fits c v /\ origin v) c m.
Definition stored_fits (h : list Publish) (id : string) (m : Message ptr) : Prop :=
  exists p v, m = MPublish p /\ h !! p = Some v /\ kept_for id v.

(** What may be in the store that the registry has for a client id. *)
Definition stores_fit (h : list Publish) (r : registry (MemoryStore (Message ptr))) : Prop :=
  forall id p st key m, clientStores r !! id = Some p -> store_heap r !! p = Some st ->
    ms_messages st !! key = Some m -> stored_fits h id m.

Record conn_fits (h : list Publish) (ids : gmap string nat) c k : Prop := {
  cf_jobs : Forall (entry_fits h c) (ch_buf (jobs k));
  cf_wire : Forall (sent_fits c) (wire k);
  cf_store p : store k = Some p -> exists id, uses c id /\ ids !! id = Some p;
  cf_flag m : flag k = Some m -> heard c (MConnect m)
}.

(** A goroutine to be started is the heartbeat of a connection that asked for it. *)
Definition go_fits (g : goroutine) : Prop := let 'GoHeartbeat c ka := g in timed c ka.

(** The invariant. *)
Record sealed s : Prop := {
  se_cf : Broker (srv_cf s) = b;
  se_table : table_sealed entitled (srv_subs s);
  se_retain : map_Forall (fun _ => origin) (retain (srv_subs s));
  se_heap : Forall origin (srv_heap s);
  se_conns c k : srv_conns s !! c = Some k ->
    conn_fits (srv_heap s) (clientStores (srv_stores s)) c k;
  se_reg : registry_wf (srv_stores s);
  se_stores : stores_fit (srv_heap s) (srv_stores s);
  se_clients id e : srv_clients s !! id = Some e -> uses e id /\ e < length (srv_conns s);
  se_gos : Forall go_fits (srv_gos s)
}.

(** What every goroutine leaves as it was: the messages in memory up to their retain
    flags, the arrays of a topic, and the stores of the client ids. *)
Record extends s s' : Prop := {
  ex_heap p v : srv_heap s !! p = Some v -> exists v', srv_heap s' !! p = Some v' /\ copy_of v v';
  ex_table : table_extends entitled (srv_subs s) (srv_subs s');
  ex_ids : clientStores (srv_stores s) ⊆ clientStores (srv_stores s')
}.

#[export] Instance extends_preorder : PreOrder extends.
Proof.
  split.
  - intros s. split; [|done|done]. intros p v Hp. by exists v.
  - intros s1 s2 s3 [Hh Ht Hi] [Hh' Ht' Hi']. split; [|by etrans|by etrans].
    intros p v Hp. destruct (Hh p v Hp) as (v' & Hp' & E1). destruct (Hh' p v' Hp') as (v'' & Hp'' & E2).
    exists v''. split; [done|]. by etrans.
Qed.

(** What only the inbound loop of [c] may change: its flag, and whether it is registered. *)
Definition mine c s s' : Prop :=
  forall k, srv_conns s !! c = Some k ->
    (exists k', srv_conns s' !! c = Some k' /\ flag k' = flag k) /\
    (forall id, srv_clients s' !! id = Some c -> srv_clients s !! id = Some c).

#[export] Instance mine_preorder c : PreOrder (mine c).
Proof.
  split.
  - intros s k Hk. split; [by exists k|done].
  - intros s1 s2 s3 H12 H23 k Hk. destruct (H12 k Hk) as [(k2 & Hk2 & E2) Hc2].
    destruct (H23 k2 Hk2) as [(k3 & Hk3 & E3) Hc3]. split; [|auto]. exists k3. split; [done|congruence].
Qed.

Lemma mine_same c s s' :
  srv_conns s' = srv_conns s -> srv_clients s' ⊆ srv_clients s -> mine c s s'.
Proof.
  intros Ek Ec k Hk. split; [exists k; by rewrite Ek|]. intros id Hid. by eapply lookup_weaken.
Qed.

Lemma job_fits_extends s s' c m :
  extends s s' -> job_fits (srv_heap s) c m -> job_fits (srv_heap s') c m.
Proof.
  intros [Hh _ _]. unfold job_fits. destruct m; simpl; try done. intros (v & Hp & He).
  destruct (Hh _ v Hp) as (v' & Hp' & Et). exists v'. split; [done|]. by eapply (gt_copy _ _ G).
Qed.

Lemma conn_fits_extends s s' c k :
  extends s s' -> conn_fits (srv_heap s) (clientStores (srv_stores s)) c k ->
  conn_fits (srv_heap s') (clientStores (srv_stores s')) c k.
Proof.
  intros He [Hj Hw Hs]. split; [|done| |done].
  - eapply Forall_impl; [exact Hj|]. intros j [Hf Hr]. split; [by eapply job_fits_extends|done].
  - intros p Hp. destruct (Hs p Hp) as (id & Hu & Hid). exists id. split; [done|].
    eapply lookup_weaken; [exact Hid|apply He].
Qed.

Lemma stores_fit_extends s s' r : extends s s' -> stores_fit (srv_heap s) r -> stores_fit (srv_heap s') r.
Proof.
  intros [Hh _ _] Hr id p st key m Hid Hp Hm.
  destruct (Hr id p st key m Hid Hp Hm) as (q & v & -> & Hq & Hv).
  destruct (Hh _ v Hq) as (v' & Hq' & Et). exists q, v'. split; [done|]. split; [done|].
  by eapply (gt_kept_copy _ _ G).
Qed.

(** ** Updates that keep both *)

(** What every goroutine guarantees outside [doConnect]. *)
Definition discreet s s' : Prop := extends s s' /\ forall c, mine c s s'.
Definition lawful s s' : Prop := sealed s' /\ discreet s s'.

Lemma extends_same s s' :
  srv_subs s' = srv_subs s -> srv_heap s' = srv_heap s -> srv_stores s' = srv_stores s -> extends s s'.
Proof.
  intros Es Eh Et. split; rewrite ?Es, ?Eh, ?Et; try done. intros p v Hp. by exists v.
Qed.

(** An update of a part that the invariant does not mention. *)
Lemma lawful_parts s s' :
  sealed s -> srv_cf s' = srv_cf s -> srv_subs s' = srv_subs s -> srv_heap s' = srv_heap s ->
  srv_conns s' = srv_conns s -> srv_stores s' = srv_stores s -> srv_clients s' ⊆ srv_clients s ->
  Forall go_fits (srv_gos s') -> lawful s s'.
Proof.
  intros [] Ef Es Eh Ec Et El Eg. split; [|split; [by apply extends_same|intros c; by apply mine_same]].
  split; rewrite ?Ef, ?Es, ?Eh, ?Ec, ?Et; try done. intros id e Hid. by eapply se_clients0, lookup_weaken.
Qed.

(** An update of the statistics, the clock, the receipts, the peers or presence. *)
Lemma lawful_rest s s' :
  sealed s -> srv_cf s' = srv_cf s -> srv_subs s' = srv_subs s -> srv_heap s' = srv_heap s ->
  srv_conns s' = srv_conns s -> srv_stores s' = srv_stores s -> srv_clients s' = srv_clients s ->
  srv_gos s' = srv_gos s -> lawful s s'.
Proof.
  intros Hs Ef Es Eh Ec Et El Eg. apply lawful_parts; try done; [by rewrite El|]. rewrite Eg. apply Hs.
Qed.

Lemma lawful_refl s : sealed s -> lawful s s.
Proof. intros Hs. by apply lawful_rest. Qed.

Lemma lawful_table s tb :
  sealed s -> table_kept entitled (srv_subs s) tb -> map_Forall (fun _ => origin) (retain tb) ->
  lawful s (set_subs tb s).
Proof.
  intros [] [Hs He] Hr. split; [by split|]. split; [|intros c; by apply mine_same].
  split; [|done|done]. intros p v Hp. by exists v.
Qed.

Lemma lawful_conn s c k k' :
  sealed s -> srv_conns s !! c = Some k -> flag k' = flag k ->
  (conn_fits (srv_heap s) (clientStores (srv_stores s)) c k ->
   conn_fits (srv_heap s) (clientStores (srv_stores s)) c k') -> lawful s (put_conn c k' s).
Proof.
  intros [] Hk Ef Hf. split; [|split; [by apply extends_same|]].
  - split; try done.
    + intros d kd. simpl. intros Hd. apply list_lookup_insert_Some in Hd as [(-> & -> & _)|[_ Hd]]; auto.
    + simpl. rewrite length_insert. done.
  - intros d kd Hd. split; [|done]. destruct (decide (d = c)) as [->|Hne].
    + assert (kd = k) as -> by congruence. exists k'. split; [by apply put_conn_eq with k|done].
    + exists kd. by rewrite put_conn_ne.
Qed.

Lemma lawful_heap s h' :
  sealed s -> Forall origin h' ->
  (forall p v, srv_heap s !! p = Some v -> exists v', h' !! p = Some v' /\ copy_of v v') ->
  lawful s (set_heap h' s).
Proof.
  intros [] Ho Hh. assert (extends s (set_heap h' s)) as He by (by split).
  split; [|split; [done|intros c; by apply mine_same]]. split; try done.
  - intros c k Hk. by apply (conn_fits_extends s _ c k He), se_conns0.
  - by apply (stores_fit_extends s _ _ He).
Qed.

Lemma lawful_stores s r :
  sealed s -> registry_wf r -> clientStores (srv_stores s) ⊆ clientStores r ->
  stores_fit (srv_heap s) r -> lawful s (set_stores r s).
Proof.
  intros [] Hr Hi Hf. assert (extends s (set_stores r s)) as He by (split; [intros p v Hp; by exists v|done..]).
  split; [|split; [done|intros c; by apply mine_same]]. split; try done.
  intros c k Hk. by apply (conn_fits_extends s _ c k He), se_conns0.
Qed.

(** ** Actions *)

Notation sok := (ok sealed extends discreet (fun _ => True)).

(** From every state, whatever the result. *)
Definition safe {A} (p : proc Server A) : Prop := forall s, sok (fun _ _ => True) p s.

Lemma sok_bind {A B} (Q : A -> Server -> Prop) (Q' : B -> Server -> Prop) p f s :
  sok Q p s -> (forall a s', extends s s' -> Q a s' -> sok Q' (f a) s') -> sok Q' (bind p f) s.
Proof. apply (ok_bind sealed (fun _ => True) extends discreet extends); [done|]. by intros s1 s2 []. Qed.

Lemma sok_atomic {A} (Q : A -> Server -> Prop) (f : Server -> astep Server A) s :
  (forall s', extends s s' -> sealed s' ->
     match f s' with Done s'' a => lawful s' s'' /\ Q a s'' | _ => True end) ->
  sok Q (atomic f) s.
Proof.
  intros Hf. apply ok_atomic. intros s' Hs HI. specialize (Hf s' Hs HI).
  destruct (f s') as [s'' a| |w]; [|done|done]. destruct Hf as [[? ?] ?]. done.
Qed.

Lemma sok_reads {A} (Q : A -> Server -> Prop) (f : Server -> A) s :
  (forall s', extends s s' -> sealed s' -> Q (f s') s') -> sok Q (reads f) s.
Proof. intros Hf. apply sok_atomic. intros s' Hx Hs. split; [by apply lawful_refl|by apply Hf]. Qed.

Lemma safe_atomic {A} (f : Server -> astep Server A) :
  (forall s, sealed s -> match f s with Done s' _ => lawful s s' | _ => True end) -> safe (atomic f).
Proof.
  intros Hf s. apply sok_atomic. intros s' _ HI. specialize (Hf s' HI). by destruct (f s').
Qed.

Lemma safe_seq {A B} (p : proc Server A) (f : A -> proc Server B) :
  safe p -> (forall a, safe (f a)) -> safe (bind p f).
Proof. intros Hp Hf s. eapply sok_bind; [apply Hp|]. intros a s' _ _. apply Hf. Qed.

Lemma safe_ret {A} (a : A) : safe (Ret a).
Proof. done. Qed.

Lemma safe_panics {A} w : safe (@panics Server A w).
Proof. by intros s s'. Qed.

Lemma safe_reads {A} (f : Server -> A) : safe (reads f).
Proof. intros s. by apply sok_reads. Qed.

Lemma safe_for_each {B} (l : list B) body : (forall x, x ∈ l -> safe (body x)) -> safe (for_each l body).
Proof.
  intros Hb. induction l as [|x l IH]; simpl; [apply safe_ret|]. apply safe_seq.
  - apply Hb. by left.
  - intros _. apply IH. intros y Hy. apply Hb. by right.
Qed.

Lemma safe_on_conn {A} c (f : incomingConn -> astep incomingConn A) :
  (forall h ids k, conn_fits h ids c k ->
     match f k with Done k' _ => conn_fits h ids c k' /\ flag k' = flag k | _ => True end) ->
  safe (on_conn c f).
Proof.
  intros Hf. apply safe_atomic. intros s Hs. destruct (srv_conns s !! c) as [k|] eqn:Hk; [|done].
  specialize (Hf _ _ k (se_conns _ Hs c k Hk)). destruct (f k); [|done|done]. destruct Hf.
  by eapply lawful_conn.
Qed.

Lemma safe_read_conn {A} c (f : incomingConn -> A) : safe (read_conn c f).
Proof. apply safe_atomic. intros s Hs. destruct (srv_conns s !! c); [by apply lawful_refl|done]. Qed.

(** An action on the connection that leaves its queue, wire, store and flag alone. *)
Lemma safe_write_conn c f :
  (forall k, jobs (f k) = jobs k /\ wire (f k) = wire k /\ store (f k) = store k /\ flag (f k) = flag k) ->
  safe (write_conn c f).
Proof.
  intros Hf. apply safe_on_conn. intros h ids k [Hj Hw Hs Hm]. destruct (Hf k) as (Ej & Ew & Es & Em).
  split; [|done]. by split; rewrite ?Ej, ?Ew, ?Es, ?Em.
Qed.

Lemma safe_modify (f : Server -> Server) : (forall s, sealed s -> lawful s (f s)) -> safe (modify f).
Proof. intros Hf. by apply safe_atomic. Qed.

Lemma safe_do_stats f : safe (do_stats f).
Proof. apply safe_modify. intros s Hs. by apply lawful_rest. Qed.

Lemma safe_critical_ f :
  (forall tb, table_sealed entitled tb -> table_kept entitled tb (f tb)) ->
  (forall tb, retain (f tb) ⊆ retain tb) -> safe (critical_ f).
Proof.
  intros Hf Hr. apply safe_atomic. intros s Hs. destruct (mu (srv_subs s)); [done|].
  apply lawful_table; [done|by apply Hf, se_table|].
  intros t m Hm. apply (se_retain _ Hs t). eapply lookup_weaken; [exact Hm|apply Hr].
Qed.

(** The lock and the queue of the table are not in the invariant. *)
Lemma lawful_retable s tb :
  sealed s -> subs tb = subs (srv_subs s) -> wildcards tb = wildcards (srv_subs s) ->
  arrays tb = arrays (srv_subs s) -> retain tb = retain (srv_subs s) -> lawful s (set_subs tb s).
Proof.
  intros Hs Es Ew Ea Er. pose proof (se_table _ Hs) as Ht.
  apply lawful_table; [done| |rewrite Er; apply Hs].
  apply table_kept_same; try done. destruct (ts_wf _ _ Ht) as [H1' H2' H3' H4' H5'].
  split; rewrite ?Es, ?Ew, ?Ea, ?Er; auto.
Qed.

Lemma safe_mu_Lock : safe mu_Lock.
Proof.
  apply safe_atomic. intros s Hs. destruct (mu (srv_subs s)); [done|]. by apply lawful_retable.
Qed.

Lemma safe_mu_Unlock : safe mu_Unlock.
Proof. apply safe_modify. intros s Hs. by apply lawful_retable. Qed.

Lemma safe_read_msg m : safe (read_msg m).
Proof. apply safe_atomic. intros s Hs. destruct (view _ m); [by apply lawful_refl|done]. Qed.

(** A new message that somebody sent. *)
Lemma sok_alloc v s : origin v -> sok (fun p s' => srv_heap s' !! p = Some v) (alloc v) s.
Proof.
  intros Ho. apply sok_atomic. intros s' _ Hs. split; [|apply last_snoc_lookup]. apply lawful_heap; [done|..].
  - apply Forall_app. split; [apply Hs|by constructor].
  - intros p u Hp. exists u. split; [by apply lookup_app_l_Some|done].
Qed.

Lemma sok_read_pub p s :
  sok (fun v s' => extends s s' /\ srv_heap s' !! p = Some v) (read_pub p) s.
Proof.
  apply sok_atomic. intros s' Hx Hs. destruct (srv_heap s' !! p) eqn:Hp; [|done].
  split; [by apply lawful_refl|done].
Qed.

Lemma safe_read_pub p : safe (read_pub p).
Proof. intros s. eapply ok_weaken; [apply sok_read_pub|done]. Qed.

(** The store of the connection, with the client ids it is for. *)
Lemma sok_on_store {A} c (f : MemoryStore (Message ptr) -> MemoryStore (Message ptr) * A)
    (Q : A -> Server -> Prop) s :
  (forall s' id st, extends s s' -> sealed s' -> uses c id ->
     (forall key m, ms_messages st !! key = Some m -> stored_fits (srv_heap s') id m) ->
     (forall key m, ms_messages (f st).1 !! key = Some m -> stored_fits (srv_heap s') id m) /\
     forall s'', srv_heap s'' = srv_heap s' -> Q (f st).2 s'') ->
  sok Q (on_store c f) s.
Proof.
  intros Hf. apply sok_atomic. intros s' Hx Hs. destruct (srv_conns s' !! c) as [k|] eqn:Hk; [|done].
  destruct (store k) as [p|] eqn:Hp; [|done].
  destruct (store_heap (srv_stores s') !! p) as [st|] eqn:Hst; [|done].
  destruct (cf_store _ _ _ _ (se_conns _ Hs c k Hk) p Hp) as (id & Hu & Hid).
  destruct (Hf s' id st Hx Hs Hu (fun key m => se_stores _ Hs id p st key m Hid Hst)) as [Hm HQ].
  split; [|by apply HQ]. destruct (se_reg _ Hs) as [Hlt Hinj]. apply lawful_stores; try done; simpl.
  - split; simpl; [|done]. intros id' p'. rewrite length_insert. apply Hlt.
  - intros id' p' st' key m. simpl. intros Hid' Hp' Hm'.
    apply list_lookup_insert_Some in Hp' as [(<- & <- & _)|[_ Hp']]; [|by eapply (se_stores _ Hs)].
    rewrite (Hinj id' id p Hid' Hid). by eapply Hm.
Qed.

(** A call that only removes messages. *)
Lemma safe_on_store {A} c (f : MemoryStore (Message ptr) -> MemoryStore (Message ptr) * A) :
  (forall st, ms_messages (f st).1 ⊆ ms_messages st) -> safe (on_store c f).
Proof.
  intros Hf s. apply sok_on_store. intros s' id st _ _ _ Hst. split; [|done].
  intros key m Hm. eapply Hst, lookup_weaken; [exact Hm|apply Hf].
Qed.

(** A persistence call: what it puts into the store may be kept. *)
Lemma sok_call_store c call s :
  (forall key m, call = Some (CallPut key m) -> exists p v, m = MPublish p /\ srv_heap s !! p = Some v /\
     forall id, uses c id -> kept_for id v) ->
  sok (fun _ _ => True) (call_store c call) s.
Proof.
  intros Hc. unfold call_store. destruct call as [call|]; [|done].
  apply sok_on_store. intros s' id st Hx _ Hu Hst. split; [|done]. simpl.
  destruct call as [key m|key]; simpl; intros key' m'.
  - rewrite lookup_insert_Some. intros [[<- <-]|[_ Hm']]; [|by eapply Hst].
    destruct (Hc key m eq_refl) as (p & v & -> & Hp & Hk). destruct (ex_heap _ _ Hx p v Hp) as (v' & Hp' & Hcp).
    exists p, v'. split; [done|]. split; [done|]. eapply (gt_kept_copy _ _ G); [exact Hcp|]. by apply Hk.
  - rewrite lookup_delete_Some. intros [_ Hm']. by eapply Hst.
Qed.

Lemma safe_subs_submit p : safe (subs_submit p).
Proof.
  apply safe_atomic. intros s Hs. destruct (ch_send p _); [|done|done]. by apply lawful_retable.
Qed.

Lemma safe_run_next : safe run_next.
Proof. apply safe_atomic. intros s Hs. destruct (ch_recv _); [|done|done]. by apply lawful_retable. Qed.

Lemma safe_save_retain p : safe (save_retain p).
Proof.
  apply safe_atomic. intros s Hs. destruct (mu (srv_subs s)); [done|].
  destruct (srv_heap s !! p) as [v|] eqn:Hp; [|done]. pose proof (se_table _ Hs) as Ht.
  apply lawful_table; [done| |].
  - apply table_kept_same; try done. by apply subs_wf_set_retain, Ht.
  - simpl. apply map_Forall_insert_2; [|apply Hs]. eapply origin_copy; [apply copy_set_Retain|].
    exact (Forall_lookup_1 _ _ _ _ (se_heap _ Hs) Hp).
Qed.

Lemma safe_delete_retain topic : safe (critical_ (delete_retain topic)).
Proof.
  apply safe_critical_; [|intros tb; apply delete_subseteq]. intros tb Ht. apply table_kept_same; try done.
  destruct (ts_wf _ _ Ht) as [H1' H2' H3' H4' H5']. split; try done.
  intros t m. simpl. rewrite lookup_delete_Some. intros [_ Hm]. by apply H5'.
Qed.

Lemma safe_on_node {A} host (f : endpoint -> astep endpoint A) : safe (on_node host f).
Proof.
  apply safe_atomic. intros s Hs. destruct (srv_nodes s !! host) as [e|]; [|done].
  destruct (f e); [|done|done]. by apply lawful_rest.
Qed.

Lemma safe_del_client c : safe (del_client c).
Proof.
  apply safe_atomic. intros s Hs. destruct (srv_conns s !! c) as [k|]; [|done].
  destruct (flag k) as [m|]; [|by apply lawful_refl]. apply lawful_parts; try done.
  - apply delete_subseteq.
  - apply Hs.
Qed.

Lemma safe_close_receipt r : safe (close_receipt r).
Proof. apply safe_atomic. intros s Hs. case_decide; [done|]. by apply lawful_rest. Qed.

Lemma safe_wait r : safe (wait r).
Proof. apply safe_atomic. intros s Hs. case_decide; [by apply lawful_refl|done]. Qed.

(** ** Queueing *)

(** A message that fits the connection is queued, in either mode. *)
Lemma sok_enqueue {A} c (op : chan job -> astep (chan job) A) m r s :
  (forall q, match op q with
             | Done q' _ => ch_buf q' = ch_buf q \/ ch_buf q' = ch_buf q ++ [Job m r] | _ => True end) ->
  job_fits (srv_heap s) c m -> (r = None \/ m = MDisconnect) ->
  sok (fun _ _ => True) (on_conn c (on_jobs op)) s.
Proof.
  intros Hop Hm Hr. apply sok_atomic. intros s' Hx Hs'. destruct (srv_conns s' !! c) as [k|] eqn:Hk; [|done].
  unfold on_jobs. specialize (Hop (jobs k)). destruct (op (jobs k)) as [q a| |w]; [|done|done].
  split; [|done]. eapply lawful_conn; [done|done|done|]. intros [Hj Hw Hst Hf]. split; [|done..]. simpl.
  destruct Hop as [-> | ->]; [done|]. apply Forall_app. split; [done|]. constructor; [|done].
  split; [by eapply job_fits_extends|done].
Qed.

Lemma ch_send_buf {A} (x : A) q :
  match ch_send x q with Done q' _ => ch_buf q' = ch_buf q \/ ch_buf q' = ch_buf q ++ [x] | _ => True end.
Proof. unfold ch_send. repeat case_match; simplify_eq; auto. Qed.

Lemma ch_try_send_buf {A} (x : A) q :
  match ch_try_send x q with Done q' _ => ch_buf q' = ch_buf q \/ ch_buf q' = ch_buf q ++ [x] | _ => True end.
Proof. unfold ch_try_send. repeat case_match; simplify_eq; auto. Qed.

Lemma sok_submit c m s : job_fits (srv_heap s) c m -> sok (fun _ _ => True) (submit c m) s.
Proof.
  intros Hm. unfold submit. eapply sok_bind; [apply safe_read_conn|]. intros a s1 Hx1 _.
  destruct (negb a); [done|]. eapply sok_bind; [apply safe_reads|]. intros blk s2 Hx2 _.
  assert (job_fits (srv_heap s2) c m) as Hm2 by (do 2 (eapply job_fits_extends; [done|]); done).
  destruct blk.
  - eapply sok_enqueue; [|exact Hm2|by left]. intros q. apply ch_send_buf.
  - eapply sok_bind; [|done]. eapply sok_enqueue; [|exact Hm2|by left]. intros q. apply ch_try_send_buf.
Qed.

(** Answers other than publications do not depend on the memory. *)
Definition plain_answer c (m : Message ptr) : Prop := answers (fun _ => False) c m.

Lemma plain_fits h c m : plain_answer c m -> job_fits h c m.
Proof. by destruct m. Qed.

Lemma safe_submit c m : plain_answer c m -> safe (submit c m).
Proof. intros Hm s. by apply sok_submit, plain_fits. Qed.

Lemma safe_submitSync c : plain_answer c MDisconnect -> safe (submitSync c MDisconnect).
Proof.
  intros Hm. unfold submitSync. apply safe_seq.
  - apply safe_atomic. intros s Hs. by apply lawful_rest.
  - intros r. apply safe_seq; [|intros _; apply safe_ret]. intros s.
    eapply sok_enqueue; [|by apply plain_fits|by right]. intros q. apply ch_send_buf.
Qed.

(** ** Bodies *)

Create HintDb warrant.

(** Walks through a body: sequences, case analyses, and the actions above. *)
Ltac safe_walk :=
  repeat first
    [ solve [auto 2 with warrant]
    | match goal with
      | |- forall _, _ => intro
      | |- safe (Ret _) => apply safe_ret
      | |- safe (bind _ _) => apply safe_seq
      | |- safe (for_each _ _) => apply safe_for_each
      | |- safe (match ?x with _ => _ end) => destruct x
      end ].

(** The rest of a body, when what was found out so far no longer matters. *)
Ltac safe_rest :=
  let Hp := fresh in
  match goal with |- ok _ _ _ _ _ ?p _ => enough (safe p) as Hp by apply Hp end; safe_walk.

#[local] Hint Resolve safe_reads safe_panics safe_read_conn safe_do_stats safe_mu_Lock safe_mu_Unlock
  safe_read_msg safe_read_pub safe_subs_submit safe_run_next safe_save_retain safe_delete_retain
  safe_on_node safe_del_client safe_close_receipt safe_wait : warrant.
#[local] Hint Extern 2 (safe (write_conn _ _)) => (by apply safe_write_conn) : warrant.
#[local] Hint Extern 2 (safe (on_store _ _)) => (apply safe_on_store; intros; simpl; done) : warrant.

Lemma safe_refreshOpTime c : safe (refreshOpTime c).
Proof. unfold refreshOpTime. safe_walk. Qed.

Lemma safe_stop c : safe (stop c).
Proof.
  unfold stop. safe_walk. apply safe_on_conn. intros h ids k [Hj Hw Hs Hm]. by destruct (stopChan k).
Qed.

Lemma safe_flag_username c : safe (flag_username c).
Proof. unfold flag_username. safe_walk. Qed.

Lemma safe_CheckIn n : safe (CheckIn n).
Proof. apply safe_modify. intros s Hs. by apply lawful_rest. Qed.
Lemma safe_CheckOut n : safe (CheckOut n).
Proof. apply safe_modify. intros s Hs. by apply lawful_rest. Qed.

Lemma safe_replicate_pub p : safe (replicate_pub p).
Proof. unfold replicate_pub, ep_submit. safe_walk. Qed.

#[local] Hint Resolve safe_refreshOpTime safe_stop safe_flag_username safe_CheckIn safe_CheckOut
  safe_replicate_pub : warrant.

(** The worker hands a publication to whoever the array of its topic lists; the array
    may be written by others meanwhile. *)
Lemma sok_deliver sl p v s :
  srv_heap s !! p = Some v ->
  (sl_len sl <> 0 -> owned entitled (srv_subs s) (sl_arr sl) (TopicName v)) ->
  sok (fun _ _ => True)
    (for_range (sl_len sl) 0 (fun i =>
       x <- read_entry sl i;;
       match x with Some c => submit c (MPublish p) | None => Ret tt end)) s.
Proof.
  intros Hp Ho. apply (ok_for_range sealed (fun _ => True) extends discreet extends); [done|by intros s1 s2 []|].
  intros i s1 Hx1. eapply sok_bind.
  - apply (sok_reads (fun x s' => forall c, x = Some c -> job_fits (srv_heap s') c (MPublish p))).
    intros s2 Hx2 Hs2 c Hc.
    assert (extends s s2) as Hx by (by etrans). destruct (ex_heap _ _ Hx p v Hp) as (v' & Hp' & Hcp).
    exists v'. split; [done|]. apply (gt_asked _ _ G). rewrite (copy_TopicName _ _ Hcp).
    assert (sl_len sl <> 0) as Hl by (intros E0; unfold index in Hc; by rewrite E0 in Hc).
    eapply serves_index; [|exact Hc]. apply (ow_serves _ _ _ _ (ex_table _ _ Hx _ _ (Ho Hl))).
  - intros [c|] s2 _ Hc; [|done]. by apply sok_submit, Hc.
Qed.

Lemma lawful_unretain s p : sealed s -> lawful s (set_heap (alter (set_Retain false) p (srv_heap s)) s).
Proof.
  intros Hs. apply lawful_heap; [done|..].
  - apply Forall_alter; [apply Hs|]. intros v _ Hv. eapply origin_copy; [apply copy_set_Retain|done].
  - intros q v Hq. destruct (decide (p = q)) as [->|Hne].
    + exists (set_Retain false v). by rewrite list_lookup_alter_eq, Hq.
    + exists v. by rewrite list_lookup_alter_ne.
Qed.

Lemma safe_run_post p : safe (run_post p).
Proof.
  intros s. unfold run_post. eapply sok_bind; [apply sok_read_pub|]. intros v s1 _ [_ Hp1]. eapply sok_bind.
  { apply safe_modify. intros s2. apply lawful_unretain. }
  intros [] s2 Hx2 _. destruct (Retain (PubHeader v) && _); [safe_rest|]. eapply sok_bind.
  { apply (sok_atomic (fun sl s' => extends s2 s' /\
      (sl_len sl <> 0 -> owned entitled (srv_subs s') (sl_arr sl) (TopicName v)))).
    intros s3 Hx3 Hs3. destruct (mu (srv_subs s3)); [done|].
    destruct (kept_table_subscribers entitled (TopicName v) _ (se_table _ Hs3)) as [Hk Ho].
    pose proof (lawful_table s3 _ Hs3 Hk (se_retain _ Hs3)) as Hl. split; [done|]. split; [|done].
    etrans; [exact Hx3|apply Hl]. }
  intros sl s3 _ [Hx3 Ho]. assert (extends s1 s3) as Hx by (by etrans).
  destruct (ex_heap _ _ Hx p v Hp1) as (v' & Hp' & Hcp). rewrite <- (copy_TopicName _ _ Hcp) in Ho.
  eapply sok_bind; [by eapply sok_deliver|]. intros [] s4 _ _. safe_rest.
Qed.

Lemma safe_run_body : safe run_body.
Proof. unfold run_body. safe_walk. apply safe_run_post. Qed.

(** A retained message goes to a client that asks for its topic. *)
Lemma safe_sendRetain topic c : asked c topic -> safe (sendRetain topic c).
Proof.
  intros Ha s. unfold sendRetain. eapply sok_bind; [apply safe_mu_Lock|]. intros [] s1 _ _. eapply sok_bind.
  { apply (sok_reads (fun r _ => forall m, r = Some m -> entitled c (TopicName m) /\ origin m)).
    intros s2 _ Hs2 m. unfold retained_for. destruct (isWildcard topic) eqn:Hw; [done|]. intros Hm.
    split; [|exact (se_retain _ Hs2 _ _ Hm)].
    destruct (swf_retain _ (ts_wf _ _ (se_table _ Hs2)) _ _ Hm) as [-> _]. by apply asked_literal. }
  intros r s2 _ Hr. apply (sok_bind (fun _ _ => True)); [|intros [] s3 _ _; apply safe_mu_Unlock].
  destruct r as [m|]; [|done]. destruct (Hr m eq_refl) as [He Ho].
  eapply sok_bind; [by apply sok_alloc|].
  intros p s3 _ Hp. apply sok_submit. exists m. split; [done|]. by apply (gt_asked _ _ G).
Qed.

(** ** CONNECT *)

(** A stored message goes to a connection that resumes the session. *)
Lemma safe_redeliver c m key : heard c (MConnect m) -> CleanSession m = false -> safe (redeliver c key).
Proof.
  intros Hm Hclean s. unfold redeliver. destruct (key =s ""); [apply safe_panics|]. eapply sok_bind.
  { apply (sok_on_store c _ (fun msg s' => forall m0, msg = Some m0 ->
      exists id, uses c id /\ stored_fits (srv_heap s') id m0)).
    intros s1 id st _ _ Hu Hst. split; [exact Hst|]. intros s2 Eh m0 Hm0. exists id. split; [done|].
    rewrite Eh. exact (Hst key m0 Hm0). }
  intros [m0|] s1 _ Hst; [|done]. destruct (Hst m0 eq_refl) as (id & Hu & p & v0 & -> & Hp0 & Hk0).
  eapply sok_bind; [apply sok_read_pub|]. intros v s2 _ [Hx Hp]. case_decide as Hq; [|done].
  apply sok_submit. destruct (ex_heap _ _ Hx p v0 Hp0) as (v' & Hp' & Hcp). simplify_eq.
  exists v. split; [done|]. eapply (gt_resume _ _ G); [done..| |done]. by eapply (gt_kept_copy _ _ G).
Qed.

(** The store of the client id becomes that of the connection. *)
Lemma sok_getClientStore id s :
  sok (fun p s' => clientStores (srv_stores s') !! id = Some p)
    (atomic (fun s => let r := getClientStore Memory.NewMemoryStore id (srv_stores s) in
                      Done (set_stores r.1 s) r.2)) s.
Proof.
  apply sok_atomic. intros s' _ Hs. cbv zeta. split; [|apply getClientStore_lookup].
  pose proof (getClientStore_wf Memory.NewMemoryStore id _ (se_reg _ Hs)) as Hr.
  pose proof (se_stores _ Hs) as Hf. unfold getClientStore in *.
  destruct (clientStores (srv_stores s') !! id) as [p|] eqn:Eid; [by apply lawful_stores|].
  apply lawful_stores; [done|done|simpl; by apply insert_subseteq|].
  intros id' p st key m. cbn [fst clientStores store_heap]. intros Hid Hst Hm.
  apply lookup_app_Some in Hst as [Hst|[_ Hst]].
  - apply lookup_insert_Some in Hid as [[_ <-]|[_ Hid]]; [|by eapply Hf].
    apply lookup_lt_Some in Hst. lia.
  - apply list_lookup_singleton_Some in Hst as [_ <-]. simpl in Hm. by rewrite lookup_empty in Hm.
Qed.

Lemma sok_set_store c m p s :
  heard c (MConnect m) -> clientStores (srv_stores s) !! ClientId m = Some p ->
  sok (fun _ _ => True) (write_conn c (set_store (Some p))) s.
Proof.
  intros Hm Hp. apply sok_atomic. intros s' Hx Hs'. destruct (srv_conns s' !! c) as [k|] eqn:Hk; [|done].
  split; [|done]. eapply lawful_conn; [done|done|done|]. intros [Hj Hw _ Hf]. split; [done|done| |done]. simpl.
  intros p' [= <-]. exists (ClientId m). split; [by exists m|]. eapply lookup_weaken; [exact Hp|apply Hx].
Qed.

Lemma safe_connect_session c m b' rc :
  heard c (MConnect m) -> connect_code m rc -> safe (connect_session c m b' rc).
Proof.
  intros Hm Hrc s. unfold connect_session. eapply sok_bind.
  { assert (safe (if (0 <? KeepAliveTimer m)%Z
      then modify (fun s => set_gos (srv_gos s ++ [GoHeartbeat c (KeepAliveTimer m)]) s) else Ret tt)) as Hgo.
    { destruct (0 <? _)%Z eqn:Eka; [|apply safe_ret]. apply safe_modify. intros s' Hs.
      apply lawful_parts; try done. apply Forall_app. split; [apply Hs|]. constructor; [|done].
      exists m. split; [done|]. split; [done|by apply Z.ltb_lt]. }
    apply Hgo. }
  intros [] s1 _ _. eapply sok_bind; [apply sok_getClientStore|]. intros p s2 _ Hp.
  eapply sok_bind; [by eapply sok_set_store|]. intros [] s3 _ _.
  assert (safe (submit c (MConnAck rc))) as Hack by (apply safe_submit; by exists m).
  destruct (CleanSession m) eqn:Eclean; cbn [negb]; safe_rest.
  - apply safe_on_store. intros st. apply map_empty_subseteq.
  - by eapply safe_redeliver.
Qed.

(** The inbound loop of a connection owns its flag and its registrations. *)
Definition rely_own c s s' : Prop := extends s s' /\ mine c s s'.
Definition guar_own c s s' : Prop :=
  extends s s' /\ (conn_valid c s -> conn_valid c s') /\ forall d, d <> c -> mine d s s'.
Notation iok c := (ok sealed (rely_own c) (guar_own c) (fun _ => True)).

#[export] Instance rely_own_preorder c : PreOrder (rely_own c).
Proof.
  split; [by intros s|]. intros s1 s2 s3 [He Hm] [He' Hm']. split; by etrans.
Qed.

(** The registrations of [c] come from CONNECTs among the first [n] messages. *)
Definition placed c (n : nat) s : Prop :=
  conn_valid c s /\ forall id, srv_clients s !! id = Some c ->
    exists i r, i < n /\ calls i c r /\ ClientId r = id.

Definition flagged_as c (m : Connect) s : Prop :=
  exists k, srv_conns s !! c = Some k /\ flag k = Some m.

Lemma mine_valid c s s' : mine c s s' -> conn_valid c s -> conn_valid c s'.
Proof. intros Hm [k Hk]. destruct (Hm k Hk) as [(k' & Hk' & _) _]. by exists k'. Qed.

Lemma placed_mine c n s s' : mine c s s' -> placed c n s -> placed c n s'.
Proof.
  intros Hm [[k Hk] Hp]. destruct (Hm k Hk) as [(k' & Hk' & _) Hc]. split; [by exists k'|auto].
Qed.

Lemma placed_le c n n' s : n <= n' -> placed c n s -> placed c n' s.
Proof.
  intros Hle [Hv Hp]. split; [done|]. intros id Hid. destruct (Hp id Hid) as (i & r & ? & ? & ?).
  exists i, r. split; [lia|done].
Qed.

Lemma flagged_mine c m s s' : mine c s s' -> flagged_as c m s -> flagged_as c m s'.
Proof.
  intros Hm (k & Hk & Ef). destruct (Hm k Hk) as [(k' & Hk' & Ef') _]. exists k'. split; [done|congruence].
Qed.

(** A body that leaves both alone, run by the inbound loop. *)
Lemma iok_keep {A} c (F : Server -> Prop) (Q : A -> Server -> Prop) p s :
  (forall s1 s2, mine c s1 s2 -> F s1 -> F s2) -> F s -> sok Q p s ->
  iok c (fun a s' => Q a s' /\ F s') p s.
Proof.
  intros HF. apply ok_frame with (F := F); try done.
  - by intros s1 s2 [].
  - intros s1 s2 [He Hm]. split; [done|]. split; [by apply mine_valid|done].
  - intros s1 s2 [_ Hm]. by apply HF.
  - intros s1 s2 [_ Hm]. by apply HF.
Qed.

Lemma iok_bind {A B} c (Q : A -> Server -> Prop) (Q' : B -> Server -> Prop) p f s :
  iok c Q p s -> (forall a s', Q a s' -> iok c Q' (f a) s') -> iok c Q' (bind p f) s.
Proof.
  intros Hp Hf. eapply (ok_bind sealed (fun _ => True) (rely_own c) (guar_own c) extends);
    [by intros ?? []|by intros ?? []|exact Hp|]. intros a s' _. apply Hf.
Qed.

(** Sequencing after a body that leaves both alone. *)
Lemma iok_step {A B} c (F : Server -> Prop) (Q : A -> Server -> Prop) (Q' : B -> Server -> Prop) p f s :
  (forall s1 s2, mine c s1 s2 -> F s1 -> F s2) -> F s -> sok Q p s ->
  (forall a s', Q a s' -> F s' -> iok c Q' (f a) s') -> iok c Q' (bind p f) s.
Proof. intros HF Hs Hp Hf. eapply iok_bind; [by apply (iok_keep c F)|]. intros a s' []. by apply Hf. Qed.

Lemma iok_set_flag c m n s :
  heard c (MConnect m) -> placed c n s ->
  iok c (fun _ s' => placed c n s' /\ flagged_as c m s') (write_conn c (set_flag (Some m))) s.
Proof.
  intros Hm Hp. apply ok_atomic. intros s' [_ Hmine] Hs.
  destruct (placed_mine _ _ _ _ Hmine Hp) as [[k Hk] Hreg]. rewrite Hk.
  assert (srv_conns (put_conn c (set_flag (Some m) k) s') !! c = Some (set_flag (Some m) k)) as Hk'
    by (by apply put_conn_eq with k).
  split; [|split; [split; [by apply extends_same|split; [by eexists|]]|split; [split; [by eexists|done]|by eexists]]].
  - destruct Hs. split; try done; [|simpl; by rewrite length_insert]. intros d kd Hd. unfold put_conn in Hd. cbn [srv_conns set_conns] in Hd.
    apply list_lookup_insert_Some in Hd as [(<- & <- & _)|[_ Hd]]; [|auto].
    destruct (se_conns0 c k Hk). split; try done. by intros ? [= <-].
  - intros d Hne kd Hd. split; [|done]. exists kd. by rewrite put_conn_ne.
Qed.

(** [this.add()]: whoever is registered under the client id is displaced. *)
Lemma iok_add_client c m n j s :
  calls n c m -> j <= S n -> placed c j s -> flagged_as c m s ->
  iok c (fun x s' => (placed c (S n) s' /\ flagged_as c m s') /\
           (j <= n -> forall e, x = Some e -> displaced e)) (add_client c) s.
Proof.
  intros Hn Hj Hp Hf. apply ok_atomic. intros s' [_ Hmine] Hs.
  pose proof (placed_mine _ _ _ _ Hmine Hp) as Hp'. destruct (flagged_mine _ _ _ _ Hmine Hf) as (k & Hk & Ef).
  rewrite Hk, Ef. destruct (srv_clients s' !! ClientId m) as [e|] eqn:He.
  - split; [done|]. split; [by split|]. split; [split; [by eapply placed_le|by exists k]|].
    intros Hle ? [= <-]. destruct (decide (e = c)) as [->|Hne].
    + destruct Hp' as [_ Hreg]. destruct (Hreg _ He) as (i & r & Hi & Hc & Er).
      exists i, n, c, r, m. split; [lia|done].
    + destruct (se_clients _ Hs _ _ He) as [(r & Hr & Er) _]. destruct (nb_place N e r Hr) as [i Hi].
      exists i, n, c, r, m. split; [|done]. intros ->. by apply Hne, (nb_conn N n e c r m).
  - assert (forall d id, <[ClientId m := c]> (srv_clients s') !! id = Some d ->
      (d = c /\ id = ClientId m) \/ srv_clients s' !! id = Some d) as Hins.
    { intros d id. rewrite lookup_insert_Some. intros [[<- <-]|[_ Hd]]; [by left|by right]. }
    split; [|split; [split; [by apply extends_same|split; [done|]]|split; [split; [split; [by exists k|]|by exists k]|done]]].
    + destruct Hs. split; try done. intros id e. simpl. intros [[-> ->]|Hd]%Hins; [|auto].
      split; [exists m; split; [by apply (nb_heard N n)|done]|by eapply lookup_lt_Some].
    + intros d Hne kd Hd. split; [by exists kd|]. simpl. by intros id [[-> ->]|Hid]%Hins.
    + simpl. intros id [[_ ->]|Hid]%Hins; [by exists n, m; split; [lia|]|].
      by apply (placed_le c j (S n) s' Hj).
Qed.

Lemma iok_doConnect c m n s :
  calls n c m -> placed c n s -> iok c (fun _ s' => placed c (S n) s') (doConnect c m) s.
Proof.
  intros Hn Hp. pose proof (nb_heard N n c m Hn) as Hm. unfold doConnect. cbv zeta.
  eapply iok_bind; [by apply iok_set_flag|]. intros [] s1 H1'.
  assert (forall j s1 s2, mine c s1 s2 -> placed c j s1 /\ flagged_as c m s1 -> placed c j s2 /\ flagged_as c m s2)
    as HF by (intros j s2 s3 Hx []; split; [by eapply placed_mine|by eapply flagged_mine]).
  eapply (iok_step c _ (fun b' _ => b' = b)); [apply (HF n)|done|apply sok_reads; intros s' _ Hs; apply Hs|].
  intros ? s2 -> H2'. eapply (iok_step c); [apply (HF n)|done|apply safe_reads|]. intros nc s3 _ [H3p H3f].
  eapply iok_bind; [by apply (iok_add_client c m n n); [|lia|..]|]. intros x s4 [H4' Hx].
  eapply (iok_step c _ (fun _ _ => True)); [apply (HF (S n))|done| |].
  { destruct x as [e|]; [|done]. safe_rest. apply safe_submitSync. left. by apply Hx. }
  intros [] s5 _ [H5p H5f]. eapply iok_bind; [by apply (iok_add_client c m n (S n))|]. intros _ s6 [[H6' _] _].
  eapply ok_weaken; [apply (iok_keep c (placed c (S n)) (fun _ _ => True))|by intros ? ? []];
    [apply placed_mine|done|]. apply safe_connect_session; [done|]. by exists nc.
Qed.

(** ** PUBLISH, SUBSCRIBE, UNSUBSCRIBE *)

(** The message in memory is one that the connection sent. *)
Definition own_pub c (p : ptr) s : Prop :=
  exists u v, heard c (MPublish u) /\ copy_of u v /\ srv_heap s !! p = Some v.

Lemma own_pub_extends c p s s' : extends s s' -> own_pub c p s -> own_pub c p s'.
Proof.
  intros Hx (u & v & Hu & Hc & Hp). destruct (ex_heap _ _ Hx p v Hp) as (v' & Hp' & Hc').
  exists u, v'. split; [done|]. split; [by etrans|done].
Qed.

Lemma safe_publish_limit c : safe (publish_limit c).
Proof. unfold publish_limit. safe_walk. apply safe_on_conn. by intros h ids k [Hj Hw Hs Hm]. Qed.

Lemma sok_doPublish c p s : own_pub c p s -> sok (fun _ _ => True) (doPublish c p) s.
Proof.
  intros Hp. unfold doPublish. eapply sok_bind; [apply safe_publish_limit|]. intros [] s1 Hx1 _.
  eapply sok_bind; [apply safe_flag_username|]. intros name s2 Hx2 _. destruct (negb _); [apply safe_stop|].
  eapply sok_bind; [apply sok_read_pub|]. intros v s3 _ [Hx3 Hv].
  assert (own_pub c p s3) as (u & v' & Hu & Hcp & Hv') by (do 3 (eapply own_pub_extends; [done|]); done).
  simplify_eq. eapply sok_bind.
  { apply sok_call_store. intros key m. simpl. case_decide as Hq; [|done]. intros [= <- <-].
    exists p, v. split; [done|]. split; [done|]. intros id Hid. eapply (gt_kept_copy _ _ G); [exact Hcp|].
    eapply (gt_own _ _ G); [done..|]. by rewrite <- (copy_Qos _ _ Hcp). }
  intros [] s4 _ _. safe_rest. apply safe_submit. split; [done|]. exists u. split; [done|].
  by rewrite <- (copy_Qos _ _ Hcp), (copy_MessageId _ _ Hcp).
Qed.

Lemma retain_unsub topic c tb : retain (unsub topic c tb) = retain tb.
Proof. unfold unsub. by case_match. Qed.

Lemma safe_doSubscribe c mid ts : heard c (MSubscribe mid ts) -> safe (doSubscribe c mid ts).
Proof.
  intros Hm. assert (forall t q, (t, q) ∈ ts -> asked c t) as Ha by (intros t q Hin; by exists mid, ts, q).
  unfold doSubscribe, subscribe_topic. safe_walk.
  - destruct x as [t q]. apply safe_critical_; [|intros tb; by rewrite add_retain].
    intros tb. apply kept_table_add.
    + intros Hv t'. apply asked_matches; [by eapply Ha|done].
    + apply asked_literal. by eapply Ha.
  - apply safe_submit. by exists ts.
  - destruct x as [t q]. apply safe_sendRetain. by eapply Ha.
Qed.

Lemma safe_doUnsubscribe c mid ts : heard c (MUnsubscribe mid ts) -> safe (doUnsubscribe c mid ts).
Proof.
  intros Hm. unfold doUnsubscribe, unsubscribe_topic. safe_walk.
  - apply safe_critical_; [|intros tb; by rewrite retain_unsub]. intros tb. apply kept_table_unsub.
  - apply safe_submit. by exists ts.
Qed.

(** ** The loops *)

(** The decoded message in memory, other than a CONNECT. *)
Definition came c (m : Message ptr) s : Prop :=
  match m with
  | MPublish p => own_pub c p s
  | MConnect _ => False
  | MSubscribe mid ts => heard c (MSubscribe mid ts)
  | MUnsubscribe mid ts => heard c (MUnsubscribe mid ts)
  | MPingReq => heard c MPingReq
  | _ => True
  end.

Lemma sok_alloc_msg c (v : Message Publish) s :
  heard c v -> (forall x, v <> MConnect x) -> sok (fun m s' => came c m s') (alloc_msg v) s.
Proof.
  intros Hv Hnc. destruct v as [x|rc|v| | | | | | | | |]; try done; [by destruct (Hnc x)|]. eapply sok_bind.
  - apply sok_alloc. exists v. split; [|done]. left. by exists c.
  - intros p s' _ Hp. by exists v, v.
Qed.

Lemma came_extends c m s s' : extends s s' -> came c m s -> came c m s'.
Proof. intros Hx. destruct m; simpl; try done. by apply own_pub_extends. Qed.

Lemma safe_inbound_msg c (v : Message Publish) :
  heard c v -> (forall x, v <> MConnect x) -> safe (inbound_msg c v).
Proof.
  intros Hv Hnc s. unfold inbound_msg, doPublishAck. eapply sok_bind; [by apply sok_alloc_msg|]. intros m s1 _ Hm1.
  eapply sok_bind; [apply safe_do_stats|]. intros [] s2 Hx2 _.
  eapply sok_bind; [apply safe_do_stats|]. intros [] s3 Hx3 _.
  eapply sok_bind; [apply safe_refreshOpTime|]. intros [] s4 Hx4 _.
  assert (came c m s4) as Hm by (do 3 (eapply came_extends; [done|]); done). clear Hm1.
  destruct m; simpl in Hm;
    [done|safe_rest|eapply sok_bind; [by apply sok_doPublish|done]|safe_rest..].
  - by apply safe_doSubscribe.
  - by apply safe_doUnsubscribe.
  - by apply safe_submit.
Qed.

(** One turn of the inbound loop, for the [n]-th message. *)
Lemma iok_inbound_msg c (v : Message Publish) n s :
  heard c v -> (forall x, v = MConnect x -> calls n c x) -> placed c n s ->
  iok c (fun _ s' => placed c (S n) s') (inbound_msg c v) s.
Proof.
  intros Hv Hn Hp.
  assert ((exists x, v = MConnect x) \/ forall x, v <> MConnect x) as [[x ->]|Hnc]
    by (destruct v; try (by right); left; by eexists).
  - specialize (Hn x eq_refl). pose proof (fun j => placed_mine c j) as HF. unfold inbound_msg. cbn [alloc_msg bind].
    eapply (iok_step c); [apply HF|exact Hp|apply safe_do_stats|]. intros [] s1 _ H1'.
    eapply (iok_step c); [apply HF|exact H1'|apply safe_do_stats|]. intros [] s2 _ H2'.
    eapply (iok_step c); [apply HF|exact H2'|apply safe_refreshOpTime|]. intros [] s3 _ H3'.
    eapply iok_bind; [by apply iok_doConnect|]. intros rc s4 H4'. by case_decide.
  - eapply ok_weaken; [apply (iok_keep c (placed c n) (fun _ _ => True)); [apply placed_mine|done|]|].
    + by apply safe_inbound_msg.
    + intros a s' [_ Hp']. eapply placed_le; [|exact Hp']. lia.
Qed.

Lemma safe_inbound_err c : safe (inbound_err c).
Proof. unfold inbound_err. safe_walk. Qed.

Lemma safe_inbound_defer c : safe (inbound_defer c).
Proof.
  unfold inbound_defer, onTerminate. safe_walk. apply safe_on_conn. intros h ids k [Hj Hw Hs Hm].
  unfold on_jobs, ch_close. destruct (ch_closed (jobs k)); [done|]. by split; [split|].
Qed.

(** The next job of the queue fits the connection. *)
Lemma sok_recv c s :
  sok (fun x s' => forall j, x = Some j -> job_fits (srv_heap s') c (job_m j)) (on_conn c (on_jobs ch_recv)) s.
Proof.
  apply sok_atomic. intros s' _ Hs'. destruct (srv_conns s' !! c) as [k|] eqn:Hk; [|done].
  destruct (se_conns _ Hs' c k Hk) as [Hj Hw Hst Hf]. unfold on_jobs, ch_recv.
  destruct (ch_buf (jobs k)) as [|j q] eqn:Hb; [destruct (ch_closed (jobs k)); [|done]|].
  - split; [|done]. eapply lawful_conn; [done|done|done|]. intros _. split; [simpl; by rewrite Hb|done..].
  - apply Forall_cons in Hj as [[Hj _] Hb']. split; [|by intros ? [= <-]].
    eapply lawful_conn; [done|done|done|]. intros _. by split.
Qed.

(** What is encoded fits too, and what it would put into the store may be kept. *)
Lemma sok_encode c m s :
  job_fits (srv_heap s) c m ->
  sok (fun (v : Message Publish) s' => sent_fits c v /\ job_fits (srv_heap s') c m /\
         forall u, v = MPublish u -> exists p, m = MPublish p /\ srv_heap s' !! p = Some u /\ fits c u)
    (read_msg m) s.
Proof.
  intros Hm. apply sok_atomic. intros s' Hx Hs'.
  pose proof (job_fits_extends _ _ _ _ Hx Hm) as Hm'.
  destruct (view (srv_heap s') m) as [v|] eqn:Hv; [|done]. split; [by apply lawful_refl|].
  split; [|split; [done|]]; destruct m; simplify_eq/=; try done; destruct Hm' as (u & Hu & He); rewrite Hu in Hv;
    simplify_eq/=.
  - split; [done|]. exact (Forall_lookup_1 _ _ _ _ (se_heap _ Hs') Hu).
  - intros ? [= <-]. by exists p.
Qed.

Lemma sok_persist_outbound c (v : Message Publish) m s :
  (forall u, v = MPublish u -> exists p, m = MPublish p /\ srv_heap s !! p = Some u /\ fits c u) ->
  sok (fun _ _ => True) (call_store c (persist_outbound_call v m)) s.
Proof.
  intros Hv. apply sok_call_store. intros key m'. destruct v as [| |u| | | | | | | | |]; simpl; try done.
  case_decide; [|done]. intros [= <- <-]. destruct (Hv u eq_refl) as (p & -> & Hp & Hf).
  exists p, u. split; [done|]. split; [done|]. intros id Hid. by eapply (gt_keep _ _ G).
Qed.

Lemma safe_outbound_job c sent : safe (outbound_job c sent).
Proof.
  intros s. unfold outbound_job. eapply sok_bind; [apply sok_recv|]. intros [j|] s1 _ Hj; [|done].
  specialize (Hj j eq_refl). eapply sok_bind; [by apply sok_encode|]. intros v0 s2 _ (_ & Hj2 & Hst).
  eapply sok_bind; [by apply sok_persist_outbound|]. intros [] s3 Hx3 _.
  eapply sok_bind; [apply sok_encode; by eapply job_fits_extends|]. intros v s4 _ (Hv & _ & _).
  apply (sok_bind (fun _ _ => True)); [|intros [] s5 _ _; safe_rest].
  destruct sent; [|done]. apply safe_on_conn. intros h ids k [Hjs Hw Hs Hm]. split; [|done].
  split; [done| |done|done]. simpl. apply Forall_app. by split; [|constructor].
Qed.

Lemma safe_outbound_stop c : safe (outbound_stop c).
Proof. apply safe_on_conn. intros h ids k Hk. by destruct (stopChan k). Qed.

Lemma safe_outbound_defer c : safe (outbound_defer c).
Proof.
  unfold outbound_defer. safe_walk.
  - apply safe_on_conn. intros h ids k [Hj Hw Hs Hm]. destruct (heartbeatStop k); [done|]. by split; [split|].
  - apply safe_critical_; [|done]. intros tb. apply kept_table_unsubAll.
Qed.

Lemma safe_heartbeat_tick c ka : timed c ka -> safe (heartbeat_tick c ka).
Proof.
  intros Hka. unfold heartbeat_tick. safe_walk. apply safe_submitSync. right. by exists ka.
Qed.

Lemma safe_heartbeat_stop c : safe (heartbeat_stop c).
Proof. apply safe_on_conn. intros h ids k Hk. by destruct (heartbeatStop k). Qed.

Lemma safe_replay_msg (v : Message Publish) : replayed v -> safe (replay_msg v).
Proof.
  intros Hv. destruct v as [| |v| | | | | | | | |]; try apply safe_ret. unfold replay_msg. safe_walk.
  intros s. eapply sok_bind; [|done]. apply sok_alloc. exists v. split; [by right|done].
Qed.

(** ** The whole system *)

(** A goroutine of a system that has taken [n] messages from the network. *)
Definition task_sealed (n : nat) (t : task) s : Prop :=
  match t with
  | InIdle c => placed c n s
  | InRun c p => conn_valid c s /\ iok c (fun _ s' => placed c n s') p s
  | HbIdle c ka => timed c ka
  | HbRun c ka p => timed c ka /\ sok (fun _ _ => True) p s
  | OutRun _ p | Worker p => sok (fun _ _ => True) p s
  | InDefer _ p | OutDefer _ p | PeerRun p | PeerDefer p => sok (fun _ _ => True) p s
  | OutIdle _ | Acceptor _ | PeerIdle | Finished => True
  end.

Lemma task_sealed_rely n t s s' :
  extends s s' -> (forall c, owner t = Some c -> mine c s s') -> task_sealed n t s -> task_sealed n t s'.
Proof.
  intros Hx Ho. destruct t as [c|c p|c p|c|c p|c p|c ka|c ka p|p|a| |p|p|]; simpl; try done;
    try (apply ok_rely; by try apply _).
  - by apply placed_mine, Ho.
  - intros [Hv Hp]. specialize (Ho c eq_refl). split; [by eapply mine_valid|]. revert Hp. apply ok_rely; [apply _| |by split]. intros _ s1 s2 [_ Hm]. by apply placed_mine.
  - intros [Hka Hp]. split; [done|]. revert Hp. apply ok_rely; by try apply _.
Qed.

Lemma task_sealed_le n n' t s : n <= n' -> task_sealed n t s -> task_sealed n' t s.
Proof.
  intros Hle. destruct t; simpl; try done.
  - by apply placed_le.
  - intros [Hv Hp]. split; [done|]. eapply ok_weaken; [exact Hp|]. intros a s'. by apply placed_le.
Qed.

Lemma task_sealed_owner n t c s : task_sealed n t s -> owner t = Some c -> conn_valid c s.
Proof. destruct t; simpl; try done; intros [Hv _] [= <-]; done. Qed.

(** What a goroutine leaves to the others. *)
Definition moved_to (n : nat) (t : task) s s' (t' : task) : Prop :=
  sealed s' /\ extends s s' /\ (forall d, owner t <> Some d -> mine d s s') /\
  task_sealed n t' s' /\ (owner t' = owner t \/ owner t' = None).

Lemma lawful_moved n t s s' t' :
  lawful s s' -> task_sealed n t' s' -> (owner t' = owner t \/ owner t' = None) -> moved_to n t s s' t'.
Proof. intros (Hs & Hx & Hm) Ht Ho. do 3 (split; [done|]). done. Qed.

Lemma run_proc_sealed {A} n t (wrap : proc Server A -> task) fin p s :
  sealed s -> sok (fun _ _ => True) p s -> owner t = None ->
  (forall p' s', sok (fun _ _ => True) p' s' -> task_sealed n (wrap p') s' /\ owner (wrap p') = None) ->
  (forall a s', task_sealed n (fin a) s' /\ owner (fin a) = None) ->
  match run_proc wrap fin p s with Done s' t' => moved_to n t s s' t' | _ => True end.
Proof.
  intros Hs Hp Ho Hw Hf. destruct p as [a|f]; simpl in *.
  - destruct (Hf a s). apply lawful_moved; [by apply lawful_refl|done|by right].
  - assert (extends s s) as Hx by reflexivity. specialize (Hp s Hx Hs).
    destruct (f s) as [s' p'| |w]; [|done|done]. destruct Hp as (Hs' & Hx' & Hp').
    destruct (Hw p' s' Hp'). apply lawful_moved; [done|done|by right].
Qed.

Lemma run_inbound_sealed n c p s :
  sealed s -> conn_valid c s -> iok c (fun _ s' => placed c n s') p s ->
  match tact (InRun c p) s with Done s' t' => moved_to n (InRun c p) s s' t' | _ => True end.
Proof.
  intros Hs Hv Hp. destruct p as [fl|f]; simpl in *.
  - destruct fl; (apply lawful_moved; [by apply lawful_refl| |]); simpl; [done|by left| |by right].
    apply safe_inbound_defer.
  - assert (rely_own c s s) as Hx by reflexivity. specialize (Hp s Hx Hs).
    destruct (f s) as [s' p'| |w]; [|done|done]. destruct Hp as (Hs' & (Hx' & Hv' & Hm) & Hp').
    split; [done|]. split; [done|]. split; [intros d Hd; apply Hm; simpl in Hd; congruence|].
    split; [|by left]. split; [by apply Hv'|done].
Qed.

Lemma tact_sealed n t s :
  sealed s -> task_sealed n t s ->
  match tact t s with Done s' t' => moved_to n t s s' t' | _ => True end.
Proof.
  intros Hs. destruct t as [c|c p|c p|c|c p|c p|c ka|c ka p|p|a| |p|p|]; cbn [task_sealed tact]; try done.
  - intros [Hv Hp]. by apply run_inbound_sealed.
  - intros Hp. by apply run_proc_sealed.
  - intros Hp. apply run_proc_sealed; [done..|]. intros [] s'; [done|]. split; [apply safe_outbound_defer|done].
  - intros Hp. by apply run_proc_sealed.
  - intros [Hka Hp]. apply run_proc_sealed; [done..|]. by intros [] s'.
  - intros Hp. apply run_proc_sealed; [done..|]. intros [] s'; [|done]. split; [apply safe_run_body|done].
  - intros _. destruct a; [done|]. apply lawful_moved; [by apply lawful_rest|done|by left].
  - intros Hp. by apply run_proc_sealed.
  - intros Hp. by apply run_proc_sealed.
Qed.

Lemma select_sealed n t x t1 s :
  select t x = Some t1 -> task_sealed n t s -> task_sealed n t1 s /\ owner t = None /\ owner t1 = None.
Proof.
  destruct t, x; simpl; try done; intros [= <-] Ht; (split; [|done]); cbn [task_sealed].
  - apply safe_outbound_job.
  - apply safe_outbound_job.
  - apply safe_outbound_stop.
  - split; [done|]. apply safe_heartbeat_stop.
  - split; [done|]. by apply safe_heartbeat_tick.
Qed.

(** The event is the [n]-th of the log. *)
Definition noted (n : nat) (e : event) : Prop :=
  match e with
  | FromClient c v => heard c v /\ forall x, v = MConnect x -> calls n c x
  | FromPeer v => replayed v
  end.

Lemma receive_sealed pol n s' t (v : option (Message Publish)) t1 s :
  receive pol s' t v = Some t1 -> Forall (noted n) (hears t v) -> task_sealed n t s ->
  task_sealed (n + length (hears t v)) t1 s /\ owner t1 = owner t.
Proof.
  intros Hr Hn Ht. destruct t, v as [v|]; cbn [receive hears] in *; try done;
    rewrite ?Nat.add_0_r, ?Nat.add_1_r.
  - apply Forall_cons in Hn as [[Hv Hc] _]. destruct (sends pol s' c v); [|done]. injection Hr as <-. split; [|done].
    split; [apply Ht|]. by apply iok_inbound_msg.
  - destruct (fails pol s' c); [|done]. injection Hr as <-. split; [|done]. split; [apply Ht|].
    eapply ok_weaken; [apply (iok_keep c (placed c n) (fun _ _ => True)); [apply placed_mine|done|]|].
    + apply safe_inbound_err.
    + by intros a s1 [].
  - apply Forall_cons in Hn as [Hn _]. destruct (replays pol s' v); [|done]. injection Hr as <-. split; [|done].
    by apply safe_replay_msg.
  - injection Hr as <-. split; [apply safe_do_stats|done].
Qed.

Record sys_sealed (n : nat) (y : sys) : Prop := {
  ss_inv : sealed (sy_srv y);
  ss_tasks i t : sy_tasks y !! i = Some t -> task_sealed n t (sy_srv y);
  ss_owners : unique_by owner (sy_tasks y)
}.

Definition world_sealed (n : nat) (w : world) : Prop :=
  match w with Up y => sys_sealed n y | Down _ => True end.

(** One goroutine moved. *)
Lemma sys_sealed_move n n' s ts s' i t t' :
  sys_sealed n (Sys s ts) -> n <= n' -> ts !! i = Some t -> moved_to n' t s s' t' ->
  sys_sealed n' (Sys s' (<[i := t']> ts)).
Proof.
  intros [Hs Ht Hu] Hn Hi (Hs' & Hx & Hm & Ht' & Ho). split; simpl in *; [done| |by eapply unique_by_insert].
  intros j u Hj. destruct (decide (i = j)) as [<-|Hne].
  - rewrite list_lookup_insert_eq in Hj by (by eapply lookup_lt_Some). by simplify_eq.
  - rewrite list_lookup_insert_ne in Hj by done. eapply task_sealed_le; [done|].
    eapply task_sealed_rely; [done| |by eapply Ht]. intros c Hc. apply Hm. intros Hc'.
    by apply Hne, (Hu i j t u c).
Qed.

(** Goroutines that are not inbound loops start. *)
Lemma sys_sealed_grow n s ts s' us :
  sys_sealed n (Sys s ts) -> lawful s s' -> Forall (fun t => task_sealed n t s' /\ owner t = None) us ->
  sys_sealed n (Sys s' (ts ++ us)).
Proof.
  intros [Hs Ht Hu] (Hs' & Hx & Hm) Hus. split; simpl in *; [done| |].
  - intros j t Hj. apply lookup_app_Some in Hj as [Hj|[_ Hj]]; [|exact (proj1 (Forall_lookup_1 _ _ _ _ Hus Hj))].
    eapply task_sealed_rely; [done|by intros c _|by eapply Ht].
  - apply unique_by_app; [done|]. eapply Forall_impl; [exact Hus|]. by intros u [].
Qed.

Lemma lawful_accept s s' c : sealed s -> accept_conn s = Done s' c ->
  lawful s s' /\ c = length (srv_conns s) /\ (forall n, placed c n s').
Proof.
  intros Hs Ha. unfold accept_conn in Ha. case_match; simplify_eq.
  assert (forall id e, srv_clients s !! id = Some e -> e < length (srv_conns s)) as Hreg
    by (intros id e Hid; by apply (se_clients _ Hs id e)).
  split; [|split; [done|]].
  - split; [|split; [by apply extends_same|]].
    + destruct Hs. split; try done; simpl.
      * intros d k Hd. apply lookup_app_Some in Hd as [Hd|[_ Hd]]; [by apply se_conns0|].
        apply list_lookup_singleton_Some in Hd as [_ <-]. by split.
      * intros id e Hid. destruct (se_clients0 id e Hid). split; [done|]. rewrite length_app. lia.
    + intros d k Hd. split; [|done]. exists k. split; [by apply lookup_app_l_Some|done].
  - intros n. split.
    + exists (new_conn (Broker (srv_cf s)) (srv_clock s)). simpl. apply last_snoc_lookup.
    + simpl. intros id Hid. specialize (Hreg id _ Hid). lia.
Qed.

(** A new connection and its loops. *)
Lemma sys_sealed_accept n s ts i s' c :
  sys_sealed n (Sys s ts) -> ts !! i = Some (Acceptor true) -> accept_conn s = Done s' c ->
  sys_sealed n (Sys s' (<[i := Acceptor false]> ts ++ [InIdle c; OutIdle c])).
Proof.
  intros Hy Hi Ha. destruct (lawful_accept s s' c (ss_inv _ _ Hy) Ha) as (Hl & Ec & Hp).
  assert (sys_sealed n (Sys s (<[i := Acceptor false]> ts))) as Hy1.
  { eapply sys_sealed_move; [done|done|done|]. apply lawful_moved; [|done|by left].
    apply lawful_refl, (ss_inv _ _ Hy). }
  assert (sys_sealed n (Sys s' (<[i := Acceptor false]> ts))) as [Hs2 Ht2 Hu2].
  { rewrite <- (app_nil_r (<[i := Acceptor false]> ts)). by eapply sys_sealed_grow. }
  split; simpl in *; [done| |apply unique_by_accept; [done| |by left]].
  - intros j t Hj. apply lookup_app_Some in Hj as [Hj|[_ Hj]]; [by eapply Ht2|].
    destruct (j - _) as [|[|m]]; simpl in Hj; simplify_eq; [apply Hp|done].
  - intros j t Hj Ho. destruct (task_sealed_owner n t c s (ss_tasks _ _ Hy1 j t Hj) Ho) as [k Hk].
    apply lookup_lt_Some in Hk. lia.
Qed.

(** A step that takes nothing from the network. *)
Lemma step_sealed pol n w w' :
  (forall s t (v : option (Message Publish)) t', receive pol s t v = Some t' -> hears t v = []) ->
  world_sealed n w -> step pol w w' -> world_sealed n w'.
Proof.
  intros Hpol Hw Hstep.
  destruct Hstep as [s ts i t s' t' Hi Ht|s ts i t w' Hi Ht|s ts i t x t1 s' t' Hi Hx Ht
    |s ts i t x t1 w' Hi Hx Ht|s ts i t v t' Hi Hr|s ts i s' c Hi Ha|s ts i w' Hi Ha|s ts c ka gs Hgo
    |s ts|s ts now Hn]; simpl in *; try done; pose proof (ss_inv _ _ Hw) as Hs; simpl in Hs.
  - pose proof (tact_sealed n t s Hs (ss_tasks _ _ Hw i t Hi)) as Hm. rewrite Ht in Hm.
    by eapply sys_sealed_move.
  - destruct (select_sealed n t x t1 s Hx (ss_tasks _ _ Hw i t Hi)) as (Ht1 & Ho & Ho1).
    pose proof (tact_sealed n t1 s Hs Ht1) as Hm. rewrite Ht in Hm. unfold moved_to in Hm. rewrite Ho1 in Hm.
    eapply sys_sealed_move; [done|done|done|]. unfold moved_to. by rewrite Ho.
  - pose proof (Hpol s t v t' Hr) as Hh. destruct (receive_sealed pol n s t v t' s Hr) as [Ht' Ho].
    + by rewrite Hh.
    + by apply (ss_tasks _ _ Hw i).
    + rewrite Hh, Nat.add_0_r in Ht'. eapply sys_sealed_move; [done|done|done|].
      apply lawful_moved; [by apply lawful_refl|done|by left].
  - by apply sys_sealed_accept with s.
  - pose proof (se_gos _ Hs) as Hg. rewrite Hgo in Hg. apply Forall_cons in Hg as [Hc Hgs].
    apply sys_sealed_grow with s; [done|by apply lawful_parts|by repeat constructor].
  - apply sys_sealed_grow with s; [done|by apply lawful_rest|by repeat constructor].
  - rewrite <- (app_nil_r ts). apply sys_sealed_grow with s; [done|by apply lawful_rest|done].
Qed.

Lemma start_sealed conf now w : Broker conf = b -> started conf now w -> world_sealed 0 w.
Proof.
  intros Hb (s & Hs & ->). unfold NewServer in Hs. case_match; simplify_eq.
  assert (forall i t, start_tasks conf !! i = Some t ->
    (forall n s, task_sealed n t s) /\ owner t = None) as Hin.
  { intros i t Hi. apply lookup_app_Some in Hi as [Hi|[_ Hi]].
    - apply lookup_replicate in Hi as [-> _]. split; [|done]. intros n. apply safe_run_body.
    - by apply list_lookup_singleton_Some in Hi as [_ <-]. }
  split; simpl.
  - by split.
  - intros i t Hi. by apply (Hin i t).
  - intros i j t u c Hi _ Ho. destruct (Hin i t Hi) as [_ Hn]. congruence.
Qed.
End Warrant.
