(* ===== verification/History.v ===== *)
(** * What came in and what went out

    An execution with the log of the messages that clients and peers sent in it.
    Everything the broker ever writes to a client has its reason in the log: it is
    the answer to a request of that client, or a publication that somebody sent and
    that the client subscribed to or resumed with its session. *)

From Stdlib Require Import ZArith Lia.
From stdpp Require Import base gmap list strings numbers sets relations.
From S2P Require Import Prelude GoString GoProc GoSlice Wild Config Proto Store Stats Subs Broker.
From S2P Require Import Session SessionFacts Delivery Peers Invariant Sched Executions Isolation Warrant.

Local Open Scope string_scope.
Local Open Scope list_scope.

(** ** Executions with their log *)

Section Log.
Context `{GoRuntime} `{Extern}.
Implicit Types (s : Server) (c d : conn_ptr) (u v : Publish) (l : list event).

(** Nothing comes in from the network but failures. *)
Definition mute (pol : policy) : policy := {|
  sends _ _ _ := false;
  fails := fails pol;
  replays _ _ := false
|}.

Inductive logged (pol : policy) (w0 : world) : list event -> world -> Prop :=
| logged_start : logged pol w0 [] w0
| logged_inner l w w' : logged pol w0 l w -> step (mute pol) w w' -> logged pol w0 l w'
| logged_receive l s ts i t m t' :
    logged pol w0 l (Up (Sys s ts)) -> ts !! i = Some t -> receive pol s t m = Some t' ->
    logged pol w0 (l ++ hears t m) (with_task i t' s ts).

(** Executions and executions with a log are the same. *)
Lemma step_mute pol w w' : step (mute pol) w w' -> step pol w w'.
Proof.
  destruct 1 as [| | | |s ts i t m t' Hi Hr| | | | |]; try (by econstructor).
  apply step_receive with t m; [done|]. by destruct t, m.
Qed.

Lemma logged_sound pol w0 l w : logged pol w0 l w -> rtc (step pol) w0 w.
Proof.
  induction 1 as [|l w w' _ IH Hs|l s ts i t m t' _ IH Hi Hr]; [done|..];
    (eapply rtc_r; [exact IH|]); [by apply step_mute|by eapply step_receive].
Qed.

Lemma logged_complete pol w0 w : rtc (step pol) w0 w -> exists l, logged pol w0 l w.
Proof.
  revert w. apply rtc_ind_r; [exists []; constructor|]. intros w w' _ Hs [l Hl].
  destruct Hs as [| | | |s ts i t m t' Hi Hr| | | | |];
    try (exists l; eapply logged_inner; [done|by econstructor]).
  exists (l ++ hears t m). by apply logged_receive.
Qed.

(** What is in the log was allowed. *)
Lemma logged_allowed pol w0 l w c m :
  logged pol w0 l w -> FromClient c m ∈ l -> exists s, sends pol s c m = true.
Proof.
  induction 1 as [|l w w' _ IH Hs|l s ts i t x t' _ IH Hi Hr]; [by intros ?%elem_of_nil|done|].
  intros [Hin|Hin]%elem_of_app; [by apply IH|]. exists s.
  destruct t as [d| | | | | | | | | | | | |], x as [x|]; simplify_eq/=; try (by apply elem_of_nil in Hin);
    apply list_elem_of_singleton in Hin; simplify_eq. by destruct (sends pol s d x).
Qed.

(** The log of the moves of the scheduler. *)
Definition heard_by (pol : policy) (m : move) (w : world) : list event :=
  match m, w with
  | GoReceive i x, Up (Sys s ts) =>
      match ts !! i with
      | Some t => match receive pol s t x with Some _ => hears t x | None => [] end
      | None => []
      end
  | _, _ => []
  end.

Definition log_move (pol : policy) (m : move) (lw : list event * world) : list event * world :=
  (lw.1 ++ heard_by pol m lw.2, default lw.2 (do_move pol m lw.2)).

Fixpoint log_moves (pol : policy) (ms : list (nat * move)) (lw : list event * world) : list event * world :=
  match ms with
  | [] => lw
  | (n, m) :: ms' => log_moves pol ms' (Nat.iter n (log_move pol m) lw)
  end.

Lemma do_move_mute pol m w :
  (forall i x, m <> GoReceive i x) -> do_move (mute pol) m w = do_move pol m w.
Proof. intros Hm. destruct m as [i|i x|i x|i| |now]; try done. by destruct (Hm i x). Qed.

Lemma log_move_sound pol m w0 lw :
  logged pol w0 lw.1 lw.2 -> logged pol w0 (log_move pol m lw).1 (log_move pol m lw).2.
Proof.
  destruct lw as [l w]. intros Hl. unfold log_move. cbn [fst snd] in *.
  assert ((exists i x, m = GoReceive i x) \/ forall i x, m <> GoReceive i x) as [(i & x & ->)|Hm]
    by (destruct m; eauto).
  - destruct w as [[s ts]|]; cbn; [|by rewrite app_nil_r].
    destruct (ts !! i) as [t|] eqn:Hi; cbn; [|by rewrite app_nil_r].
    destruct (receive pol s t x) as [t'|] eqn:Hr; cbn; [|by rewrite app_nil_r]. by apply logged_receive.
  - assert (heard_by pol m w = []) as -> by (destruct m; try done; by edestruct Hm).
    rewrite app_nil_r, <- do_move_mute by done. destruct (do_move (mute pol) m w) as [w'|] eqn:E; [|done].
    eapply logged_inner; [exact Hl|]. by eapply do_move_sound.
Qed.

Lemma log_moves_sound pol ms w0 lw :
  logged pol w0 lw.1 lw.2 -> logged pol w0 (log_moves pol ms lw).1 (log_moves pol ms lw).2.
Proof.
  revert lw. induction ms as [|[n m] ms IH]; intros lw Hl; [done|]. apply IH.
  induction n as [|n IHn]; [done|]. by apply log_move_sound.
Qed.

(** ** Reasons *)

Section Reasons.
Context (l : list event).

Definition says c (m : Message Publish) : Prop := FromClient c m ∈ l.
Definition peers_say (m : Message Publish) : Prop := FromPeer m ∈ l.
Definition connects (i : nat) c (m : Connect) : Prop := l !! i = Some (FromClient c (MConnect m)).

Lemma log_numbered : numbered says connects.
Proof.
  split.
  - intros i c m Hi. by apply list_elem_of_lookup_2 with i.
  - intros c m Hm. by apply list_elem_of_lookup_1.
  - unfold connects. congruence.
Qed.

(** The connection published it, with QoS 1. *)
Definition own_qos1 c v : Prop :=
  exists u, says c (MPublish u) /\ Qos (PubHeader u) = QosAtLeastOnce /\ copy_of u v.

(** The connection asked for the topic; or it resumed a session, and the QoS 1
    publication was due to, or came from, a connection of the same client id. *)
Inductive deserves : conn_ptr -> Publish -> Prop :=
| deserves_asked c v : entitled says c (TopicName v) -> deserves c v
| deserves_resumed c d m id v :
    says c (MConnect m) -> CleanSession m = false -> uses says c id -> uses says d id ->
    Qos (PubHeader v) = QosAtLeastOnce -> deserves d v -> deserves c v
| deserves_own c d m id v :
    says c (MConnect m) -> CleanSession m = false -> uses says c id -> uses says d id ->
    own_qos1 d v -> deserves c v.

(** The reason for a message that is sent to [c] by a broker configured by [b]. *)
Definition has_reason (b : BrokerConfig) c (m : Message Publish) : Prop :=
  answers b says connects (fun v => deserves c v /\ origin says peers_say v) c m.

Lemma own_qos1_copy c u v : copy_of u v -> own_qos1 c u -> own_qos1 c v.
Proof. intros Hc (u0 & Hu & Hq & Hc0). exists u0. split; [done|]. split; [done|by etrans]. Qed.

Lemma deserves_copy c u v : copy_of u v -> deserves c u -> deserves c v.
Proof.
  intros Hc Hu. revert v Hc. induction Hu as [c u Ha|c d m id u ? ? ? ? Hq _ IH|c d m id u ? ? ? ? Ho]; intros v Hc.
  - apply deserves_asked. by rewrite (copy_TopicName _ _ Hc).
  - apply (deserves_resumed c d m id); try done; [by rewrite (copy_Qos _ _ Hc)|by apply IH].
  - apply (deserves_own c d m id); try done. by eapply own_qos1_copy.
Qed.

(** What is kept for a client id: what is due to, or came from, one of its connections. *)
Definition kept_due (id : string) v : Prop :=
  exists d, uses says d id /\ (deserves d v \/ own_qos1 d v).

Lemma deserves_grants : grants says deserves kept_due.
Proof.
  split.
  - apply deserves_asked.
  - apply deserves_copy.
  - intros id u v Hc (d & Hd & [Hu|Hu]); exists d; (split; [done|]).
    + left. by eapply deserves_copy.
    + right. by eapply own_qos1_copy.
  - intros c id v Hu Hv. exists c. auto.
  - intros c id u Hu Hs Hq. exists c. split; [done|]. right. by exists u.
  - intros c m id v Hm Hc Hu (d & Hd & [Hv|Hv]) Hq; [by eapply deserves_resumed|by eapply deserves_own].
Qed.

Lemma deserves_clean c v :
  (forall m, says c (MConnect m) -> CleanSession m = true) -> deserves c v -> entitled says c (TopicName v).
Proof.
  intros Hclean. by destruct 1 as [c v Ha|c d m id v Hm Hf|c d m id v Hm Hf];
    [|specialize (Hclean m Hm); congruence..].
Qed.
End Reasons.

(** The event that comes in now is the next one of the log. *)
Lemma hears_noted l l' t (m : option (Message Publish)) :
  (l' ++ hears t m) `prefix_of` l ->
  Forall (noted (says l) (peers_say l) (connects l) (length l')) (hears t m).
Proof.
  intros [l2 ->]. assert (forall e, hears t m = [e] ->
    ((l' ++ hears t m) ++ l2) !! length l' = Some e) as Hat.
  { intros e ->. rewrite <- app_assoc, lookup_app_r by done. by rewrite Nat.sub_diag. }
  destruct t, m as [m|]; simpl in *; try done; specialize (Hat _ eq_refl); (constructor; [|done]); simpl.
  - split; [by apply list_elem_of_lookup_2 with (length l')|]. intros x ->. exact Hat.
  - by apply list_elem_of_lookup_2 with (length l').
Qed.

(** Everything in the state of an execution has its reason in the log. *)
Lemma logged_sealed pol conf now w0 l w :
  started conf now w0 -> logged pol w0 l w ->
  world_sealed (Broker conf) (says l) (peers_say l) (connects l) (deserves l) (kept_due l) (length l) w.
Proof.
  intros Hstart Hl. pose proof (deserves_grants l) as G. pose proof (log_numbered l) as N.
  assert (forall l' w', logged pol w0 l' w' -> l' `prefix_of` l ->
    world_sealed (Broker conf) (says l) (peers_say l) (connects l) (deserves l) (kept_due l) (length l') w')
    as Hgen.
  { induction 1 as [|l' w1 w2 _ IH Hs|l' s ts i t m t' _ IH Hi Hr]; intros Hpre.
    - by eapply start_sealed.
    - eapply step_sealed; [exact N|exact G| |by apply IH|exact Hs]. intros s t m t' Hr.
      by destruct t, m; simplify_eq/=.
    - assert (l' `prefix_of` l) as Hl1 by (etrans; [by apply prefix_app_r|exact Hpre]).
      specialize (IH Hl1). pose proof (ss_inv _ _ _ _ _ _ _ _ IH) as Hs.
      assert (Forall (noted (says l) (peers_say l) (connects l) (length l')) (hears t m)) as Hn
        by (by apply hears_noted).
      edestruct receive_sealed as [Ht' Ho]; [exact N|exact G|exact Hr|exact Hn|by eapply (ss_tasks _ _ _ _ _ _ _ _ IH)|].
      rewrite length_app. eapply sys_sealed_move; [exact IH|lia|exact Hi|].
      apply lawful_moved; [by apply lawful_refl|exact Ht'|by left]. }
  by eapply Hgen.
Qed.

Lemma logged_wire pol conf now w0 l y c k m :
  started conf now w0 -> logged pol w0 l (Up y) -> srv_conns (sy_srv y) !! c = Some k ->
  m ∈ wire k -> has_reason l (Broker conf) c m.
Proof.
  intros Hstart Hl Hk Hm. pose proof (ss_inv _ _ _ _ _ _ _ _ (logged_sealed _ _ _ _ _ _ Hstart Hl)) as Hs.
  pose proof (cf_wire _ _ _ _ _ _ _ _ _ (se_conns _ _ _ _ _ _ _ Hs c k Hk)) as Hw.
  rewrite Forall_forall in Hw. exact (Hw m Hm).
Qed.
End Log.

(** ** Properties *)

#[local] Existing Instance doubling_runtime.
#[local] Existing Instance bytes_mqttmsg.
#[local] Existing Instance plain_extern.

Module DemoHistory.
(** The first client subscribes to a wildcard filter, the second publishes to a topic
    of the filter and to another one; the first is sent its CONNACK, its SUBACK and
    what was queued. *)
Definition moves : list (nat * move) :=
  Run.accept_one ++ Run.accept_one ++
  Run.handle 3 (MConnect (Demo.connect_msg "c0")) ++ Run.handle 5 (MConnect (Demo.connect_msg "c1")) ++
  Run.handle 3 (MSubscribe 1 [("t/+", QosAtMostOnce)]) ++
  Run.handle 5 (MPublish (Demo.publish_msg "u" QosAtMostOnce false 0 "x")) ++ [(Run.all, GoRun 0)] ++
  Run.handle 5 (MPublish (Demo.publish_msg "t/a" QosAtMostOnce false 0 "y")) ++ [(Run.all, GoRun 1)] ++
  concat (replicate 3 [(1, GoSelect 4 PickSent); (Run.all, GoRun 4)]).

Definition received : Publish := Demo.publish_msg "t/a" QosAtMostOnce false 0 "y".

(** Nobody subscribes.  A client publishes with QoS 1 and loses its connection before
    the PUBACK is taken from its queue; then it resumes its session. *)
Definition echo : list (nat * move) :=
  Run.accept_one ++ Run.accept_one ++
  Run.handle 3 (MConnect (Demo.connect_msg "c0")) ++
  Run.handle 3 (MPublish (Demo.publish_msg "t" QosAtLeastOnce false 7 "x")) ++
  [(1, GoReceive 3 None); (Run.all, GoRun 3); (1, GoSelect 4 PickFailed); (Run.all, GoRun 4)] ++
  Run.handle 5 (MConnect Demo2.resume) ++ [(1, GoSelect 6 PickSent); (Run.all, GoRun 6)].

(** Two clients ask for the same client id: the first is sent a DISCONNECT. *)
Definition takeover : list (nat * move) :=
  Run.accept_one ++ Run.accept_one ++
  Run.handle 3 (MConnect (Demo.connect_msg "c")) ++ Run.handle 5 (MConnect (Demo.connect_msg "c")) ++
  concat (replicate 2 [(1, GoSelect 4 PickSent); (Run.all, GoRun 4)]).

Definition run (ms : list (nat * move)) : list event * world := log_moves any_client ms ([], Run.start).

Lemma run_logged ms :
  Run.is_up (run ms).2 = true -> logged any_client Run.start (run ms).1 (Up (Run.final (run ms).2)).
Proof.
  intros Hup. assert (logged any_client Run.start (run ms).1 (run ms).2) as Hl
    by (apply log_moves_sound; constructor).
  by destruct (run ms).2.
Qed.
End DemoHistory.

(** C3: clients are sent what they ask for and nothing else.  In every execution,
    whatever is published and however the goroutines interleave, a connection whose
    own CONNECTs ask for clean sessions was only ever sent publications whose topic
    belongs to a filter of a SUBSCRIBE that it sent before: the arrays shared between
    the table and the workers never lead a publication to a client of another topic,
    and no session of another client leaks into it. *)
Theorem clients_are_sent_what_they_ask_for `{GoRuntime} `{Extern} (pol : policy) (conf : Config)
    (now : Z) (w0 : world) (l : list event) (y : sys) (c : conn_ptr) (k : incomingConn) (v : Publish)
    (Hclean : forall m, FromClient c (MConnect m) ∈ l -> CleanSession m = true)
    (Hstart : started conf now w0) (Hl : logged pol w0 l (Up y))
    (Hk : srv_conns (sy_srv y) !! c = Some k) (Hv : MPublish v ∈ wire k) :
  exists mid ts (f : string) (q : QosLevel), FromClient c (MSubscribe mid ts) ∈ l /\ (f, q) ∈ ts /\
    filter_denotes (Split f SLASH) (Split (TopicName v) SLASH).
Proof.
  destruct (logged_wire pol conf now w0 l y c k (MPublish v) Hstart Hl Hk Hv) as [Hd _].
  destruct (deserves_clean l c v Hclean Hd) as (f & (mid & ts & q & Hs & Hin) & Hf).
  by exists mid, ts, f, q.
Qed.

Lemma clients_are_sent_what_they_ask_for_witness :
  let r := DemoHistory.run DemoHistory.moves in
  let k := Run.conn_of (Run.final r.2) 0 in
  wire k = [MConnAck RetCodeAccepted; MSubAck 1 [QosAtMostOnce]; MPublish DemoHistory.received] /\
  exists mid ts (f : string) (q : QosLevel), FromClient 0 (MSubscribe mid ts) ∈ r.1 /\ (f, q) ∈ ts /\
    filter_denotes (Split f SLASH) (Split "t/a" SLASH).
Proof.
  intros r k. assert (wire k = [MConnAck RetCodeAccepted; MSubAck 1 [QosAtMostOnce];
    MPublish DemoHistory.received]) as Hw by (vm_compute; reflexivity).
  split; [exact Hw|].
  apply (clients_are_sent_what_they_ask_for any_client Run.conf 1000 Run.start r.1 (Run.final r.2) 0 k
           DemoHistory.received).
  - intros m Hm. assert (Forall (fun e => match e with
      FromClient 0 (MConnect m) => CleanSession m = true | _ => True end) r.1) as Hf
      by (vm_compute; repeat constructor).
    rewrite Forall_forall in Hf. exact (Hf _ Hm).
  - exact Run.start_started.
  - apply DemoHistory.run_logged. vm_compute. reflexivity.
  - vm_compute. reflexivity.
  - rewrite Hw. apply list_elem_of_lookup. by exists 2.
Defined.

(** C4: everything the broker sends has its reason.  In every execution, every message
    on the wire of a connection is justified by what came in before: a CONNACK by a
    CONNECT of the connection, with a code that the request deserves under the
    configuration; a PUBACK by a QoS 1 PUBLISH of the connection with that id; a SUBACK
    by a SUBSCRIBE with that id and as many filters; an UNSUBACK and a PINGRESP by
    their requests; a PUBLISH by a publication that some client or peer sent, equal
    up to the retain flag, which the connection asked for, or which is due to the
    session that it resumed; and a DISCONNECT by a CONNECT of the connection that asked
    for a keep-alive, or by a second CONNECT, of whatever connection, for the client id
    that one of its own CONNECTs asked for. *)
Theorem every_message_has_its_reason `{GoRuntime} `{Extern} (pol : policy) (conf : Config)
    (now : Z) (w0 : world) (l : list event) (y : sys) (c : conn_ptr) (k : incomingConn)
    (m : Message Publish) (Hstart : started conf now w0) (Hl : logged pol w0 l (Up y))
    (Hk : srv_conns (sy_srv y) !! c = Some k) (Hm : m ∈ wire k) :
  match m with
  | MConnAck rc => exists r n, FromClient c (MConnect r) ∈ l /\
      rc = connect_rc_limit (Broker conf) n (connect_rc_auth (Broker conf) r (connect_rc_syntax r))
  | MPubAck q mid => q = QosAtMostOnce /\ exists u, FromClient c (MPublish u) ∈ l /\
      Qos (PubHeader u) = QosAtLeastOnce /\ MessageId u = mid
  | MSubAck mid qs => exists ts, FromClient c (MSubscribe mid ts) ∈ l /\
      qs = replicate (length ts) QosAtMostOnce
  | MUnsubAck mid => exists ts, FromClient c (MUnsubscribe mid ts) ∈ l
  | MPingResp => FromClient c MPingReq ∈ l
  | MPublish v => deserves l c v /\
      exists u, set_Retain false u = set_Retain false v /\
        ((exists d, FromClient d (MPublish u) ∈ l) \/ FromPeer (MPublish u) ∈ l)
  | MDisconnect =>
      (exists r, FromClient c (MConnect r) ∈ l /\ (0 < KeepAliveTimer r)%Z) \/
      (exists i j d r r', i <> j /\ l !! i = Some (FromClient c (MConnect r)) /\
         l !! j = Some (FromClient d (MConnect r')) /\ ClientId r' = ClientId r)
  | _ => False
  end.
Proof.
  pose proof (logged_wire pol conf now w0 l y c k m Hstart Hl Hk Hm) as Hr.
  destruct m; try exact Hr.
  - destruct Hr as (r & Hr & n & Hn). by exists r, n.
  - destruct Hr as [Hd (u & Hu & Hc)]. split; [exact Hd|]. by exists u.
  - destruct Hr as [Hd|(ka & r & Hr & <- & Hka)]; [right; exact Hd|left; by exists r].
Qed.

Lemma every_message_has_its_reason_witness :
  let r := DemoHistory.run DemoHistory.moves in
  let q := DemoHistory.run DemoHistory.takeover in
  (deserves r.1 0 DemoHistory.received /\
   exists u, set_Retain false u = set_Retain false DemoHistory.received /\
     ((exists d, FromClient d (MPublish u) ∈ r.1) \/ FromPeer (MPublish u) ∈ r.1)) /\
  wire (Run.conn_of (Run.final q.2) 0) = [MConnAck RetCodeAccepted; MDisconnect] /\
  ((exists m, FromClient 0 (MConnect m) ∈ q.1 /\ (0 < KeepAliveTimer m)%Z) \/
   (exists i j d m m', i <> j /\ q.1 !! i = Some (FromClient 0 (MConnect m)) /\
      q.1 !! j = Some (FromClient d (MConnect m')) /\ ClientId m' = ClientId m)).
Proof.
  intros r q.
  assert (wire (Run.conn_of (Run.final q.2) 0) = [MConnAck RetCodeAccepted; MDisconnect]) as Hw
    by (vm_compute; reflexivity).
  split; [|split; [exact Hw|]].
  - apply (every_message_has_its_reason any_client Run.conf 1000 Run.start r.1 (Run.final r.2) 0
             (Run.conn_of (Run.final r.2) 0) (MPublish DemoHistory.received)).
    + exact Run.start_started.
    + apply DemoHistory.run_logged. vm_compute. reflexivity.
    + vm_compute. reflexivity.
    + apply list_elem_of_lookup. exists 2. vm_compute. reflexivity.
  - apply (every_message_has_its_reason any_client Run.conf 1000 Run.start q.1 (Run.final q.2) 0
             (Run.conn_of (Run.final q.2) 0) MDisconnect).
    + exact Run.start_started.
    + apply DemoHistory.run_logged. vm_compute. reflexivity.
    + vm_compute. reflexivity.
    + rewrite Hw. apply list_elem_of_lookup. by exists 1.
Defined.

(** C25: a resumed session is sent what it never asked for.  The redelivery takes
    every stored message, the client's own publications that wait for their PUBACK
    included: there is an execution in which nobody ever subscribes and a client
    is sent the QoS 1 publication that it published before its connection was lost,
    and sent it before the CONNACK. *)
Theorem resumed_session_echoes_own_publication :
  let r := DemoHistory.run DemoHistory.echo in
  let y := Run.final r.2 in
  let v := Demo.publish_msg "t" QosAtLeastOnce false 7 "x" in
  started Run.conf 1000 Run.start /\ logged any_client Run.start r.1 (Up y) /\
  r.1 = [FromClient 0 (MConnect (Demo.connect_msg "c0")); FromClient 0 (MPublish v);
         FromClient 1 (MConnect Demo2.resume)] /\
  wire (Run.conn_of y 1) = [MPublish v] /\
  job_m <$> ch_buf (jobs (Run.conn_of y 1)) = [MConnAck RetCodeAccepted].
Proof.
  intros r y v. split; [exact Run.start_started|]. split.
  { apply DemoHistory.run_logged. vm_compute. reflexivity. }
  split; [|split]; vm_compute; reflexivity.
Qed.
