(* ===== verification/Races.v ===== *)
(** * Races (src/broker: session.go, subs.go, proto.go)

    Executions, with the messages that came in, in which the interleaving of the
    goroutines shows: a disconnection that meets a delivery takes the broker down, a
    take-over loses the registration of the new session, and two workers turn the
    order of the publications of one client around. *)

From Stdlib Require Import ZArith Lia.
From stdpp Require Import base gmap list strings numbers sets relations.
From S2P Require Import Prelude GoString GoProc GoSlice Wild Config Proto Store Stats Subs Broker.
From S2P Require Import Session SessionFacts Delivery Peers Invariant Sched Executions Isolation Warrant.
From S2P Require Import History.

Local Open Scope string_scope.
Local Open Scope list_scope.

(** ** Moves of one goroutine *)

Section Elsewhere.
Context `{GoRuntime} `{Extern}.

(** The moves of goroutine [i]. *)
Definition moves_of (i : nat) (m : move) : Prop :=
  match m with GoRun j | GoSelect j _ | GoReceive j _ => j = i | _ => False end.

(** They leave the other goroutines where they are. *)
Lemma do_move_elsewhere pol i j m y w :
  moves_of i m -> i <> j -> do_move pol m (Up y) = Some w ->
  match w with Up y' => sy_tasks y' !! j = sy_tasks y !! j | Down _ => True end.
Proof.
  intros Hm Hne. destruct y as [s ts].
  assert (forall r, land i ts r = Some w ->
    match w with Up y' => sy_tasks y' !! j = ts !! j | Down _ => True end) as Hland.
  { intros r Hr. destruct r; simplify_eq/=; [by rewrite list_lookup_insert_ne|done]. }
  destruct m as [k|k x|k x|k| |now]; simpl in *; try done; subst.
  - intros (t & _ & Hl)%bind_Some. by eapply Hland.
  - intros (t & _ & (t1 & _ & Hl)%bind_Some)%bind_Some. by eapply Hland.
  - intros (t & _ & (t1 & _ & [= <-])%bind_Some)%bind_Some. simpl. by rewrite list_lookup_insert_ne.
Qed.

Lemma do_moves_elsewhere pol i j ms y y' :
  Forall (fun nm => moves_of i nm.2) ms -> i <> j -> do_moves pol ms (Up y) = Up y' ->
  sy_tasks y' !! j = sy_tasks y !! j.
Proof.
  intros Hms Hne. enough (forall w, match w with Up y0 => sy_tasks y0 !! j = sy_tasks y !! j | Down _ => True end ->
    match do_moves pol ms w with Up y0 => sy_tasks y0 !! j = sy_tasks y !! j | Down _ => True end) as Hgen.
  { intros E. specialize (Hgen (Up y) eq_refl). by rewrite E in Hgen. }
  induction Hms as [|[n m] ms Hm _ IH]; intros w Hw; cbn [do_moves]; [done|]. apply IH. clear IH. simpl in Hm.
  induction n as [|n IHn]; [done|]. rewrite Nat.iter_succ.
  set (v := Nat.iter n _ _) in *. clearbody v. destruct (do_move pol m v) as [v'|] eqn:E; [|done]. simpl.
  destruct v as [y0|]; [|done]. pose proof (do_move_elsewhere pol i j m y0 v' Hm Hne E) as Hv.
  destruct v'; [congruence|done].
Qed.
End Elsewhere.

#[local] Existing Instance doubling_runtime.
#[local] Existing Instance bytes_mqttmsg.
#[local] Existing Instance plain_extern.

Module DemoRaces.
Import Run.

Definition run (ms : list (nat * move)) : list event * world := log_moves polite_client ms ([], start).

(** The log of the moves, when they leave the broker up. *)
Lemma polite_logged ms : is_up (run ms).2 = true -> logged polite_client start (run ms).1 (Up (final (run ms).2)).
Proof.
  intros Hup. assert (logged polite_client start (run ms).1 (run ms).2) as Hl
    by (apply log_moves_sound; constructor).
  by destruct (run ms).2.
Qed.

Lemma log_moves_world pol ms lw : (log_moves pol ms lw).2 = do_moves pol ms lw.2.
Proof.
  revert lw. induction ms as [|[n m] ms IH]; intros lw; [done|]. cbn [log_moves do_moves]. rewrite IH. f_equal.
  induction n as [|n IHn]; [done|]. rewrite !Nat.iter_succ, <- IHn. done.
Qed.

Lemma log_moves_app pol ms ms' lw : log_moves pol (ms ++ ms') lw = log_moves pol ms' (log_moves pol ms lw).
Proof. revert lw. induction ms as [|[n m] ms IH]; intros lw; [done|]. apply IH. Qed.

Lemma polite_logged_as ms l :
  (run ms).1 = l /\ is_up (run ms).2 = true -> logged polite_client start l (Up (final (run ms).2)).
Proof. intros [<- Hup]. by apply polite_logged. Qed.

Lemma up_run ms : is_up (run ms).2 = true -> exists y, (run ms).2 = Up y.
Proof. destruct (run ms).2; [by eexists|done]. Qed.

Lemma run_later ms ms' x y :
  (run ms).2 = Up x -> (run (ms ++ ms')).2 = Up y -> do_moves polite_client ms' (Up x) = Up y.
Proof. intros Ex. unfold run. rewrite log_moves_app, log_moves_world. fold (run ms). by rewrite Ex. Qed.

(** Two clients; the first is subscribed to the topic, the second publishes. *)
Definition news : Publish := Demo.publish_msg "t" QosAtMostOnce false 0 "x".
Definition delivering : list (nat * move) := two_clients ++ handle 5 (MPublish news) ++ [(7, GoRun 0)].
Definition leaving : list (nat * move) := handle 3 MDisconnect.
Definition delivery_log : list event :=
  [FromClient 0 (MConnect (Demo.connect_msg "c0")); FromClient 1 (MConnect (Demo.connect_msg "c1"));
   FromClient 0 (MSubscribe 1 [("t", QosAtMostOnce)]); FromClient 1 (MPublish news)].

(** A second connection takes over the client id; the outbound loop of the first ends
    after the take-over; then a third connection comes with the same id. *)
Definition takeover : list (nat * move) :=
  accept_one ++ accept_one ++ handle 3 (MConnect (Demo.connect_msg "c0")) ++
  [(1, GoSelect 4 PickSent); (all, GoRun 4)] ++
  handle 5 (MConnect (Demo.connect_msg "c0")) ++
  [(1, GoSelect 4 PickSent); (9, GoRun 4); (all, GoRun 5); (all, GoRun 4)] ++
  [(1, GoSelect 6 PickSent); (all, GoRun 6)].
Definition third : list (nat * move) :=
  accept_one ++ handle 7 (MConnect (Demo.connect_msg "c0")) ++ [(1, GoSelect 8 PickSent); (all, GoRun 8)].

(** The second client publishes twice; the first worker takes the first publication
    and is overtaken by the second. *)
Definition publish_t (x : string) : Publish := Demo.publish_msg "t" QosAtMostOnce false 0 x.
Definition overtaking : list (nat * move) :=
  two_clients ++ handle 5 (MPublish (publish_t "x")) ++ handle 5 (MPublish (publish_t "y")) ++
  [(1, GoRun 0); (all, GoRun 1); (all, GoRun 0)] ++
  concat (replicate 4 [(1, GoSelect 4 PickSent); (all, GoRun 4)]).
End DemoRaces.

(** ** Properties *)

(** C27: a disconnection that meets a delivery takes the broker down.  Polite clients:
    the first subscribes to a topic, the second publishes to it, and nothing else
    happens.  A worker is in the middle of handing the publication to the first client:
    its next action puts the publication into that client's queue, which has room.
    Then the first client sends DISCONNECT and its inbound loop ends; the worker has not
    moved, and that same next action now is a send on a closed channel, which takes the
    broker down. *)
Theorem disconnect_races_with_delivery :
  exists x y p s' t',
    started Run.conf 1000 Run.start /\ careful polite_client /\
    logged polite_client Run.start DemoRaces.delivery_log (Up x) /\
    sy_tasks x !! 0 = Some (Worker p) /\ tact (Worker p) (sy_srv x) = Done s' t' /\
    (exists k k', srv_conns (sy_srv x) !! 0 = Some k /\ srv_conns s' !! 0 = Some k' /\
       srv_heap s' !! 0 = Some DemoRaces.news /\
       ch_buf (jobs k') = ch_buf (jobs k) ++ [Job (MPublish 0) None]) /\
    rtc (step polite_client) (Up x) (Up y) /\
    logged polite_client Run.start (DemoRaces.delivery_log ++ [FromClient 0 MDisconnect]) (Up y) /\
    sy_tasks y !! 0 = Some (Worker p) /\ tact (Worker p) (sy_srv y) = Panicked SendOnClosed /\
    step polite_client (Up y) (Down SendOnClosed).
Proof.
  destruct (DemoRaces.up_run DemoRaces.delivering) as [x Ex]; [vm_compute; reflexivity|].
  destruct (DemoRaces.up_run (DemoRaces.delivering ++ DemoRaces.leaving)) as [y Ey]; [vm_compute; reflexivity|].
  assert (x = Run.final (DemoRaces.run DemoRaces.delivering).2) as Dx by (by rewrite Ex).
  assert (y = Run.final (DemoRaces.run (DemoRaces.delivering ++ DemoRaces.leaving)).2) as Dy by (by rewrite Ey).
  pose proof (DemoRaces.run_later DemoRaces.delivering DemoRaces.leaving x y Ex Ey) as Hxy.
  assert (sy_tasks y !! 0 = sy_tasks x !! 0) as Hsame
    by (apply (do_moves_elsewhere polite_client 3 0 _ _ _) in Hxy; [done|by repeat constructor|done]).
  assert (match sy_tasks x !! 0 with
    | Some (Worker p) =>
        match tact (Worker p) (sy_srv x), srv_conns (sy_srv x) !! 0 with
        | Done s' _, Some k => match srv_conns s' !! 0 with
          | Some k' => srv_heap s' !! 0 = Some DemoRaces.news /\
                       ch_buf (jobs k') = ch_buf (jobs k) ++ [Job (MPublish 0) None]
          | None => False end
        | _, _ => False end
    | _ => False end) as Hx by (rewrite Dx; vm_compute; split; reflexivity).
  assert (match sy_tasks y !! 0 with Some t => tact t (sy_srv y) = Panicked SendOnClosed | None => False end)
    as Hy by (rewrite Dy; vm_compute; reflexivity).
  assert (logged polite_client Run.start DemoRaces.delivery_log (Up x)) as Lx
    by (rewrite Dx; apply DemoRaces.polite_logged_as; vm_compute; split; reflexivity).
  assert (logged polite_client Run.start (DemoRaces.delivery_log ++ [FromClient 0 MDisconnect]) (Up y)) as Ly
    by (rewrite Dy; apply DemoRaces.polite_logged_as; vm_compute; split; reflexivity).
  assert (rtc (step polite_client) (Up x) (Up y)) as Rxy by (rewrite <- Hxy; apply do_moves_sound).
  clear Ex Ey Dx Dy Hxy. rewrite Hsame in Hy. destruct (sy_tasks x !! 0) as [[]|] eqn:Hp; try done.
  destruct (tact (Worker p) (sy_srv x)) as [s' t'| |] eqn:Et; try done.
  destruct (srv_conns (sy_srv x) !! 0) as [k|] eqn:Hk; [|done].
  destruct (srv_conns s' !! 0) as [k'|] eqn:Hk'; [|done].
  exists x, y, p, s', t'. split; [apply Run.start_started|]. split; [apply polite_careful|].
  do 3 (split; [done|]). split; [by exists k, k'|]. do 4 (split; [done|]).
  destruct y as [s ts]. by eapply step_panic.
Qed.

(** C28: a client id can have two live sessions.  Polite clients send three CONNECTs
    for one client id, on three connections, and nothing else.  The second takes over
    from the first, which is sent a DISCONNECT; the outbound loop of the first then
    removes the registration of its successor: the second is alive, connected and was
    accepted, and the client id is not registered.  So the third is accepted without
    any DISCONNECT: the one sent to the first is the only one there ever was, and the
    second and the third are both alive under the same client id, in front of their
    decoders and with their outbound loops running. *)
Theorem takeover_loses_registration :
  let hello c := FromClient c (MConnect (Demo.connect_msg "c0")) in
  exists x y,
    logged polite_client Run.start [hello 0; hello 1] (Up x) /\
    srv_clients (sy_srv x) !! "c0" = None /\
    sy_tasks x !! 5 = Some (InIdle 1) /\ sy_tasks x !! 6 = Some (OutIdle 1) /\
    rtc (step polite_client) (Up x) (Up y) /\
    logged polite_client Run.start [hello 0; hello 1; hello 2] (Up y) /\
    wire (Run.conn_of y 0) = [MConnAck RetCodeAccepted; MDisconnect] /\
    srv_receipts (sy_srv y) = [true] /\
    (forall c, c = 1 \/ c = 2 -> exists k, srv_conns (sy_srv y) !! c = Some k /\
       ClientId <$> flag k = Some "c0" /\ alive k = true /\ netClosed k = false /\
       ch_closed (jobs k) = false /\ wire k = [MConnAck RetCodeAccepted] /\ ch_buf (jobs k) = []) /\
    sy_tasks y !! 5 = Some (InIdle 1) /\ sy_tasks y !! 6 = Some (OutIdle 1) /\
    sy_tasks y !! 7 = Some (InIdle 2) /\ sy_tasks y !! 8 = Some (OutIdle 2).
Proof.
  intros hello.
  destruct (DemoRaces.up_run DemoRaces.takeover) as [x Ex]; [vm_compute; reflexivity|].
  destruct (DemoRaces.up_run (DemoRaces.takeover ++ DemoRaces.third)) as [y Ey]; [vm_compute; reflexivity|].
  assert (x = Run.final (DemoRaces.run DemoRaces.takeover).2) as Dx by (by rewrite Ex).
  assert (y = Run.final (DemoRaces.run (DemoRaces.takeover ++ DemoRaces.third)).2) as Dy by (by rewrite Ey).
  pose proof (DemoRaces.run_later DemoRaces.takeover DemoRaces.third x y Ex Ey) as Hxy.
  exists x, y. split; [rewrite Dx; apply DemoRaces.polite_logged_as; vm_compute; split; reflexivity|].
  do 3 (split; [rewrite Dx; vm_compute; reflexivity|]).
  split; [rewrite <- Hxy; apply do_moves_sound|].
  split; [rewrite Dy; apply DemoRaces.polite_logged_as; vm_compute; split; reflexivity|].
  do 2 (split; [rewrite Dy; vm_compute; reflexivity|]). split.
  - intros c Hc. exists (Run.conn_of y c). rewrite Dy.
    destruct Hc as [->| ->]; (do 6 (split; [vm_compute; reflexivity|])); vm_compute; reflexivity.
  - rewrite Dy. do 3 (split; [vm_compute; reflexivity|]). vm_compute. reflexivity.
Qed.

(** C29: two workers do not keep the order.  With two workers (the default is ten),
    polite clients and no failure: one client subscribes to a topic, another publishes
    to it twice, and nothing else happens; the subscriber is sent the second
    publication before the first. *)
Theorem two_workers_reorder :
  exists y, SubscriptionsWorkers (Broker Run.conf) = 2%Z /\
    logged polite_client Run.start
      [FromClient 0 (MConnect (Demo.connect_msg "c0")); FromClient 1 (MConnect (Demo.connect_msg "c1"));
       FromClient 0 (MSubscribe 1 [("t", QosAtMostOnce)]);
       FromClient 1 (MPublish (DemoRaces.publish_t "x")); FromClient 1 (MPublish (DemoRaces.publish_t "y"))]
      (Up y) /\
    wire (Run.conn_of y 0) =
      [MConnAck RetCodeAccepted; MSubAck 1 [QosAtMostOnce];
       MPublish (DemoRaces.publish_t "y"); MPublish (DemoRaces.publish_t "x")].
Proof.
  set (r := DemoRaces.run DemoRaces.overtaking). exists (Run.final r.2). split; [reflexivity|]. split.
  - replace [_; _; _; _; _] with r.1 by (vm_compute; reflexivity). apply DemoRaces.polite_logged.
    vm_compute. reflexivity.
  - vm_compute. reflexivity.
Qed.
