(* ===== verification/Progress.v ===== *)
(** * The table mutex under the discard strategy

    [sendRetain] holds the mutex of the subscription table while it submits to a
    client, which blocks for ever under the block strategy ([Deadlock]).  Under the
    discard strategy it does not: every goroutine that holds the mutex can run on, and
    releases it within a few actions.  [disciplined] is the judgement on bodies, with
    the actions that are left until the release. *)

From Stdlib Require Import ZArith Lia.
From stdpp Require Import base gmap list strings numbers sets relations.
From S2P Require Import Prelude GoString GoProc GoSlice Wild Config Proto Store Stats Subs Broker.
From S2P Require Import Session SessionFacts Delivery Peers Invariant Sched Frame Executions.

Local Open Scope string_scope.
Local Open Scope list_scope.

(** The actions of [sendRetain] with the mutex, before the one that releases it. *)
Definition hold_bound : nat := 5.

Section Progress.
Context `{GoRuntime} `{Extern}.
Implicit Types (s : Server) (k : incomingConn) (c : conn_ptr).

Definition locked s : bool := mu (srv_subs s).

(** ** Bodies *)

(** [disciplined None p]: the goroutine does not hold the mutex.  [disciplined (Some n) p]:
    it does, it never blocks, and it releases the mutex after at most [n] other actions,
    or panics. *)
Fixpoint disciplined {A} (h : option nat) (p : proc Server A) : Prop :=
  match p with
  | Ret _ => h = None
  | Step f => forall s, discards s -> (h <> None -> locked s = true) ->
      match f s with
      | Done s' p' => discards s' /\
          match h with
          | None => (locked s' = locked s /\ disciplined None p') \/
                    (locked s = false /\ locked s' = true /\ exists n, n <= hold_bound /\ disciplined (Some n) p')
          | Some n => (locked s' = false /\ disciplined None p') \/
                      (locked s' = true /\ exists n', n' < n /\ disciplined (Some n') p')
          end
      | Blocked => h = None
      | Panicked _ => True
      end
  end.

(** At most [n] actions, none of which blocks or touches the mutex. *)
Fixpoint steady {A} (n : nat) (p : proc Server A) : Prop :=
  match p with
  | Ret _ => True
  | Step f => exists n', n' < n /\ forall s, discards s ->
      match f s with
      | Done s' p' => discards s' /\ locked s' = locked s /\ steady n' p'
      | Blocked => False
      | Panicked _ => True
      end
  end.

Notation tidy := (disciplined None).

Lemma disciplined_bind {A B} h (p : proc Server A) (f : A -> proc Server B) :
  disciplined h p -> (forall a, tidy (f a)) -> disciplined h (bind p f).
Proof.
  intros Hp Hf. revert h Hp. induction p as [a|g IH] using proc_induction; intros h Hp; simpl in *.
  - subst. apply Hf.
  - intros s Hd Hl. specialize (Hp s Hd Hl). destruct (g s) as [s' p'| |w] eqn:E; [|done|done].
    destruct Hp as [Hd' Hp]. split; [done|]. destruct h as [n|].
    + destruct Hp as [[Hu Hp]|(Hu & n' & Hn & Hp)]; [left|right]; (split; [done|]); [by eapply IH|].
      exists n'. split; [done|]. by eapply IH.
    + destruct Hp as [[Hu Hp]|(Hu & Hu' & n & Hn & Hp)]; [left|right]; (split; [done|]); [by eapply IH|].
      split; [done|]. exists n. split; [done|]. by eapply IH.
Qed.

(** More time does not hurt. *)
Lemma disciplined_mono {A} n m (p : proc Server A) :
  n <= m -> disciplined (Some n) p -> disciplined (Some m) p.
Proof.
  intros Hnm. destruct p as [a|f]; simpl; [done|]. intros Hp s Hd Hl.
  specialize (Hp s Hd (fun _ => Hl ltac:(done))). destruct (f s) as [s' p'| |w]; [|done|done].
  destruct Hp as [Hd' [Hu|(Hu & n' & Hn & Hp)]]; (split; [done|]); [by left|right].
  split; [done|]. exists n'. split; [lia|done].
Qed.

(** With the mutex held. *)
Lemma held_bind {A B} n m (p : proc Server A) (f : A -> proc Server B) :
  steady n p -> (forall a, disciplined (Some m) (f a)) -> disciplined (Some (n + m)) (bind p f).
Proof.
  intros Hp Hf. revert n Hp. induction p as [a|g IH] using proc_induction; intros n Hp; simpl in *.
  - eapply disciplined_mono; [|apply Hf]. lia.
  - destruct Hp as (n' & Hn & Hp). intros s Hd Hl. specialize (Hp s Hd).
    destruct (g s) as [s' p'| |w] eqn:E; [|done|done]. destruct Hp as (Hd' & Hu & Hp).
    split; [done|]. right. split; [rewrite Hu; by apply Hl|]. exists (n' + m). split; [lia|]. by eapply IH.
Qed.

Lemma steady_bind {A B} n m (p : proc Server A) (f : A -> proc Server B) :
  steady n p -> (forall a, steady m (f a)) -> steady (n + m) (bind p f).
Proof.
  intros Hp Hf. revert n Hp. induction p as [a|g IH] using proc_induction; intros n Hp; simpl in *.
  - specialize (Hf a). destruct (f a) as [|g]; simpl in *; [done|]. destruct Hf as (n' & Hn & Hg).
    exists n'. split; [lia|done].
  - destruct Hp as (n' & Hn & Hp). exists (n' + m). split; [lia|]. intros s Hd. specialize (Hp s Hd).
    destruct (g s) as [s' p'| |w] eqn:E; [|done|done]. destruct Hp as (Hd' & Hu & Hp).
    split; [done|]. split; [done|]. by eapply IH.
Qed.

(** An action that leaves the mutex and the configuration alone. *)
Lemma tidy_atomic {A} (f : Server -> astep Server A) :
  (forall s, match f s with
             | Done s' _ => srv_cf s' = srv_cf s /\ locked s' = locked s | _ => True end) ->
  tidy (atomic f).
Proof.
  intros Hf s Hd _. specialize (Hf s). destruct (f s) as [s' a| |w]; [|done|done].
  destruct Hf as [Hc Hu]. split; [unfold discards; by rewrite Hc|]. left. by split.
Qed.

Lemma steady_atomic {A} (f : Server -> astep Server A) :
  (forall s, match f s with
             | Done s' _ => srv_cf s' = srv_cf s /\ locked s' = locked s
             | Blocked => False
             | Panicked _ => True end) ->
  steady 1 (atomic f).
Proof.
  intros Hf. exists 0. split; [lia|]. intros s Hd. specialize (Hf s). destruct (f s) as [s' a| |w]; [|done|done].
  destruct Hf as [Hc Hu]. split; [unfold discards; by rewrite Hc|]. by split.
Qed.

Lemma tidy_ret {A} (a : A) : tidy (@Ret Server A a).
Proof. done. Qed.

Lemma tidy_panics {A} w : tidy (@panics Server A w).
Proof. by intros s. Qed.

Lemma tidy_for_each {B} (l : list B) body : (forall x, tidy (body x)) -> tidy (for_each l body).
Proof. intros Hb. induction l as [|x l IH]; simpl; [done|]. by apply disciplined_bind. Qed.

Lemma tidy_for_range n i body : (forall j, tidy (body j)) -> tidy (for_range n i body).
Proof. intros Hb. revert i. induction n as [|n IH]; intros i; simpl; [done|]. by apply disciplined_bind. Qed.

(** ** Actions *)

Ltac tidy_action := apply tidy_atomic; intros s; repeat case_match; simplify_eq/=; done.

Lemma tidy_on_conn {A} c (f : incomingConn -> astep incomingConn A) : tidy (on_conn c f).
Proof. tidy_action. Qed.
Lemma tidy_read_conn {A} c (f : incomingConn -> A) : tidy (read_conn c f).
Proof. tidy_action. Qed.
Lemma tidy_write_conn c f : tidy (write_conn c f).
Proof. apply tidy_on_conn. Qed.
Lemma tidy_reads {A} (f : Server -> A) : tidy (reads f).
Proof. tidy_action. Qed.
Lemma tidy_modify f : (forall s, srv_cf (f s) = srv_cf s /\ locked (f s) = locked s) -> tidy (modify f).
Proof. intros Hf. by apply tidy_atomic. Qed.
Lemma tidy_do_stats f : tidy (do_stats f).
Proof. by apply tidy_modify. Qed.
Lemma tidy_read_msg m : tidy (read_msg m).
Proof. tidy_action. Qed.
Lemma tidy_read_pub p : tidy (read_pub p).
Proof. tidy_action. Qed.
Lemma tidy_alloc v : tidy (alloc v).
Proof. tidy_action. Qed.
Lemma tidy_on_store {A} c (f : MemoryStore (Message ptr) -> MemoryStore (Message ptr) * A) : tidy (on_store c f).
Proof. tidy_action. Qed.
Lemma tidy_call_store c call : tidy (call_store c call).
Proof. unfold call_store. destruct call; [apply tidy_on_store|done]. Qed.
Lemma tidy_subs_submit p : tidy (subs_submit p).
Proof. tidy_action. Qed.
Lemma tidy_run_next : tidy run_next.
Proof. tidy_action. Qed.
Lemma tidy_save_retain p : tidy (save_retain p).
Proof. tidy_action. Qed.
Lemma tidy_on_node {A} host (f : endpoint -> astep endpoint A) : tidy (on_node host f).
Proof. tidy_action. Qed.
Lemma tidy_add_client c : tidy (add_client c).
Proof. tidy_action. Qed.
Lemma tidy_del_client c : tidy (del_client c).
Proof. tidy_action. Qed.
Lemma tidy_close_receipt r : tidy (close_receipt r).
Proof. tidy_action. Qed.
Lemma tidy_wait r : tidy (wait r).
Proof. tidy_action. Qed.
Lemma tidy_new_receipt : tidy (atomic (fun s => Done (set_receipts (srv_receipts s ++ [false]) s)
                                                   (length (srv_receipts s)))).
Proof. tidy_action. Qed.

(** A critical section that is one action. *)
Lemma tidy_critical {A} (f : subscriptions -> subscriptions * A) :
  (forall t, mu (f t).1 = mu t) -> tidy (critical f).
Proof. intros Hf. apply tidy_atomic. intros s. destruct (mu (srv_subs s)); [done|]. split; [done|apply Hf]. Qed.

Lemma mu_add topic c t : mu (add topic c t) = mu t.
Proof. unfold add. by repeat case_match. Qed.
Lemma mu_unsub topic c t : mu (unsub topic c t) = mu t.
Proof. unfold unsub. by case_match. Qed.

Create HintDb progress.
#[local] Hint Resolve tidy_ret tidy_panics tidy_on_conn tidy_read_conn tidy_write_conn tidy_reads tidy_do_stats
  tidy_read_msg tidy_read_pub tidy_alloc tidy_on_store tidy_call_store tidy_subs_submit tidy_run_next
  tidy_save_retain tidy_on_node tidy_add_client tidy_del_client tidy_close_receipt tidy_wait
  tidy_new_receipt : progress.
#[local] Hint Extern 2 (disciplined None (critical _)) =>
  (apply tidy_critical; intros; first [reflexivity|apply mu_add|apply mu_unsub]) : progress.
#[local] Hint Extern 2 (disciplined None (modify _)) => (by apply tidy_modify) : progress.

(** Walks through a body without the mutex. *)
Ltac tidy_walk :=
  repeat first
    [ solve [auto 2 with progress]
    | match goal with
      | |- forall _, _ => intro
      | |- disciplined None (bind _ _) => apply disciplined_bind
      | |- disciplined None (for_each _ _) => apply tidy_for_each
      | |- disciplined None (for_range _ _ _) => apply tidy_for_range
      | |- disciplined None (match ?x with _ => _ end) => destruct x
      end ].

(** ** Bodies *)

Lemma tidy_submit c m : tidy (submit c m).
Proof. unfold submit. tidy_walk. Qed.
Lemma tidy_submitSync c m : tidy (submitSync c m).
Proof. unfold submitSync. tidy_walk. Qed.
Lemma tidy_refreshOpTime c : tidy (refreshOpTime c).
Proof. unfold refreshOpTime. tidy_walk. Qed.
Lemma tidy_stop c : tidy (stop c).
Proof. unfold stop. tidy_walk. Qed.
Lemma tidy_flag_username c : tidy (flag_username c).
Proof. unfold flag_username. tidy_walk. Qed.
Lemma tidy_replicate_pub p : tidy (replicate_pub p).
Proof. unfold replicate_pub, ep_submit. tidy_walk. Qed.
#[local] Hint Resolve tidy_submit tidy_submitSync tidy_refreshOpTime tidy_stop tidy_flag_username
  tidy_replicate_pub : progress.

Lemma tidy_run_body : tidy run_body.
Proof. unfold run_body, run_post, critical_, read_entry. tidy_walk. Qed.

(** Under the discard strategy a submission never blocks. *)
Lemma steady_submit c m : steady 3 (submit c m).
Proof.
  unfold submit. apply (steady_bind 1 2).
  { apply steady_atomic. intros s. by destruct (srv_conns s !! c). }
  intros a. destruct (negb a); [done|]. exists 1. split; [lia|]. intros s Hd.
  split; [done|]. split; [done|]. cbn [bind].
  destruct (BuffOverflowStrategy (Broker (srv_cf s)) =s BufferOverflowBlock) eqn:Eb; [breflect; by destruct Hd|].
  apply (steady_bind 1 0); [|done]. apply steady_atomic. intros s'. unfold on_jobs, ch_try_send.
  repeat case_match; simplify_eq/=; done.
Qed.

Lemma held_unlock : disciplined (Some 0) mu_Unlock.
Proof. intros s Hd _. split; [done|]. by left. Qed.

Lemma tidy_lock {A} n (p : proc Server A) : n <= hold_bound -> disciplined (Some n) p -> tidy (mu_Lock;;; p).
Proof.
  intros Hn Hp s Hd _. simpl. destruct (mu (srv_subs s)) eqn:Hm; [done|]. split; [done|]. right.
  split; [exact Hm|]. split; [done|]. by exists n.
Qed.

Lemma tidy_sendRetain topic c : tidy (sendRetain topic c).
Proof.
  unfold sendRetain. apply (tidy_lock 5); [done|]. apply (held_bind 1 4); [by apply steady_atomic|].
  intros r. apply (held_bind 4 0); [|intros _; apply held_unlock]. destruct r as [v|]; [|done].
  apply (steady_bind 1 3); [by apply steady_atomic|]. intros p. apply steady_submit.
Qed.
#[local] Hint Resolve tidy_sendRetain : progress.

Lemma tidy_inbound_msg c v : tidy (inbound_msg c v).
Proof.
  unfold inbound_msg, alloc_msg, doConnect, connect_session, redeliver, CheckIn, doPublish, publish_limit,
    doPublishAck, doSubscribe, subscribe_topic, doUnsubscribe, unsubscribe_topic, critical_.
  tidy_walk; tidy_action.
Qed.

Lemma tidy_inbound_err c : tidy (inbound_err c).
Proof. unfold inbound_err. tidy_walk. Qed.
Lemma tidy_inbound_defer c : tidy (inbound_defer c).
Proof. unfold inbound_defer, onTerminate, CheckOut. tidy_walk. Qed.
Lemma tidy_outbound_job c sent : tidy (outbound_job c sent).
Proof. unfold outbound_job. tidy_walk. Qed.
Lemma tidy_outbound_stop c : tidy (outbound_stop c).
Proof. apply tidy_on_conn. Qed.
Lemma tidy_outbound_defer c : tidy (outbound_defer c).
Proof. unfold outbound_defer, critical_. tidy_walk. Qed.
Lemma tidy_heartbeat_tick c ka : tidy (heartbeat_tick c ka).
Proof. unfold heartbeat_tick. tidy_walk. Qed.
Lemma tidy_heartbeat_stop c : tidy (heartbeat_stop c).
Proof. apply tidy_on_conn. Qed.
Lemma tidy_replay_msg v : tidy (replay_msg v).
Proof. unfold replay_msg, alloc_msg. tidy_walk. Qed.

(** ** Goroutines *)

Definition task_disc (h : option nat) (t : task) : Prop :=
  match t with
  | InRun _ p | OutRun _ p | HbRun _ _ p | Worker p => disciplined h p
  | InDefer _ p | OutDefer _ p | PeerRun p | PeerDefer p => disciplined h p
  | InIdle _ | OutIdle _ | HbIdle _ _ | Acceptor _ | PeerIdle | Finished => h = None
  end.

(** What an action of a goroutine does to the mutex. *)
Definition acted (h : option nat) s s' (t' : task) : Prop :=
  match h with
  | None => (locked s' = locked s /\ task_disc None t') \/
            (locked s = false /\ locked s' = true /\ exists n, n <= hold_bound /\ task_disc (Some n) t')
  | Some n => (locked s' = false /\ task_disc None t') \/
              (locked s' = true /\ exists n', n' < n /\ task_disc (Some n') t')
  end.

Definition acts (h : option nat) s (r : astep Server task) : Prop :=
  match r with
  | Done s' t' => discards s' /\ acted h s s' t'
  | Blocked => h = None
  | Panicked _ => True
  end.

Lemma run_proc_disc {A} h (wrap : proc Server A -> task) fin p s :
  disciplined h p -> discards s -> (h <> None -> locked s = true) ->
  (forall h' p', disciplined h' p' -> task_disc h' (wrap p')) -> (forall a, task_disc None (fin a)) ->
  acts h s (run_proc wrap fin p s).
Proof.
  intros Hp Hd Hl Hw Hf. destruct p as [a|f]; simpl in *.
  - subst. split; [done|]. by left.
  - specialize (Hp s Hd Hl). unfold acts. destruct (f s) as [s' p'| |w]; [|done|done].
    destruct Hp as [Hd' Hp]. split; [done|]. unfold acted. destruct h as [n|].
    + destruct Hp as [[Hu Hp]|(Hu & n' & Hn & Hp)]; [left|right; split; [done|]; exists n']; auto.
    + destruct Hp as [[Hu Hp]|(Hu & Hu' & n & Hn & Hp)];
        [left|right; split; [done|]; split; [done|]; exists n]; auto.
Qed.

Lemma tact_disc h t s :
  task_disc h t -> discards s -> (h <> None -> locked s = true) -> acts h s (tact t s).
Proof.
  intros Ht Hd Hl. destruct t as [c|c p|c p|c|c p|c p|c ka|c ka p|p|a| |p|p|]; simpl in *; try done;
    try (apply run_proc_disc; [done..|]; try done; intros []; done).
  - apply run_proc_disc; [done..|]. intros []; [done|apply tidy_inbound_defer].
  - apply run_proc_disc; [done..|]. intros []; [done|apply tidy_outbound_defer].
  - apply run_proc_disc; [done..|]. intros []; [apply tidy_run_body|done].
  - destruct a; [done|]. subst. split; [done|]. by left.
Qed.

Lemma select_disc t x t1 : select t x = Some t1 -> task_disc None t1 /\ forall h, task_disc h t -> h = None.
Proof.
  destruct t, x; simpl; try done; intros [= <-]; (split; [|done]); cbn [task_disc].
  - apply tidy_outbound_job.
  - apply tidy_outbound_job.
  - apply tidy_outbound_stop.
  - apply tidy_heartbeat_stop.
  - apply tidy_heartbeat_tick.
Qed.

Lemma receive_disc pol s t v t1 :
  receive pol s t v = Some t1 -> task_disc None t1 /\ forall h, task_disc h t -> h = None.
Proof.
  intros Hr. destruct t, v as [v|]; simplify_eq/=; (split; [|done]).
  - destruct (sends pol s c v); simplify_eq/=. apply tidy_inbound_msg.
  - destruct (fails pol s c); simplify_eq/=. apply (tidy_inbound_err c).
  - destruct (replays pol s v); simplify_eq/=. apply tidy_replay_msg.
  - apply tidy_do_stats.
Qed.

(** ** The whole system *)

(** Who holds the mutex, and the actions left. *)
Definition hold (ho : option (nat * nat)) (i : nat) : option nat :=
  match ho with Some (j, n) => if decide (i = j) then Some n else None | None => None end.

Record orderly (ho : option (nat * nat)) (y : sys) : Prop := {
  or_discards : discards (sy_srv y);
  or_locked : locked (sy_srv y) = bool_decide (is_Some ho);
  or_tasks i t : sy_tasks y !! i = Some t -> task_disc (hold ho i) t;
  or_holder i n : ho = Some (i, n) -> n <= hold_bound /\ is_Some (sy_tasks y !! i)
}.

Lemma hold_locked ho i y : orderly ho y -> hold ho i <> None -> locked (sy_srv y) = true.
Proof. intros Hy Hh. rewrite (or_locked _ _ Hy). by destruct ho. Qed.

Lemma hold_self i n : hold (Some (i, n)) i = Some n.
Proof. simpl. by rewrite decide_True. Qed.

Lemma hold_other i n j : j <> i -> hold (Some (i, n)) j = None.
Proof. intros Hne. simpl. by rewrite decide_False. Qed.

Lemma hold_Some ho i n : hold ho i = Some n -> ho = Some (i, n).
Proof. destruct ho as [[j m]|]; simpl; [|done]. case_decide; [|done]. by intros [= ->]; subst. Qed.

(** A goroutine moved; the others hold what they held. *)
Lemma orderly_put ho ho' s s' ts i t' :
  orderly ho (Sys s ts) -> discards s' -> locked s' = bool_decide (is_Some ho') ->
  (forall j, j <> i -> hold ho' j = hold ho j) -> task_disc (hold ho' i) t' ->
  (forall j n, ho' = Some (j, n) -> n <= hold_bound /\ is_Some (ts !! j)) ->
  orderly ho' (Sys s' (<[i := t']> ts)).
Proof.
  intros [Hd Hl Ht Hh] Hd' Hl' Hj Ht' Hh'. split; simpl in *; [done|done| |].
  - intros j t Hjt. apply list_lookup_insert_Some in Hjt as [(-> & -> & _)|[Hne Hjt]]; [done|].
    rewrite Hj by done. by apply Ht.
  - intros j n E. destruct (Hh' j n E) as [Hn Hs]. split; [done|]. apply lookup_lt_is_Some. rewrite length_insert.
    by apply lookup_lt_is_Some.
Qed.

(** The holder gets closer to the release. *)
Definition closer (ho ho' : option (nat * nat)) : Prop :=
  forall i n, ho = Some (i, n) -> ho' = None \/ exists n', ho' = Some (i, n') /\ n' < n.

Lemma orderly_act ho s ts i t s' t' :
  orderly ho (Sys s ts) -> ts !! i = Some t -> discards s' -> acted (hold ho i) s s' t' ->
  exists ho', orderly ho' (Sys s' (<[i := t']> ts)) /\ (hold ho i <> None -> closer ho ho').
Proof.
  intros Hy Hi Hd' Ha. pose proof (or_locked _ _ Hy) as Hl. simpl in Hl.
  assert (is_Some (ts !! i)) as His by (by exists t).
  destruct (hold ho i) as [n|] eqn:Eh; simpl in Ha.
  - apply hold_Some in Eh as ->. destruct (or_holder _ _ Hy i n eq_refl) as [Hn _].
    destruct Ha as [[Hu Ht']|(Hu & n' & Hlt & Ht')]; [exists None|exists (Some (i, n'))].
    + split; [|by left]. eapply orderly_put; try done. intros j Hne. by rewrite hold_other.
    + split; [|intros _ ? ? [= <- <-]; right; by exists n'].
      eapply orderly_put; try done; [|by rewrite hold_self|].
      * intros j Hne. by rewrite !hold_other.
      * intros j m [= <- <-]. split; [lia|done].
  - destruct Ha as [[Hu Ht']|(Hu & Hu' & n & Hn & Ht')].
    + exists ho. split; [|done]. eapply orderly_put; try done; [by rewrite Hu|by rewrite Eh|].
      intros j m E. by apply (or_holder _ _ Hy).
    + assert (ho = None) as -> by (destruct ho; [rewrite Hl in Hu; done|done]).
      exists (Some (i, n)). split; [|done]. eapply orderly_put; try done; [|by rewrite hold_self|].
      * intros j Hne. by rewrite hold_other.
      * intros j m [= <- <-]. done.
Qed.

(** The state changed outside of the mutex, and idle goroutines started. *)
Lemma orderly_grow ho s s' ts us :
  orderly ho (Sys s ts) -> srv_cf s' = srv_cf s -> locked s' = locked s -> Forall (task_disc None) us ->
  orderly ho (Sys s' (ts ++ us)).
Proof.
  intros [Hd Hl Ht Hh] Hc Hu Hus. split; simpl in *.
  - unfold discards. by rewrite Hc.
  - by rewrite Hu.
  - intros i t Hi. apply lookup_app_Some in Hi as [Hi|[Hge Hi]]; [by apply Ht|].
    assert (hold ho i = None) as ->; [|exact (Forall_lookup_1 _ _ _ _ Hus Hi)].
    destruct (hold ho i) as [n|] eqn:E; [|done]. apply hold_Some in E.
    destruct (Hh i n E) as [_ [t0 Ht0]]. apply lookup_lt_Some in Ht0. lia.
  - intros i n E. destruct (Hh i n E) as [Hn [t0 Ht0]]. split; [done|]. exists t0. by apply lookup_app_l_Some.
Qed.

Lemma orderly_idle ho s ts i t t' :
  orderly ho (Sys s ts) -> ts !! i = Some t -> (forall h, task_disc h t -> h = None) -> task_disc None t' ->
  orderly ho (Sys s (<[i := t']> ts)).
Proof.
  intros Hy Hi Hidle Ht'. apply (orderly_put ho ho s); [done|apply Hy|apply Hy|done| |].
  - by rewrite (Hidle _ (or_tasks _ _ Hy i t Hi)).
  - intros j n E. by apply (or_holder _ _ Hy).
Qed.

Lemma step_orderly pol ho y w :
  orderly ho y -> step pol (Up y) w ->
  match w with Up y' => exists ho', orderly ho' y' | Down _ => True end.
Proof.
  intros Hy Hstep. pose proof (or_discards _ _ Hy) as Hd.
  inversion Hstep as [s ts i t s' t' Hi Ht|s ts i t w' Hi Ht|s ts i t x t1 s' t' Hi Hx Ht
    |s ts i t x t1 w' Hi Hx Ht|s ts i t v t' Hi Hr|s ts i s' c Hi Ha|s ts i w' Hi Ha|s ts c ka gs Hgo
    |s ts|s ts now Hn]; subst; simpl in *; try done.
  - pose proof (tact_disc _ t s (or_tasks _ _ Hy i t Hi) Hd (hold_locked _ _ _ Hy)) as Hm. rewrite Ht in Hm.
    destruct Hm as [Hd' Ha]. destruct (orderly_act _ _ _ _ _ _ _ Hy Hi Hd' Ha) as (ho' & Ho & _). by exists ho'.
  - destruct (select_disc t x t1 Hx) as [Ht1 Hidle]. pose proof (Hidle _ (or_tasks _ _ Hy i t Hi)) as Eh.
    pose proof (tact_disc None t1 s Ht1 Hd ltac:(done)) as Hm. rewrite Ht in Hm.
    destruct Hm as [Hd' Ha]. rewrite <- Eh in Ha.
    destruct (orderly_act _ _ _ _ _ _ _ Hy Hi Hd' Ha) as (ho' & Ho & _). by exists ho'.
  - destruct (receive_disc pol s t v t' Hr) as [Ht' Hidle]. exists ho. by eapply orderly_idle.
  - exists ho. unfold accept_conn in Ha. case_match; simplify_eq.
    eapply (orderly_grow ho s); [by eapply orderly_idle|done..|by repeat constructor].
  - exists ho. eapply (orderly_grow ho s); [done..|by repeat constructor].
  - exists ho. eapply (orderly_grow ho s); [done..|by repeat constructor].
  - exists ho. rewrite <- (app_nil_r ts). by eapply (orderly_grow ho s).
Qed.

Lemma start_orderly conf now w :
  BuffOverflowStrategy (Broker conf) <> BufferOverflowBlock -> started conf now w ->
  match w with Up y => orderly None y | Down _ => True end.
Proof.
  intros Hd (s & Hs & ->). unfold NewServer in Hs. case_match; simplify_eq. split; simpl; try done.
  intros i t Hi. apply lookup_app_Some in Hi as [Hi|[_ Hi]].
  - apply lookup_replicate in Hi as [-> _]. apply tidy_run_body.
  - by apply list_lookup_singleton_Some in Hi as [_ <-].
Qed.

Lemma reachable_orderly pol w w' :
  rtc (step pol) w w' ->
  match w with Up y => exists ho, orderly ho y | Down _ => True end ->
  match w' with Up y => exists ho, orderly ho y | Down _ => True end.
Proof.
  induction 1 as [|w w1 w2 Hs _ IH]; [done|]. intros Hw. apply IH.
  destruct w as [y|]; [|inversion Hs]. destruct Hw as [ho Hy]. by eapply step_orderly.
Qed.

(** The holder runs alone. *)
Definition unlocked_or_down (w : world) : Prop :=
  match w with Up y => locked (sy_srv y) = false | Down _ => True end.

Lemma holder_releases pol n i y :
  orderly (Some (i, n)) y -> exists m, m <= S n /\ unlocked_or_down (do_moves pol [(m, GoRun i)] (Up y)).
Proof.
  revert y. induction (lt_wf n) as [n _ IH]. intros [s ts] Hy. pose proof (or_discards _ _ Hy) as Hd.
  destruct (or_holder _ _ Hy i n eq_refl) as [Hn [t Hi]]. simpl in *.
  pose proof (tact_disc _ t s (or_tasks _ _ Hy i t Hi) Hd (hold_locked _ _ _ Hy)) as Hm.
  rewrite hold_self in Hm. destruct (tact t s) as [s' t'| |w] eqn:Et; [|done|].
  - destruct Hm as [Hd' Ha]. rewrite <- (hold_self i n) in Ha.
    destruct (orderly_act _ _ _ _ _ _ _ Hy Hi Hd' Ha) as (ho' & Ho & Hc).
    destruct (Hc ltac:(by rewrite hold_self) i n eq_refl) as [->|(n' & -> & Hlt)].
    + exists 1. split; [lia|]. simpl. rewrite Hi. simpl. rewrite Et. simpl. exact (or_locked _ _ Ho).
    + destruct (IH n' Hlt _ Ho) as (m & Hm & Hr). exists (S m). split; [lia|]. cbn [do_moves] in *.
      rewrite Nat.iter_succ_r. simpl do_move at 2. rewrite Hi. simpl. rewrite Et. exact Hr.
  - exists 1. split; [lia|]. simpl. rewrite Hi. simpl. by rewrite Et.
Qed.
End Progress.

(** ** Properties *)

#[local] Existing Instance doubling_runtime.
#[local] Existing Instance bytes_mqttmsg.
#[local] Existing Instance plain_extern.

Module DemoProgress.
Definition conf : Config := Demo.conf false "discard".
Definition server : Server := Eval vm_compute in
  match NewServer conf 1000 with inl s => s | inr _ => Demo.session_discard end.
Definition start : world := Up (Sys server (start_tasks conf)).

Lemma discard_started : started conf 1000 start.
Proof. exists server. split; reflexivity. Qed.

(** A client publishes a retained message, and is in the middle of [sendRetain] when
    it subscribes to its topic. *)
Definition moves : list (nat * move) :=
  Run.accept_one ++ Run.handle 3 (MConnect (Demo.connect_msg "c0")) ++
  Run.handle 3 (MPublish (Demo.publish_msg "t" QosAtMostOnce true 0 "x")) ++ [(Run.all, GoRun 0)] ++
  [(1, GoReceive 3 (Some (MSubscribe 1 [("t", QosAtMostOnce)]))); (13, GoRun 3)].
Definition middle : sys := Run.final (do_moves any_client moves start).

Lemma middle_reached : rtc (step any_client) start (Up middle).
Proof.
  pose proof (do_moves_sound any_client moves start) as Hr.
  assert (Run.is_up (do_moves any_client moves start) = true) as Hup by (vm_compute; reflexivity).
  unfold middle. by destruct (do_moves any_client moves start).
Qed.
End DemoProgress.

(** C7: under the discard strategy the table is never locked for good.  In every
    reachable state with the mutex of the subscription table held, whatever the other
    goroutines are doing, one goroutine is able to move, and when it moves at most six
    times the mutex is free, or a panic has taken the broker down.  (Under the block
    strategy this fails: [sendRetain] can wait for ever in front of a full queue.) *)
Theorem discard_strategy_frees_table `{GoRuntime} `{Extern} (pol : policy) (conf : Config) (now : Z)
    (w0 : world) (y : sys)
    (Hdiscard : BuffOverflowStrategy (Broker conf) <> BufferOverflowBlock)
    (Hstart : started conf now w0) (Hr : rtc (step pol) w0 (Up y))
    (Hlocked : mu (srv_subs (sy_srv y)) = true) :
  exists i m, m <= 6 /\
    match do_moves pol [(m, GoRun i)] (Up y) with
    | Up y' => mu (srv_subs (sy_srv y')) = false
    | Down _ => True
    end.
Proof.
  pose proof (start_orderly conf now w0 Hdiscard Hstart) as H0'.
  destruct (reachable_orderly pol w0 (Up y) Hr) as [ho Hy].
  { destruct w0; [by exists None|done]. }
  pose proof (or_locked _ _ Hy) as Hl. unfold locked in Hl. rewrite Hlocked in Hl.
  destruct ho as [[i n]|]; [|done]. destruct (or_holder _ _ Hy i n eq_refl) as [Hn _].
  destruct (holder_releases pol n i y Hy) as (m & Hm & Hu). exists i, m. unfold hold_bound in Hn.
  split; [lia|]. exact Hu.
Qed.

Lemma discard_strategy_frees_table_witness :
  mu (srv_subs (sy_srv DemoProgress.middle)) = true /\
  exists i m, m <= 6 /\
    match do_moves any_client [(m, GoRun i)] (Up DemoProgress.middle) with
    | Up y' => mu (srv_subs (sy_srv y')) = false
    | Down _ => True
    end.
Proof.
  assert (mu (srv_subs (sy_srv DemoProgress.middle)) = true) as Hm by (vm_compute; reflexivity).
  split; [exact Hm|].
  apply (discard_strategy_frees_table any_client DemoProgress.conf 1000 DemoProgress.start DemoProgress.middle).
  - vm_compute. discriminate.
  - exact DemoProgress.discard_started.
  - exact DemoProgress.middle_reached.
  - exact Hm.
Defined.
