(* ===== verification/Causes.v ===== *)
(** * What takes a broker down

    Go ends the process when a goroutine sends on a closed channel or closes one
    twice.  [tame] says of a body what its actions leave as it was and what each of
    its panics reveals about the state before.  The theorem combines it with the
    invariants of every execution and with the log of [History]: clients that connect
    under ids of their own, are accepted and stay keep the broker up, with one
    exception, a session that exceeds its limits twice. *)

From Stdlib Require Import ZArith Lia.
From stdpp Require Import base gmap list strings numbers sets relations.
From S2P Require Import Prelude GoString GoProc GoSlice Wild Config Proto Store Stats Subs Broker.
From S2P Require Import Session SessionFacts Delivery Peers Invariant Sched Frame Executions Protocol.
From S2P Require Import Isolation Warrant History.

Local Open Scope string_scope.
Local Open Scope list_scope.

(** ** Bodies that leave something as it was *)

Section Tame.
Context {S : Type} (I : S -> Prop) (G : S -> S -> Prop) (C : S -> panic -> Prop).

(** From a state of [I], every action of [p] relates the states before and after by
    [G], or panics where [C] says so; a result satisfies [Q]. *)
Fixpoint tame {A} (Q : A -> Prop) (p : proc S A) : Prop :=
  match p with
  | Ret a => Q a
  | Step f => forall s, I s ->
      match f s with
      | Done s' p' => G s s' /\ tame Q p'
      | Blocked => True
      | Panicked w => C s w
      end
  end.

Lemma tame_bind {A B} (Q : A -> Prop) (Q' : B -> Prop) p k :
  tame Q p -> (forall a, Q a -> tame Q' (k a)) -> tame Q' (bind p k).
Proof.
  intros Hp Hk. induction p as [a|f IH] using proc_induction; simpl in *; [by apply Hk|].
  intros s Hs. specialize (Hp s Hs). destruct (f s) as [s' p'| |w] eqn:E; [|done|done].
  destruct Hp as [HG Hp]. split; [done|]. by eapply IH.
Qed.

Lemma tame_atomic {A} (Q : A -> Prop) (f : S -> astep S A) :
  (forall s, I s -> match f s with Done s' a => G s s' /\ Q a | Blocked => True | Panicked w => C s w end) ->
  tame Q (atomic f).
Proof. intros Hf s Hs. specialize (Hf s Hs). by destruct (f s). Qed.

Notation any := (fun _ => True).

Lemma tame_ret {A} (a : A) : tame any (Ret a).
Proof. done. Qed.

Lemma tame_then {A B} (Q : B -> Prop) (p : proc S A) k :
  tame any p -> (forall a, tame Q (k a)) -> tame Q (bind p k).
Proof. intros Hp Hk. eapply tame_bind; [exact Hp|auto]. Qed.

Lemma tame_for_each {B} (l : list B) (body : B -> proc S unit) :
  (forall x, tame any (body x)) -> tame any (for_each l body).
Proof. intros Hb. induction l as [|x l IH]; simpl; [done|]. by apply tame_then. Qed.

Lemma tame_for_range n i (body : nat -> proc S unit) :
  (forall j, tame any (body j)) -> tame any (for_range n i body).
Proof. intros Hb. revert i. induction n as [|n IH]; intros i; simpl; [done|]. by apply tame_then. Qed.

Lemma tame_panics {A} (Q : A -> Prop) w : (forall s, C s w) -> tame Q (panics w).
Proof. intros Hw. apply tame_atomic. intros s _. apply Hw. Qed.
End Tame.

Create HintDb tame.
#[export] Hint Resolve tame_ret : tame.

Ltac tame_walk :=
  repeat first
    [ progress intros
    | solve [eauto 2 with tame]
    | match goal with
      | |- tame _ _ _ _ (bind _ _) => apply tame_then
      | |- tame _ _ _ _ (for_each _ _) => apply tame_for_each
      | |- tame _ _ _ _ (for_range _ _ _) => apply tame_for_range
      | |- tame _ _ _ _ (match ?x with _ => _ end) => destruct x
      end ].

(** ** The causes in a broker *)

Section Causes.
Context `{GoRuntime} `{Extern} (b : BrokerConfig).
Implicit Types (s : Server) (k : incomingConn) (c d : conn_ptr).

Definition configured_as s : Prop := Broker (srv_cf s) = b.

(** No new connection; the queues and the channels [heartbeatStop] stay as open as they
    were. *)
Definition same_ends s s' : Prop :=
  length (srv_conns s') = length (srv_conns s) /\
  forall c k, srv_conns s !! c = Some k -> exists k', srv_conns s' !! c = Some k' /\
    ch_closed (jobs k') = ch_closed (jobs k) /\ heartbeatStop k' = heartbeatStop k.

Lemma same_conns s s' : srv_conns s' = srv_conns s -> same_ends s s'.
Proof. intros E. split; [by rewrite E|]. intros c k Hk. exists k. by rewrite E. Qed.

(** Some inbound loop has ended. *)
Definition left s : Prop := exists c k, srv_conns s !! c = Some k /\ ch_closed (jobs k) = true.

(** The session [c] was stopped before. *)
Definition stopped c s : Prop := exists k, srv_conns s !! c = Some k /\ stopChan k = true.

(** Where a body panics; [o] is the session whose inbound loop runs it, if any. *)
Definition cause (o : option conn_ptr) s (w : panic) : Prop :=
  match w with
  | SendOnClosed => left s \/ ch_closed (posts (srv_subs s)) = true \/ srv_nodes s <> ∅
  | CloseOfClosed => exists c, o = Some c /\ stopped c s
  | _ => True
  end.
Notation calm o := (tame configured_as same_ends (cause o)).
Notation calmly o := (calm o (fun _ => True)).

(** *** Actions *)

Definition other (w : panic) : Prop := w <> SendOnClosed /\ w <> CloseOfClosed.

Lemma other_cause o s w : other w -> cause o s w.
Proof. by intros [? ?]; destruct w. Qed.

(** An action that leaves the connections alone and does not panic on a channel. *)
Lemma calm_aside {A} o (f : Server -> astep Server A) :
  (forall s, match f s with
             | Done s' _ => srv_conns s' = srv_conns s | Blocked => True | Panicked w => other w end) ->
  calmly o (atomic f).
Proof.
  intros Hf. apply tame_atomic. intros s _. specialize (Hf s). destruct (f s) as [s' a| |w]; [|done|].
  - split; [by apply same_conns|done].
  - by apply other_cause.
Qed.

Lemma calm_reads {A} o (f : Server -> A) : calmly o (reads f).
Proof. by apply calm_aside. Qed.

Lemma calm_modify o (f : Server -> Server) :
  (forall s, srv_conns (f s) = srv_conns s) -> calmly o (modify f).
Proof. intros Hf. by apply calm_aside. Qed.

Lemma calm_on_conn {A} o c (f : incomingConn -> astep incomingConn A) :
  (forall s k, srv_conns s !! c = Some k ->
     match f k with
     | Done k' _ => ch_closed (jobs k') = ch_closed (jobs k) /\ heartbeatStop k' = heartbeatStop k
     | Blocked => True
     | Panicked w => cause o s w
     end) -> calmly o (on_conn c f).
Proof.
  intros Hf. apply tame_atomic. intros s _. destruct (srv_conns s !! c) as [k|] eqn:Hk; [|done].
  specialize (Hf s k Hk). destruct (f k) as [k' a| |w]; [|done|done]. split; [|done]. split; [apply length_insert|]. intros d kd Hd.
  destruct (decide (c = d)) as [<-|Hne].
  - assert (kd = k) as -> by congruence. exists k'. split; [|done].
    apply list_lookup_insert_eq. by eapply lookup_lt_Some.
  - exists kd. split; [|done]. simpl. by rewrite list_lookup_insert_ne.
Qed.

Lemma calm_write_conn o c f :
  (forall k, ch_closed (jobs (f k)) = ch_closed (jobs k) /\ heartbeatStop (f k) = heartbeatStop k) ->
  calmly o (write_conn c f).
Proof. intros Hf. apply calm_on_conn. intros s k _. apply Hf. Qed.

Lemma calm_read_conn {A} o c (f : incomingConn -> A) : calmly o (read_conn c f).
Proof. apply calm_aside. intros s. by destruct (srv_conns s !! c). Qed.

Lemma calm_do_stats o f : calmly o (do_stats f).
Proof. by apply calm_modify. Qed.

Lemma calm_critical {A} o (f : subscriptions -> subscriptions * A) : calmly o (critical f).
Proof. apply calm_aside. intros s. by destruct (mu (srv_subs s)). Qed.

(** An operation on a queue that is not a close. *)
Lemma calm_on_jobs {A} o c (op : chan job -> astep (chan job) A) :
  (forall q, match op q with
             | Done q' _ => ch_closed q' = ch_closed q
             | Blocked => True
             | Panicked w => w = SendOnClosed /\ ch_closed q = true
             end) -> calmly o (on_conn c (on_jobs op)).
Proof.
  intros Hop. apply calm_on_conn. intros s k Hk. unfold on_jobs. specialize (Hop (jobs k)).
  destruct (op (jobs k)) as [q a| |w]; [done|done|]. destruct Hop as [-> Hc]. left. by exists c, k.
Qed.

Lemma calm_send o c j : calmly o (on_conn c (on_jobs (ch_send j))).
Proof.
  apply calm_on_jobs. intros q. unfold ch_send. destruct (ch_closed q) eqn:Hc; [done|].
  by destruct (_ <? _)%nat.
Qed.

Lemma calm_try_send o c j : calmly o (on_conn c (on_jobs (ch_try_send j))).
Proof.
  apply calm_on_jobs. intros q. unfold ch_try_send. destruct (ch_closed q) eqn:Hc; [done|].
  by destruct (_ <? _)%nat.
Qed.

Lemma calm_read_msg o m : calmly o (read_msg m).
Proof. apply calm_aside. intros s. by destruct (view (srv_heap s) m). Qed.

Lemma calm_read_pub o p : calmly o (read_pub p).
Proof. apply calm_aside. intros s. by destruct (srv_heap s !! p). Qed.

Lemma calm_alloc o v : calmly o (alloc v).
Proof. by apply calm_aside. Qed.

Lemma calm_on_store {A} o c (f : MemoryStore (Message ptr) -> MemoryStore (Message ptr) * A) :
  calmly o (on_store c f).
Proof.
  apply calm_aside. intros s. destruct (srv_conns s !! c) as [k|]; [|done].
  destruct (store k) as [p|]; [|done]. by destruct (store_heap (srv_stores s) !! p).
Qed.

Lemma calm_call_store o c call : calmly o (call_store c call).
Proof. unfold call_store. destruct call; [apply calm_on_store|done]. Qed.

Lemma calm_subs_submit o p : calmly o (subs_submit p).
Proof.
  apply tame_atomic. intros s _. unfold ch_send. destruct (ch_closed _) eqn:Hc; [right; by left|].
  destruct (_ <? _)%nat; [|done]. split; [by apply same_conns|done].
Qed.

Lemma calm_run_next o : calmly o run_next.
Proof.
  apply calm_aside. intros s. unfold ch_recv. by destruct (ch_buf _); [destruct (ch_closed _)|].
Qed.

Lemma calm_save_retain o p : calmly o (save_retain p).
Proof. apply calm_aside. intros s. destruct (mu (srv_subs s)); [done|]. by destruct (srv_heap s !! p). Qed.

Lemma calm_on_node {A} o host (f : endpoint -> astep endpoint A) :
  (forall e w, f e = Panicked w -> w = SendOnClosed) -> calmly o (on_node host f).
Proof.
  intros Hf. apply tame_atomic. intros s _. destruct (srv_nodes s !! host) as [e|] eqn:He; [|done].
  destruct (f e) as [e' a| |w] eqn:E; [split; [by apply same_conns|done]|done|]. rewrite (Hf _ _ E). right. right.
  intros E0. by rewrite E0 in He.
Qed.

Lemma calm_add_client o c : calmly o (add_client c).
Proof.
  apply calm_aside. intros s. destruct (srv_conns s !! c) as [k|]; [|done].
  destruct (flag k) as [m|]; [|done]. by destruct (srv_clients s !! ClientId m).
Qed.

Lemma calm_del_client o c : calmly o (del_client c).
Proof. apply calm_aside. intros s. destruct (srv_conns s !! c) as [k|]; [|done]. by destruct (flag k). Qed.

Lemma calm_wait o r : calmly o (wait r).
Proof. apply calm_aside. intros s. by case_decide. Qed.

(** A session is stopped by its own inbound loop only. *)
Lemma calm_stop c : calmly (Some c) (stop c).
Proof.
  apply tame_then; [apply calm_do_stats|]. intros _. apply calm_on_conn. intros s k Hk.
  destruct (stopChan k) eqn:Hs; [|done]. exists c. split; [done|]. by exists k.
Qed.

#[local] Hint Resolve calm_reads calm_read_conn calm_do_stats calm_critical calm_send calm_try_send
  calm_read_msg calm_read_pub calm_alloc calm_on_store calm_call_store calm_subs_submit calm_run_next
  calm_save_retain calm_add_client calm_del_client calm_wait calm_stop : tame.
#[local] Hint Extern 1 (tame _ _ _ _ (write_conn _ _)) => by apply calm_write_conn : tame.
#[local] Hint Extern 1 (tame _ _ _ _ (modify _)) => by apply calm_modify : tame.
#[local] Hint Extern 1 (tame _ _ _ _ (panics _)) => by apply tame_panics : tame.

(** *** Bodies *)

Lemma calm_submit o c m : calmly o (submit c m).
Proof. unfold submit. tame_walk. Qed.

Lemma calm_submitSync o c m : calmly o (submitSync c m).
Proof. unfold submitSync. apply tame_then; [by apply calm_aside|]. tame_walk. Qed.

Lemma calm_refreshOpTime o c : calmly o (refreshOpTime c).
Proof. unfold refreshOpTime. tame_walk. Qed.

#[local] Hint Resolve calm_submit calm_submitSync calm_refreshOpTime : tame.

Lemma calm_run_body : calmly None run_body.
Proof. unfold run_body, run_post, critical_, read_entry. tame_walk. Qed.

Lemma calm_sendRetain o topic c : calmly o (sendRetain topic c).
Proof.
  unfold sendRetain, mu_Unlock. apply tame_then.
  - apply calm_aside. intros s. by destruct (mu (srv_subs s)).
  - tame_walk.
Qed.

Lemma calm_replicate_pub o p : calmly o (replicate_pub p).
Proof.
  unfold replicate_pub, ep_submit. tame_walk; apply calm_on_node; try done; intros e w;
    unfold on_ep_jobs, ch_send, ch_try_send; (destruct (ch_closed _); [by intros [= <-]|]);
    by destruct (_ <? _)%nat.
Qed.

Lemma calm_flag_username o c : calmly o (flag_username c).
Proof. unfold flag_username. tame_walk. Qed.

Lemma calm_redeliver o c key : calmly o (redeliver c key).
Proof. unfold redeliver. tame_walk. Qed.

#[local] Hint Resolve calm_sendRetain calm_replicate_pub calm_flag_username calm_redeliver : tame.

Lemma calm_connect_session o c m b' rc :
  rc = RetCodeAccepted -> calm o (fun rc => rc = RetCodeAccepted) (connect_session c m b' rc).
Proof. intros Hrc. unfold connect_session, CheckIn. tame_walk. by apply calm_aside. Qed.

(** A CONNECT that is acceptable whatever the number of clients is accepted. *)
Lemma calm_doConnect o c m :
  (forall n, connect_acceptable b n m) -> calm o (fun rc => rc = RetCodeAccepted) (doConnect c m).
Proof.
  intros Hacc. unfold doConnect. apply tame_then; [by apply calm_write_conn|]. intros _.
  apply tame_bind with (fun b' => b' = b). { apply tame_atomic. intros s Hs. split; [by apply same_conns|done]. }
  intros b' ->. apply tame_then; [apply calm_reads|]. intros n. apply tame_then; [apply calm_add_client|].
  intros e. apply tame_then; [destruct e; tame_walk|]. intros _. apply tame_then; [apply calm_add_client|].
  intros _. apply calm_connect_session. apply (connect_rc_accepted b n m), Hacc.
Qed.

Lemma calm_doPublish c p : calmly (Some c) (doPublish c p).
Proof. unfold doPublish, publish_limit. tame_walk. by apply calm_on_conn. Qed.

Lemma calm_doSubscribe c mid ts : calmly (Some c) (doSubscribe c mid ts).
Proof. unfold doSubscribe, subscribe_topic, critical_. tame_walk. Qed.

Lemma calm_doUnsubscribe o c mid ts : calmly o (doUnsubscribe c mid ts).
Proof. unfold doUnsubscribe, unsubscribe_topic, critical_. tame_walk. Qed.

#[local] Hint Resolve calm_doPublish calm_doSubscribe calm_doUnsubscribe : tame.

(** The messages of a client that stays: a CONNECT that is accepted whatever the number
    of clients and asks for no keep-alive, and requests that the broker serves. *)
Definition stays (v : Message Publish) : Prop :=
  match v with
  | MConnect m => (forall n, connect_acceptable b n m) /\ (KeepAliveTimer m <= 0)%Z
  | MPublish _ | MSubscribe _ _ | MUnsubscribe _ _ | MPubAck _ _ | MPingReq => True
  | _ => False
  end.

Lemma calm_inbound_msg c v :
  stays v -> calm (Some c) (fun fl => fl = Continue) (inbound_msg c v).
Proof.
  intros Hv. unfold inbound_msg. apply tame_bind with (fun m =>
    match v, m with
    | MConnect r, MConnect r' => r' = r
    | MPublish _, MPublish _ | MSubscribe _ _, MSubscribe _ _ | MUnsubscribe _ _, MUnsubscribe _ _
    | MPubAck _ _, MPubAck _ _ | MPingReq, MPingReq => True
    | _, _ => False
    end).
  { destruct v; try done. simpl. intros s Hs. split; [by apply same_conns|done]. }
  intros m Hm. do 2 (apply tame_then; [apply calm_do_stats|]; intros _).
  apply tame_then; [apply calm_refreshOpTime|]. intros _.
  destruct v, m; try done; try (apply tame_then; [by auto with tame|by intros]).
  simpl in Hm. subst. eapply tame_bind; [by apply calm_doConnect, Hv|]. intros rc ->.
  by rewrite decide_True by done.
Qed.

(** The rest of a turn of the outbound loop, when nobody waits for the message. *)
Definition outbound_rest c (sent : bool) (j : job) : proc Server flow :=
  v <- read_msg (job_m j);;
  call_store c (persist_outbound_call v (job_m j));;;
  v <- read_msg (job_m j);;
  (if sent then write_conn c (fun k => set_wire (wire k ++ [v]) k) else Ret tt);;;
  match job_r j with Some r => close_receipt r | None => Ret tt end;;;
  if negb sent then Ret Return
  else
    do_stats messageSend;;;
    v <- read_msg (job_m j);;
    do_stats (addOut v);;;
    refreshOpTime c;;;
    match job_m j with
    | MDisconnect => Ret Return
    | _ => Ret Continue
    end.

Lemma calm_outbound_rest c sent j : job_r j = None -> calmly None (outbound_rest c sent j).
Proof. intros Hj. unfold outbound_rest. rewrite Hj. tame_walk. Qed.

Lemma calm_heartbeat_tick c ka : calmly None (heartbeat_tick c ka).
Proof. unfold heartbeat_tick. tame_walk. Qed.

Lemma calm_outbound_stop c : calmly None (outbound_stop c).
Proof. apply calm_on_conn. intros s k _. by destruct (stopChan k). Qed.

Lemma calm_heartbeat_stop c : calmly None (heartbeat_stop c).
Proof. apply calm_on_conn. intros s k _. by destruct (heartbeatStop k) eqn:E. Qed.

Lemma calm_alloc_msg o v : calmly o (alloc_msg v).
Proof. unfold alloc_msg. tame_walk. Qed.
#[local] Hint Resolve calm_alloc_msg : tame.

Lemma calm_replay_msg v : calmly None (replay_msg v).
Proof. unfold replay_msg. tame_walk. Qed.

(** The deferred calls of the outbound loop after the first. *)
Definition defer_rest c : proc Server unit :=
  write_conn c (set_netClosed true);;;
  del_client c;;;
  critical_ (unsubAll c).

Lemma calm_defer_rest c : calmly None (defer_rest c).
Proof. unfold defer_rest, critical_. tame_walk. Qed.

(** ** The whole system *)

Definition heartbeat_open c s : Prop := exists k, srv_conns s !! c = Some k /\ heartbeatStop k = false.

(** The connection whose outbound loop a goroutine is. *)
Definition out_owner (t : task) : option conn_ptr :=
  match t with OutIdle c | OutRun c _ | OutDefer c _ => Some c | _ => None end.

(** Inbound loops do not end, and the outbound loop of a connection has not closed its
    [heartbeatStop] before its deferred calls. *)
Definition task_calm (t : task) s : Prop :=
  match t with
  | InRun c p => calm (Some c) (fun fl => fl = Continue) p
  | InDefer _ _ => False
  | OutIdle c => heartbeat_open c s
  | OutRun c p => heartbeat_open c s /\ calmly None p
  | OutDefer c p => (heartbeat_open c s /\ p = outbound_defer c) \/ (conn_valid c s /\ calmly None p)
  | HbRun _ _ p | Worker p => calmly None p
  | PeerRun p | PeerDefer p => calmly None p
  | _ => True
  end.

(** As [same_ends], but for [heartbeatStop] of one connection. *)
Definition same_ends_but (o : option conn_ptr) s s' : Prop :=
  forall c k, srv_conns s !! c = Some k -> exists k', srv_conns s' !! c = Some k' /\
    ch_closed (jobs k') = ch_closed (jobs k) /\ (o <> Some c -> heartbeatStop k' = heartbeatStop k).

Lemma same_ends_weaken o s s' : same_ends s s' -> same_ends_but o s s'.
Proof. intros [_ He] c k Hk. destruct (He c k Hk) as (k' & ? & ? & ?). by exists k'. Qed.

Lemma heartbeat_open_but o c s s' :
  same_ends_but o s s' -> o <> Some c -> heartbeat_open c s -> heartbeat_open c s'.
Proof. intros He Ho (k & Hk & Hh). destruct (He c k Hk) as (k' & ? & _ & Hb). exists k'. rewrite Hb; auto. Qed.

Lemma task_calm_but o t s s' :
  same_ends_but o s s' -> (forall c, out_owner t = Some c -> o <> Some c) -> task_calm t s -> task_calm t s'.
Proof.
  intros He Ho. destruct t; simpl in *; try done.
  - apply (heartbeat_open_but o); auto.
  - intros [Hh Hp]. split; [by apply (heartbeat_open_but o c s); auto|done].
  - intros [[Hh ->]|[[k Hk] Hp]]; [left|right].
    + split; [by apply (heartbeat_open_but o c s); auto|done].
    + split; [|done]. destruct (He _ k Hk) as (k' & Hk' & _). by exists k'.
Qed.

(** What an action of a goroutine leaves, or why it panics. *)
Definition went_calmly (t : task) s (r : astep Server task) : Prop :=
  match r with
  | Done s' t' => length (srv_conns s') = length (srv_conns s) /\
                  same_ends_but (out_owner t) s s' /\ task_calm t' s' /\
                  (out_owner t' = out_owner t \/ out_owner t' = None)
  | Blocked => True
  | Panicked w => cause None s w \/ exists c p, t = InRun c p /\ cause (Some c) s w
  end.

Lemma run_proc_calm {A} t o (Q : A -> Prop) wrap fin p s :
  configured_as s -> calm o Q p ->
  (o = None \/ exists c p', o = Some c /\ t = InRun c p') ->
  (forall s' a, same_ends s s' -> Q a -> task_calm (fin a) s' /\
     (out_owner (fin a) = out_owner t \/ out_owner (fin a) = None)) ->
  (forall s' p', same_ends s s' -> calm o Q p' -> task_calm (wrap p') s' /\
     (out_owner (wrap p') = out_owner t \/ out_owner (wrap p') = None)) ->
  went_calmly t s (run_proc wrap fin p s).
Proof.
  intros Hs Hp Ho Hfin Hwrap. assert (same_ends s s) as Hrefl by by apply same_conns.
  destruct p as [a|f]; simpl in *.
  - destruct (Hfin s a Hrefl Hp). split; [done|]. split; [by apply same_ends_weaken|done].
  - specialize (Hp s Hs). destruct (f s) as [s' p'| |w]; simpl; [|done|].
    + destruct Hp as [HG Hp]. destruct (Hwrap s' p' HG Hp). split; [apply HG|].
      split; [by apply same_ends_weaken|done].
    + destruct Ho as [->|(c & p' & -> & ->)]; [by left|right]. by exists c, p'.
Qed.

Lemma same_ends_open c s s' : same_ends s s' -> heartbeat_open c s -> heartbeat_open c s'.
Proof. intros He. apply (heartbeat_open_but None); [by apply same_ends_weaken|done]. Qed.

Lemma same_ends_valid c s s' : same_ends s s' -> conn_valid c s -> conn_valid c s'.
Proof. intros [_ He] [k Hk]. destruct (He c k Hk) as (k' & Hk' & _). by exists k'. Qed.

(** One connection changed. *)
Lemma same_ends_but_put c k k' s :
  srv_conns s !! c = Some k -> ch_closed (jobs k') = ch_closed (jobs k) ->
  same_ends_but (Some c) s (put_conn c k' s) /\ srv_conns (put_conn c k' s) !! c = Some k'.
Proof.
  intros Hk Ej. pose proof (lookup_lt_Some _ _ _ Hk) as Hlt. simpl. split.
  - intros d kd Hd. destruct (decide (c = d)) as [<-|Hne].
    + assert (kd = k) as -> by congruence. exists k'. split; [by apply list_lookup_insert_eq|done].
    + exists kd. simpl. by rewrite list_lookup_insert_ne.
  - by apply list_lookup_insert_eq.
Qed.

Lemma outbound_defer_calm c s :
  heartbeat_open c s -> went_calmly (OutDefer c (outbound_defer c)) s (tact (OutDefer c (outbound_defer c)) s).
Proof.
  intros (k & Hk & Hh). destruct (same_ends_but_put c k (set_heartbeatStop true k) s Hk) as [Hb Hp]; [done|].
  cbn. rewrite Hk. cbn. rewrite Hh. cbn.
  split; [apply length_insert|]. split; [exact Hb|]. split; [right|by left].
  split; [by eexists|apply calm_defer_rest].
Qed.

Lemma tact_calm t s : configured_as s -> task_calm t s -> went_calmly t s (tact t s).
Proof.
  intros Hs. destruct t as [c|c p|c p|c|c p|c p|c ka|c ka p|p|a| |p|p|]; cbn [task_calm]; intros Ht; try done.
  - eapply run_proc_calm; [done|exact Ht|right; by eauto| |].
    + intros s' fl _ ->. simpl. auto.
    + intros s' p' _ Hp'. simpl. auto.
  - destruct Ht as [Hh Hp]. eapply run_proc_calm; [done|exact Hp|by left| |].
    + intros s' fl He _. pose proof (same_ends_open c s s' He Hh). destruct fl; simpl; auto.
    + intros s' p' He Hp'. pose proof (same_ends_open c s s' He Hh). simpl. auto.
  - destruct Ht as [[Hh ->]|[Hc Hp]]; [by apply outbound_defer_calm|].
    eapply run_proc_calm; [done|exact Hp|by left|by simpl; auto|].
    intros s' p' He Hp'. pose proof (same_ends_valid c s s' He Hc). simpl. auto.
  - eapply run_proc_calm; [done|exact Ht|by left| |by simpl; auto]. intros s' fl _ _. destruct fl; simpl; auto.
  - eapply run_proc_calm; [done|exact Ht|by left| |by simpl; auto].
    intros s' fl _ _. pose proof calm_run_body. destruct fl; simpl; auto.
  - destruct a; [done|]. simpl. split; [done|]. split; [by apply same_ends_weaken, same_conns|auto].
  - eapply run_proc_calm; [done|exact Ht|by left|by simpl; auto|by simpl; auto].
  - eapply run_proc_calm; [done|exact Ht|by left|by simpl; auto|by simpl; auto].
Qed.

(** Nobody waits for a queued message. *)
Definition unawaited s : Prop :=
  forall c k, srv_conns s !! c = Some k -> Forall (fun j => job_r j = None) (ch_buf (jobs k)).

(** The outbound loop takes a message. *)
Lemma outbound_job_calm c sent s :
  unawaited s -> heartbeat_open c s ->
  went_calmly (OutIdle c) s (tact (OutRun c (outbound_job c sent)) s).
Proof.
  intros Hu (k & Hk & Hh). pose proof (Hu c k Hk) as Hj.
  cbn. rewrite Hk. unfold on_jobs, ch_recv. destruct (ch_buf (jobs k)) as [|j q]; cbn.
  - destruct (ch_closed (jobs k)) eqn:Hc; cbn; [|done].
    destruct (same_ends_but_put c k (set_jobs (jobs k) k) s Hk) as [Hb Hp]; [done|].
    split; [apply length_insert|]. split; [exact Hb|]. split; [|by left]. split; [by eexists|done].
  - apply Forall_cons in Hj as [Hj _].
    destruct (same_ends_but_put c k (set_jobs (Chan q (ch_cap (jobs k)) (ch_closed (jobs k))) k) s Hk)
      as [Hb Hp]; [done|].
    split; [apply length_insert|]. split; [exact Hb|]. split; [|by left]. split; [by eexists|]. by apply (calm_outbound_rest c sent j).
Qed.

(** The goroutine that chose a case of its select statement goes on as [t1]. *)
Lemma went_calmly_for t t1 s r :
  out_owner t = out_owner t1 -> (forall c p, t1 <> InRun c p) -> went_calmly t1 s r -> went_calmly t s r.
Proof.
  intros Ho Hn. destruct r as [s' t'| |w]; simpl; [by rewrite Ho|done|].
  intros [?|(c & p & -> & _)]; [by left|]. by destruct (Hn c p).
Qed.

Lemma select_calm t x t1 s :
  unawaited s -> configured_as s -> task_calm t s -> select t x = Some t1 -> went_calmly t s (tact t1 s).
Proof.
  intros Hu Hs Ht Hx. destruct t, x; simpl in Hx; try done; injection Hx as <-.
  - by apply outbound_job_calm.
  - by apply outbound_job_calm.
  - apply (went_calmly_for _ (OutRun c (outbound_stop c))); [done|done|].
    apply tact_calm; [done|]. split; [exact Ht|apply calm_outbound_stop].
  - apply (went_calmly_for _ (HbRun c keepAlive (heartbeat_stop c))); [done|done|].
    apply tact_calm; [done|apply calm_heartbeat_stop].
  - apply (went_calmly_for _ (HbRun c keepAlive (heartbeat_tick c keepAlive))); [done|done|].
    apply tact_calm; [done|apply calm_heartbeat_tick].
Qed.

Lemma receive_calm pol t m t' s :
  (forall s c, fails pol s c = false) -> (forall c v, t = InIdle c -> m = Some v -> stays v) ->
  receive pol s t m = Some t' -> task_calm t' s /\ out_owner t' = out_owner t /\ out_owner t = None.
Proof.
  intros Hf Hst. destruct t, m as [v|]; simpl; try done.
  - destruct (sends pol s c v); [|done]. intros [= <-]. split; [|done]. by eapply calm_inbound_msg, Hst.
  - by rewrite Hf.
  - destruct (replays pol s v); [|done]. intros [= <-]. split; [|done]. apply calm_replay_msg.
  - intros [= <-]. split; [|done]. apply calm_do_stats.
Qed.

Record sys_calm (y : sys) : Prop := {
  sc_open c k : srv_conns (sy_srv y) !! c = Some k -> ch_closed (jobs k) = false;
  sc_tasks i t : sy_tasks y !! i = Some t -> task_calm t (sy_srv y);
  sc_owners : unique_by out_owner (sy_tasks y)
}.

(** One goroutine moved. *)
Lemma sys_calm_move s ts i t s' t' :
  sys_calm (Sys s ts) -> ts !! i = Some t -> went_calmly t s (Done s' t') ->
  sys_calm (Sys s' (<[i := t']> ts)).
Proof.
  intros [Ho Ht Hu] Hi (Hlen & He & Ht' & Hown). split; simpl in *.
  - intros c k Hk. destruct (lookup_lt_is_Some_2 (srv_conns s) c) as [k0 Hk0].
    { rewrite <- Hlen. by eapply lookup_lt_Some. }
    destruct (He c k0 Hk0) as (k' & Hk' & Ej & _). assert (k' = k) as -> by congruence.
    rewrite Ej. by eapply Ho.
  - intros j u Hj. destruct (decide (i = j)) as [<-|Hne].
    + rewrite list_lookup_insert_eq in Hj by (by eapply lookup_lt_Some). by injection Hj as <-.
    + rewrite list_lookup_insert_ne in Hj by done. eapply task_calm_but; [exact He| |by eapply Ht].
      intros c Hc Hc'. by destruct Hne; eapply Hu.
  - by eapply unique_by_insert.
Qed.

(** The goroutines stay, others start. *)
Lemma sys_calm_grow s ts s' us :
  sys_calm (Sys s ts) -> srv_conns s' = srv_conns s -> Forall (fun u => out_owner u = None /\ task_calm u s') us ->
  sys_calm (Sys s' (ts ++ us)).
Proof.
  intros [Ho Ht Hu] E Hus. split; simpl in *.
  - intros c k. rewrite E. by apply Ho.
  - intros j t Hj. apply lookup_app_Some in Hj as [Hj|[_ Hj]].
    + eapply (task_calm_but None); [by apply same_ends_weaken, same_conns|done|by eapply Ht].
    + by apply (Forall_lookup_1 _ _ _ _ Hus Hj).
  - apply unique_by_app; [done|]. eapply Forall_impl; [exact Hus|]. by intros u [? _].
Qed.

Lemma out_owner_valid t c s : task_calm t s -> out_owner t = Some c -> conn_valid c s.
Proof.
  destruct t; simpl; try done; intros Ht [= <-].
  - destruct Ht as (k & Hk & _). by exists k.
  - destruct Ht as [(k & Hk & _) _]. by exists k.
  - destruct Ht as [[(k & Hk & _) _]|[Hv _]]; [by exists k|done].
Qed.

Lemma sys_calm_accept s ts i s' c :
  sys_calm (Sys s ts) -> ts !! i = Some (Acceptor true) -> accept_conn s = Done s' c ->
  sys_calm (Sys s' (<[i := Acceptor false]> ts ++ [InIdle c; OutIdle c])).
Proof.
  intros Hy Hi Ha. unfold accept_conn in Ha. case_match; [done|]. simplify_eq.
  set (k0 := new_conn (Broker (srv_cf s)) (srv_clock s)).
  set (s' := set_conns (srv_conns s ++ [k0]) s).
  assert (sys_calm (Sys s (<[i := Acceptor false]> ts))) as [Ho Ht Hu].
  { eapply sys_calm_move; [exact Hy|exact Hi|]. split; [done|].
    split; [by apply same_ends_weaken, same_conns|by split; [|left]]. }
  assert (same_ends_but None s s') as He.
  { intros c k Hk. exists k. split; [by apply lookup_app_l_Some|done]. }
  split; simpl in *.
  - intros c k Hk. apply lookup_app_Some in Hk as [Hk|[_ Hk]]; [by eapply Ho|].
    apply list_lookup_singleton_Some in Hk as [_ <-]. done.
  - intros j t Hj. apply lookup_app_Some in Hj as [Hj|[_ Hj]]; [by eapply task_calm_but; eauto|].
    destruct (j - _) as [|[|m]]; simpl in Hj; simplify_eq; [done|]. exists k0.
    split; [apply last_snoc_lookup|done].
  - apply unique_by_accept; [done| |by right]. intros j t Hj Hc.
    destruct (out_owner_valid t _ s (Ht j t Hj) Hc) as [k Hk]. apply lookup_lt_Some in Hk. lia.
Qed.

(** Something comes in from the network. *)
Lemma receive_sys_calm pol s ts i t m t' :
  (forall s c, fails pol s c = false) -> (forall c v, t = InIdle c -> m = Some v -> stays v) ->
  sys_calm (Sys s ts) -> ts !! i = Some t -> receive pol s t m = Some t' ->
  sys_calm (Sys s (<[i := t']> ts)).
Proof.
  intros Hf Hst Hy Hi Hr. destruct (receive_calm pol t m t' s Hf Hst Hr) as (Ht' & Ho & _).
  eapply sys_calm_move; [exact Hy|exact Hi|]. split; [done|].
  split; [by apply same_ends_weaken, same_conns|by auto].
Qed.

(** A step that takes nothing from the clients. *)
Lemma step_calm pol y w :
  (forall s c, fails pol s c = false) -> (forall s c v, sends pol s c v = false) ->
  sys_calm y -> configured_as (sy_srv y) -> unawaited (sy_srv y) -> step pol (Up y) w ->
  match w with
  | Up y' => sys_calm y'
  | Down why => cause None (sy_srv y) why \/
      exists i c p, sy_tasks y !! i = Some (InRun c p) /\
        tact (InRun c p) (sy_srv y) = Panicked why /\ cause (Some c) (sy_srv y) why
  end.
Proof.
  intros Hf Hse Hy Hs Hu Hstep. assert (forall i t, sy_tasks y !! i = Some t -> task_calm t (sy_srv y)) as Hin
    by apply Hy.
  inversion Hstep as [s ts i t s' t' Hi Ht|s ts i t w' Hi Ht|s ts i t x t1 s' t' Hi Hx Ht
    |s ts i t x t1 w' Hi Hx Ht|s ts i t m t' Hi Hr|s ts i s' c Hi Ha|s ts i w' Hi Ha|s ts c ka gs Hgo
    |s ts|s ts now Hn]; subst; simpl in *.
  - eapply sys_calm_move; [exact Hy|exact Hi|]. rewrite <- Ht. by apply tact_calm, (Hin i).
  - pose proof (tact_calm t s Hs (Hin i t Hi)) as Hc. rewrite Ht in Hc.
    destruct Hc as [?|(c & p & -> & Hc)]; [by left|right]. by exists i, c, p.
  - eapply sys_calm_move; [exact Hy|exact Hi|]. rewrite <- Ht. by eapply select_calm, Hx; [..|apply (Hin i)].
  - pose proof (select_calm t x t1 s Hu Hs (Hin i t Hi) Hx) as Hc. rewrite Ht in Hc.
    destruct Hc as [?|(c & p & -> & Hc)]; [by left|done].
  - eapply receive_sys_calm; [exact Hf| |exact Hy|exact Hi|exact Hr].
    intros c v -> ->. simpl in Hr. by rewrite Hse in Hr.
  - by eapply sys_calm_accept.
  - left. unfold accept_conn in Ha. by case_match; simplify_eq.
  - by apply (sys_calm_grow s ts); [|done|repeat constructor].
  - by apply (sys_calm_grow s ts); [|done|repeat constructor].
  - rewrite <- (app_nil_r ts). by apply (sys_calm_grow s ts).
Qed.

(** ** Executions in which the clients stay *)

Definition world_calm (w : world) : Prop := match w with Up y => sys_calm y | Down _ => True end.

Lemma start_calm conf now w : started conf now w -> world_calm w.
Proof.
  intros (s & Hs & ->). assert (srv_conns s = []) as E.
  { unfold NewServer in Hs. by case_match; simplify_eq. }
  assert (forall i t, start_tasks conf !! i = Some t -> task_calm t s /\ out_owner t = None) as Hts.
  { intros i t Hi. apply lookup_app_Some in Hi as [Hi|[_ Hi]].
    - apply lookup_replicate in Hi as [-> _]. split; [apply calm_run_body|done].
    - apply list_lookup_singleton_Some in Hi as [_ <-]. done. }
  split; simpl; [by rewrite E|by intros i t Hi; apply (Hts i t)|].
  intros i j t u c Hi _ Ho. destruct (Hts i t Hi). congruence.
Qed.

(** Every message of a client is one of a client that stays, and no two CONNECTs have
    one client id. *)
Definition staying (l : list event) : Prop :=
  (forall c v, FromClient c v ∈ l -> stays v) /\
  (forall i j c d m m', l !! i = Some (FromClient c (MConnect m)) ->
     l !! j = Some (FromClient d (MConnect m')) -> ClientId m = ClientId m' -> i = j).

Lemma staying_prefix l l' : staying (l ++ l') -> staying l.
Proof.
  intros [Hs Hd]. split.
  - intros c v Hin. apply (Hs c v), elem_of_app. by left.
  - intros i j c d m m' Hi Hj. by apply (Hd i j c d); apply lookup_app_l_Some.
Qed.

(** The messages in the queues of staying clients: none is a DISCONNECT. *)
Lemma staying_unawaited pol conf now w0 l y :
  started conf now w0 -> logged pol w0 l (Up y) -> Broker conf = b -> staying l ->
  configured_as (sy_srv y) /\ unawaited (sy_srv y).
Proof.
  intros Hstart Hl Hb [Hst Hd]. pose proof (ss_inv _ _ _ _ _ _ _ _ (logged_sealed _ _ _ _ _ _ Hstart Hl)) as Hs.
  split; [unfold configured_as; rewrite <- Hb; apply Hs|]. intros c k Hk.
  pose proof (cf_jobs _ _ _ _ _ _ _ _ _ (se_conns _ _ _ _ _ _ _ Hs c k Hk)) as Hj.
  eapply Forall_impl; [exact Hj|]. intros j [Hf [Hr|Hm]]; [done|]. exfalso.
  unfold job_fits in Hf. rewrite Hm in Hf.
  destruct Hf as [(i1 & i2 & d & r & r' & Hne & Hi1 & Hi2 & Eid)|(ka & r & Hr & Eka & Hpos)].
  - by apply Hne, (Hd i1 i2 c d r r').
  - destruct (Hst c _ Hr) as [_ Hka]. lia.
Qed.

Lemma logged_calm pol conf now w0 l w :
  (forall s c, fails pol s c = false) -> started conf now w0 -> Broker conf = b ->
  logged pol w0 l w -> staying l -> world_calm w.
Proof.
  intros Hf Hstart Hb. induction 1 as [|l w w' Hl IH Hs|l s ts i t m t' Hl IH Hi Hr]; intros Hst.
  - by eapply start_calm.
  - destruct w as [y|]; [|by inversion Hs]. destruct (staying_unawaited _ _ _ _ _ _ Hstart Hl Hb Hst) as [Hc Hu].
    pose proof (step_calm (mute pol) y w' Hf (fun _ _ _ => eq_refl) (IH Hst) Hc Hu Hs) as Hn. by destruct w'.
  - pose proof (IH (staying_prefix _ _ Hst)) as Hy. eapply receive_sys_calm; [exact Hf| |exact Hy|exact Hi|exact Hr].
    intros c v -> ->. apply (proj1 Hst c v), elem_of_app. right. by apply list_elem_of_singleton.
Qed.

(** The queue of posts stays open. *)
Definition posts_open s : Prop := ch_closed (posts (srv_subs s)) = false.

Lemma posts_open_framed : framed posts_open (fun _ => True) (fun _ => True) True.
Proof.
  unfold posts_open. split; try done.
  - intros s q Hs Hq. simpl. congruence.
  - intros s t Hs _ Ht. simpl. congruence.
  - intros s s' c Hs Ha. unfold accept_conn in Ha. by case_match; simplify_eq.
Qed.

(** Nothing sends on a closed channel while no inbound loop has ended. *)
Lemma no_send_on_closed pol conf now w0 y o :
  started conf now w0 -> rtc (step pol) w0 (Up y) -> sys_calm y -> ~ cause o (sy_srv y) SendOnClosed.
Proof.
  intros Hstart Hr Hy. assert (srv_nodes (sy_srv y) = ∅) as Hn.
  { apply (framed_started _ _ _ _ no_peers_framed conf now w0 y pol); [|done|done].
    intros s Hs0. unfold NewServer in Hs0. by case_match; simplify_eq. }
  assert (posts_open (sy_srv y)) as Hp.
  { apply (framed_started _ _ _ _ posts_open_framed conf now w0 y pol); [|done|done].
    intros s Hs0. unfold NewServer in Hs0. by case_match; simplify_eq. }
  unfold posts_open in Hp. intros [(c & k & Hk & Hc)|[?|?]]; [|congruence|done].
  rewrite (sc_open _ Hy c k Hk) in Hc. done.
Qed.
End Causes.

(** ** Property *)


#[local] Existing Instance doubling_runtime.
#[local] Existing Instance bytes_mqttmsg.
#[local] Existing Instance plain_extern.

Module DemoCauses.
(** Polite clients whose connections do not fail. *)
Definition staying_client : policy := {|
  sends := sends polite_client;
  fails _ _ := false;
  replays _ _ := true
|}.

(** Two clients; a message of the second is not written; the first exceeds the limit of
    subscriptions twice, up to the action that panics. *)
Definition topics (l : list string) : list (string * QosLevel) := (fun t => (t, QosAtMostOnce)) <$> l.
Definition moves : list (nat * move) :=
  Run.accept_one ++ Run.accept_one ++
  Run.handle 3 (MConnect (Demo.connect_msg "c0")) ++ Run.handle 5 (MConnect (Demo.connect_msg "c1")) ++
  [(1, GoSelect 6 PickFailed); (Run.all, GoRun 6)] ++
  Run.handle 5 (MPublish (Demo.publish_msg "t" QosAtLeastOnce false 7 "x")) ++
  [(1, GoReceive 3 (Some (MSubscribe 1 (topics ["a"; "b"; "c"; "d"; "e"])))); (23, GoRun 3)].
Definition run : list event * world := log_moves staying_client moves ([], Run.start).
Definition before : sys := Run.final run.2.
Definition log : list event :=
  [FromClient 0 (MConnect (Demo.connect_msg "c0")); FromClient 1 (MConnect (Demo.connect_msg "c1"));
   FromClient 1 (MPublish (Demo.publish_msg "t" QosAtLeastOnce false 7 "x"));
   FromClient 0 (MSubscribe 1 (topics ["a"; "b"; "c"; "d"; "e"]))].

Lemma staying_careful : careful staying_client.
Proof. split; [apply polite_careful|done]. Qed.

Lemma staying_logged : logged staying_client Run.start log (Up before).
Proof.
  assert (logged staying_client Run.start run.1 run.2) as Hl by (apply log_moves_sound; constructor).
  assert (run.1 = log /\ Run.is_up run.2 = true) as [El Hup] by (split; vm_compute; reflexivity).
  rewrite El in Hl. clear El. unfold before. by destruct run.2.
Qed.

Lemma connect_acceptable_always id n :
  (1 <= String.length id <= maxClientIdLength)%nat ->
  connect_acceptable (Broker Run.conf) n (Demo.connect_msg id).
Proof. intros Hid. split; [done|done|by left|by left]. Qed.

Lemma log_stays c v : FromClient c v ∈ log -> stays (Broker Run.conf) v.
Proof.
  unfold log. rewrite !elem_of_cons, elem_of_nil. intros [E|[E|[E|[E|[]]]]]; injection E as -> ->; try done;
    (split; [|done]); intros n; apply connect_acceptable_always; vm_compute; lia.
Qed.

Lemma log_ids i j c d m m' :
  log !! i = Some (FromClient c (MConnect m)) -> log !! j = Some (FromClient d (MConnect m')) ->
  ClientId m = ClientId m' -> i = j.
Proof.
  intros Hi Hj. destruct i as [|[|[|[|i]]]], j as [|[|[|[|j]]]]; simpl in Hi, Hj; try done;
    injection Hi as <- <-; injection Hj as <- <-; done.
Qed.
End DemoCauses.

