(* ===== verification/Deadlock.v ===== *)
(** * A retained message can lock the subscription table for ever
      (src/broker: subs.go, session.go, proto.go)

    [sendRetain] holds the mutex of the table while it submits to the queue of the
    new subscriber, and the deferred function of [outboundLoop], which no longer
    serves that queue, waits for the same mutex in [unsubAll]. *)

From Stdlib Require Import ZArith Lia.
From stdpp Require Import base gmap list strings numbers sets relations.
From S2P Require Import Prelude GoString GoProc GoSlice Wild Config Proto Store Stats Subs Broker.
From S2P Require Import Session SessionFacts Delivery Peers Invariant Sched Frame Executions.

Local Open Scope string_scope.
Local Open Scope list_scope.

Section Deadlock.
Context `{GoRuntime} `{Extern}.
Implicit Types (s : Server) (k : incomingConn) (c : conn_ptr).

(** The table without its queue of posts and its mutex. *)
Definition same_table (t t' : subscriptions) : Prop :=
  subs t' = subs t /\ retain t' = retain t /\ wildcards t' = wildcards t /\ arrays t' = arrays t.

(** The queue of [c] is open and full. *)
Definition queue_full c s : Prop :=
  exists k, srv_conns s !! c = Some k /\ ch_closed (jobs k) = false /\
            ch_cap (jobs k) <= length (ch_buf (jobs k)).

(** The mutex is held, the queue of [c0] is full and the table is [t0]. *)
Definition frozen (c0 : conn_ptr) (t0 : subscriptions) s : Prop :=
  mu (srv_subs s) = true /\ queue_full c0 s /\ same_table t0 (srv_subs s).

Lemma queue_full_put c0 s c k k' :
  queue_full c0 s -> srv_conns s !! c = Some k -> (c = c0 -> jobs k' = jobs k) ->
  queue_full c0 (put_conn c k' s).
Proof.
  intros (k0 & Hk0 & Hq) Hk Hj. unfold queue_full. simpl.
  destruct (decide (c = c0)) as [->|Hne].
  - exists k'. simplify_eq. rewrite Hj by done.
    split; [|done]. apply list_lookup_insert_eq. by eapply lookup_lt_Some.
  - exists k0. by rewrite list_lookup_insert_ne.
Qed.

Lemma frozen_put c0 t0 s c k k' :
  frozen c0 t0 s -> srv_conns s !! c = Some k -> (c = c0 -> jobs k' = jobs k) ->
  frozen c0 t0 (put_conn c k' s).
Proof. intros (Hm & Hq & Ht) Hk Hj. split; [done|]. split; [by eapply queue_full_put|done]. Qed.

(** As long as neither loop of [c0] runs, the state stays frozen. *)
Lemma frozen_framed c0 t0 : framed (frozen c0 t0) (fun c => c <> c0) (fun _ => True) False.
Proof.
  assert (forall s P, frozen c0 t0 s -> mu (srv_subs s) = false -> P) as Hlocked.
  { intros s P (Hm & _) Hf. congruence. }
  split; try done; try (intros s c k **; by eapply frozen_put);
    try (intros s **; by eapply Hlocked).
  - intros s c k j Hs Hk Hc Hl _. eapply frozen_put; [done|done|]. intros ->.
    destruct Hs as (_ & (k0 & Hk0 & _ & Hfull) & _). simplify_eq. lia.
  - intros s c k q j Hne Hs Hk _. split; [|done]. by eapply frozen_put.
  - intros s s' c Hs Ha. unfold accept_conn in Ha. case_match; simplify_eq.
    destruct Hs as (Hm & (k0 & Hk0 & Hq) & Ht). split.
    + split; [done|]. split; [|done]. exists k0. split; [by apply lookup_app_l_Some|done].
    + apply lookup_lt_Some in Hk0. lia.
Qed.

(** A send to the full queue, and a critical section. *)
Lemma send_held c0 t0 m r : proc_held (frozen c0 t0) (on_conn c0 (on_jobs (ch_send (Job m r)))).
Proof.
  intros s (_ & (k & Hk & Hc & Hl) & _). simpl. rewrite Hk. unfold on_jobs, ch_send. rewrite Hc.
  by apply Nat.ltb_ge in Hl as ->.
Qed.

Lemma critical_held c0 t0 f : proc_held (frozen c0 t0) (critical_ f).
Proof. intros s (Hm & _). simpl. by rewrite Hm. Qed.

(** The inbound loop of [c] submits a retained message for the last topic of a
    SUBSCRIBE, with the mutex held. *)
Definition submitting (c : conn_ptr) (p : ptr) : proc Server flow :=
  ((on_conn c (on_jobs (ch_send (Job (MPublish p) None)));;; mu_Unlock);;;
   for_each [] (fun tq : string * QosLevel => sendRetain tq.1 c));;; Ret Continue.
End Deadlock.

#[local] Existing Instance doubling_runtime.
#[local] Existing Instance bytes_mqttmsg.
#[local] Existing Instance plain_extern.

Module DemoDeadlock.
(** The broker of [Run] with queues of one message. *)
Definition conf : Config := {|
  Broker := Build_BrokerConfig ":1883" "" "" "" false (10 * Minute) 0 (3 * Second) false
              "block" "" "" true 1 (100 * Millisecond) 2 3 2 60;
  Peers := zero_PeersConfig;
  Redis := zero_RedisConfig
|}.
Definition server : Server := Eval vm_compute in
  match NewServer conf 1000 with inl s => s | inr _ => Demo.session_block end.
Definition start : world := Up (Sys server (start_tasks conf)).

(** A client connects, publishes two retained messages and subscribes to their
    topics; the write of the SUBACK fails and the outbound loop ends. *)
Definition moves : list (nat * move) :=
  Run.accept_one ++ Run.handle 3 (MConnect (Demo.connect_msg "c0")) ++
  [(1, GoSelect 4 PickSent); (Run.all, GoRun 4)] ++
  Run.handle 3 (MPublish (Demo.publish_msg "a" QosAtMostOnce true 0 "x")) ++ [(Run.all, GoRun 0)] ++
  Run.handle 3 (MPublish (Demo.publish_msg "b" QosAtMostOnce true 0 "y")) ++ [(Run.all, GoRun 1)] ++
  Run.handle 3 (MSubscribe 1 [("a", QosAtMostOnce); ("b", QosAtMostOnce)]) ++
  [(1, GoSelect 4 PickFailed); (Run.all, GoRun 4); (Run.all, GoRun 3)].
Definition final : sys := Run.final (do_moves polite_client moves start).

Lemma deadlock_started : started conf 1000 start.
Proof. exists server. split; reflexivity. Qed.

Lemma deadlock_reached : rtc (step polite_client) start (Up final).
Proof.
  pose proof (do_moves_sound polite_client moves start) as Hr.
  assert (Run.is_up (do_moves polite_client moves start) = true) as Hup by (vm_compute; reflexivity).
  unfold final. by destruct (do_moves polite_client moves start).
Qed.

Lemma final_tasks :
  sy_tasks final = [Worker run_body; Worker run_body; Acceptor false;
                    InRun 0 (submitting 0 3); OutDefer 0 (critical_ (unsubAll 0))].
Proof. vm_cast_no_check (eq_refl (sy_tasks final)). Qed.
End DemoDeadlock.

(** ** Property *)

(** C6: one client and one failed write can stop the broker for good.  With polite
    clients and the blocking strategy, an execution leads to a state in which a
    client's inbound loop holds the mutex of the subscription table in front of the
    client's full queue while the client's outbound loop, the only one that empties
    that queue, waits for the mutex.  Whatever happens later, both stay there, the
    mutex stays held and the table stays as it is: no goroutine subscribes,
    unsubscribes or looks up subscribers again, so no worker delivers anything. *)
Theorem retained_delivery_deadlock :
  started DemoDeadlock.conf 1000 DemoDeadlock.start /\
  exists y, rtc (step polite_client) DemoDeadlock.start (Up y) /\
    forall pol y', rtc (step pol) (Up y) (Up y') ->
      sy_tasks y' !! 3 = Some (InRun 0 (submitting 0 3)) /\
      sy_tasks y' !! 4 = Some (OutDefer 0 (critical_ (unsubAll 0))) /\
      mu (srv_subs (sy_srv y')) = true /\
      same_table (srv_subs (sy_srv y)) (srv_subs (sy_srv y')) /\
      forall topic, exec (critical (subscribers topic)) (sy_srv y') =
                    Stuck (sy_srv y') (critical (subscribers topic)).
Proof.
  split; [exact DemoDeadlock.deadlock_started|]. set (y := DemoDeadlock.final).
  exists y. split; [exact DemoDeadlock.deadlock_reached|]. intros pol y' Hr.
  set (t0 := srv_subs (sy_srv y)).
  set (hs := [(3, InRun 0 (submitting 0 3)); (4, OutDefer 0 (critical_ (unsubAll 0)))]).
  assert (sys_framed (frozen 0 t0) (fun c => c <> 0) hs y) as Hy.
  { split.
    - split; [vm_compute; reflexivity|]. split; [|done].
      eexists. split; [vm_compute; reflexivity|]. split; [reflexivity|]. simpl. lia.
    - unfold y. rewrite DemoDeadlock.final_tasks. intros i t Hin.
      apply elem_of_cons in Hin as [[= -> ->]|Hin].
      { split; [done|]. do 3 apply proc_held_bind. apply send_held. }
      apply list_elem_of_singleton in Hin as [= -> ->]. split; [done|]. apply critical_held.
    - unfold y. rewrite DemoDeadlock.final_tasks. intros i t Hi.
      destruct i as [|[|[|[|[|i]]]]]; simpl in Hi; simplify_eq;
        try (right; exact (frame_run_body _ _ _ _ (frozen_framed 0 t0))).
      + by right.
      + left. by left.
      + left. right. by left. }
  destruct (framed_reachable _ _ _ _ (frozen_framed 0 t0) hs pol y y' Hy Hr) as [(Hm & _ & Ht) Hh _].
  split; [apply (Hh 3); by left|]. split; [apply (Hh 4); right; by left|].
  split; [done|]. split; [done|]. intros topic. unfold critical. rewrite exec_atomic. by rewrite Hm.
Qed.
