(* ===== verification/Daemon.v ===== *)
(** * The daemon (src/daemon/mhub, src/broker/server.go, peers.go and stats.go)

    How the process starts: the flags, [main] with its deferred functions,
    [Server.Start], [peers.start] and the goroutine of the statistics with its HTTP
    server, which interleaves with [main] action by action and can end the process.
    The operating system, the key files, what the run time reports at a tick and the
    configuration file that golib reads are parameters.  The theorems: the flags are
    read as they are written, and what every start-up ends in. *)

From Stdlib Require Import ZArith Lia.
From stdpp Require Import base gmap list strings numbers sets.
From S2P Require Import Prelude GoString GoFlag GoProc GoSlice Wild Config Proto Store Stats Subs Broker.
From S2P Require Import Session SessionFacts Delivery Invariant Sched.

Local Open Scope string_scope.
Local Open Scope list_scope.

(** ** The flags (option.go) *)

Record daemon_option := DaemonOption {
  configFile : string;
  showVersion : bool;
  crashLogFile : string;
  logFile : string;
  logLevel : string;
  cpuProf : bool;
  memProf : bool;
  blockProf : bool
}.

Definition daemon_flags : list flag_decl :=
  [FlagDecl "conf" StringVar "etc/mhub.cf"; FlagDecl "version" BoolVar "false";
   FlagDecl "crashlog" StringVar "panic.dump"; FlagDecl "log" StringVar "stdout";
   FlagDecl "level" StringVar "debug"; FlagDecl "cpuprof" BoolVar "false";
   FlagDecl "memprof" BoolVar "false"; FlagDecl "blockprof" BoolVar "false"].

(** The variables that the flags are bound to. *)
Definition bound_option (vals : gmap string string) : daemon_option :=
  let str n := default "" (vals !! n) in
  let bool n := bool_decide (vals !! n = Some "true") in
  DaemonOption (str "conf") (bool "version") (str "crashlog") (str "log") (str "level")
    (bool "cpuprof") (bool "memprof") (bool "blockprof").

(** [init]: the program goes on with the options, or it has printed its usage or its
    version and exited. *)
Inductive init_result :=
| InitUsage (err : flag_error)
| InitVersion
| InitDone (o : daemon_option).

Definition option_init (args : list string) : init_result :=
  match Parse daemon_flags args with
  | inr err => InitUsage err
  | inl (vals, _) =>
      let o := bound_option vals in
      if showVersion o then InitVersion else InitDone o
  end.

(** ** The process *)

Inductive daemon_go :=
| WorkerGo (id : nat)
| StatsGo
| DiscoverGo
| PeerAcceptGo
| AcceptGo.

#[export] Instance daemon_go_eq_dec : EqDecision daemon_go.
Proof. solve_decision. Defined.

Section Process.
Context `{Extern}.

(** The listeners in the order they were opened, the HTTP servers of the statistics,
    the goroutines that were started, the broker, whether its [Done] is closed, and the
    profiles being written (cpu, memory, blocking). *)
Record daemon := MkDaemon {
  pr_listeners : list listen_on;
  pr_http : list (string * string);
  pr_gos : list daemon_go;
  pr_broker : option Server;
  pr_done : bool;
  pr_profiles : option (bool * bool * bool)
}.

Definition set_pr_listeners v (p : daemon) : daemon :=
  MkDaemon v (pr_http p) (pr_gos p) (pr_broker p) (pr_done p) (pr_profiles p).
Definition set_pr_http v (p : daemon) : daemon :=
  MkDaemon (pr_listeners p) v (pr_gos p) (pr_broker p) (pr_done p) (pr_profiles p).
Definition set_pr_gos v (p : daemon) : daemon :=
  MkDaemon (pr_listeners p) (pr_http p) v (pr_broker p) (pr_done p) (pr_profiles p).
Definition set_pr_broker v (p : daemon) : daemon :=
  MkDaemon (pr_listeners p) (pr_http p) (pr_gos p) v (pr_done p) (pr_profiles p).
Definition set_pr_done v (p : daemon) : daemon :=
  MkDaemon (pr_listeners p) (pr_http p) (pr_gos p) (pr_broker p) v (pr_profiles p).
Definition set_pr_profiles v (p : daemon) : daemon :=
  MkDaemon (pr_listeners p) (pr_http p) (pr_gos p) (pr_broker p) (pr_done p) v.

Definition no_process : daemon := MkDaemon [] [] [] None false None.

Definition spawn (g : list daemon_go) : proc daemon unit :=
  modify (fun p => set_pr_gos (pr_gos p ++ g) p).
End Process.

Section Daemon.
Context `{GoRuntime} `{Extern}.
(** The error of listening on an address next to the listeners already open, the error
    of loading a pair of key files, the sections of the file that golib reads or its
    panic, and the time. *)
Context (listen_err : list listen_on -> listen_on -> option string).
Context (key_pair_err : string -> string -> option string).
Context (golib_conf : string -> (string -> option Conf) + panic).
Context (now : Z).

Definition net_Listen (l : listen_on) : proc daemon (option string) :=
  atomic (fun p =>
    match listen_err (pr_listeners p) l with
    | Some err => Done p (Some err)
    | None => Done (set_pr_listeners (pr_listeners p ++ [l]) p) None
    end).

(** ** server.go *)

(** [startListener], with the key files and the listen call. *)
Definition Server_startListener (b : BrokerConfig) : proc daemon (option string) :=
  match startListener b with
  | PlainTcp addr => net_Listen (PlainTcp addr)
  | TlsTcp addr cert key =>
      match key_pair_err cert key with
      | Some err => Ret (Some err)
      | None => net_Listen (TlsTcp addr cert key)
      end
  end.

(** [peers.start]; the code under [if false] is left out. *)
Definition peers_start (addr : string) : proc daemon (option string) :=
  spawn [DiscoverGo];;;
  err <- net_Listen (PlainTcp addr);;
  match err with
  | Some err => Ret (Some err)
  | None => spawn [PeerAcceptGo];;; Ret None
  end.

Definition Server_Start (conf : Config) : proc daemon unit :=
  err <- Server_startListener (Broker conf);;
  match err with
  | Some err => panics (UserPanic err)
  | None =>
      err <- peers_start (PeersListenAddr (Peers conf));;
      match err with
      | Some err => panics (UserPanic err)
      | None => spawn [AcceptGo]
      end
  end.

(** [NewServer], with the goroutines of [newSubscriptions] and of the statistics. *)
Definition start_server (conf : Config) : proc daemon unit :=
  match NewServer conf now with
  | inr w => panics w
  | inl s =>
      modify (set_pr_broker (Some s));;;
      spawn (map WorkerGo (seq 0 (Z.to_nat (SubscriptionsWorkers (Broker conf)))) ++ [StatsGo])
  end.

(** [Stop]: nothing calls it but the accept loop, after a loop that does not end. *)
Definition Server_Stop : proc daemon unit :=
  atomic (fun p => if pr_done p then Panicked CloseOfClosed else Done (set_pr_done true p) tt).

(** [<-broker.Done] *)
Definition wait_done : proc daemon unit :=
  atomic (fun p => if pr_done p then Done p tt else Blocked).

(** ** main.go *)

(** [main] up to its deferred functions. *)
Definition main_body (o : daemon_option) : proc daemon unit :=
  (if cpuProf o || memProf o
   then modify (set_pr_profiles (Some (cpuProf o, memProf o, blockProf o))) else Ret tt);;;
  match golib_conf (configFile o) with
  | inr w => panics w
  | inl section =>
      match LoadConfig section with
      | inr w => panics w
      | inl conf => start_server conf;;; Server_Start conf;;; wait_done
      end
  end.

(** ** The statistics goroutine (stats.go) *)

Definition launchHttpServ (s : stats) : proc daemon unit :=
  if statsListenAddr s =s "" then Ret tt
  else modify (fun p => set_pr_http (pr_http p ++ [(statsListenAddr s, profListenAddr s)]) p).

Definition stopHttpServ (p : daemon) : daemon := set_pr_http [] p.

(** [time.NewTicker]: the deferred function is not registered yet when it panics. *)
Definition new_ticker (s : stats) : proc daemon unit :=
  if (interval s <=? 0)%Z then panics (UserPanic "non-positive interval for NewTicker") else Ret tt.

(** [stats.start] up to its loop. *)
Definition stats_open (s : stats) : proc daemon unit := launchHttpServ s;;; new_ticker s.

(** The goroutine is on its way to the loop, or in front of its ticker. *)
Inductive stats_phase := StatsOpening (q : proc daemon unit) | StatsLoop (r : reporter).

(** ** The running process *)

(** The process runs [main] and, once it has started, the statistics goroutine; or
    [main] has returned, after printing a panic that it recovered from; or a panic of
    the statistics goroutine, which nobody recovers from, has ended it. *)
Inductive life :=
| Running (p : daemon) (main : proc daemon unit) (st : option stats_phase)
| Exited (p : daemon) (printed : option panic)
| Killed (p : daemon) (why : panic).

(** The status of the process: that of a Go program whose [main] returns, and that of
    one that panics. *)
Definition exit_status (z : life) : option Z :=
  match z with Running _ _ _ => None | Exited _ _ => Some 0%Z | Killed _ _ => Some 2%Z end.

(** The next action of the statistics goroutine; [c] has the counters at the tick and
    [x] is what the run time reports. *)
Definition stats_act (c : stats) (x : sample) (ph : stats_phase) (p : daemon) (m : proc daemon unit)
    : option life :=
  match ph with
  | StatsOpening (Ret _) =>
      Some (Running p m (Some (StatsLoop {| lastUserTime := 0; lastSysTime := 0; lastPackets := 0 |})))
  | StatsOpening (Step f) =>
      match f p with
      | Done p' q => Some (Running p' m (Some (StatsOpening q)))
      | Blocked => None
      | Panicked w => Some (Killed p w)
      end
  | StatsLoop r =>
      match tick c x r with
      | inl (_, r') => Some (Running p m (Some (StatsLoop r')))
      | inr w => Some (Killed (stopHttpServ p) w)
      end
  end.

(** What the run time may report. *)
Context (reports : sample -> Prop).

(** One action of the process.  [main] has deferred functions that stop the profiles
    and recover from a panic. *)
Inductive life_step : life -> life -> Prop :=
| main_acts p f st p' m : f p = Done p' m -> life_step (Running p (Step f) st) (Running p' m st)
| main_returns p st :
    life_step (Running p (Ret tt) st) (Exited (set_pr_profiles None p) None)
| main_panics p f st w :
    f p = Panicked w -> life_step (Running p (Step f) st) (Exited (set_pr_profiles None p) (Some w))
| stats_begins p m s :
    StatsGo ∈ pr_gos p -> pr_broker p = Some s ->
    life_step (Running p m None) (Running p m (Some (StatsOpening (stats_open (srv_stats s)))))
| stats_acts p m ph s c x z :
    pr_broker p = Some s -> interval c = interval (srv_stats s) -> reports x ->
    stats_act c x ph p m = Some z -> life_step (Running p m (Some ph)) z.

(** The process when [main] is called. *)
Definition daemon_main (o : daemon_option) : life := Running no_process (main_body o) None.

(** ** Lemmas *)

(** The flags that say [o]. *)
Definition option_args (o : daemon_option) : list string :=
  map (fun '(n, v) => "-" +:+ n +:+ "=" +:+ v)
    [("conf", configFile o); ("version", FormatBool (showVersion o)); ("crashlog", crashLogFile o);
     ("log", logFile o); ("level", logLevel o); ("cpuprof", FormatBool (cpuProf o));
     ("memprof", FormatBool (memProf o)); ("blockprof", FormatBool (blockProf o))].

Lemma set_value_bool n def b (vals : gmap string string) :
  set_value (FlagDecl n BoolVar def) (FormatBool b) vals = inl (<[n := FormatBool b]> vals).
Proof. unfold set_value. cbn [fl_type fl_name]. by rewrite ParseBool_FormatBool. Qed.

Lemma FormatBool_true b : bool_decide (FormatBool b = "true") = b.
Proof. by destruct b. Qed.

(** The goroutine of the broker's executions that a goroutine of the process is. *)
Definition task_of (g : daemon_go) : option task :=
  match g with
  | WorkerGo _ => Some (Worker run_body)
  | AcceptGo => Some (Acceptor false)
  | _ => None
  end.

Lemma tasks_of_workers n gs : omap task_of (map WorkerGo (seq 0 n) ++ gs) =
  replicate n (Worker run_body) ++ omap task_of gs.
Proof.
  generalize 0 at 1. induction n as [|n IH]; intros i; [done|]. cbn. f_equal. apply IH.
Qed.

(** Where the clients are listened for: on the plain address if there is one, otherwise
    on the TLS address. *)
Inductive client_listener (b : BrokerConfig) : listen_on -> Prop :=
| ListenPlain : ListenAddr b <> "" -> client_listener b (PlainTcp (ListenAddr b))
| ListenTls : ListenAddr b = "" ->
    client_listener b (TlsTcp (TlsListenAddr b) (TlsServerCert b) (TlsServerKey b)).

(** Why that fails. *)
Inductive listener_fails (b : BrokerConfig) (err : string) : Prop :=
| FailsPlain : ListenAddr b <> "" -> listen_err [] (PlainTcp (ListenAddr b)) = Some err -> listener_fails b err
| FailsKeys : ListenAddr b = "" -> key_pair_err (TlsServerCert b) (TlsServerKey b) = Some err ->
    listener_fails b err
| FailsTls : ListenAddr b = "" -> key_pair_err (TlsServerCert b) (TlsServerKey b) = None ->
    listen_err [] (TlsTcp (TlsListenAddr b) (TlsServerCert b) (TlsServerKey b)) = Some err ->
    listener_fails b err.

Lemma exec_net_Listen l p :
  exec (net_Listen l) p =
  Returned (match listen_err (pr_listeners p) l with
            | Some _ => p
            | None => set_pr_listeners (pr_listeners p ++ [l]) p
            end) (listen_err (pr_listeners p) l).
Proof. unfold net_Listen. rewrite exec_atomic. by destruct (listen_err _ l). Qed.

Lemma exec_startListener b p : pr_listeners p = [] ->
  exists l, client_listener b l /\
    match exec (Server_startListener b) p with
    | Returned p' None => p' = set_pr_listeners [l] p
    | Returned p' (Some err) => p' = p /\ listener_fails b err
    | _ => False
    end.
Proof.
  intros Hp. unfold Server_startListener, startListener. destruct (ListenAddr b =s "") eqn:E; breflect; cbn [negb].
  - exists (TlsTcp (TlsListenAddr b) (TlsServerCert b) (TlsServerKey b)). split; [by apply ListenTls|].
    destruct (key_pair_err _ _) as [err|] eqn:Ek; [cbn; split; [done|by apply FailsKeys]|].
    rewrite exec_net_Listen, Hp. destruct (listen_err _ _) as [err|] eqn:El; [|done].
    split; [done|by apply FailsTls].
  - exists (PlainTcp (ListenAddr b)). split; [by apply ListenPlain|].
    rewrite exec_net_Listen, Hp. destruct (listen_err _ _) as [err|] eqn:El; [|done].
    split; [done|by apply FailsPlain].
Qed.

(** The configuration that the options name. *)
Definition configured (o : daemon_option) (conf : Config) : Prop :=
  exists section, golib_conf (configFile o) = inl section /\ LoadConfig section = inl conf.

(** Why a start-up fails, and with which panic. *)
Inductive start_fails (o : daemon_option) : panic -> Prop :=
| FailFile w : golib_conf (configFile o) = inr w -> start_fails o w
| FailConfig section w :
    golib_conf (configFile o) = inl section -> LoadConfig section = inr w -> start_fails o w
| FailServer conf w : configured o conf -> NewServer conf now = inr w -> start_fails o w
| FailListen conf err : configured o conf -> listener_fails (Broker conf) err -> start_fails o (UserPanic err)
| FailPeers conf l err :
    configured o conf -> client_listener (Broker conf) l ->
    listen_err [l] (PlainTcp (PeersListenAddr (Peers conf))) = Some err ->
    start_fails o (UserPanic err).

(** What a process that serves has. *)
Record serves (o : daemon_option) (p : daemon) (conf : Config) (s : Server) : Prop := {
  sv_config : configured o conf;
  sv_server : NewServer conf now = inl s;
  sv_broker : pr_broker p = Some s;
  sv_listeners : exists l, client_listener (Broker conf) l /\
    pr_listeners p = [l; PlainTcp (PeersListenAddr (Peers conf))];
  sv_done : pr_done p = false;
  sv_gos : pr_gos p = map WorkerGo (seq 0 (Z.to_nat (SubscriptionsWorkers (Broker conf)))) ++
             [StatsGo; DiscoverGo; PeerAcceptGo; AcceptGo]
}.

Lemma exec_Server_Start conf p : pr_listeners p = [] ->
  match exec (Server_Start conf) p with
  | Returned p' _ => exists l, client_listener (Broker conf) l /\
      p' = set_pr_listeners [l; PlainTcp (PeersListenAddr (Peers conf))]
             (set_pr_gos (pr_gos p ++ [DiscoverGo; PeerAcceptGo; AcceptGo]) p)
  | Crashed _ w => exists err, w = UserPanic err /\
      (listener_fails (Broker conf) err \/ exists l, client_listener (Broker conf) l /\
         listen_err [l] (PlainTcp (PeersListenAddr (Peers conf))) = Some err)
  | Stuck _ _ => False
  end.
Proof.
  intros Hp. unfold Server_Start. destruct (exec_startListener (Broker conf) p Hp) as (l & Hl & He).
  rewrite exec_bind. destruct (exec (Server_startListener _) p) as [p' [err|]| |]; [|subst|done|done].
  - destruct He as [-> Hf]. cbn. eauto.
  - unfold peers_start, spawn. rewrite !exec_bind, exec_modify, exec_bind, exec_net_Listen.
    cbn [pr_listeners set_pr_gos set_pr_listeners app].
    destruct (listen_err _ _) as [err|] eqn:El; [cbn; exists err; split; [done|right; by exists l]|].
    cbn. exists l. split; [done|]. unfold set_pr_gos, set_pr_listeners. cbn. by rewrite <- !(assoc_L app).
Qed.

Lemma exec_main_body o :
  match exec (main_body o) no_process with
  | Returned _ _ => False
  | Crashed _ w => start_fails o w
  | Stuck p _ => exists conf s, serves o p conf s
  end.
Proof.
  unfold main_body. rewrite exec_bind.
  set (p0 := if cpuProf o || memProf o
             then set_pr_profiles (Some (cpuProf o, memProf o, blockProf o)) no_process else no_process).
  replace (exec _ no_process) with (Returned p0 tt) by (unfold p0; by case_goal).
  assert (pr_listeners p0 = [] /\ pr_gos p0 = [] /\ pr_done p0 = false) as (Hl & Hg & Hd)
    by (unfold p0; by case_goal).
  destruct (golib_conf (configFile o)) as [section|w] eqn:Ef; [|cbn; by apply FailFile].
  destruct (LoadConfig section) as [conf|w] eqn:Ec; [|cbn; by eapply FailConfig].
  rewrite exec_bind. unfold start_server. destruct (NewServer conf now) as [s|w] eqn:Es;
    [|cbn; eapply FailServer; [by exists section|done]].
  unfold spawn. rewrite exec_bind, !exec_modify, exec_bind. set (p1 := set_pr_gos _ _).
  pose proof (exec_Server_Start conf p1 Hl) as Hst. destruct (exec _ p1) as [p' []|p' q|p' w]; [|done|].
  - destruct Hst as (l & Hcl & ->). unfold wait_done. rewrite exec_atomic. cbn. rewrite Hd.
    exists conf, s. split; try done; [by exists section|by exists l|].
    cbn. rewrite Hg. cbn. by rewrite <- (assoc_L app).
  - assert (configured o conf) as Hcf by (by exists section).
    destruct Hst as (err & -> & [He|(l & Hcl & He)]); [by eapply FailListen|by eapply FailPeers].
Qed.
(** ** Interleavings of [main] and the statistics goroutine *)

(** A body that neither sees nor changes the HTTP servers; its actions keep [I]. *)
Fixpoint minds {A} (I : daemon -> Prop) (q : proc daemon A) : Prop :=
  match q with
  | Ret _ => True
  | Step f => forall p h,
      match f p with
      | Done p' q' => f (set_pr_http h p) = Done (set_pr_http h p') q' /\ pr_http p' = pr_http p /\
                      (I p -> I p') /\ minds I q'
      | Blocked => f (set_pr_http h p) = Blocked
      | Panicked w => f (set_pr_http h p) = Panicked w
      end
  end.

Lemma minds_bind {A B} I (q : proc daemon A) (k : A -> proc daemon B) :
  minds I q -> (forall a, minds I (k a)) -> minds I (bind q k).
Proof.
  intros Hq Hk. induction q as [a|f IH] using proc_induction; simpl in *; [apply Hk|]. intros p h.
  specialize (Hq p h). destruct (f p) as [p' q'| |w] eqn:E; [|by rewrite Hq..].
  destruct Hq as (-> & Hh & HI & Hq). do 3 (split; [done|]). by eapply IH.
Qed.

Lemma minds_modify I g :
  (forall p h, g (set_pr_http h p) = set_pr_http h (g p) /\ pr_http (g p) = pr_http p /\ (I p -> I (g p))) ->
  minds I (modify g).
Proof. intros Hg p h. cbn. by destruct (Hg p h) as (-> & ? & ?). Qed.

Lemma minds_panics {A} I w : minds I (panics (A := A) w).
Proof. by intros p h. Qed.

(** The broker of the process is the one that the configuration asks for. *)
Definition broker_ok (o : daemon_option) (p : daemon) : Prop :=
  forall s, pr_broker p = Some s -> exists conf, configured o conf /\ NewServer conf now = inl s.

Lemma minds_net_Listen o l : minds (broker_ok o) (net_Listen l).
Proof. intros p h. cbn. by destruct (listen_err (pr_listeners p) l). Qed.

Lemma minds_spawn o g : minds (broker_ok o) (spawn g).
Proof. by apply minds_modify. Qed.

Lemma minds_main_body o : minds (broker_ok o) (main_body o).
Proof.
  unfold main_body. apply minds_bind; [case_match; [by apply minds_modify|done]|]. intros [].
  destruct (golib_conf (configFile o)) as [section|w] eqn:Ef; [|apply minds_panics].
  destruct (LoadConfig section) as [conf|w] eqn:Ec; [|apply minds_panics].
  assert (configured o conf) as Hcf by (by exists section).
  apply minds_bind; [|intros []; apply minds_bind; [|intros []]].
  - unfold start_server. destruct (NewServer conf now) as [s|w] eqn:Es; [|apply minds_panics].
    apply minds_bind; [|intros []; apply minds_spawn]. apply minds_modify. intros p h. do 2 (split; [done|]).
    intros _ s' [= <-]. by exists conf.
  - unfold Server_Start, Server_startListener, peers_start. apply minds_bind.
    + destruct (startListener _); [apply minds_net_Listen|]. case_match; [done|apply minds_net_Listen].
    + intros [err|]; [apply minds_panics|]. apply minds_bind; [|intros [err|]; [apply minds_panics|apply minds_spawn]].
      apply minds_bind; [apply minds_spawn|]. intros []. apply minds_bind; [apply minds_net_Listen|].
      intros [err|]; [done|]. apply minds_bind; [apply minds_spawn|done].
  - intros p h. cbn. by destruct (pr_done p).
Qed.

(** The HTTP servers of the statistics. *)
Definition http_of (b : BrokerConfig) : list (string * string) :=
  if bool_decide (StatsHttpListenAddr b = "") then [] else [(StatsHttpListenAddr b, ProfHttpListenAddr b)].

(** How far the statistics goroutine is, and what it has done by then. *)
Definition phase_ok (o : daemon_option) (p : daemon) (st : option stats_phase) : Prop :=
  match st with
  | None => pr_http p = []
  | Some ph => exists conf s, configured o conf /\ NewServer conf now = inl s /\
      match ph with
      | StatsOpening q =>
          (q = stats_open (srv_stats s) /\ pr_http p = []) \/
          (q = new_ticker (srv_stats s) /\ pr_http p = http_of (Broker conf))
      | StatsLoop _ => (0 < StatsInterval (Broker conf))%Z /\ pr_http p = http_of (Broker conf)
      end
  end.

(** Why the statistics goroutine ends the process. *)
Inductive stats_fails (b : BrokerConfig) : panic -> Prop :=
| FailsTicker : (StatsInterval b <= 0)%Z -> stats_fails b (UserPanic "non-positive interval for NewTicker")
| FailsSeconds : (0 < StatsInterval b < Second)%Z -> stats_fails b DivideByZero
| FailsPause x : reports x -> NumGC x = 0%Z -> stats_fails b DivideByZero.

Definition life_ok (o : daemon_option) (z : life) : Prop :=
  match z with
  | Running p m st => exec m (set_pr_http [] p) = exec (main_body o) no_process /\
      minds (broker_ok o) m /\ broker_ok o p /\ phase_ok o p st
  | Exited p printed => exists w, printed = Some w /\ start_fails o w
  | Killed p w => exists conf, configured o conf /\ stats_fails (Broker conf) w
  end.

Lemma NewServer_stats conf s : NewServer conf now = inl s -> srv_stats s = new_stats (Broker conf).
Proof. unfold NewServer. intros Hn. case_match; by simplify_eq. Qed.

Lemma configured_unique o conf conf' : configured o conf -> configured o conf' -> conf = conf'.
Proof. intros (f & Hf & Hc) (f' & Hf' & Hc'). congruence. Qed.

Lemma tick_fails c x r b w :
  interval c = StatsInterval b -> (0 < StatsInterval b)%Z -> reports x -> tick c x r = inr w -> stats_fails b w.
Proof.
  intros Hi Hpos Hx. unfold tick. rewrite Hi. destruct (Z.quot _ Second =? 0)%Z eqn:Eq.
  - intros [= <-]. apply FailsSeconds. split; [done|]. apply Z.eqb_eq in Eq.
    destruct (Z.lt_ge_cases (StatsInterval b) Second) as [?|Hge]; [done|].
    assert (1 <= Z.quot (StatsInterval b) Second)%Z; [|lia]. apply Z.quot_le_lower_bound; [done|lia].
  - destruct (nsInMs * NumGC x =? 0)%Z eqn:En; [|done]. intros [= <-]. apply (FailsPause b x Hx).
    apply Z.eqb_eq in En. unfold nsInMs in En. lia.
Qed.

(** The action of a goroutine that is about to create its ticker. *)
Lemma new_ticker_ok o c x p m z conf s :
  exec m (set_pr_http [] p) = exec (main_body o) no_process -> minds (broker_ok o) m -> broker_ok o p ->
  configured o conf -> NewServer conf now = inl s -> pr_http p = http_of (Broker conf) ->
  stats_act c x (StatsOpening (new_ticker (srv_stats s))) p m = Some z -> life_ok o z.
Proof.
  intros Hm Hmd Hb Hcf Hn Hh. unfold stats_act, new_ticker. rewrite (NewServer_stats conf s Hn). cbn [interval new_stats].
  destruct (StatsInterval (Broker conf) <=? 0)%Z eqn:Ei; cbn; intros [= <-]; breflect.
  - exists conf. split; [done|]. apply FailsTicker. lia.
  - do 3 (split; [done|]). exists conf, s. do 2 (split; [done|]). split; [lia|done].
Qed.

Lemma stats_act_ok o c x ph p m s' z :
  life_ok o (Running p m (Some ph)) -> pr_broker p = Some s' -> interval c = interval (srv_stats s') ->
  reports x -> stats_act c x ph p m = Some z -> life_ok o z.
Proof.
  intros (Hm & Hmd & Hb & conf & s & Hcf & Hn & Hph) Hs' Hc Hx.
  pose proof (NewServer_stats conf s Hn) as Hst.
  destruct (Hb s' Hs') as (conf' & Hcf' & Hn'). rewrite (configured_unique o conf' conf Hcf' Hcf) in Hn'.
  assert (s' = s) as -> by congruence. clear conf' Hcf' Hn'.
  destruct ph as [q|r]; [destruct Hph as [[-> Hh]|[-> Hh]]|destruct Hph as [Hpos Hh]].
  - unfold stats_open, launchHttpServ. destruct (statsListenAddr (srv_stats s) =s "") eqn:Ea.
    + cbn [bind]. apply (new_ticker_ok o c x p m z conf s); try done.
      rewrite Hh. unfold http_of. breflect. rewrite Hst in Ea. by rewrite bool_decide_true.
    + cbn. intros [= <-]. do 3 (split; [done|]). exists conf, s. do 2 (split; [done|]). right. split; [done|].
      cbn. rewrite Hh, Hst. unfold http_of. breflect. rewrite Hst in Ea. by rewrite bool_decide_false.
  - by apply (new_ticker_ok o c x p m z conf s).
  - cbn [stats_act]. destruct (tick c x r) as [[rep r']|w] eqn:Et; intros [= <-].
    + do 3 (split; [done|]). by exists conf, s.
    + exists conf. split; [done|]. eapply tick_fails; [|done|done|exact Et]. by rewrite Hc, Hst.
Qed.

Lemma life_step_ok o z z' : life_step z z' -> life_ok o z -> life_ok o z'.
Proof.
  intros [p f st p' m E|p st|p f st w E|p m s Hg Hb|p m ph s c x z1 Hb Hi Hx Hz] Hok; [..|by eapply stats_act_ok];
    destruct Hok as (Hm & Hmd & Hbo & Hph); cbn [life_ok].
  - specialize (Hmd p []). rewrite E in Hmd. destruct Hmd as (E' & Hh & HI & Hmd).
    split; [rewrite <- Hm; cbn; by rewrite E'|]. split; [done|]. split; [auto|].
    unfold phase_ok in *. by rewrite Hh.
  - pose proof (exec_main_body o) as Hf. by rewrite <- Hm in Hf.
  - specialize (Hmd p []). rewrite E in Hmd. pose proof (exec_main_body o) as Hf.
    rewrite <- Hm in Hf. cbn in Hf. rewrite Hmd in Hf. by exists w.
  - do 3 (split; [done|]). destruct (Hbo s Hb) as (conf & Hcf & Hn). exists conf, s. do 2 (split; [done|]). by left.
Qed.

Lemma reachable_life o z : rtc life_step (daemon_main o) z -> life_ok o z.
Proof.
  assert (life_ok o (daemon_main o)) as Hok.
  { split; [done|]. split; [apply minds_main_body|]. by split. }
  intros Hr. revert Hok. induction Hr as [|z z1 z2 Hs _ IH]; [done|]. intros Hok. by eapply IH, life_step_ok.
Qed.
(** An executable interleaving: whose turn it is. *)
Inductive turn := TurnMain | TurnStats.

Definition take_turn (t : turn) (z : life) : option life :=
  match t, z with
  | TurnMain, Running p (Ret _) st => Some (Exited (set_pr_profiles None p) None)
  | TurnMain, Running p (Step f) st =>
      match f p with
      | Done p' m => Some (Running p' m st)
      | Blocked => None
      | Panicked w => Some (Exited (set_pr_profiles None p) (Some w))
      end
  | TurnStats, Running p m None =>
      match pr_broker p with
      | Some s => if bool_decide (StatsGo ∈ pr_gos p)
                  then Some (Running p m (Some (StatsOpening (stats_open (srv_stats s))))) else None
      | None => None
      end
  | TurnStats, Running p m (Some (StatsOpening q)) =>
      match pr_broker p with Some s => stats_act (srv_stats s) (Build_sample 0 0 0 0 0 1) (StatsOpening q) p m | None => None end
  | _, _ => None
  end.

(** Each turn as often as given, as long as it is possible. *)
Fixpoint take_turns (ts : list (nat * turn)) (z : life) : life :=
  match ts with
  | [] => z
  | (n, t) :: ts' => take_turns ts' (Nat.iter n (fun z => default z (take_turn t z)) z)
  end.

Lemma take_turn_sound t z z' :
  reports (Build_sample 0 0 0 0 0 1) -> take_turn t z = Some z' -> life_step z z'.
Proof.
  intros Hx. destruct t, z as [p m st|p pr|p w]; cbn [take_turn]; try done.
  - destruct m as [[]|f]; [intros [= <-]; apply main_returns|].
    destruct (f p) eqn:E; [|done|]; intros [= <-]; [by apply main_acts|by apply main_panics].
  - destruct st as [[q|r]|]; [|done|].
    + destruct (pr_broker p) as [s|] eqn:Hb; [|done]. intros Hz. by eapply stats_acts.
    + destruct (pr_broker p) as [s|] eqn:Hb; [|done]. case_bool_decide as Hg; [|done]. intros [= <-].
      by apply stats_begins.
Qed.

Lemma take_turns_sound ts z :
  reports (Build_sample 0 0 0 0 0 1) -> rtc life_step z (take_turns ts z).
Proof.
  intros Hx. revert z. induction ts as [|[n t] ts IH]; intros z; cbn [take_turns]; [done|].
  etrans; [|apply IH]. clear IH. induction n as [|n IHn]; [done|]. rewrite Nat.iter_succ.
  destruct (take_turn t _) as [z'|] eqn:E; simpl; [|done]. eapply rtc_r; [exact IHn|]. by eapply take_turn_sound.
Qed.
End Daemon.

(** ** Properties *)

(** The flags are read as they are written.  For all options but [version], whatever
    characters the strings have, the daemon started with the flags that say them goes on
    with exactly these options. *)
Theorem option_flags_roundtrip (o : daemon_option) (Hv : showVersion o = false) :
  option_init (option_args o) = InitDone o.
Proof.
  unfold option_init, Parse, option_args. cbn [map].
  do 8 (erewrite parse_args_set;
        [|vm_compute; reflexivity|vm_compute; reflexivity
         |first [apply set_value_bool|unfold set_value; cbn [fl_type fl_name]; reflexivity]]).
  cbn [parse_args]. unfold bound_option. rewrite Hv.
  repeat (rewrite lookup_insert_ne by done || rewrite lookup_insert_eq). cbn [default].
  destruct o as [c v cl l lv cp mp bp]. cbn in Hv. subst. cbn [configFile crashLogFile logFile logLevel cpuProf memProf blockProf].
  by destruct cp, mp, bp.
Qed.

Lemma option_flags_roundtrip_witness :
  option_init ["-conf=a=b"; "-version=false"; "-crashlog="; "-log=stdout"; "-level=debug";
               "-cpuprof=true"; "-memprof=false"; "-blockprof=false"] =
  InitDone (DaemonOption "a=b" false "" "stdout" "debug" true false false).
Proof. exact (option_flags_roundtrip (DaemonOption "a=b" false "" "stdout" "debug" true false false) eq_refl). Defined.


#[local] Existing Instance doubling_runtime.
#[local] Existing Instance bytes_mqttmsg.
#[local] Existing Instance plain_extern.

Module DemoDaemon.
(** A file with the address of the clients and the interval and the address of the
    statistics. *)
Definition section (every : Z) : Conf := {|
  conf_String n d := if n =s "listen_addr" then ":1883" else if n =s "stats_http_listen_addr" then ":9000" else d;
  conf_Bool n d := d;
  conf_Int n d := d;
  conf_Duration n d := if n =s "stats_interval" then every else d
|}.
Definition golib_conf (file : string) : (string -> option Conf) + panic :=
  if file =s "etc/mhub.cf" then inl (fun name => if name =s "broker" then Some (section Minute) else None)
  else if file =s "fast.cf" then inl (fun name => if name =s "broker" then Some (section 0) else None)
  else inr (UserPanic "no such file").
Definition listen_err (open : list listen_on) (l : listen_on) : option string := None.
Definition key_pair_err (cert key : string) : option string := Some "no such file".
Definition options (file : string) : daemon_option :=
  DaemonOption file false "panic.dump" "stdout" "debug" false false false.
Definition any_report (x : sample) : Prop := True.
(** [main] until it waits or ends, then the statistics; or the statistics as soon as
    they are started. *)
Definition run (ts : list (nat * turn)) (file : string) : life :=
  take_turns ts (daemon_main listen_err key_pair_err golib_conf 1000 (options file)).
Definition main_first : list (nat * turn) := [(20, TurnMain); (4, TurnStats)].
Definition stats_first : list (nat * turn) := [(2, TurnMain); (4, TurnStats); (20, TurnMain)].

Lemma run_reached ts file :
  rtc (life_step any_report) (daemon_main listen_err key_pair_err golib_conf 1000 (options file)) (run ts file).
Proof. by apply take_turns_sound. Qed.
End DemoDaemon.

