(* ===== verification/Recycler.v ===== *)
(** * The buffer pools of the benchmarks (src/_bench/gc)

    Three programs that allocate large buffers: mempool.go hands them through a goroutine
    that keeps the idle ones, gc_good.go keeps them in a channel, gc_bad.go drops them.
    A buffer is the number of its allocation.  The theorems: no buffer is ever in two
    places, how many can be alive, and mempool.go never stops for good. *)

From Stdlib Require Import ZArith Lia.
From stdpp Require Import base list numbers sets.
From S2P Require Import Prelude GoProc Config.

Local Open Scope list_scope.

Notation buffer := nat (only parsing).

Definition bufferMin : Z := 5000000.
(** The slots of [pool]. *)
Definition poolSize : nat := 20.

(** The length that [makeBuffer] gives a buffer, [r] the result of [rand.Intn(5000000)]. *)
Definition makeBuffer (r : Z) : Z := (r + bufferMin)%Z.

(** The buffers that the slots refer to. *)
Definition slots (pool : list (option buffer)) : list buffer := omap id pool.

(** The number of bytes that the programs print. *)
Definition pool_bytes (lens : list Z) (pool : list (option buffer)) : Z :=
  foldr (fun x n => (match x with Some b => default 0 (lens !! b) | None => 0 end + n)%Z) 0%Z pool.

(** ** Slots *)

Lemma slots_length p : length (slots p) <= length p.
Proof. unfold slots. induction p as [|[x|] p IH]; cbn; lia. Qed.

(** Storing in a slot that counts for nothing. *)
Lemma slots_insert p i b : i < length p -> slots (<[i := Some b]> p) ≡ₚ b :: slots (<[i := None]> p).
Proof.
  revert i. induction p as [|x p IH]; intros i Hi; [by apply Nat.nlt_0_r in Hi|].
  destruct i as [|i]; [done|]. cbn [length] in Hi. cbn.
  destruct x as [x|]; cbn; rewrite (IH i) by lia; [apply Permutation_swap|done].
Qed.

Lemma slots_taken p i b : p !! i = Some (Some b) -> slots p ≡ₚ b :: slots (<[i := None]> p).
Proof.
  intros Hi. rewrite <- (slots_insert p i b) by (by eapply lookup_lt_Some). by rewrite list_insert_id.
Qed.

Lemma slots_cleared p i : i < length p -> length (slots (<[i := None]> p)) < length p.
Proof.
  intros Hi. pose proof (slots_insert p i 0 Hi) as Hp. apply Permutation_length in Hp. cbn in Hp.
  pose proof (slots_length (<[i := Some 0]> p)) as Hl. rewrite length_insert in Hl. lia.
Qed.

(** The bytes printed lie between those of small and of large buffers in every used slot. *)
Lemma pool_bytes_bounds lens p :
  Forall (fun n => 5000000 <= n < 10000000)%Z lens -> Forall (fun b => b < length lens) (slots p) ->
  (5000000 * Z.of_nat (length (slots p)) <= pool_bytes lens p <=
   9999999 * Z.of_nat (length (slots p)))%Z.
Proof.
  intros Hl. induction p as [|[b|] p IH]; intros Hp; [done| |by apply IH].
  change (slots (Some b :: p)) with (b :: slots p) in *. cbn [length pool_bytes foldr].
  fold (pool_bytes lens p). inversion Hp as [|x l Hb Hp']; subst. specialize (IH Hp').
  destruct (lookup_lt_is_Some_2 _ _ Hb) as [n Hn]. rewrite Hn. cbn [default].
  pose proof (proj1 (Forall_lookup _ _) Hl b n Hn) as Hbn. cbn in Hbn. unfold id. lia.
Qed.

Module Mempool.

Record queued := Queued { when : Z; slice : buffer }.

(** The goroutine of [makeRecycler] is at the head of its loop, or in the [select] with
    a timer that fires at [deadline]. *)
Inductive recycler := AtLoop | AtSelect (deadline : Z).

(** [main]: receiving from [get], with the buffer it received, sending slot [i] to [give],
    about to store the buffer in slot [i], asleep. *)
Inductive main_state :=
| Getting
| Holding (b : buffer)
| Giving (b : buffer) (i : nat) (old : buffer)
| Storing (b : buffer) (i : nat)
| Sleeping (until : Z).

(** [gone] has the buffers that nothing refers to any more. *)
Record state := State {
  now : Z;
  makes : nat;
  frees : nat;
  lens : list Z;
  q : list queued;
  rec : recycler;
  pool : list (option buffer);
  main : main_state;
  gone : list buffer
}.

Definition start (t : Z) : state :=
  State t 0 0 [] [] AtLoop (replicate poolSize None) Getting [].

Definition set_main (m : main_state) (s : state) : state :=
  State (now s) (makes s) (frees s) (lens s) (q s) (rec s) (pool s) m (gone s).
Definition set_rec (r : recycler) (s : state) : state :=
  State (now s) (makes s) (frees s) (lens s) (q s) r (pool s) (main s) (gone s).
Definition set_q (l : list queued) (s : state) : state :=
  State (now s) (makes s) (frees s) (lens s) l (rec s) (pool s) (main s) (gone s).
Definition set_pool (p : list (option buffer)) (s : state) : state :=
  State (now s) (makes s) (frees s) (lens s) (q s) (rec s) p (main s) (gone s).

(** [time.Since(e.Value.(queued).when) > time.Minute] *)
Definition expired (t : Z) (e : queued) : Prop := (Minute < t - when e)%Z.
#[global] Instance expired_dec t e : Decision (expired t e).
Proof. unfold expired. apply _. Defined.

(** The steps of the two goroutines, the two channels being unbuffered, and of time. *)
Inductive move :=
| Fill (r : Z)
| Select
| Get
| Choose (i : nat)
| Give
| Store
| Timeout
| Wake
| Tick (t : Z).

Definition do_move (m : move) (s : state) : option state :=
  match m, rec s, main s with
  | Fill r, AtLoop, _ =>
      match q s with
      | [] =>
          if decide (0 <= r < 5000000)%Z
          then Some (State (now s) (S (makes s)) (frees s) (lens s ++ [makeBuffer r])
                      [Queued (now s) (makes s)] AtLoop (pool s) (main s) (gone s))
          else None
      | _ :: _ => None
      end
  | Select, AtLoop, _ =>
      match q s with
      | [] => None
      | _ :: _ => Some (set_rec (AtSelect (now s + Minute)) s)
      end
  | Get, AtSelect _, Getting =>
      match q s with
      | e :: q' => Some (set_main (Holding (slice e)) (set_rec AtLoop (set_q q' s)))
      | [] => None
      end
  | Choose i, _, Holding b =>
      match pool s !! i with
      | Some (Some old) => Some (set_main (Giving b i old) s)
      | Some None => Some (set_main (Storing b i) s)
      | None => None
      end
  | Give, AtSelect _, Giving b i old =>
      Some (set_main (Storing b i) (set_rec AtLoop (set_q (Queued (now s) old :: q s) s)))
  | Store, _, Storing b i =>
      Some (set_main (Sleeping (now s + Second)) (set_pool (<[i := Some b]> (pool s)) s))
  | Timeout, AtSelect deadline, _ =>
      if decide (deadline <= now s)%Z
      then Some (State (now s) (makes s) (frees s) (lens s)
                  (filter (fun e => ~ expired (now s) e) (q s)) AtLoop (pool s) (main s)
                  (gone s ++ map slice (filter (expired (now s)) (q s))))
      else None
  | Wake, _, Sleeping until => if decide (until <= now s)%Z then Some (set_main Getting s) else None
  | Tick t, _, _ =>
      if decide (now s <= t)%Z
      then Some (State t (makes s) (frees s) (lens s) (q s) (rec s) (pool s) (main s) (gone s)) else None
  | _, _, _ => None
  end.

Fixpoint do_moves (ms : list move) (s : state) : option state :=
  match ms with
  | [] => Some s
  | m :: ms' => match do_move m s with Some s' => do_moves ms' s' | None => None end
  end.

(** ** Where the buffers are *)

(** The buffers of [main]; a slot about to be overwritten no longer counts. *)
Definition mine (m : main_state) (p : list (option buffer)) : list buffer :=
  match m with
  | Getting | Sleeping _ => slots p
  | Holding b | Giving b _ _ => b :: slots p
  | Storing b i => b :: slots (<[i := None]> p)
  end.

Definition alive_buffers (s : state) : list buffer := map slice (q s) ++ mine (main s) (pool s).

(** How many idle buffers the recycler can have. *)
Definition idle_max (m : main_state) : nat :=
  match m with Holding _ | Giving _ _ _ => 1 | _ => 2 end.

Record inv (s : state) : Prop := {
  inv_places : seq 0 (makes s) ≡ₚ alive_buffers s ++ gone s;
  inv_pool : length (pool s) = poolSize;
  inv_idle : length (q s) <= idle_max (main s);
  inv_front : match rec s with AtSelect _ => q s <> [] | AtLoop => True end;
  inv_slot : match main s with
             | Giving _ i old => pool s !! i = Some (Some old)
             | Storing _ i => i < poolSize
             | _ => True
             end;
  inv_lens : length (lens s) = makes s;
  inv_sizes : Forall (fun n => 5000000 <= n < 10000000)%Z (lens s);
  inv_frees : frees s = 0
}.

(** ** Lemmas *)

Lemma start_inv t : inv (start t).
Proof.
  split; cbn; try done; lia.
Qed.

Ltac proj := cbn [now makes frees lens q rec pool main gone set_main set_rec set_q set_pool].
Ltac open_inv := destruct 1 as [Hp Hl Hi Hf Hs Hn Hz H0].

Lemma fill_inv r s s' : inv s -> do_move (Fill r) s = Some s' -> inv s'.
Proof.
  open_inv. cbn. destruct (rec s); [|done]. destruct (q s) as [|e q'] eqn:Hq; [|done].
  case_decide; [|done]. intros [= <-]. split; proj; try done.
  - rewrite seq_S, Nat.add_0_l, Hp. unfold alive_buffers. proj. rewrite Hq. cbn.
    by rewrite (comm (++)).
  - destruct (main s); cbn; lia.
  - rewrite length_app. cbn. lia.
  - apply Forall_app. split; [done|]. constructor; [|done]. unfold makeBuffer, bufferMin. lia.
Qed.

Lemma get_inv s s' : inv s -> do_move Get s = Some s' -> inv s'.
Proof.
  open_inv. cbn. destruct (rec s); [done|]. destruct (main s) eqn:Hm; try done.
  destruct (q s) as [|e q'] eqn:Hq; [done|]. intros [= <-]. split; proj; try done.
  - rewrite Hp. unfold alive_buffers. proj. rewrite Hq, Hm. cbn. by rewrite <- Permutation_middle.
  - cbn in Hi |- *. lia.
Qed.

Lemma choose_inv i s s' : inv s -> do_move (Choose i) s = Some s' -> inv s'.
Proof.
  open_inv. cbn. destruct (main s) eqn:Hm; try (by destruct (rec s)).
  destruct (pool s !! i) as [[old|]|] eqn:Hx; destruct (rec s) eqn:Hr; try done; intros [= <-].
  all: split; proj; rewrite ?Hr; try done.
  all: try (rewrite Hp; unfold alive_buffers; proj; by rewrite Hm).
  all: try (rewrite Hp; unfold alive_buffers; proj; rewrite Hm; cbn; by rewrite list_insert_id).
  all: try (rewrite <- Hl; by eapply lookup_lt_Some).
  all: cbn in Hi |- *; lia.
Qed.

Lemma give_inv s s' : inv s -> do_move Give s = Some s' -> inv s'.
Proof.
  open_inv. cbn. destruct (rec s); [done|]. destruct (main s) as [| |b i old| |] eqn:Hm; try done.
  intros [= <-]. split; proj; try done.
  - rewrite Hp. unfold alive_buffers. proj. rewrite Hm. cbn. rewrite (slots_taken _ _ _ Hs).
    rewrite (Permutation_swap old b), <- Permutation_middle. done.
  - cbn in Hi |- *. lia.
  - rewrite <- Hl. by eapply lookup_lt_Some.
Qed.

Lemma store_inv s s' : inv s -> do_move Store s = Some s' -> inv s'.
Proof.
  open_inv. cbn. destruct (main s) as [| | |b i|] eqn:Hm; destruct (rec s) eqn:Hr; try done.
  all: intros [= <-]; split; proj; rewrite ?Hr, ?length_insert; try done.
  all: rewrite Hp; unfold alive_buffers; proj; rewrite Hm; cbn; by rewrite slots_insert by lia.
Qed.

Lemma timeout_inv s s' : inv s -> do_move Timeout s = Some s' -> inv s'.
Proof.
  open_inv. cbn. destruct (rec s); [done|].
  intros E. assert (s' = State (now s) (makes s) (frees s) (lens s)
                  (filter (fun e => ~ expired (now s) e) (q s)) AtLoop (pool s) (main s)
                  (gone s ++ map slice (filter (expired (now s)) (q s)))) as ->.
  { revert E. by destruct (main s); case_decide; intros [= <-]. }
  split; proj; try done.
  - rewrite Hp. unfold alive_buffers. proj.
    rewrite <- (filter_app_complement (expired (now s)) (q s)) at 1. rewrite map_app.
    rewrite (comm (++) (gone s)), <- !(assoc_L (++)).
    rewrite (comm (++) (map slice (filter (expired (now s)) (q s)))), <- !(assoc_L (++)).
    by rewrite (comm (++) (gone s)).
  - pose proof (length_filter (fun e => ~ expired (now s) e) (q s)). lia.
Qed.

Lemma do_move_inv m s s' : inv s -> do_move m s = Some s' -> inv s'.
Proof.
  destruct m; [apply fill_inv| |apply get_inv|apply choose_inv|apply give_inv|apply store_inv
              |apply timeout_inv| |].
  - open_inv. cbn. destruct (rec s); [|by destruct (main s)]. destruct (q s) eqn:Hq; [by destruct (main s)|].
    intros E. assert (s' = set_rec (AtSelect (now s + Minute)) s) as -> by (by destruct (main s); simplify_eq).
    split; proj; by rewrite ?Hq.
  - open_inv. cbn. destruct (main s) eqn:Hm; destruct (rec s) eqn:Hr; try done.
    all: case_decide; [|done]; intros [= <-]; split; proj; rewrite ?Hr; try done.
    all: rewrite Hp; unfold alive_buffers; proj; by rewrite Hm.
  - open_inv. intros E. assert (s' = State t (makes s) (frees s) (lens s) (q s) (rec s) (pool s) (main s) (gone s))
      as -> by (revert E; cbn; by destruct (rec s), (main s); case_decide; intros [= <-]).
    by split.
Qed.

Lemma do_moves_inv ms s s' : inv s -> do_moves ms s = Some s' -> inv s'.
Proof.
  revert s. induction ms as [|m ms IH]; cbn; intros s Hs E; [by simplify_eq|].
  destruct (do_move m s) as [s1|] eqn:E1; [|done]. apply (IH s1); [by eapply do_move_inv|done].
Qed.

Lemma do_moves_app ms ms' s s1 : do_moves ms s = Some s1 -> do_moves (ms ++ ms') s = do_moves ms' s1.
Proof.
  revert s. induction ms as [|m ms IH]; cbn; intros s E; [by simplify_eq|].
  destruct (do_move m s); [by apply IH|done].
Qed.

(** ** Progress *)

(** At most [n] moves from [s] until [main] has received a buffer. *)
Definition next_buffer (n : nat) (s : state) : Prop :=
  exists ms s' b, length ms <= n /\ do_moves ms s = Some s' /\ main s' = Holding b.

Lemma next_buffer_after ms s s1 n :
  do_moves ms s = Some s1 -> next_buffer n s1 -> next_buffer (length ms + n) s.
Proof.
  intros E (ms' & s' & b & Hl & E' & Hm). exists (ms ++ ms'), s', b.
  rewrite length_app, (do_moves_app _ _ _ _ E). split; [lia|done].
Qed.

(** The recycler comes to its [select]. *)
Lemma reaches_select s : inv s ->
  exists ms s' d e q', length ms <= 2 /\ do_moves ms s = Some s' /\ rec s' = AtSelect d /\
    q s' = e :: q' /\ main s' = main s /\ pool s' = pool s.
Proof.
  intros [_ _ _ Hf _ _ _ _]. destruct (rec s) as [|d] eqn:Hr.
  - destruct (q s) as [|e q'] eqn:Hq.
    + exists [Fill 0; Select], (State (now s) (S (makes s)) (frees s) (lens s ++ [makeBuffer 0])
        [Queued (now s) (makes s)] (AtSelect (now s + Minute)) (pool s) (main s) (gone s)),
        (now s + Minute)%Z, (Queued (now s) (makes s)), [].
      split; [cbn; lia|]. split; [|done]. cbn. rewrite Hr, Hq. cbn. by destruct (main s).
    + exists [Select], (set_rec (AtSelect (now s + Minute)) s), (now s + Minute)%Z, e, q'.
      split; [cbn; lia|]. split; [|done]. cbn. rewrite Hr, Hq. by destruct (main s).
  - destruct (q s) as [|e q'] eqn:Hq; [done|]. exists [], s, d, e, q'. split; [cbn; lia|done].
Qed.

Lemma getting_next s : inv s -> main s = Getting -> next_buffer 3 s.
Proof.
  intros Hs Hm. destruct (reaches_select s Hs) as (ms & s1 & d & e & q' & Hl & E & Hr & Hq & Hm1 & _).
  exists (ms ++ [Get]), (set_main (Holding (slice e)) (set_rec AtLoop (set_q q' s1))), (slice e).
  rewrite length_app, (do_moves_app _ _ _ _ E). cbn. rewrite Hr, Hm1, Hm, Hq. split; [lia|done].
Qed.

Lemma sleeping_next s u : inv s -> main s = Sleeping u -> next_buffer 5 s.
Proof.
  intros Hs Hm. set (t := Z.max u (now s)).
  set (s1 := set_main Getting (State t (makes s) (frees s) (lens s) (q s) (rec s) (pool s) (main s) (gone s))).
  assert (do_moves [Tick t; Wake] s = Some s1) as E.
  { cbn. rewrite Hm. destruct (rec s) eqn:Hr.
    all: rewrite decide_True by (unfold t; lia); cbn.
    all: rewrite decide_True by (unfold t; lia); unfold s1; by rewrite Hm, ?Hr. }
  apply (next_buffer_after _ _ _ 3 E), getting_next; [by eapply do_moves_inv|done].
Qed.

Lemma storing_next s b i : inv s -> main s = Storing b i -> next_buffer 6 s.
Proof.
  intros Hs Hm. assert (exists s1, do_moves [Store] s = Some s1 /\ main s1 = Sleeping (now s + Second)) as (s1 & E & Hm1).
  { cbn. rewrite Hm. eexists. by destruct (rec s). }
  apply (next_buffer_after _ _ _ 5 E), (sleeping_next _ (now s + Second)); [by eapply do_moves_inv|done].
Qed.

Lemma giving_next s b i old : inv s -> main s = Giving b i old -> next_buffer 9 s.
Proof.
  intros Hs Hm. destruct (reaches_select s Hs) as (ms & s1 & d & e & q' & Hl & E & Hr & Hq & Hm1 & _).
  assert (exists s2, do_moves (ms ++ [Give]) s = Some s2 /\ main s2 = Storing b i) as (s2 & E2 & Hm2).
  { rewrite (do_moves_app _ _ _ _ E). cbn. rewrite Hr, Hm1, Hm. by eexists. }
  destruct (next_buffer_after _ _ _ 6 E2) as (ms' & s' & b' & Hl' & Hn).
  { apply (storing_next _ b i); [by eapply do_moves_inv|done]. }
  exists ms', s', b'. split; [|done]. rewrite length_app in Hl'. cbn in Hl'. lia.
Qed.

Lemma holding_next s b : inv s -> main s = Holding b ->
  exists s1, do_move (Choose 0) s = Some s1 /\ next_buffer 9 s1.
Proof.
  intros Hs Hm. pose proof (inv_pool _ Hs) as Hl.
  destruct (pool s) as [|x p] eqn:Hp; [done|].
  assert (exists s1, do_move (Choose 0) s = Some s1 /\
            main s1 = match x with Some old => Giving b 0 old | None => Storing b 0 end) as (s1 & E & Hm1).
  { cbn. rewrite Hm, Hp. cbn. destruct x; destruct (rec s); by eexists. }
  exists s1. split; [done|]. assert (inv s1) as Hs1 by (by eapply do_move_inv).
  destruct x as [old|]; [by eapply giving_next|].
  destruct (storing_next s1 b 0 Hs1 Hm1) as (ms & s' & b' & Hl' & Hn). exists ms, s', b'. split; [lia|done].
Qed.

Lemma next_buffer_le n k s : n <= k -> next_buffer n s -> next_buffer k s.
Proof. intros Hn (ms & s' & b & Hl & Hx). exists ms, s', b. split; [lia|done]. Qed.

(** What counts as [main]'s buffers fits in the pool and its hand. *)
Lemma mine_bound s : inv s -> length (mine (main s) (pool s)) + idle_max (main s) <= poolSize + 2.
Proof.
  intros [_ Hl _ _ Hs _ _ _]. pose proof (slots_length (pool s)).
  destruct (main s) as [|b|b i old|b i|u]; cbn [mine idle_max length]; try lia.
  pose proof (slots_cleared (pool s) i). lia.
Qed.

Lemma alive_bound s : inv s -> length (alive_buffers s) <= poolSize + 2.
Proof.
  intros Hs. pose proof (mine_bound s Hs). pose proof (inv_idle _ Hs).
  unfold alive_buffers. rewrite length_app, length_map. lia.
Qed.
End Mempool.

Module GcGood.
(** The loop of gc_good.go between two turns. *)
Record state := State {
  buffers : chan buffer;
  pool : list (option buffer);
  makes : nat;
  gone : list buffer
}.

Definition start : state := State (make_chan 5) (replicate poolSize None) 0 [].

(** The first [select]: an idle buffer, or a new one. *)
Definition take_buffer (s : state) : state * buffer :=
  match ch_recv (buffers s) with
  | Done ch (Some b) => (State ch (pool s) (makes s) (gone s), b)
  | _ => (State (buffers s) (pool s) (S (makes s)) (gone s), makes s)
  end.

(** A turn with [i] the result of [rand.Intn(len(pool))]. *)
Definition turn (i : nat) (s0 : state) : state :=
  let '(s, b) := take_buffer s0 in
  match pool s !! i with
  | Some (Some old) =>
      match ch_try_send old (buffers s) with
      | Done ch true => State ch (<[i := Some b]> (<[i := None]> (pool s))) (makes s) (gone s)
      | _ => State (buffers s) (<[i := Some b]> (pool s)) (makes s) (gone s ++ [old])
      end
  | _ => State (buffers s) (<[i := Some b]> (pool s)) (makes s) (gone s)
  end.

Definition alive_buffers (s : state) : list buffer := ch_buf (buffers s) ++ slots (pool s).

Record inv (s : state) : Prop := {
  inv_places : seq 0 (makes s) ≡ₚ alive_buffers s ++ gone s;
  inv_pool : length (pool s) = poolSize;
  inv_chan : length (ch_buf (buffers s)) <= 5 /\ ch_cap (buffers s) = 5 /\ ch_closed (buffers s) = false
}.

(** The state after [take_buffer], the buffer in hand. *)
Lemma take_buffer_inv s s1 b : inv s -> take_buffer s = (s1, b) ->
  seq 0 (makes s1) ≡ₚ b :: alive_buffers s1 ++ gone s1 /\ pool s1 = pool s /\ makes s <= makes s1 <= S (makes s) /\
  length (ch_buf (buffers s1)) <= 5 /\ ch_cap (buffers s1) = 5 /\ ch_closed (buffers s1) = false.
Proof.
  intros [Hp _ (Hl & Hc & Ho)]. unfold take_buffer, ch_recv. rewrite Ho.
  destruct (ch_buf (buffers s)) as [|x l] eqn:Hb; intros [= <- <-]; cbn [makes pool gone buffers ch_buf ch_cap ch_closed].
  - rewrite seq_S, Nat.add_0_l, Hp, (comm (++) _ [_]). cbn. unfold alive_buffers. cbn [buffers pool].
    repeat split; try done; [lia|by rewrite Hb; cbn; lia].
  - rewrite Hp. unfold alive_buffers. rewrite Hb. cbn in Hl |- *. repeat split; try done; lia.
Qed.

Lemma turn_inv i s : i < poolSize -> inv s -> inv (turn i s) /\ makes s <= makes (turn i s) <= S (makes s).
Proof.
  intros Hi Hs. unfold turn. destruct (take_buffer s) as [s1 b] eqn:E.
  destruct (take_buffer_inv s s1 b Hs E) as (Hp & Hpool & Hm & Hl & Hc & Ho).
  assert (length (pool s1) = poolSize) as Hlen by (rewrite Hpool; apply Hs).
  assert (i < length (pool s1)) as Hi1 by lia.
  destruct (pool s1 !! i) as [[old|]|] eqn:Hx.
  - unfold ch_try_send. rewrite Ho. destruct (Nat.ltb_spec (length (ch_buf (buffers s1))) (ch_cap (buffers s1))).
    + rewrite list_insert_insert_eq. split; [|done]. split; cbn [makes pool gone buffers ch_buf ch_cap ch_closed];
        rewrite ?length_insert, ?length_app; [|done|cbn; lia].
      rewrite Hp. unfold alive_buffers. cbn [buffers pool ch_buf].
      rewrite slots_insert, (slots_taken _ _ _ Hx) by done. solve_Permutation.
    + split; [|done]. split; cbn [makes pool gone buffers]; rewrite ?length_insert; try done.
      rewrite Hp. unfold alive_buffers. cbn [buffers pool].
      rewrite slots_insert, (slots_taken _ _ _ Hx), (comm (++) (gone s1) [_]) by done.
      solve_Permutation.
  - split; [|done]. split; cbn [makes pool gone buffers]; rewrite ?length_insert; try done.
    rewrite Hp. unfold alive_buffers. cbn [buffers pool]. rewrite slots_insert, (list_insert_id _ _ _ Hx) by done.
    solve_Permutation.
  - apply lookup_ge_None in Hx. lia.
Qed.

(** [gc_good.go] through the turns [is]. *)
Definition turns (is_ : list nat) (s : state) : state := foldl (fun s i => turn i s) s is_.
End GcGood.

Module GcBad.
(** The loop of gc_bad.go between two turns. *)
Record state := State { pool : list (option buffer); makes : nat }.

Definition start : state := State (replicate poolSize None) 0.

Definition turn (i : nat) (s : state) : state := State (<[i := Some (makes s)]> (pool s)) (S (makes s)).

Definition turns (is_ : list nat) (s : state) : state := foldl (fun s i => turn i s) s is_.
End GcBad.

(** ** Properties *)

(** The recycler of mempool.go conserves its buffers.  After any moves of its two
    goroutines and of time: every buffer ever made is in exactly one place (idle in the
    recycler, in a slot of the pool, in the hands of [main], or dropped), so that no
    buffer is handed out while another user has it; at most two are idle and at most 22
    are alive, whatever the random choices; the bytes printed are those of at most 20
    buffers; and the counter [frees] that is printed as well stays 0. *)
Theorem mempool_conserves_buffers (t : Z) (ms : list Mempool.move) (s : Mempool.state)
    (Hs : Mempool.do_moves ms (Mempool.start t) = Some s) :
  seq 0 (Mempool.makes s) ≡ₚ Mempool.alive_buffers s ++ Mempool.gone s /\
  NoDup (Mempool.alive_buffers s ++ Mempool.gone s) /\
  length (Mempool.q s) <= 2 /\ length (Mempool.alive_buffers s) <= 22 /\
  (Mempool.main s = Mempool.Getting ->
   (0 <= pool_bytes (Mempool.lens s) (Mempool.pool s) <= 20 * 9999999)%Z) /\
  Mempool.frees s = 0.
Proof.
  pose proof (Mempool.do_moves_inv ms _ _ (Mempool.start_inv t) Hs) as Hinv.
  pose proof (Mempool.alive_bound s Hinv) as Ha. destruct Hinv as [Hp Hl Hi Hf Hsl Hn Hz H0].
  assert (NoDup (Mempool.alive_buffers s ++ Mempool.gone s)) as Hnd by (rewrite <- Hp; apply NoDup_seq).
  split; [done|]. split; [done|]. split; [by destruct (Mempool.main s); cbn in Hi; lia|].
  split; [done|]. split; [|done]. intros Hm.
  assert (Forall (fun b => b < length (Mempool.lens s)) (slots (Mempool.pool s))) as Hb.
  { apply Forall_forall. intros b Hin. rewrite Hn. apply (elem_of_seq 0 (Mempool.makes s) b).
    rewrite Hp. unfold Mempool.alive_buffers. rewrite Hm. cbn [Mempool.mine]. set_solver. }
  pose proof (pool_bytes_bounds _ _ Hz Hb). pose proof (slots_length (Mempool.pool s)) as Hlen.
  rewrite Hl in Hlen. unfold poolSize in Hlen. lia.
Qed.

(** Mempool.go never stops for good.  From every state it can reach, [main] can
    receive its next buffer within ten moves: the two goroutines, which meet on two
    unbuffered channels, do not wait for each other. *)
Theorem mempool_never_stops (t : Z) (ms : list Mempool.move) (s : Mempool.state)
    (Hs : Mempool.do_moves ms (Mempool.start t) = Some s) :
  match Mempool.main s with
  | Mempool.Holding _ => exists s1, Mempool.do_move (Mempool.Choose 0) s = Some s1 /\ Mempool.next_buffer 9 s1
  | _ => Mempool.next_buffer 9 s
  end.
Proof.
  pose proof (Mempool.do_moves_inv ms _ _ (Mempool.start_inv t) Hs) as Hinv.
  destruct (Mempool.main s) as [|b|b i old|b i|u] eqn:Hm.
  - apply (Mempool.next_buffer_le 3); [lia|by apply Mempool.getting_next].
  - by eapply Mempool.holding_next.
  - by eapply Mempool.giving_next.
  - apply (Mempool.next_buffer_le 6); [lia|by eapply Mempool.storing_next].
  - apply (Mempool.next_buffer_le 5); [lia|by eapply Mempool.sleeping_next].
Qed.

Module DemoRecycler.
Import Mempool.
(** [main] takes a first buffer and stores it; it takes a second one for the same slot. *)
Definition moves : list move :=
  [Fill 7; Select; Get; Choose 3; Store; Fill 0; Select; Tick Second; Wake; Get; Choose 3; Fill 1; Select].
Definition reached : state := Eval vm_compute in default (start 0) (do_moves moves (start 0)).
End DemoRecycler.

Lemma mempool_conserves_buffers_witness :
  Mempool.makes DemoRecycler.reached = 3 /\ Mempool.alive_buffers DemoRecycler.reached = [2; 1; 0] /\
  length (Mempool.q DemoRecycler.reached) <= 2.
Proof.
  split; [reflexivity|]. split; [reflexivity|].
  apply (mempool_conserves_buffers 0 DemoRecycler.moves DemoRecycler.reached). vm_compute. reflexivity.
Defined.

Lemma mempool_never_stops_witness : Mempool.next_buffer 9 DemoRecycler.reached.
Proof.
  apply (mempool_never_stops 0 DemoRecycler.moves DemoRecycler.reached). vm_compute. reflexivity.
Defined.

(** What the two other programs do with the same random choices [js]: a turn of
    gc_good.go makes at most one buffer, a turn of gc_bad.go exactly one; gc_good.go keeps
    every buffer in one place, at most five of them idle and 25 alive. *)
Theorem gc_good_conserves_buffers (js : list nat) (Hjs : Forall (fun i => i < poolSize) js) :
  let s := GcGood.turns js GcGood.start in
  seq 0 (GcGood.makes s) ≡ₚ GcGood.alive_buffers s ++ GcGood.gone s /\
  length (ch_buf (GcGood.buffers s)) <= 5 /\ length (GcGood.alive_buffers s) <= 25 /\
  GcGood.makes s <= GcBad.makes (GcBad.turns js GcBad.start).
Proof.
  intros s. assert (GcGood.inv s /\ GcGood.makes s <= length js /\
                    GcBad.makes (GcBad.turns js GcBad.start) = length js) as ([Hp Hl (Hc & _)] & Hm & ->).
  { unfold s. clear s. induction js as [|i js IH] using rev_ind.
    - split; [|done]. split; [done|done|]. cbn. lia.
    - apply Forall_app in Hjs as [Hjs Hi]. destruct (IH Hjs) as (Hs & Hm & Hb).
      rewrite Forall_singleton in Hi. unfold GcGood.turns, GcBad.turns in *. rewrite !foldl_app, length_app.
      cbn [foldl length GcBad.turn GcBad.makes]. destruct (GcGood.turn_inv i _ Hi Hs) as [Hs' Hm'].
      split; [done|]. lia. }
  pose proof (slots_length (GcGood.pool s)) as Hsl. rewrite Hl in Hsl. unfold poolSize in Hsl.
  unfold GcGood.alive_buffers. rewrite length_app. repeat split; try done; lia.
Qed.
