(* ===== verification/Loadtest.v ===== *)
(** * The load tests (src/cmd/test/loadtest.go, many.go)

    The goroutines of loadtest.go, its wait groups and the channel on which a subscriber
    reports that it missed messages; what the connections do is left to the moves.  The
    message ids and pauses of many.go.  The theorems: loadtest.go never reports a
    failure, since it does not end after one; the ids of many.go are valid. *)

From Stdlib Require Import ZArith Lia.
From stdpp Require Import base list numbers strings.
From S2P Require Import Prelude GoProc.

Local Open Scope list_scope.

Module Loadtest.

(** The goroutine of a pair: in [sub], in [pub], after [wg.Done]. *)
Inductive pair_state := InSub | InPub | PairDone.

(** The goroutine that [sub] starts: not started, in its loop with the variables [count]
    and [ok], sending to [bad], about to call [wg.Done], after it. *)
Inductive reader_state :=
| NoReader
| Reading (count : Z) (ok : bool)
| SendingBad (count : Z)
| BeforeDone (count : Z) (ok : bool)
| ReaderDone (count : Z) (ok : bool).

(** [main]: starting [k] more pairs, in [wg.Wait], in the loop over [bad], after [os.Exit]. *)
Inductive main_state :=
| Spawning (k : nat)
| Waiting
| Draining (rc : Z)
| Exited (rc : Z).

Record state := State {
  wg : Z;
  pairs : list (pair_state * reader_state);
  main : main_state
}.

Inductive move :=
| SpawnPair
| AllStarted
| Subscribed (i : nat)
| SubFailed (i : nat)
| Published (i : nat)
| Received (i : nat)
| Closed (i : nat)
| Done (i : nat)
| AllFinished
| TakeBad (i : nat)
| NothingBad.

Definition set_main (m : main_state) (s : state) : state := State (wg s) (pairs s) m.
Definition set_pair (i : nat) (x : pair_state * reader_state) (s : state) : state :=
  State (wg s) (<[i := x]> (pairs s)) (main s).
Definition add_wg (d : Z) (s : state) : state := State (wg s + d) (pairs s) (main s).

Definition sends_bad (x : pair_state * reader_state) : bool :=
  match x.2 with SendingBad _ => true | _ => false end.

Section Moves.
Context (messages : Z).

(** A turn of the loop over [cc.Incoming]. *)
Definition receive (count : Z) (ok : bool) : reader_state :=
  let count := (count + 1)%Z in
  Reading count ((count =? messages)%Z || ok).

(** The end of that loop, when [cc.Incoming] was closed. *)
Definition after_loop (count : Z) (ok : bool) : reader_state :=
  if negb ok then SendingBad count else BeforeDone count ok.

Definition do_move (m : move) (s : state) : option state :=
  match m with
  | SpawnPair =>
      match main s with
      | Spawning (S k) => Some (State (wg s + 2) (pairs s ++ [(InSub, NoReader)]) (Spawning k))
      | _ => None
      end
  | AllStarted => match main s with Spawning 0 => Some (set_main Waiting s) | _ => None end
  | Subscribed i =>
      match pairs s !! i with
      | Some (InSub, NoReader) => Some (set_pair i (InPub, Reading 0 false) s)
      | _ => None
      end
  | SubFailed i =>
      match pairs s !! i with
      | Some (InSub, NoReader) => Some (set_pair i (InPub, NoReader) s)
      | _ => None
      end
  | Published i =>
      match pairs s !! i with
      | Some (InPub, r) => Some (add_wg (-1) (set_pair i (PairDone, r) s))
      | _ => None
      end
  | Received i =>
      match pairs s !! i with
      | Some (p, Reading count ok) =>
          Some (set_pair i (p, receive count ok) s)
      | _ => None
      end
  | Closed i =>
      match pairs s !! i with
      | Some (p, Reading count ok) =>
          Some (set_pair i (p, after_loop count ok) s)
      | _ => None
      end
  | Done i =>
      match pairs s !! i with
      | Some (p, BeforeDone count ok) => Some (add_wg (-1) (set_pair i (p, ReaderDone count ok) s))
      | _ => None
      end
  | AllFinished =>
      match main s with
      | Waiting => if (wg s =? 0)%Z then Some (set_main (Draining 0) s) else None
      | _ => None
      end
  | TakeBad i =>
      match main s, pairs s !! i with
      | Draining _, Some (p, SendingBad count) =>
          Some (set_main (Draining 1) (set_pair i (p, BeforeDone count false) s))
      | _, _ => None
      end
  | NothingBad =>
      match main s with
      | Draining rc => if existsb sends_bad (pairs s) then None else Some (set_main (Exited rc) s)
      | _ => None
      end
  end.

Fixpoint do_moves (ms : list move) (s : state) : option state :=
  match ms with
  | [] => Some s
  | m :: ms' => match do_move m s with Some s' => do_moves ms' s' | None => None end
  end.

(** [main] with the flag [conns]. *)
Definition start (conns : Z) : state := State 0 [] (Spawning (Z.to_nat (Z.quot conns 2))).

(** ** What the wait group counts *)

Definition owes (x : pair_state * reader_state) : Z :=
  (match x.1 with PairDone => 0 | _ => 1 end + match x.2 with ReaderDone _ _ => 0 | _ => 1 end)%Z.

Definition owed (l : list (pair_state * reader_state)) : Z := foldr (fun x n => (owes x + n)%Z) 0%Z l.

Lemma owes_nonneg x : (0 <= owes x)%Z.
Proof. by destruct x as [[] []]. Qed.

Lemma owed_app l l' : owed (l ++ l') = (owed l + owed l')%Z.
Proof. induction l as [|x l IH]; cbn; [done|]. unfold owed in *. lia. Qed.

Lemma owed_insert l i x y : l !! i = Some x -> owed (<[i := y]> l) = (owed l - owes x + owes y)%Z.
Proof.
  revert i. induction l as [|z l IH]; intros [|i] Hi; simplify_eq/=; unfold owed in *; [lia|].
  rewrite (IH i Hi). lia.
Qed.

Lemma owed_nonneg l : (0 <= owed l)%Z.
Proof. induction l as [|x l IH]; cbn; [done|]. pose proof (owes_nonneg x). unfold owed in *. lia. Qed.

Lemma owed_zero l x : owed l = 0%Z -> x ∈ l -> owes x = 0%Z.
Proof.
  intros H0 Hx. induction Hx as [x l|x y l Hx IH]; cbn in H0; fold (owed l) in H0.
  - pose proof (owed_nonneg l). pose proof (owes_nonneg x). lia.
  - apply IH. pose proof (owed_nonneg l). pose proof (owes_nonneg y). lia.
Qed.

(** A subscriber whose [ok] is set has received all messages. *)
Definition honest (x : pair_state * reader_state) : Prop :=
  match x.2 with
  | NoReader => True
  | Reading count ok => (0 <= count)%Z /\ (ok = true -> (0 < messages <= count)%Z)
  | SendingBad _ => True
  | BeforeDone count ok | ReaderDone count ok => ok = true /\ (0 < messages <= count)%Z
  end.

Record inv (s : state) : Prop := {
  inv_wg : wg s = owed (pairs s);
  inv_honest : Forall honest (pairs s);
  inv_main : match main s with
             | Draining rc | Exited rc => rc = 0%Z /\ owed (pairs s) = 0%Z
             | _ => True
             end
}.

(** A move of pair [i], which then owed something: [main] is not past [wg.Wait]. *)
Lemma set_pair_inv i x y d s :
  inv s -> pairs s !! i = Some x -> (0 < owes x)%Z -> honest y -> (d = owes y - owes x)%Z ->
  inv (add_wg d (set_pair i y s)).
Proof.
  intros [Hw Hh Hm] Hi Hx Hy ->. split; cbn [wg pairs main add_wg set_pair].
  - rewrite (owed_insert _ _ _ y Hi), Hw. lia.
  - by apply Forall_insert.
  - assert (owed (pairs s) <> 0%Z) as Hne.
    { intros H0. pose proof (owed_zero _ x H0 ltac:(by eapply list_elem_of_lookup_2)). lia. }
    destruct (main s); tauto.
Qed.

Lemma add_wg_0 s : add_wg 0 s = s.
Proof. destruct s. unfold add_wg. cbn. by rewrite Z.add_0_r. Qed.

Lemma honest_at s i x : inv s -> pairs s !! i = Some x -> honest x.
Proof. intros [_ Hh _] Hi. by eapply Forall_lookup_1. Qed.

Ltac pair_move Hs x :=
  intros [= <-]; match goal with |- inv ?t => rewrite <- (add_wg_0 t) end;
  apply (set_pair_inv _ x); [exact Hs|assumption|try done| |try done].

Lemma move_keeps_inv m s s' : inv s -> do_move m s = Some s' -> inv s'.
Proof.
  intros Hs. destruct m as [| |i|i|i|i|i|i| |i|]; cbn [do_move].
  - destruct Hs as [Hw Hh Hm]. destruct (main s) as [[|k]| | |]; try done. intros [= <-].
    split; cbn [wg pairs main]; [|by apply Forall_app; split; [|by constructor]|done].
    rewrite owed_app, Hw. done.
  - destruct Hs as [Hw Hh Hm]. destruct (main s) as [[|k]| | |]; try done. intros [= <-]. by split.
  - destruct (pairs s !! i) as [[[] []]|] eqn:Hi; try done. pair_move Hs (InSub, NoReader). by split.
  - destruct (pairs s !! i) as [[[] []]|] eqn:Hi; try done. by pair_move Hs (InSub, NoReader).
  - destruct (pairs s !! i) as [[[] r]|] eqn:Hi; try done. pose proof (honest_at _ _ _ Hs Hi) as Hx.
    intros [= <-]. apply (set_pair_inv _ (InPub, r)); [done|done|by destruct r|done|by destruct r].
  - destruct (pairs s !! i) as [[p []]|] eqn:Hi; try done. pose proof (honest_at _ _ _ Hs Hi) as [Hc Hok].
    pair_move Hs (p, Reading count ok); [by destruct p| |by destruct p]. cbn. split; [lia|].
    intros [He|Ho]%orb_prop; [apply Z.eqb_eq in He|apply Hok in Ho]; lia.
  - destruct (pairs s !! i) as [[p []]|] eqn:Hi; try done. pose proof (honest_at _ _ _ Hs Hi) as [Hc Hok].
    pair_move Hs (p, Reading count ok); [by destruct p| |by destruct p, ok].
    destruct ok; [|done]. cbn. split; [done|by apply Hok].
  - destruct (pairs s !! i) as [[p []]|] eqn:Hi; try done. pose proof (honest_at _ _ _ Hs Hi) as Hx.
    intros [= <-]. apply (set_pair_inv _ (p, BeforeDone count ok)); [done|done|by destruct p|done|by destruct p].
  - destruct Hs as [Hw Hh Hm]. destruct (main s); try done. destruct (Z.eqb_spec (wg s) 0); [|done].
    intros [= <-]. split; cbn [wg pairs main set_main]; [done|done|]. split; [done|congruence].
  - destruct (main s) eqn:Hm; try done. destruct (pairs s !! i) as [[p []]|] eqn:Hi; try done.
    pose proof (inv_main _ Hs) as Hd. rewrite Hm in Hd. destruct Hd as [_ H0].
    pose proof (owed_zero _ _ H0 (list_elem_of_lookup_2 _ _ _ Hi)) as Hx. by destruct p.
  - destruct Hs as [Hw Hh Hm]. destruct (main s); try done. destruct (existsb _ _); [done|].
    intros [= <-]. by split.
Qed.

Lemma moves_keep_inv ms s s' : inv s -> do_moves ms s = Some s' -> inv s'.
Proof.
  revert s. induction ms as [|m ms IH]; cbn; intros s Hs E; [by simplify_eq|].
  destruct (do_move m s) as [s1|] eqn:E1; [|done]. apply (IH s1); [by eapply move_keeps_inv|done].
Qed.

Lemma start_has_inv conns : inv (start conns).
Proof. by split. Qed.

(** A pair that cannot settle: its subscriber never started, or missed messages. *)
Definition failed (x : pair_state * reader_state) : bool :=
  match x with
  | (InPub, NoReader) | (PairDone, NoReader) => true
  | (_, SendingBad _) => true
  | _ => false
  end.

Lemma failed_owes x : failed x = true -> (0 < owes x)%Z.
Proof. by destruct x as [[] []]. Qed.

(** The reader of a failed pair makes no move while [main] waits. *)
Lemma failed_stays m i x s s' :
  inv s -> do_move m s = Some s' -> pairs s !! i = Some x -> failed x = true ->
  exists y, pairs s' !! i = Some y /\ failed y = true.
Proof.
  intros Hs E Hi Hf.
  assert (forall j y z, pairs s !! j = Some y -> (failed y = true -> failed z = true) ->
            exists w, <[j := z]> (pairs s) !! i = Some w /\ failed w = true) as Hins.
  { intros j y z Hj Hz. destruct (decide (j = i)) as [->|Hne].
    - exists z. split; [apply list_lookup_insert_eq; by eapply lookup_lt_Some|]. apply Hz. congruence.
    - exists x. by rewrite list_lookup_insert_ne. }
  destruct m as [| |j|j|j|j|j|j| |j|]; cbn [do_move] in E.
  - destruct (main s) as [[|k]| | |]; simplify_eq. exists x. split; [by apply lookup_app_l_Some|done].
  - destruct (main s) as [[|k]| | |]; simplify_eq. by exists x.
  - destruct (pairs s !! j) as [[[] []]|] eqn:Hj; simplify_eq. by eapply Hins.
  - destruct (pairs s !! j) as [[[] []]|] eqn:Hj; simplify_eq. by eapply Hins.
  - destruct (pairs s !! j) as [[[] r]|] eqn:Hj; simplify_eq. eapply Hins; [done|]. by destruct r.
  - destruct (pairs s !! j) as [[p []]|] eqn:Hj; simplify_eq. eapply Hins; [done|]. by destruct p.
  - destruct (pairs s !! j) as [[p []]|] eqn:Hj; simplify_eq. eapply Hins; [done|]. by destruct p, ok.
  - destruct (pairs s !! j) as [[p []]|] eqn:Hj; simplify_eq. eapply Hins; [done|]. by destruct p.
  - destruct (main s); try done. destruct (wg s =? 0)%Z; simplify_eq. by exists x.
  - destruct (main s) eqn:Hm; try done. pose proof (inv_main _ Hs) as Hd. rewrite Hm in Hd.
    destruct Hd as [_ H0]. pose proof (owed_zero _ x H0 (list_elem_of_lookup_2 _ _ _ Hi)).
    pose proof (failed_owes x Hf). lia.
  - destruct (main s); try done. destruct (existsb _ _); simplify_eq. by exists x.
Qed.
End Moves.
End Loadtest.

Module Many.
(** The id of the next publication of [client]: the reset before the increment. *)
Definition next_id (msgId : Z) : Z :=
  let msgId := if (msgId =? 65535)%Z then 1%Z else msgId in
  ((msgId + 1) mod 65536)%Z.

(** The [n]-th id, the first being 1. *)
Definition nth_id (n : nat) : Z := Nat.iter n next_id 1%Z.

(** [half] and the pause in seconds, [r] the number that [rand.Int31n(half)] draws; it
    panics when [half] is not positive. *)
Definition int32 (z : Z) : Z := ((z + 2 ^ 31) mod 2 ^ 32 - 2 ^ 31)%Z.
Definition half (pace : Z) : Z := int32 (Z.quot pace 2).
Definition pause (pace r : Z) : Z + panic :=
  if (half pace <=? 0)%Z then inr (UserPanic "invalid argument to Int31n"%string)
  else inl (int32 (r - Z.quot (half pace) 2 + int32 pace)).

Lemma int32_id z : (- 2 ^ 31 <= z < 2 ^ 31)%Z -> int32 z = z.
Proof. intros Hz. unfold int32. rewrite Z.mod_small; lia. Qed.

Lemma next_id_range id : (1 <= id <= 65535)%Z -> (2 <= next_id id <= 65535)%Z.
Proof.
  intros Hid. unfold next_id. destruct (Z.eqb_spec id 65535); [done|].
  rewrite Z.mod_small by lia. lia.
Qed.

Lemma nth_id_range n : (1 <= nth_id n <= 65535)%Z /\ (n <> 0 -> nth_id n <> 1%Z).
Proof.
  induction n as [|n [IH _]]; [done|]. change (nth_id (S n)) with (next_id (nth_id n)).
  pose proof (next_id_range _ IH). lia.
Qed.
End Many.

(** ** Properties *)

(** Loadtest.go never reports a failure.  When it has exited, its status is 0, and
    every subscriber has received all the messages.  Once a subscriber could not connect,
    or its connection ended before it had received them, the program never exits: the
    channel on which it would report is read only after every goroutine has finished, and
    the subscriber finishes only when it was read. *)
Theorem loadtest_never_reports_failure (messages conns : Z) (ms : list Loadtest.move) (s : Loadtest.state)
    (Hs : Loadtest.do_moves messages ms (Loadtest.start conns) = Some s) :
  (forall rc, Loadtest.main s = Loadtest.Exited rc -> rc = 0%Z /\
     Forall (fun x => exists count, x = (Loadtest.PairDone, Loadtest.ReaderDone count true) /\
                      (0 < messages <= count)%Z) (Loadtest.pairs s)) /\
  (forall i x ms' s' rc, Loadtest.pairs s !! i = Some x -> Loadtest.failed x = true ->
     Loadtest.do_moves messages ms' s = Some s' -> Loadtest.main s' <> Loadtest.Exited rc).
Proof.
  pose proof (Loadtest.moves_keep_inv messages ms _ _ (Loadtest.start_has_inv messages conns) Hs) as Hinv.
  split.
  - intros rc Hm. pose proof (Loadtest.inv_main _ _ Hinv) as Hx. rewrite Hm in Hx. destruct Hx as [-> H0].
    split; [done|]. apply Forall_forall. intros x Hx. pose proof (Loadtest.owed_zero _ x H0 Hx) as Ho.
    pose proof (Loadtest.inv_honest _ _ Hinv) as Hh. rewrite Forall_forall in Hh. specialize (Hh x Hx).
    destruct x as [[] [| | | |count ok]]; try done. destruct Hh as [Hok Hc]. cbn in Hok. subst ok. by exists count.
  - intros i x ms' s' rc Hi Hf E. clear Hs. revert s x Hinv Hi Hf E.
    induction ms' as [|m ms' IH]; cbn; intros s x Hinv Hi Hf E.
    + simplify_eq. intros Hm. pose proof (Loadtest.inv_main _ _ Hinv) as Hx. rewrite Hm in Hx.
      destruct Hx as [_ H0]. pose proof (Loadtest.owed_zero _ x H0 (list_elem_of_lookup_2 _ _ _ Hi)).
      pose proof (Loadtest.failed_owes x Hf). lia.
    + destruct (Loadtest.do_move messages m s) as [s1|] eqn:E1; [|done].
      destruct (Loadtest.failed_stays messages m i x s s1 Hinv E1 Hi Hf) as (y & Hy & Hfy).
      apply (IH s1 y); [by eapply Loadtest.move_keeps_inv|done..].
Qed.

Module DemoLoadtest.
Import Loadtest.
(** Two pairs of one message: both subscribers receive it, and the program exits. *)
Definition good : list move :=
  [SpawnPair; SpawnPair; AllStarted; Subscribed 0; Subscribed 1; Received 1; Published 1; Closed 1;
   Done 1; Published 0; Received 0; Closed 0; Done 0; AllFinished; NothingBad].
(** The connection of one subscriber ends first. *)
Definition missed : list move := [SpawnPair; SpawnPair; AllStarted; Subscribed 0; Closed 0].
Definition after (ms : list move) : state := default (start 4) (do_moves 1 ms (start 4)).
End DemoLoadtest.

Lemma loadtest_never_reports_failure_witness :
  Loadtest.main (DemoLoadtest.after DemoLoadtest.good) = Loadtest.Exited 0 /\
  Forall (fun x => exists count, x = (Loadtest.PairDone, Loadtest.ReaderDone count true) /\ (0 < 1 <= count)%Z)
    (Loadtest.pairs (DemoLoadtest.after DemoLoadtest.good)) /\
  (forall ms' s' rc, Loadtest.do_moves 1 ms' (DemoLoadtest.after DemoLoadtest.missed) = Some s' ->
     Loadtest.main s' <> Loadtest.Exited rc).
Proof.
  split; [reflexivity|]. split.
  - destruct (loadtest_never_reports_failure 1 4 DemoLoadtest.good (DemoLoadtest.after DemoLoadtest.good))
      as [He _]; [vm_compute; reflexivity|]. apply (He 0%Z). reflexivity.
  - intros ms' s' rc.
    destruct (loadtest_never_reports_failure 1 4 DemoLoadtest.missed (DemoLoadtest.after DemoLoadtest.missed))
      as [_ Hf]; [vm_compute; reflexivity|].
    apply (Hf 0 (Loadtest.InPub, Loadtest.SendingBad 0)); reflexivity.
Defined.

(** The message ids of many.go are never 0, the id that MQTT reserves, and 1 is used only
    once: after 65535 comes 2.  With a pace of two seconds or more its pauses are positive;
    with a smaller one the program panics after its first publication. *)
Theorem many_ids_and_pauses (n : nat) (pace r : Z) (Hpace : (- 2 ^ 30 <= pace < 2 ^ 30)%Z)
    (Hr : (0 <= r < Z.max 1 (Many.half pace))%Z) :
  (1 <= Many.nth_id n <= 65535)%Z /\ (n <> 0 -> Many.nth_id n <> 1%Z) /\ Many.next_id 65535 = 2%Z /\
  match Many.pause pace r with
  | inl t => (2 <= pace /\ 0 < t)%Z
  | inr _ => (pace < 2)%Z
  end.
Proof.
  destruct (Many.nth_id_range n) as [Hid H1]. split; [done|]. split; [done|]. split; [done|].
  assert (Many.half pace = Z.quot pace 2 /\ Many.int32 pace = pace) as [Hh Hp].
  { pose proof (Z.quot_le_mono (- 2 ^ 30) pace 2 ltac:(lia) ltac:(lia)) as Hlo.
    pose proof (Z.quot_le_mono pace (2 ^ 30) 2 ltac:(lia) ltac:(lia)) as Hhi.
    change (Z.quot (- 2 ^ 30) 2) with (- 2 ^ 29)%Z in Hlo. change (Z.quot (2 ^ 30) 2) with (2 ^ 29)%Z in Hhi.
    unfold Many.half. rewrite !Many.int32_id by lia. done. }
  unfold Many.pause. rewrite Hh, Hp in *. destruct (Z.leb_spec (Z.quot pace 2) 0) as [Hle|Hgt].
  - destruct (Z.lt_ge_cases pace 2) as [|Hge]; [done|].
    pose proof (Z.quot_le_mono 2 pace 2 ltac:(lia) Hge) as Hq. change (Z.quot 2 2) with 1%Z in Hq. lia.
  - assert (0 < pace)%Z as Hpos.
    { destruct (Z.le_gt_cases pace 0) as [Hn|]; [|done].
      pose proof (Z.quot_le_mono pace 0 2 ltac:(lia) Hn) as Hq. change (Z.quot 0 2) with 0%Z in Hq. lia. }
    rewrite (Z.quot_div_nonneg pace 2) in * by lia. rewrite Z.quot_div_nonneg by lia.
    pose proof (Z.div_mod pace 2 ltac:(lia)). pose proof (Z.mod_pos_bound pace 2 ltac:(lia)).
    pose proof (Z.div_mod (pace / 2) 2 ltac:(lia)). pose proof (Z.mod_pos_bound (pace / 2) 2 ltac:(lia)).
    rewrite Many.int32_id by lia. lia.
Qed.
