(* ===== verification/Feeder.v ===== *)
(** * The feeder (src/cmd/feeder/main.go)

    A program on a third-party MQTT client: the client is the class [Paho], the
    answers it gives to each call, as a function of the calls made so far. *)

From Stdlib Require Import ZArith Lia.
From stdpp Require Import base list strings numbers.
From S2P Require Import Prelude GoString GoProc.

Local Open Scope string_scope.
Local Open Scope list_scope.

(** The calls of the program on the client. *)
Inductive paho_call :=
| NewClient (broker clientId : string)
| Start
| StartSubscription (filter : string) (qos : N)
| PahoPublish (qos : N) (topic payload : string)
| EndSubscription (topic : string)
| PahoDisconnect (quiesce : N).

(** The error of the last call, and whether a value is received from the receipt it
    returned. *)
Class Paho := {
  paho_error : list paho_call -> option string;
  paho_receipt : list paho_call -> bool
}.

Record feeder := Feeder {
  fd_calls : list paho_call;     (* oldest first *)
  fd_stdout : list string;
  fd_slept : Z                   (* seconds *)
}.

Section Feeder.
Context `{Paho}.
Implicit Types s : feeder.

Definition topic : string := "/go-mqtt/sample".
Definition QOS_ONE : N := 1.

(** A call that returns an error or nil. *)
Definition call (c : paho_call) : proc feeder (option string) :=
  atomic (fun s =>
    let calls := fd_calls s ++ [c] in Done (Feeder calls (fd_stdout s) (fd_slept s)) (paho_error calls)).

(** [<-receipt] of the last call *)
Definition receive_receipt : proc feeder unit :=
  atomic (fun s => if paho_receipt (fd_calls s) then Done s tt else Blocked).

Definition Println (line : string) : proc feeder unit :=
  modify (fun s => Feeder (fd_calls s) (fd_stdout s ++ [line]) (fd_slept s)).
Definition Sleep (sec : Z) : proc feeder unit :=
  modify (fun s => Feeder (fd_calls s) (fd_stdout s) (fd_slept s + sec)%Z).

(** The handler [f] of the publications that arrive. *)
Definition f (msg_topic payload : string) : proc feeder unit :=
  Println ("TOPIC: " +:+ msg_topic);;; Println ("MSG: " +:+ payload).

Definition text (i : nat) : string := "this is msg #" +:+ Itoa (N.of_nat i) +:+ "!".

(** [main]: the result is the exit status. *)
Definition main : proc feeder nat :=
  call (NewClient "tcp://localhost:1883" "trivial");;;
  err <- call Start;;
  match err with
  | Some e => panics (UserPanic e)
  | None =>
      err <- call (StartSubscription topic 0);;
      match err with
      | Some e => Println e;;; Ret 1
      | None =>
          receive_receipt;;;
          for_range 5 0 (fun i => call (PahoPublish QOS_ONE topic (text i));;; receive_receipt);;;
          Sleep 3;;;
          err <- call (EndSubscription topic);;
          match err with
          | Some e => Println e;;; Ret 1
          | None => receive_receipt;;; call (PahoDisconnect 250);;; Ret 0
          end
      end
  end.

(** ** Lemmas *)

(** The state after some calls. *)
Definition made (calls : list paho_call) s : feeder := Feeder calls (fd_stdout s) (fd_slept s).
Definition rested (sec : Z) s : feeder := Feeder (fd_calls s) (fd_stdout s) (fd_slept s + sec)%Z.

Lemma exec_call c l s : exec (call c) (made l s) = Returned (made (l ++ [c]) s) (paho_error (l ++ [c])).
Proof. done. Qed.

Lemma exec_receipt_ok l s : paho_receipt l = true -> exec receive_receipt (made l s) = Returned (made l s) tt.
Proof. intros Hr. unfold receive_receipt. rewrite exec_atomic. cbn. by rewrite Hr. Qed.

Lemma exec_Sleep sec l s : exec (Sleep sec) (made l s) = Returned (made l (rested sec s)) tt.
Proof. done. Qed.

Definition publishes (i n : nat) : list paho_call := (fun j => PahoPublish QOS_ONE topic (text j)) <$> seq i n.

(** The publications, each after the receipt of the one before. *)
Lemma exec_publishes n i l s :
  (forall m, m < n -> paho_receipt (l ++ publishes i (S m)) = true) ->
  exec (for_range n i (fun i => call (PahoPublish QOS_ONE topic (text i));;; receive_receipt)) (made l s) =
  Returned (made (l ++ publishes i n) s) tt.
Proof.
  revert i l. induction n as [|n IH]; intros i l Hr; cbn [for_range].
  - cbn. by rewrite app_nil_r.
  - rewrite exec_bind, exec_bind, exec_call, exec_receipt_ok by (apply (Hr 0); lia). rewrite IH.
    + by rewrite <- (assoc_L app).
    + intros m Hm. rewrite <- (assoc_L app). apply (Hr (S m)). lia.
Qed.

Definition opening : list paho_call :=
  [NewClient "tcp://localhost:1883" "trivial"; Start; StartSubscription topic 0].

(** What the feeder does.  A client that does not start takes the program down; a
    subscription that fails ends it with status 1 before anything is published; with
    all receipts it publishes its five texts, in order and each after the receipt of
    the one before, waits three seconds, unsubscribes and disconnects with status 0;
    when the unsubscription fails it ends with status 1 and does not disconnect. *)
Theorem feeder_runs s (Hs : fd_calls s = []) :
  (forall e, paho_error (take 2 opening) = Some e ->
     exists s', exec main s = Crashed s' (UserPanic e)) /\
  (paho_error (take 2 opening) = None ->
   (forall e, paho_error opening = Some e ->
      exists s', exec main s = Returned s' 1 /\ fd_calls s' = opening /\ fd_stdout s' = fd_stdout s ++ [e]) /\
   (paho_error opening = None ->
    (forall m, m <= 5 -> paho_receipt (opening ++ publishes 0 m) = true) ->
    let l := opening ++ publishes 0 5 ++ [EndSubscription topic] in
    (forall e, paho_error l = Some e -> exists s', exec main s = Returned s' 1 /\ fd_calls s' = l) /\
    (paho_error l = None -> paho_receipt l = true ->
     exists s', exec main s = Returned s' 0 /\ fd_calls s' = l ++ [PahoDisconnect 250] /\
       fd_slept s' = (fd_slept s + 3)%Z /\ fd_stdout s' = fd_stdout s))).
Proof.
  assert (s = made [] s) as -> by (destruct s; cbn in Hs; by subst).
  unfold main. rewrite exec_bind, exec_call, exec_bind, exec_call. cbn [app].
  change [NewClient _ _; Start] with (take 2 opening). split.
  { intros e ->. by eexists. }
  intros ->. rewrite exec_bind, exec_call. change (take 2 opening ++ _) with opening. split.
  { intros e ->. by eexists. }
  intros -> Hr. set (l := opening ++ publishes 0 5 ++ [EndSubscription topic]).
  rewrite exec_bind, exec_receipt_ok by (apply (Hr 0); lia).
  rewrite exec_bind, exec_publishes by (intros m Hm; apply Hr; lia).
  rewrite exec_bind, exec_Sleep, exec_bind, exec_call. rewrite <- (assoc_L app). fold l. split.
  { intros e ->. by eexists. }
  intros -> Hl. rewrite exec_bind, exec_receipt_ok by done. rewrite exec_bind, exec_call. by eexists.
Qed.
End Feeder.
